(* ===== verification/_CoqProject ===== *)
-Q . S2P
Prelude.v
GoStrings.v
GoErrors.v
Runtime.v
Replay.v
GoPath.v
GoURL.v
GoTime.v
GoTabwriter.v
GoFlag.v
DriverConfig.v
Metadata.v
Log.v
EvsClient.v
EvsTransport.v
EvsSDK.v
EvsVolume.v
EvsListing.v
EvsAttachment.v
EvsBounds.v
EvsContract.v
AsyncCloud.v
CloudBench.v
Mount.v
MountSpec.v
MountTest.v
Csi.v
Controller.v
ControllerSpec.v
ControllerCloud.v
VolumeLife.v
System.v
Node.v
NodeSpec.v
NodeTable.v
Identity.v
Startup.v
Process.v
Reclaim.v
Catalogue.v
Settings.v
Outcome.v
ReportMask.v
Report.v
Evidence.v
Outputs.v
Harness.v
