(* ===== verification/Prelude.v ===== *)
(** * T Cloud Public CSI driver: a verification library

    The driver (src/) serves the three CSI services over gRPC. As a controller it creates,
    deletes, attaches and detaches volumes of an Elastic Volume Service; as a node it
    formats and mounts the devices of attached volumes. The repository also holds a live
    proof asset (src/test/e2e), whose bookkeeping decides what a run against the real
    cloud may claim and which volumes it deletes. This library translates both into Rocq
    definitions and proves what makes them correct.

    ** How a program is represented

    An operation of the driver is a function of the monad [M] of Runtime: it takes a
    [World], which is a clock in nanoseconds, a state [env] of whatever is outside the
    driver, and a trace of the calls made to it, and yields an answer and the next world.
    [None] is a loop that never ends or a panic; that it does not occur is part of every
    theorem on a run: [runs m w Q] says that [m] returns from [w] and that its answer and
    the events it left satisfy [Q]. Proofs use the weakest precondition [wp] of Runtime
    and its rules. Go's errors are trees (GoErrors) searched as errors.Is and errors.As
    do; [result] is Go's pair of a value and an error. A context is a deadline and an
    instant of cancellation, so that every way in which a caller may cancel is covered by
    quantifying over the context. Where a select has two cases ready, an arbitrary
    [Scheduler] chooses; serve's two are the relation [selects] of Startup. Loops that wait are given fuel, and a theorem shows it enough.

    Code outside src/ is a class, whose instances are arbitrary in the theorems:
    [CloudSDK] (the SDK and the cloud), [ProviderSDK] and [ServiceSDK] (its construction),
    [HTTP] (net/http's transports), [CloudURLs] (net/url), [MetadataHTTP] (the metadata
    service and the JSON decoder), [Host] (the kernel, the commands and mount-utils),
    [Sockets] (the endpoint's file system and listener), [SlogHandler] (package slog's
    handlers), [OutputHost] (files of the report), [ChildProcess] (os/exec). Packages
    strings, path/filepath, time, flag, strconv, text/tabwriter and errors are translated
    as far as the source calls them.

    ** The files

    Foundations.
    - Prelude: notations, tactics, lemmas on lists, options and booleans.
    - GoStrings, GoErrors, GoPath, GoURL, GoTime, GoTabwriter, GoFlag: Go's packages.
    - Runtime: worlds, the monad, contexts, tickers, [wp] and its rules: polling loops end
      with their context, and settle when their body does.
    - Replay: runs as replays of their events on an abstract state; properties of all
      events of a run.

    The EVS client (internal/evs).
    - EvsClient: client.go, the classification and sanitizing of errors.
    - EvsTransport: transport.go, the layers around net/http, and the redirect policy.
    - EvsSDK: the SDK's operations, each of which leaves an [Event].
    - EvsVolume and EvsListing: volume.go; creation with job polling, deletion with the
      wait for absence; the page walk and the choice of a volume to adopt.
    - EvsAttachment: attachment.go, with the attach and detach protocols as a step relation.
    - EvsBounds: the contexts of all requests. EvsContract: the classes of all errors.
    - AsyncCloud: a cloud that accepts requests and carries them out later, and what the
      client's operations achieve on it; CloudBench: such a cloud that can be run.

    The host (internal/mount).
    - Mount: mount.go. MountSpec: its rules and guarantees, with [remount_options] against
      a description of what may be restated, and the options mount reads. MountTest: mounttest.go.

    The services (internal/driver).
    - Csi: messages, gRPC statuses, machine integers, the shared capability check.
    - Controller: controller.go against the interface [EVSClient]; ControllerSpec: the laws
      [EVSClientLaws] of the interface, the EVS client as their instance, the handlers
      proved against them; ControllerCloud: the handlers over the EVS client, request by
      request; VolumeLife: a volume from its creation to its deletion, on an asynchronous
      cloud; System: any number of calls served at once.
    - Node: node.go against the interface [Mounter]; NodeSpec: the handlers over any
      mounter that returns, and over the Linux mounter; NodeTable: the handlers as
      operations on the mount table of a host with the laws [LawfulHost].
    - Identity: identity.go.

    The process.
    - DriverConfig and Metadata: internal/config. Log: internal/log/logger.go.
    - Startup: registration, endpoint, shutdown and the logging interceptor of
      cmd/t-cloud-csi-driver. Process: main, run and internal/version.

    The live proof asset (test/e2e).
    - Reclaim, Catalogue, Outcome, Settings: the packages of the same names (catalogue.go
      and outcome.go are one package). ReportMask, Report, Evidence, Outputs: package
      report. Harness: process.go and service_client.go.

    Files require the files above them, and clients are proved against interfaces: the
    controller's statuses against [EVSClientLaws], the node's against [MounterReturns],
    the node's table against [LawfulHost], the configuration against any metadata client.

    ** What the theorems show

    - No data is lost. A volume is deleted only right after it was read as owned by the
      driver (EvsVolume.DeleteVolume_guarded), at whatever moment other calls and other
      users act (System.delete_only_owned); mkfs runs only on the identified, blank device
      of a writable volume (MountSpec.FormatAndMount_guarded,
      NodeSpec.NodeStageVolume_verified, MountSpec.DiscoverDevice_agrees); a path is
      removed only after it was seen unmounted (NodeSpec.teardown_safe); the asset deletes
      only what its run left (Reclaim.cleanup_exact).
    - No effect happens twice. Each call sends at most one request that changes the cloud
      (CreateVolume_adopts_or_creates, CreateVolume_tagged, AttachVolume_once,
      DetachVolume_once), which follows that call's own reads in every interleaving
      (System.interleaved_requests); a creation tried again finds its volume
      (ControllerCloud.CreateVolume_retry).
    - Contracts. AttachVolume implements the attach protocol (AttachVolume_refines), the
      node calls the operations of the mount table (NodeTable.node_serve_refines), so that
      a volume's life on a node leaves no mount behind (NodeTable.volume_lifecycle); a
      read-only publication is read-only unless a mount flag holds the word rw
      (NodeSpec.publish_readonly); listing is complete, the choice among candidates least
      (ListVolumes_complete, DiscoverVolume_least); what the controller publishes the node accepts
      (ControllerPublishVolume_device); success of DeleteVolume means absence
      (DeleteVolume_absent).
    - The calls do succeed: on a cloud that carries out what it accepts, a volume can be
      created, published, unpublished and deleted, within a bound, and leaves nothing
      behind in the cloud (VolumeLife.volume_life_ends).
    - Errors. Every error of either service is a definite gRPC status (serve_proper,
      node_serve_proper), every error of the client in one class (classifyError_class).
    - Bounds. Sizes are computed without overflow (resolveSizeGiB_least,
      adopted_volume_fits), every request ends within ten minutes (operations_bounded), the
      metadata is fetched within thirty seconds (fetch_bounded), redirects stay on the
      origin (redirects_same_origin), shutdown ends, by a hard stop exactly on a second
      signal or after fifteen seconds (serve_bounded, process_exits).
    - Secrets. No configured credential that can be masked is in a returned error, no
      sensitive attribute or credential value reaches a log handler, and no credential of a run its report
      (sanitizeError_no_secret, maskKeyValues_masks, logger_clean, staged_no_secret).
    - Configuration and verdicts. Accepted configurations are complete (Load_ready), the
      endpoint is opened last and without removing anything but a stale socket
      (process_exits, listen_safe), a strict success hides no failure
      (strict_verdict_sound).

    ** Bounds and fuel

    [poll_fuel] is 602 turns: the context of an operation ends ten minutes after its
    start, a turn waits for a tick of one second, and the first and the last turn may come
    without one ([poll_fuel_enough]). The wait for absence makes the 60 attempts of the
    source, the page walk the 51 fetches its page limit allows, the metadata loop the 19
    attempts ([fetch_fuel]) that thirty seconds of growing delays leave room for.
    [maxLogValues] is the bound package slog has on resolving a value. The masking loop,
    the duration parser and the line splitter get the length of their input plus one, as
    each turn consumes a byte.

    ** Assumptions

    [LawfulHost]: mount, umount and the table queries do to the mount table what
    [table_step] says, the other operations of the host leave it alone. [evolves] (System):
    nobody reuses the identifier of a volume or changes the ownership tag of one; reads
    answer what is there. [AsyncCloud]: a request sent under an open context is answered
    within a latency; an accepted one is carried out within a delay, jobs and listings show
    what has been; the bound of [volume_life_ends] asks for a delay that sixty polls one
    second apart outlast. [ListVolumes_complete] is about a cloud that pages through a
    list. Every law has a concrete instance, which a witness runs.

    ** Not modelled

    Log lines inside handlers (they change no state; what reaches a log handler is the
    subject of Log), the gRPC server and the generated messages, request signing, the
    JSON encoder and decoder, and the options of the mounter that swap in test doubles,
    which are the choice of a [Host]. The Go memory model is not: a handler shares only
    immutable data with others, and the writers of the asset hold a mutex from start to
    end. The test files, among them the scenarios of the asset, are tests. *)

From Stdlib Require Export Ascii.
From stdpp Require Export base list gmap strings sorting pretty numbers.

(** ** Notations *)

Declare Scope go_scope.
Delimit Scope go_scope with go.

(** ** Tactics shared by the components *)

(** Splits every [if], [match] and [decide] of the goal, keeping the equation. *)
Ltac case_goal :=
  repeat match goal with
  | |- context [if decide ?P then _ else _] => destruct (decide P)
  | |- context [if ?b then _ else _] => let E := fresh "E" in destruct b eqn:E
  | |- context [match ?x with _ => _ end] => let E := fresh "E" in destruct x eqn:E
  end.

(** The same for one hypothesis. *)
Ltac case_in H :=
  repeat match type of H with
  | context [if decide ?P then _ else _] => destruct (decide P)
  | context [if ?b then _ else _] => let E := fresh "E" in destruct b eqn:E
  | context [match ?x with _ => _ end] => let E := fresh "E" in destruct x eqn:E
  end.

(** Turns boolean connectives in the hypotheses into propositions. *)
Ltac to_prop :=
  repeat match goal with
  | H : andb _ _ = true |- _ => apply andb_true_iff in H; destruct H
  | H : orb _ _ = false |- _ => apply orb_false_iff in H; destruct H
  | H : orb _ _ = true |- _ => apply orb_true_iff in H
  | H : andb _ _ = false |- _ => apply andb_false_iff in H
  | H : negb _ = true |- _ => apply negb_true_iff in H
  | H : negb _ = false |- _ => apply negb_false_iff in H
  | H : bool_decide _ = true |- _ => apply bool_decide_eq_true in H
  | H : bool_decide _ = false |- _ => apply bool_decide_eq_false in H
  end.

(** Membership in a list given by its parts. *)
Ltac in_list :=
  repeat first [rewrite elem_of_app | rewrite elem_of_cons | rewrite list_elem_of_singleton];
  tauto.

(** Equality of appended lists up to associativity. *)
Ltac app_eq := repeat (rewrite <-app_assoc || rewrite <-app_comm_cons || simpl); reflexivity.

(** ** Lemmas on lists and options *)

(** First element that satisfies a boolean test, the shape of the source's search loops. *)
Fixpoint find_first {A} (p : A -> bool) (l : list A) : option A :=
  match l with
  | [] => None
  | x :: l => if p x then Some x else find_first p l
  end.

Lemma find_first_Some {A} (p : A -> bool) l x :
  find_first p l = Some x <->
  exists l1 l2, l = l1 ++ x :: l2 /\ p x = true /\ Forall (fun y => p y = false) l1.
Proof.
  split.
  - induction l as [|y l IH]; simpl; [done|]. destruct (p y) eqn:E; intros ?; simplify_eq.
    + by exists [], l.
    + destruct IH as (l1 & l2 & -> & ? & ?); [done|]. exists (y :: l1), l2. auto.
  - intros (l1 & l2 & -> & Hx & Hl). induction Hl as [|y l1 Hy _ IH]; simpl.
    + by rewrite Hx.
    + by rewrite Hy.
Qed.

Lemma find_first_None {A} (p : A -> bool) l :
  find_first p l = None <-> Forall (fun y => p y = false) l.
Proof.
  induction l as [|y l IH]; simpl; [by split|].
  rewrite Forall_cons_iff, <-IH. destruct (p y); intuition congruence.
Qed.

Lemma find_first_elem {A} (p : A -> bool) l x :
  find_first p l = Some x -> x ∈ l /\ p x = true.
Proof. intros (l1 & l2 & -> & ? & _)%find_first_Some. split; [set_solver|done]. Qed.

Lemma elem_of_snoc {A} (x : A) l y : x ∈ l ++ [y] <-> x ∈ l \/ x = y.
Proof. by rewrite elem_of_app, list_elem_of_singleton. Qed.

Lemma NoDup_snoc {A} (l : list A) x : NoDup l -> (x ∉ l) -> NoDup (l ++ [x]).
Proof.
  intros Hl Hx. apply list.NoDup_app. split_and!; [done| |apply NoDup_singleton].
  by intros y Hy ->%list_elem_of_singleton.
Qed.

Lemma existsb_false_Forall {A} (p : A -> bool) l :
  existsb p l = false <-> Forall (fun y => p y = false) l.
Proof.
  induction l as [|y l IH]; simpl; [by split|].
  rewrite Forall_cons_iff, orb_false_iff, IH. done.
Qed.

#[export] Instance filter_Permutation {A} (p : A -> bool) :
  Proper (Permutation ==> Permutation) (List.filter p).
Proof.
  induction 1 as [|x l l' _ IH|x y l|l1 l2 l3 _ IH1 _ IH2]; simpl; [done| | |by etrans].
  - destruct (p x); by rewrite IH.
  - destruct (p x), (p y); try done. apply Permutation_swap.
Qed.

Lemma NoDup_map_elem {A B} (f : A -> B) l x y :
  NoDup (map f l) -> x ∈ l -> y ∈ l -> f x = f y -> x = y.
Proof.
  intros Hnd Hx Hy Hf. apply list_elem_of_lookup in Hx as [i Hi], Hy as [j Hj].
  assert (i = j) as ->; [|congruence].
  eapply (NoDup_lookup (f <$> l)); [done|by rewrite list_lookup_fmap, Hi|].
  by rewrite list_lookup_fmap, Hj, Hf.
Qed.

(** ** Insertion sort

    slices.SortFunc sorts short slices by insertion; on longer ones it may order equal
    elements differently, so users of [insertion_sort] only rely on the result being a
    sorted permutation. [lt x y] is [cmp(x, y) < 0]. *)
Fixpoint insert_by {A} (lt : A -> A -> bool) (x : A) (l : list A) : list A :=
  match l with
  | [] => [x]
  | y :: l' => if lt x y then x :: l else y :: insert_by lt x l'
  end.

Definition insertion_sort {A} (lt : A -> A -> bool) (l : list A) : list A :=
  fold_left (fun acc x => insert_by lt x acc) l [].

Lemma insert_by_perm {A} (lt : A -> A -> bool) x l : insert_by lt x l ≡ₚ x :: l.
Proof.
  induction l as [|y l IH]; simpl; [done|]. destruct (lt x y); [done|].
  rewrite IH. apply Permutation_swap.
Qed.

Lemma insertion_sort_perm {A} (lt : A -> A -> bool) l : insertion_sort lt l ≡ₚ l.
Proof.
  unfold insertion_sort. rewrite <-(app_nil_r l) at 2. generalize (@nil A).
  induction l as [|x l IH]; intros acc; simpl; [done|].
  rewrite IH, insert_by_perm. symmetry. apply Permutation_middle.
Qed.

Section Sorted.
Context {A : Type} (lt : A -> A -> bool).
Hypothesis lt_asym : forall x y, lt x y = true -> lt y x = false.
Hypothesis lt_cotrans : forall x y z, lt y x = false -> lt z y = false -> lt z x = false.

(** [x] is not after [y]. *)
Definition not_after (x y : A) : Prop := lt y x = false.

Lemma insert_by_sorted x l :
  StronglySorted not_after l -> StronglySorted not_after (insert_by lt x l).
Proof.
  induction 1 as [|y l Hl IH Hy]; simpl; [by repeat constructor|].
  destruct (lt x y) eqn:E; constructor; [by constructor| |done|].
  - constructor; [by apply lt_asym|]. eapply Forall_impl; [|exact Hy].
    intros z Hz. eapply lt_cotrans; [|exact Hz]. by apply lt_asym.
  - rewrite insert_by_perm. by constructor.
Qed.

Lemma insertion_sort_sorted l : StronglySorted not_after (insertion_sort lt l).
Proof.
  unfold insertion_sort. assert (StronglySorted not_after []) as H by constructor.
  revert H. generalize (@nil A). induction l as [|x l IH]; intros acc Hacc; simpl; [done|].
  apply IH. by apply insert_by_sorted.
Qed.
End Sorted.

Create Rewrite HintDb go.
