(* ===== verification/GoStrings.v ===== *)
(** * Byte strings and the functions of Go's package strings the driver calls

    A Go string is a sequence of bytes, here stdpp's [string]. The functions are the
    ones of package strings (and strconv.Quote) the source uses, with the byte-level
    behaviour of the standard library; the lemmas are the facts the components share. *)

From S2P Require Import Prelude.

Local Open Scope stdpp_scope.

#[global] Arguments String.append !s1 s2 : simpl nomatch.

(** ** Bytes *)

Definition byte_code (a : ascii) : Z := Z.of_N (N_of_ascii a).

Definition byte_in (lo hi : Z) (a : ascii) : bool :=
  (lo <=? byte_code a)%Z && (byte_code a <=? hi)%Z.

(** Exact byte equality as a boolean. *)
Definition byte_eqb (a b : ascii) : bool := bool_decide (a = b).

(** unicode.IsSpace on the one, two and three byte encodings of its code points. *)
Definition space1 (a : ascii) : bool := byte_in 9 13 a || byte_in 32 32 a.
Definition space2 (a b : ascii) : bool :=
  byte_in 194 194 a && (byte_in 133 133 b || byte_in 160 160 b).
Definition space3 (a b c : ascii) : bool :=
  (byte_in 225 225 a && byte_in 154 154 b && byte_in 128 128 c)
  || (byte_in 226 226 a && byte_in 128 128 b &&
      (byte_in 128 138 c || byte_in 168 169 c || byte_in 175 175 c))
  || (byte_in 226 226 a && byte_in 129 129 b && byte_in 159 159 c)
  || (byte_in 227 227 a && byte_in 128 128 b && byte_in 128 128 c).

(** ** strings.TrimSpace *)

Fixpoint trim_left (p1 : ascii -> bool) (p2 : ascii -> ascii -> bool)
    (p3 : ascii -> ascii -> ascii -> bool) (s : string) : string :=
  match s with
  | EmptyString => EmptyString
  | String a t =>
      if p1 a then trim_left p1 p2 p3 t else
      match t with
      | EmptyString => s
      | String b u =>
          if p2 a b then trim_left p1 p2 p3 u else
          match u with
          | EmptyString => s
          | String c v => if p3 a b c then trim_left p1 p2 p3 v else s
          end
      end
  end.

(** Trailing runes are recognised on the reversed string, with the bytes of each
    encoding in reverse order. *)
Definition TrimSpace (s : string) : string :=
  String.rev (trim_left space1 (fun b a => space2 a b) (fun c b a => space3 a b c)
    (String.rev (trim_left space1 space2 space3 s))).

(** strings.Fields: the words between runs of white space. [fields_scan] answers the word
    that starts at once, which may be empty, and the words behind it. *)
Definition word_and (f : string * list string) : list string :=
  let '(w, l) := f in if bool_decide (w = "") then l else w :: l.

Fixpoint fields_scan (s : string) : string * list string :=
  match s with
  | EmptyString => ("", [])
  | String a t =>
      if space1 a then ("", word_and (fields_scan t)) else
      let copy := let '(w, l) := fields_scan t in (String a w, l) in
      match t with
      | EmptyString => copy
      | String b u =>
          if space2 a b then ("", word_and (fields_scan u)) else
          match u with
          | EmptyString => copy
          | String c v => if space3 a b c then ("", word_and (fields_scan v)) else copy
          end
      end
  end.

Definition Fields (s : string) : list string := word_and (fields_scan s).

(** The source's test [strings.TrimSpace(s) == ""]. *)
Definition blank (s : string) : bool := bool_decide (TrimSpace s = "").

(** ** Searching and cutting *)

Definition HasPrefix (s p : string) : bool := String.prefix p s.

Fixpoint string_take (n : nat) (s : string) : string :=
  match n, s with
  | S n, String a t => String a (string_take n t)
  | _, _ => EmptyString
  end.

Fixpoint string_drop (n : nat) (s : string) : string :=
  match n, s with
  | S n, String a t => string_drop n t
  | O, _ => s
  | S _, EmptyString => EmptyString
  end.

(** strings.CutPrefix: the rest when the prefix is there. *)
Definition CutPrefix (s p : string) : option string :=
  if HasPrefix s p then Some (string_drop (String.length p) s) else None.

(** strings.TrimPrefix. *)
Definition TrimPrefix (s p : string) : string :=
  if HasPrefix s p then string_drop (String.length p) s else s.

(** strings.Index: the byte offset of the first occurrence. *)
Fixpoint Index (s sub : string) : option nat :=
  if HasPrefix s sub then Some 0 else
  match s with
  | EmptyString => None
  | String _ t => S <$> Index t sub
  end.

Definition Contains (s sub : string) : bool :=
  match Index s sub with Some _ => true | None => false end.

Fixpoint contains_byte (a : ascii) (s : string) : bool :=
  match s with
  | EmptyString => false
  | String b t => byte_eqb a b || contains_byte a t
  end.

(** strings.ReplaceAll for a non-empty [old]: left to right, without overlap. [skip]
    counts the bytes of a replaced occurrence still to be dropped. *)
Fixpoint replace_from (old new : string) (skip : nat) (s : string) : string :=
  match s with
  | EmptyString => EmptyString
  | String a t =>
      match skip with
      | S k => replace_from old new k t
      | O =>
          if HasPrefix s old
          then new +:+ replace_from old new (String.length old - 1) t
          else String a (replace_from old new 0 t)
      end
  end.

Definition ReplaceAll (s old new : string) : string := replace_from old new 0 s.

(** strings.Join. *)
Fixpoint Join (l : list string) (sep : string) : string :=
  match l with
  | [] => ""
  | [x] => x
  | x :: l => x +:+ sep +:+ Join l sep
  end.

Definition newline : ascii := "010"%char.

(** bytes.IndexByte. *)
Fixpoint IndexByte (s : string) (c : ascii) : option nat :=
  match s with
  | EmptyString => None
  | String a t => if byte_eqb a c then Some O else S <$> IndexByte t c
  end.

(** strings.Split for a one byte separator; the result is never empty. *)
Fixpoint split_on (sep : ascii) (s : string) : list string :=
  match s with
  | EmptyString => [""]
  | String a t =>
      if byte_eqb a sep then "" :: split_on sep t
      else match split_on sep t with
           | x :: l => String a x :: l
           | [] => [String a ""]
           end
  end.

(** ** Case mapping

    ToLower and ToUpper on ASCII letters, and on the only code points outside ASCII
    whose image is an ASCII letter (U+0130 and U+212A for ToLower, U+0131 and U+017F
    for ToUpper). Every other byte is kept: the source only compares the result with
    ASCII words, which no other rune can produce. *)
Definition shift_byte (d : Z) (a : ascii) : ascii :=
  ascii_of_N (Z.to_N (byte_code a + d)).

Fixpoint ToLower (s : string) : string :=
  match s with
  | EmptyString => EmptyString
  | String a t =>
      if byte_in 65 90 a then String (shift_byte 32 a) (ToLower t) else
      match t with
      | String b u =>
          if byte_in 196 196 a && byte_in 176 176 b then String "i" (ToLower u) else
          match u with
          | String c v =>
              if byte_in 226 226 a && byte_in 132 132 b && byte_in 170 170 c
              then String "k" (ToLower v) else String a (ToLower t)
          | EmptyString => String a (ToLower t)
          end
      | EmptyString => String a (ToLower t)
      end
  end.

Fixpoint ToUpper (s : string) : string :=
  match s with
  | EmptyString => EmptyString
  | String a t =>
      if byte_in 97 122 a then String (shift_byte (-32) a) (ToUpper t) else
      match t with
      | String b u =>
          if byte_in 196 196 a && byte_in 177 177 b then String "I" (ToUpper u) else
          if byte_in 197 197 a && byte_in 191 191 b then String "S" (ToUpper u) else
          String a (ToUpper t)
      | EmptyString => String a (ToUpper t)
      end
  end.

(** ** Formatting verbs *)

Definition hex_digit (n : Z) : string :=
  match n with
  | 10 => "a" | 11 => "b" | 12 => "c" | 13 => "d" | 14 => "e" | 15 => "f"
  | _ => pretty n
  end%Z.

Definition quote_byte (a : ascii) : string :=
  let n := byte_code a in
  if byte_in 34 34 a || byte_in 92 92 a then String "092" (String a "") else
  if byte_in 7 7 a then "\a" else if byte_in 8 8 a then "\b" else
  if byte_in 9 9 a then "\t" else if byte_in 10 10 a then "\n" else
  if byte_in 11 11 a then "\v" else if byte_in 12 12 a then "\f" else
  if byte_in 13 13 a then "\r" else
  if byte_in 0 31 a || byte_in 127 127 a
  then "\x" +:+ hex_digit (n / 16) +:+ hex_digit (n mod 16)
  else String a "".

Fixpoint quote_bytes (s : string) : string :=
  match s with
  | EmptyString => ""
  | String a t => quote_byte a +:+ quote_bytes t
  end.

(** The verb %q (strconv.Quote). Bytes outside ASCII are copied, which is what Quote
    does with the encoding of a printable rune. *)
Definition quote (s : string) : string := String "034" (quote_bytes s +:+ String "034" "").

(** The verb %d. *)
Definition itoa (n : Z) : string := pretty n.

(** ** Facts *)

Lemma byte_eqb_eq a b : byte_eqb a b = true <-> a = b.
Proof. unfold byte_eqb. apply bool_decide_eq_true. Qed.

Lemma byte_eqb_sym a b : byte_eqb a b = byte_eqb b a.
Proof. unfold byte_eqb. apply bool_decide_ext. by split. Qed.

Lemma byte_eqb_refl a : byte_eqb a a = true.
Proof. by apply byte_eqb_eq. Qed.

Lemma append_nil_r s : s +:+ "" = s.
Proof. induction s; simpl; [done|]. by rewrite IHs. Qed.

Lemma append_assoc s t u : (s +:+ t) +:+ u = s +:+ t +:+ u.
Proof. induction s; simpl; [done|]. by rewrite IHs. Qed.

Lemma length_append s t : String.length (s +:+ t) = String.length s + String.length t.
Proof. induction s; simpl; [done|]. by rewrite IHs. Qed.

Lemma append_eq_nil s t : s +:+ t = "" <-> s = "" /\ t = "".
Proof. destruct s; simpl; [by split; [|intros [_ ?]]|]. split; [done|]. by intros [? _]. Qed.

Lemma append_cons a s t : String a s +:+ t = String a (s +:+ t).
Proof. done. Qed.

Lemma HasPrefix_spec s p : HasPrefix s p = true <-> exists t, s = p +:+ t.
Proof.
  unfold HasPrefix. revert s. induction p as [|a p IH]; intros [|b s]; simpl.
  - naive_solver.
  - naive_solver.
  - split; [done|]. by intros [? ?].
  - destruct (ascii_dec a b) as [->|Hne].
    + rewrite IH. split; intros [t Ht]; exists t; [by rewrite Ht|congruence].
    + split; [done|]. intros [t [= -> _]]. done.
Qed.

Lemma HasPrefix_nil s : HasPrefix s "" = true.
Proof. by destruct s. Qed.

Lemma HasPrefix_app p s : HasPrefix (p +:+ s) p = true.
Proof. apply HasPrefix_spec. by exists s. Qed.

Lemma string_drop_app p s : string_drop (String.length p) (p +:+ s) = s.
Proof. induction p; [by destruct s|done]. Qed.

Lemma string_take_drop n s : string_take n s +:+ string_drop n s = s.
Proof. revert s. induction n; intros [|a s]; simpl; [done..|]. by rewrite IHn. Qed.

Lemma length_drop n s : String.length (string_drop n s) = String.length s - n.
Proof. revert s. induction n; intros [|a s]; simpl; auto. Qed.

Lemma length_take n s : String.length (string_take n s) = Nat.min n (String.length s).
Proof. revert s. induction n; intros [|a s]; simpl; auto. Qed.

Lemma CutPrefix_Some s p t : CutPrefix s p = Some t <-> s = p +:+ t.
Proof.
  unfold CutPrefix. split.
  - destruct (HasPrefix s p) eqn:E; [|done]. intros [= <-].
    apply HasPrefix_spec in E as [u ->]. by rewrite string_drop_app.
  - intros ->. by rewrite HasPrefix_app, string_drop_app.
Qed.

(** *** Occurrences *)

Definition occurs (o s : string) : Prop := exists u v, s = u +:+ o +:+ v.

Lemma occurs_cons o a s :
  occurs o (String a s) <-> HasPrefix (String a s) o = true \/ occurs o s.
Proof.
  rewrite HasPrefix_spec. split.
  - intros ([|b u] & v & H); simpl in H.
    + left. by exists v.
    + right. exists u, v. by injection H.
  - intros [[v H]|(u & v & ->)].
    + by exists "", v.
    + by exists (String a u), v.
Qed.

Lemma occurs_nil_inv o : occurs o "" -> o = "".
Proof.
  intros (u & v & H). symmetry in H. apply append_eq_nil in H as [_ H].
  by apply append_eq_nil in H as [-> _].
Qed.

Lemma Contains_spec s o : Contains s o = true <-> occurs o s.
Proof.
  unfold Contains. induction s as [|a s IH].
  - cbn [Index]. destruct (HasPrefix "" o) eqn:E.
    + apply HasPrefix_spec in E as [t H]. split; intros _; [by exists "", t|done].
    + split; [done|]. intros ->%occurs_nil_inv. by rewrite HasPrefix_nil in E.
  - rewrite occurs_cons. change (Index (String a s) o) with
      (if HasPrefix (String a s) o then Some 0 else S <$> Index s o).
    destruct (HasPrefix (String a s) o); [intuition done|].
    rewrite <-IH. destruct (Index s o); simpl; intuition congruence.
Qed.

Lemma Contains_false s o : Contains s o = false <-> ~ occurs o s.
Proof. rewrite <-Contains_spec. destruct (Contains s o); naive_solver. Qed.

Lemma occurs_app_l o s t : occurs o s -> occurs o (s +:+ t).
Proof. intros (u & v & ->). exists u, (v +:+ t). by rewrite !append_assoc. Qed.

Lemma occurs_app_r o s t : occurs o t -> occurs o (s +:+ t).
Proof. intros (u & v & ->). exists (s +:+ u), v. by rewrite append_assoc. Qed.

Lemma contains_byte_app a s t :
  contains_byte a (s +:+ t) = contains_byte a s || contains_byte a t.
Proof. induction s; simpl; [done|]. by rewrite IHs, orb_assoc. Qed.

(** Two prefixes of one string are comparable. *)
Lemma append_eq_inv s t u v :
  s +:+ t = u +:+ v ->
  (exists w, u = s +:+ w /\ t = w +:+ v) \/ (exists w, s = u +:+ w /\ v = w +:+ t).
Proof.
  revert u. induction s as [|a s IH]; intros [|b u]; simpl; intros H.
  - left. by exists "".
  - left. by exists (String b u).
  - right. by exists (String a s).
  - injection H as -> H. destruct (IH _ H) as [(w & -> & ->)|(w & -> & ->)].
    + left. by exists w.
    + right. by exists w.
Qed.

(** An occurrence in a concatenation is on one side or straddles the seam. *)
Lemma occurs_app_inv o s t :
  occurs o (s +:+ t) ->
  occurs o s \/ occurs o t \/
  exists o1 o2 u v, o = o1 +:+ o2 /\ o1 <> "" /\ o2 <> "" /\ s = u +:+ o1 /\ t = o2 +:+ v.
Proof.
  intros (u & v & H). destruct (append_eq_inv _ _ _ _ H) as [(w & -> & ->)|(w & -> & H')].
  - right; left. by exists w, v.
  - destruct (append_eq_inv _ _ _ _ H') as [(z & -> & ->)|(z & -> & ->)].
    + left. by exists u, z.
    + destruct (decide (w = "")) as [->|Hw].
      { right; left. by exists "", v. }
      destruct (decide (z = "")) as [->|Hz].
      { left. exists u, "". by rewrite !append_nil_r. }
      right; right. by exists w, z, u, v.
Qed.

(** A separator byte that the pattern does not have cuts a string in two. *)
Lemma occurs_sep o s a t :
  o <> "" -> contains_byte a o = false ->
  occurs o (s +:+ String a t) -> occurs o s \/ occurs o t.
Proof.
  intros Hne Ha [H|[H|(o1 & o2 & u & v & -> & ? & ? & -> & H)]]%occurs_app_inv; [by left|..].
  - apply occurs_cons in H as [[v H]%HasPrefix_spec|H]; [|by right].
    destruct o as [|b o]; [done|]. injection H as -> ->. simpl in Ha.
    by rewrite byte_eqb_refl in Ha.
  - destruct o2 as [|b o2]; [done|]. injection H as -> ->.
    rewrite contains_byte_app in Ha. simpl in Ha. by rewrite byte_eqb_refl, orb_true_r in Ha.
Qed.

(** *** ReplaceAll

    The replacement text starts and ends with bytes the pattern does not have, and the
    pattern is not inside its middle: then replacing creates no new occurrence. *)
Section Replacement.
Context (first last : ascii) (middle : string).

Definition marker : string := String first (middle +:+ String last "").

Lemma marker_app r : marker +:+ r = String first (middle +:+ String last r).
Proof. unfold marker. simpl. by rewrite append_assoc. Qed.

Lemma HasPrefix_replace old s p :
  contains_byte first p = false ->
  HasPrefix (replace_from old marker 0 s) p = true -> HasPrefix s p = true.
Proof.
  revert p. induction s as [|a s IH]; intros p Hp H; [done|].
  destruct p as [|b p]; [by rewrite HasPrefix_nil|].
  cbn [replace_from] in H. destruct (HasPrefix (String a s) old).
  - rewrite marker_app in H. apply HasPrefix_spec in H as [t H]. injection H as -> _.
    simpl in Hp. by rewrite byte_eqb_refl in Hp.
  - apply HasPrefix_spec in H as [t H]. injection H as -> H.
    simpl in Hp. apply orb_false_iff in Hp as [_ Hp].
    specialize (IH p Hp). rewrite H in IH. specialize (IH (HasPrefix_app _ _)).
    apply HasPrefix_spec in IH as [u ->]. apply HasPrefix_spec. by exists u.
Qed.

Lemma HasPrefix_replace_cons old a s o :
  o <> "" -> contains_byte first o = false ->
  HasPrefix (String a (replace_from old marker 0 s)) o = true ->
  HasPrefix (String a s) o = true.
Proof.
  destruct o as [|b o]; [done|]. intros _ Ho [t H]%HasPrefix_spec. injection H as -> H.
  simpl in Ho. apply orb_false_iff in Ho as [_ Ho].
  pose proof (HasPrefix_replace old s o Ho) as HP. rewrite H in HP.
  specialize (HP (HasPrefix_app _ _)). apply HasPrefix_spec in HP as [u ->].
  apply HasPrefix_spec. by exists u.
Qed.

Context (o : string).
Hypothesis o_ne : o <> "".
Hypothesis o_first : contains_byte first o = false.
Hypothesis o_last : contains_byte last o = false.
Hypothesis o_middle : ~ occurs o middle.

Lemma occurs_marker r : occurs o (marker +:+ r) -> occurs o r.
Proof.
  rewrite marker_app. intros H. change (String first (middle +:+ String last r)) with
    ("" +:+ String first (middle +:+ String last r)) in H.
  apply occurs_sep in H as [H%occurs_nil_inv|H]; [done| |done|done].
  by apply occurs_sep in H as [?|?].
Qed.

(** Replacing any pattern adds no occurrence of [o]. *)
Lemma occurs_replace_from old k s :
  occurs o (replace_from old marker k s) -> occurs o s.
Proof.
  revert k. induction s as [|a s IH]; intros k H; [done|].
  apply occurs_cons. cbn [replace_from] in H. destruct k as [|k]; [|eauto].
  destruct (HasPrefix (String a s) old).
  - apply occurs_marker in H. eauto.
  - apply occurs_cons in H as [H|H]; [left|right; eauto].
    by apply HasPrefix_replace_cons in H.
Qed.

(** Replacing [o] itself removes every occurrence. *)
Lemma occurs_replaced k s : ~ occurs o (replace_from o marker k s).
Proof.
  revert k. induction s as [|a s IH]; intros k H.
  { by apply occurs_nil_inv in H. }
  cbn [replace_from] in H. destruct k as [|k]; [|by eapply IH].
  destruct (HasPrefix (String a s) o) eqn:E.
  - apply occurs_marker in H. by eapply IH.
  - apply occurs_cons in H as [H|H]; [|by eapply IH].
    apply HasPrefix_replace_cons in H; [congruence|done..].
Qed.

(** Replacing every element of a list removes [o] when the list holds it. *)
Lemma occurs_replace_list (l : list string) s :
  o ∈ l -> ~ occurs o (fold_left (fun m x => ReplaceAll m x marker) l s).
Proof.
  assert (forall l s, occurs o (fold_left (fun m x => ReplaceAll m x marker) l s) -> occurs o s) as Hkeep.
  { clear l s. induction l as [|x l IH]; intros s Ho; [done|]. simpl in Ho. apply IH in Ho.
    by eapply occurs_replace_from in Ho. }
  revert s. induction l as [|x l IH]; intros s Hin; [by apply elem_of_nil in Hin|].
  apply elem_of_cons in Hin as [<-|Hin]; simpl; [|by apply IH].
  intros Ho%Hkeep. by apply occurs_replaced in Ho.
Qed.
End Replacement.

(** *** TrimSpace *)

Lemma TrimSpace_nil : TrimSpace "" = "".
Proof. done. Qed.

Lemma blank_nil : blank "" = true.
Proof. done. Qed.

Lemma blank_false_ne s : blank s = false -> s <> "".
Proof. intros H ->. by rewrite blank_nil in H. Qed.

Lemma blank_true s : blank s = true <-> TrimSpace s = "".
Proof. apply bool_decide_eq_true. Qed.

(** *** TrimSpace twice *)

Lemma string_rev_app_spec s t : String.rev_app s t = String.rev s +:+ t.
Proof.
  unfold String.rev. revert t. induction s as [|a s IH]; intros t; simpl; [done|].
  by rewrite IH, (IH (String a "")), append_assoc.
Qed.

Lemma string_rev_cons a s : String.rev (String a s) = String.rev s +:+ String a "".
Proof. exact (string_rev_app_spec s (String a "")). Qed.

Lemma string_rev_append s t : String.rev (s +:+ t) = String.rev t +:+ String.rev s.
Proof.
  induction s as [|a s IH]; [by rewrite append_nil_r|].
  by rewrite append_cons, !string_rev_cons, IH, append_assoc.
Qed.

Lemma string_rev_involutive s : String.rev (String.rev s) = s.
Proof. induction s as [|a s IH]; [done|]. by rewrite string_rev_cons, string_rev_append, IH. Qed.

Section Trim.
Variables (p1 : ascii -> bool) (p2 : ascii -> ascii -> bool) (p3 : ascii -> ascii -> ascii -> bool).

(** A space begins the string. *)
Definition leads (s : string) : bool :=
  match s with
  | String a t => p1 a || match t with
      | String b u => p2 a b || match u with String c _ => p3 a b c | _ => false end
      | _ => false end
  | _ => false
  end.

Lemma trim_left_fixed s : leads s = false -> trim_left p1 p2 p3 s = s.
Proof.
  destruct s as [|a [|b [|c v]]]; simpl; rewrite ?orb_false_iff; try done.
  - by intros [-> _].
  - by intros [-> [-> _]].
  - by intros [-> [-> ->]].
Qed.

Lemma trim_left_spec s :
  leads (trim_left p1 p2 p3 s) = false /\ exists u, s = u +:+ trim_left p1 p2 p3 s.
Proof.
  remember (String.length s) as n eqn:Hn. revert s Hn.
  induction n as [n IH] using (well_founded_induction lt_wf). intros s ->.
  assert (forall u t, String.length t < String.length s -> s = u +:+ t ->
    leads (trim_left p1 p2 p3 t) = false /\ exists u, s = u +:+ trim_left p1 p2 p3 t) as Hrec.
  { intros u t Ht Hs. destruct (IH _ Ht t eq_refl) as [H1 [u' H2]]. split; [done|].
    exists (u +:+ u'). by rewrite append_assoc, <-H2. }
  destruct (leads s) eqn:El; [|rewrite trim_left_fixed by done; split; [done|by exists ""]].
  destruct s as [|a t]; [done|]. simpl in El |- *. destruct (p1 a); [by apply (Hrec (String a "")); simpl; [lia|]|].
  destruct t as [|b u]; [done|]. destruct (p2 a b).
  { apply (Hrec (String a (String b ""))); [simpl; lia|done]. }
  destruct u as [|c v]; [done|]. simpl in El. rewrite El.
  apply (Hrec (String a (String b (String c "")))); [simpl; lia|done].
Qed.

Lemma leads_prefix s t : leads (s +:+ t) = false -> leads s = false.
Proof.
  destruct s as [|a [|b [|c v]]]; simpl; rewrite ?orb_false_iff; try done; tauto.
Qed.
End Trim.

Lemma TrimSpace_idemp s : TrimSpace (TrimSpace s) = TrimSpace s.
Proof.
  unfold TrimSpace at 2 3. set (q2 := fun b a => space2 a b). set (q3 := fun c b a => space3 a b c).
  destruct (trim_left_spec space1 space2 space3 s) as [Hl _].
  set (l := trim_left space1 space2 space3 s) in *.
  destruct (trim_left_spec space1 q2 q3 (String.rev l)) as [Hr [u Hu]].
  set (r := trim_left space1 q2 q3 (String.rev l)) in *.
  assert (l = String.rev r +:+ String.rev u) as Heq by (by rewrite <-string_rev_append, <-Hu, string_rev_involutive).
  unfold TrimSpace. rewrite (trim_left_fixed _ _ _ (String.rev r)), string_rev_involutive.
  - by rewrite trim_left_fixed.
  - apply (leads_prefix _ _ _ _ (String.rev u)). by rewrite <-Heq.
Qed.

#[export] Hint Rewrite append_nil_r append_assoc HasPrefix_nil HasPrefix_app
  string_drop_app TrimSpace_nil : go.
