(* ===== verification/GoErrors.v ===== *)
(** * Go error values

    An [error] of the driver is a tree: a package variable made by errors.New, a
    fmt.Errorf value that wraps others, or one of the concrete types the source looks
    for with errors.As. errors.Is and errors.As are the pre-order searches of package
    errors. *)

From S2P Require Import Prelude GoStrings.

Local Open Scope stdpp_scope.

(** ** Values *)

(** A package-level [errors.New] value. Its identity is the variable, not the text. *)
Record sentinel := Sentinel { sentinel_name : string; sentinel_text : string }.

#[export] Instance sentinel_eq_dec : EqDecision sentinel.
Proof. solve_decision. Defined.

(** Package context and package os. *)
Definition Canceled : sentinel := Sentinel "context.Canceled" "context canceled".
Definition DeadlineExceeded : sentinel :=
  Sentinel "context.DeadlineExceeded" "context deadline exceeded".
Definition ErrNotExist : sentinel := Sentinel "os.ErrNotExist" "file does not exist".

(** The error types of the cloud SDK that the source tells apart. *)
Inductive sdk_type :=
| ErrDefault (http_status : Z)
| ErrUnexpectedResponseCode (actual : Z).

#[export] Instance sdk_type_eq_dec : EqDecision sdk_type.
Proof. solve_decision. Defined.

(** google.golang.org/grpc/codes. *)
Inductive Code :=
| OK | CodeCanceled | Unknown | InvalidArgument | CodeDeadlineExceeded | NotFound
| AlreadyExists | PermissionDenied | ResourceExhausted | FailedPrecondition | Aborted
| OutOfRange | Unimplemented | Internal | Unavailable | DataLoss | Unauthenticated.

#[export] Instance Code_eq_dec : EqDecision Code.
Proof. solve_decision. Defined.

#[warnings="-register-all"]
Inductive gerror :=
| ESentinel (s : sentinel)
| ENew (msg : string)                            (* errors.New, fmt.Errorf without %w *)
| EWrap (msg : string) (wrapped : list gerror)   (* fmt.Errorf with %w *)
| EURL (op url : string) (inner : gerror)        (* *url.Error *)
| ENet (timeout is_deadline : bool) (msg : string) (* another net.Error *)
| ESDK (t : sdk_type) (msg : string)             (* golangsdk response errors *)
| EErrno (n : Z) (msg : string)                  (* syscall.Errno *)
| EPath (op path : string) (inner : gerror)      (* *fs.PathError *)
| EExit (status : Z) (msg : string)              (* k8sexec.ExitError *)
| EStatus (c : Code) (msg : string).             (* grpc status.Error *)

(** The names codes.Code.String prints. *)
Definition Code_String (c : Code) : string :=
  match c with
  | OK => "OK" | CodeCanceled => "Canceled" | Unknown => "Unknown"
  | InvalidArgument => "InvalidArgument" | CodeDeadlineExceeded => "DeadlineExceeded"
  | NotFound => "NotFound" | AlreadyExists => "AlreadyExists"
  | PermissionDenied => "PermissionDenied" | ResourceExhausted => "ResourceExhausted"
  | FailedPrecondition => "FailedPrecondition" | Aborted => "Aborted"
  | OutOfRange => "OutOfRange" | Unimplemented => "Unimplemented"
  | Internal => "Internal" | Unavailable => "Unavailable" | DataLoss => "DataLoss"
  | Unauthenticated => "Unauthenticated"
  end.

Definition ENOENT : Z := 2.
Definition EAGAIN : Z := 11.
Definition ETIMEDOUT : Z := 110.

(** The method Error(). *)
Fixpoint Error (e : gerror) : string :=
  match e with
  | ESentinel s => sentinel_text s
  | ENew msg | EWrap msg _ | ENet _ _ msg | ESDK _ msg | EErrno _ msg | EExit _ msg => msg
  | EURL op url inner => op +:+ " " +:+ quote url +:+ ": " +:+ Error inner
  | EPath op path inner => op +:+ " " +:+ path +:+ ": " +:+ Error inner
  | EStatus c msg => "rpc error: code = " +:+ Code_String c +:+ " desc = " +:+ msg
  end.

(** ** Searching the tree *)

Fixpoint efind {A} (f : gerror -> option A) (e : gerror) : option A :=
  match f e with
  | Some a => Some a
  | None =>
      match e with
      | EWrap _ l =>
          (fix go l := match l with
                       | [] => None
                       | x :: l => match efind f x with Some a => Some a | None => go l end
                       end) l
      | EURL _ _ i | EPath _ _ i => efind f i
      | _ => None
      end
  end.

(** A node equals the target, or its Is method accepts it. *)
Definition node_is (target : sentinel) (e : gerror) : bool :=
  match e with
  | ESentinel s => bool_decide (s = target)
  | ENet _ is_deadline _ => is_deadline && bool_decide (target = DeadlineExceeded)
  | EErrno n _ => (n =? ENOENT)%Z && bool_decide (target = ErrNotExist)
  | _ => false
  end.

(** errors.Join: the errors that are not nil, their texts on a line each; nil for none. *)
Definition errors_Join (errs : list (option gerror)) : option gerror :=
  match omap id errs with
  | [] => None
  | l => Some (EWrap (Join (map Error l) (String newline "")) l)
  end.

(** errors.Is. *)
Definition Is (e : gerror) (target : sentinel) : bool :=
  match efind (fun n => if node_is target n then Some tt else None) e with
  | Some _ => true
  | None => false
  end.

(** The method Timeout() of the nodes that have one. *)
Fixpoint node_timeout (e : gerror) : option bool :=
  match e with
  | ESentinel s => if decide (s = DeadlineExceeded) then Some true else None
  | ENet t _ _ => Some t
  | EErrno n _ => Some ((n =? EAGAIN)%Z || (n =? ETIMEDOUT)%Z)
  | EURL _ _ i | EPath _ _ i => Some (default false (node_timeout i))
  | _ => None
  end.

(** errors.As with a net.Error target, then Timeout(): the first node in pre-order that
    implements net.Error decides. *)
Definition as_net_timeout (e : gerror) : option bool :=
  efind (fun n => match n with EPath _ _ _ => None | _ => node_timeout n end) e.

(** errors.As with an SDK type. *)
Definition as_sdk (t : sdk_type) (e : gerror) : bool :=
  match efind (fun n => match n with
                        | ESDK u _ => if decide (u = t) then Some tt else None
                        | _ => None
                        end) e with
  | Some _ => true
  | None => false
  end.

Definition as_unexpected_code (e : gerror) : option Z :=
  efind (fun n => match n with ESDK (ErrUnexpectedResponseCode a) _ => Some a | _ => None end) e.

(** errors.As with *url.Error: its Err field. *)
Definition as_url_inner (e : gerror) : option gerror :=
  efind (fun n => match n with EURL _ _ i => Some i | _ => None end) e.

(** errors.As with k8sexec.ExitError, then ExitStatus(). *)
Definition as_exit_status (e : gerror) : option Z :=
  efind (fun n => match n with EExit s _ => Some s | _ => None end) e.

(** os.IsNotExist looks below *fs.PathError only. *)
Definition IsNotExist (e : gerror) : bool :=
  let under := match e with EPath _ _ i => i | _ => e end in
  node_is ErrNotExist under.

(** status.Code. *)
Definition status_code (e : gerror) : Code :=
  match efind (fun n => match n with EStatus c _ => Some c | _ => None end) e with
  | Some c => c
  | None => Unknown
  end.

(** ** Construction *)

(** fmt.Errorf("<msg>%w", s) for a sentinel [s]. *)
Definition sentinelf (msg : string) (s : sentinel) : gerror :=
  EWrap (msg +:+ sentinel_text s) [ESentinel s].

(** fmt.Errorf("<msg>%w", e). *)
Definition wrapf (msg : string) (e : gerror) : gerror := EWrap (msg +:+ Error e) [e].

(** fmt.Errorf("%w: <msg>", s) for a sentinel [s]. *)
Definition failf (s : sentinel) (msg : string) : gerror :=
  EWrap (sentinel_text s +:+ ": " +:+ msg) [ESentinel s].

(** ** Results

    The pair [(value, error)] of a Go function that returns one or the other. *)
Inductive result (A : Type) :=
| Ok (a : A)
| Err (e : gerror).
Arguments Ok {A} a.
Arguments Err {A} e.

Definition is_ok {A} (r : result A) : bool := match r with Ok _ => true | Err _ => false end.

Definition err_of {A} (r : result A) : option gerror :=
  match r with Ok _ => None | Err e => Some e end.

(** ** Facts *)

Lemma efind_leaf {A} (f : gerror -> option A) e :
  match e with EWrap _ _ | EURL _ _ _ | EPath _ _ _ => False | _ => True end ->
  efind f e = f e.
Proof. destruct e; simpl; try done; intros _; by destruct (f _). Qed.

Lemma efind_wrap1 {A} (f : gerror -> option A) msg e :
  f (EWrap msg [e]) = None -> efind f (EWrap msg [e]) = efind f e.
Proof. intros H. simpl. rewrite H. by destruct (efind f e). Qed.

Lemma Is_wrap1 msg e t : Is (EWrap msg [e]) t = Is e t.
Proof. unfold Is. by rewrite efind_wrap1. Qed.

Lemma Is_sentinel s t : Is (ESentinel s) t = bool_decide (s = t).
Proof. unfold Is. simpl. by destruct (bool_decide (s = t)). Qed.

Lemma Is_new msg t : Is (ENew msg) t = false.
Proof. done. Qed.

Lemma as_net_timeout_wrap1 msg e : as_net_timeout (EWrap msg [e]) = as_net_timeout e.
Proof. unfold as_net_timeout. by rewrite efind_wrap1. Qed.

Lemma as_sdk_wrap1 t msg e : as_sdk t (EWrap msg [e]) = as_sdk t e.
Proof. unfold as_sdk. by rewrite efind_wrap1. Qed.

Lemma as_unexpected_code_wrap1 msg e :
  as_unexpected_code (EWrap msg [e]) = as_unexpected_code e.
Proof. unfold as_unexpected_code. by rewrite efind_wrap1. Qed.

Lemma Is_sentinelf msg s t : Is (sentinelf msg s) t = bool_decide (s = t).
Proof. unfold sentinelf. by rewrite Is_wrap1, Is_sentinel. Qed.

Lemma Is_wrapf msg e t : Is (wrapf msg e) t = Is e t.
Proof. apply Is_wrap1. Qed.

Lemma Is_failf s msg t : Is (failf s msg) t = bool_decide (s = t).
Proof. unfold failf. by rewrite Is_wrap1, Is_sentinel. Qed.

#[export] Hint Rewrite Is_wrap1 Is_sentinel Is_new as_net_timeout_wrap1 as_sdk_wrap1
  as_unexpected_code_wrap1 Is_sentinelf Is_wrapf Is_failf : go.
