(* ===== verification/Runtime.v ===== *)
(** * The runtime the driver runs on: state, time, contexts and tickers

    A driver operation is a function on a [World]: a clock in nanoseconds, the state
    of whatever is outside the driver (cloud or host), and a trace of the calls made
    to it. [None] is the outcome of a loop that never returns or of a panic. *)

From S2P Require Import Prelude GoStrings GoErrors.

Local Open Scope Z_scope.

(** ** Durations *)

Definition Millisecond : Z := 1000000.
Definition Second : Z := 1000 * Millisecond.
Definition Minute : Z := 60 * Second.

(** ** The state monad *)

Record World (E L : Type) := mkWorld { clock : Z; env : E; trace : list L }.
Arguments mkWorld {E L} _ _ _.
Arguments clock {E L} _.
Arguments env {E L} _.
Arguments trace {E L} _.

Definition M (E L A : Type) : Type := World E L -> option (A * World E L).

(** The environment decides between two ready cases of a select statement. *)
Class Scheduler (E : Type) := choose : E -> bool * E.

(** An operation of the outside: given the time and its state, how long it takes, what it
    answers and the state it leaves. *)
Abbreviation prim E A := (Z -> E -> N * A * E) (only parsing).

Section Monad.
Context {E L : Type}.

Definition ret {A} (a : A) : M E L A := fun w => Some (a, w).

Definition bind {A B} (m : M E L A) (k : A -> M E L B) : M E L B := fun w =>
  match m w with
  | Some (a, w') => k a w'
  | None => None
  end.

(** The statement [if err != nil { return err }]: stop at the first error. *)
Definition try {A B} (m : M E L (result A)) (k : A -> M E L (result B)) : M E L (result B) :=
  bind m (fun r => match r with Ok a => k a | Err e => ret (Err e) end).

(** time.Now. *)
Definition now : M E L Z := fun w => Some (clock w, w).

(** No outcome: a loop that exhausts its fuel, or a panic. *)
Definition diverge {A} : M E L A := fun _ => None.

(** Using a pointer that may be nil. *)
Definition deref {A B} (p : option A) (k : A -> M E L B) : M E L B :=
  match p with Some a => k a | None => diverge end.

(** A call to the outside: it takes time, answers, changes the outside and leaves one
    event in the trace. *)
Definition call {A} (f : Z -> E -> N * A * E) (ev : A -> L) : M E L A := fun w =>
  let '(dt, a, e') := f (clock w) (env w) in
  Some (a, mkWorld (clock w + Z.of_N dt) e' (trace w ++ [ev a])).
End Monad.

Notation "'let!' x ':=' m 'in' k" := (bind m (fun x => k))
  (at level 10, x pattern, m at level 200, k at level 200) : go_scope.
Notation "'try!' x ':=' m 'in' k" := (try m (fun x => k))
  (at level 10, x pattern, m at level 200, k at level 200) : go_scope.

(** ** Contexts

    A context ends at its deadline or at the instant its caller cancels it, whichever
    is first. The caller's cancellation instant is not known to the code. *)
Record GoContext := mkContext { deadline : option Z; cancelled_at : option Z }.

(** context.Background and context.WithoutCancel. *)
Definition Background : GoContext := mkContext None None.
Definition WithoutCancel (ctx : GoContext) : GoContext := Background.

(** context.WithDeadline keeps an earlier deadline of the parent. *)
Definition WithDeadline (ctx : GoContext) (t : Z) : GoContext :=
  mkContext (Some (match deadline ctx with Some d => Z.min d t | None => t end))
            (cancelled_at ctx).

Definition cancel_first (ctx : GoContext) : bool :=
  match cancelled_at ctx, deadline ctx with
  | Some c, Some d => c <=? d
  | Some _, None => true
  | None, _ => false
  end.

(** The instant Done() closes. *)
Definition done_at (ctx : GoContext) : option Z :=
  if cancel_first ctx then cancelled_at ctx else deadline ctx.

Definition done_cause (ctx : GoContext) : sentinel :=
  if cancel_first ctx then Canceled else DeadlineExceeded.

(** ctx.Err() at an instant. *)
Definition ctx_err_at (ctx : GoContext) (t : Z) : option gerror :=
  match done_at ctx with
  | Some d => if d <=? t then Some (ESentinel (done_cause ctx)) else None
  | None => None
  end.

Section Contexts.
Context {E L : Type}.

Definition ctx_err (ctx : GoContext) : M E L (option gerror) := fun w =>
  Some (ctx_err_at ctx (clock w), w).

(** context.WithTimeout. *)
Definition with_timeout {A} (ctx : GoContext) (d : Z) (k : GoContext -> M E L A) : M E L A :=
  bind now (fun t => k (WithDeadline ctx (t + d))).

(** ** Tickers

    Ticks are due at start + k * period. The channel holds one tick: a tick that was
    due while nobody received is delivered at once and later ones are dropped. *)
Record Ticker := mkTicker { t_start : Z; t_period : Z; t_last : Z }.

Definition ticks (tk : Ticker) (t : Z) : Z := (t - t_start tk) / t_period tk.

Definition next_tick (tk : Ticker) : Z :=
  t_start tk + (ticks tk (t_last tk) + 1) * t_period tk.

Definition NewTicker (period : Z) : M E L Ticker := fun w =>
  Some (mkTicker (clock w) period (clock w), w).

Inductive selected := SelDone | SelTick (tk : Ticker).

(** [select { case <-ctx.Done(): ...; case <-ticker.C: ... }]: waits for the first of
    the two, and lets the scheduler choose when both are ready. *)
Definition select_done_tick `{Scheduler E} (ctx : GoContext) (tk : Ticker) : M E L selected :=
  fun w =>
  let tick := Z.max (clock w) (next_tick tk) in
  let fire := mkTicker (t_start tk) (t_period tk) tick in
  match done_at ctx with
  | None => Some (SelTick fire, mkWorld tick (env w) (trace w))
  | Some d =>
      let dn := Z.max (clock w) d in
      if dn <? tick then Some (SelDone, mkWorld dn (env w) (trace w))
      else if tick <? dn then Some (SelTick fire, mkWorld tick (env w) (trace w))
      else let '(b, e') := choose (env w) in
           Some (if b then SelDone else SelTick fire, mkWorld tick e' (trace w))
  end.

(** The polling loop the driver's waits share:
    [for { body; select { case <-ctx.Done(): return ctx.Err(); case <-ticker.C: } }].
    The body answers [Some] to leave the loop. *)
Fixpoint poll_loop `{Scheduler E} {A} (fuel : nat) (ctx : GoContext) (tk : Ticker)
    (body : M E L (option (result A))) : M E L (result A) :=
  match fuel with
  | O => diverge
  | S fuel =>
      bind body (fun o =>
      match o with
      | Some r => ret r
      | None =>
          bind (select_done_tick ctx tk) (fun s =>
          match s with
          | SelTick tk' => poll_loop fuel ctx tk' body
          | SelDone =>
              bind (ctx_err ctx) (fun e =>
              match e with
              | Some e => ret (Err e)
              | None => diverge
              end)
          end)
      end)
  end.
End Contexts.

(** ** A postcondition calculus

    [wp m Q w]: run in [w], [m] returns, the clock does not go back, the trace grows by
    some events, and [Q] holds of the value, those events and the final world. *)
Section Wp.
Context {E L : Type}.
Definition wp {A} (m : M E L A) (Q : A -> list L -> World E L -> Prop) (w : World E L) : Prop :=
  exists a w' evs, m w = Some (a, w') /\ trace w' = trace w ++ evs
    /\ clock w <= clock w' /\ Q a evs w'.

Lemma wp_mono {A} (m : M E L A) (Q Q' : A -> list L -> World E L -> Prop) w :
  wp m Q w -> (forall a evs w', clock w <= clock w' -> Q a evs w' -> Q' a evs w') -> wp m Q' w.
Proof. intros (a & w' & evs & ? & ? & ? & ?) HQ. exists a, w', evs. eauto. Qed.

Lemma wp_ret {A} (a : A) (Q : A -> list L -> World E L -> Prop) w : Q a [] w -> wp (ret a) Q w.
Proof. intros H. exists a, w, []. rewrite app_nil_r. by repeat split. Qed.

Lemma wp_bind {A B} (m : M E L A) (k : A -> M E L B) (Q : B -> list L -> World E L -> Prop) w :
  wp m (fun a evs w' => wp (k a) (fun b evs' w'' => Q b (evs ++ evs') w'') w') w ->
  wp (bind m k) Q w.
Proof.
  intros (a & w' & evs & Hm & Ht & Hc & b & w'' & evs' & Hk & Ht' & Hc' & HQ).
  exists b, w'', (evs ++ evs'). unfold bind. rewrite Hm.
  rewrite Ht', Ht, app_assoc. repeat split; auto. lia.
Qed.

Lemma wp_try {A B} (m : M E L (result A)) (k : A -> M E L (result B))
    (Q : result B -> list L -> World E L -> Prop) w :
  wp m (fun r evs w' => match r with
                        | Ok a => wp (k a) (fun b evs' w'' => Q b (evs ++ evs') w'') w'
                        | Err e => Q (Err e) evs w'
                        end) w ->
  wp (try m k) Q w.
Proof.
  intros H. apply wp_bind. eapply wp_mono; [exact H|]. intros [a|e] evs w' _ HQ; [exact HQ|].
  apply wp_ret. by rewrite app_nil_r.
Qed.

Lemma wp_now (Q : Z -> list L -> World E L -> Prop) w : Q (clock w) [] w -> wp now Q w.
Proof. intros H. exists (clock w), w, []. rewrite app_nil_r. by repeat split. Qed.

Lemma wp_ctx_err ctx (Q : option gerror -> list L -> World E L -> Prop) w :
  Q (ctx_err_at ctx (clock w)) [] w -> wp (ctx_err ctx) Q w.
Proof. intros H. exists (ctx_err_at ctx (clock w)), w, []. rewrite app_nil_r. by repeat split. Qed.

Lemma wp_with_timeout {A} ctx d (k : GoContext -> M E L A) Q w :
  wp (k (WithDeadline ctx (clock w + d))) Q w -> wp (with_timeout ctx d k) Q w.
Proof. intros H. apply wp_bind, wp_now. exact H. Qed.

Lemma wp_NewTicker period (Q : Ticker -> list L -> World E L -> Prop) w :
  Q (mkTicker (clock w) period (clock w)) [] w -> wp (NewTicker period) Q w.
Proof.
  intros H. eexists _, w, []. rewrite app_nil_r. repeat split; [done|exact H].
Qed.

Lemma wp_call {A} (f : Z -> E -> N * A * E) (ev : A -> L) (Q : A -> list L -> World E L -> Prop) w :
  (forall a w', clock w <= clock w' -> Q a [ev a] w') -> wp (call f ev) Q w.
Proof.
  intros H. unfold call. destruct (f (clock w) (env w)) as [[dt a] e'] eqn:Ef.
  eexists a, _, [ev a]. rewrite Ef. split; [done|]. simpl. repeat split; [lia|].
  apply H. simpl. lia.
Qed.

Lemma wp_and {A} (m : M E L A) (Q Q' : A -> list L -> World E L -> Prop) w :
  wp m Q w -> wp m Q' w -> wp m (fun a evs w' => Q a evs w' /\ Q' a evs w') w.
Proof.
  intros (a & w1 & evs & Hm & Ht & Hc & HQ) (a' & w1' & evs' & Hm' & Ht' & _ & HQ').
  rewrite Hm in Hm'. simplify_eq. rewrite Ht in Ht'. apply app_inv_head in Ht' as <-.
  exists a', w1', evs. auto.
Qed.

(** A run that returns satisfies every postcondition [wp] establishes. *)
Lemma wp_elim {A} (m : M E L A) Q w a w' :
  wp m Q w -> m w = Some (a, w') ->
  exists evs, trace w' = trace w ++ evs /\ clock w <= clock w' /\ Q a evs w'.
Proof. intros (b & w'' & evs & Hm & ? & ? & ?) Hm'. simplify_eq. eauto. Qed.
End Wp.

(** Steps through binds and the primitives of this file. *)
Ltac wp_step :=
  lazymatch goal with
  | |- wp (bind _ _) _ _ => apply wp_bind
  | |- wp (try _ _) _ _ => apply wp_try
  | |- wp (ret _) _ _ => apply wp_ret; rewrite ?app_nil_r
  | |- wp now _ _ => apply wp_now
  | |- wp (ctx_err _) _ _ => apply wp_ctx_err
  | |- wp (with_timeout _ _ _) _ _ => apply wp_with_timeout
  | |- wp (NewTicker _) _ _ => apply wp_NewTicker
  end.

(** ** Contexts and tickers: facts *)

Lemma done_at_WithDeadline ctx t :
  exists d, done_at (WithDeadline ctx t) = Some d /\ d <= t.
Proof.
  unfold done_at, cancel_first, WithDeadline. simpl.
  destruct (cancelled_at ctx) as [c|], (deadline ctx) as [d|]; simpl; case_goal;
    eexists; (split; [done|]); lia.
Qed.

(** A derived context ends no later than its parent. *)
Lemma ctx_err_WithDeadline ctx t u :
  is_Some (ctx_err_at ctx u) -> is_Some (ctx_err_at (WithDeadline ctx t) u).
Proof.
  unfold ctx_err_at, done_at, cancel_first, WithDeadline. simpl.
  destruct (cancelled_at ctx) as [c|], (deadline ctx) as [d|]; simpl;
    intros H; case_in H; destruct H as [x Hx]; simplify_eq; case_goal; eauto; lia.
Qed.

Lemma ctx_err_at_cause ctx t e :
  ctx_err_at ctx t = Some e -> e = ESentinel Canceled \/ e = ESentinel DeadlineExceeded.
Proof.
  unfold ctx_err_at, done_cause. intros H. case_in H; simplify_eq; auto.
Qed.

Lemma ctx_err_at_mono ctx t u e :
  t <= u -> ctx_err_at ctx t = Some e -> ctx_err_at ctx u = Some e.
Proof.
  unfold ctx_err_at. intros Htu H. destruct (done_at ctx) as [d|]; [|done].
  destruct (Z.leb_spec d t); [|done]. destruct (Z.leb_spec d u); [done|lia].
Qed.

Lemma ticks_next tk : 0 < t_period tk -> ticks tk (next_tick tk) = ticks tk (t_last tk) + 1.
Proof.
  intros Hp. unfold next_tick, ticks at 1. replace (t_start tk + _ - t_start tk)
    with ((ticks tk (t_last tk) + 1) * t_period tk) by lia. apply Z.div_mul. lia.
Qed.

Lemma ticks_mono tk t u : 0 < t_period tk -> t <= u -> ticks tk t <= ticks tk u.
Proof. intros. apply Z.div_le_mono; lia. Qed.

Lemma next_tick_gt tk : 0 < t_period tk -> t_last tk < next_tick tk.
Proof.
  intros Hp. unfold next_tick, ticks.
  pose proof (Z.div_mod (t_last tk - t_start tk) (t_period tk)) as Hdm.
  pose proof (Z.mod_pos_bound (t_last tk - t_start tk) (t_period tk)) as Hb. nia.
Qed.

(** A fired ticker remembers the instant of the tick it delivered. *)
Definition fired (tk : Ticker) (t : Z) : Ticker :=
  mkTicker (t_start tk) (t_period tk) (Z.max t (next_tick tk)).

Lemma wp_select {E L} `{Scheduler E} ctx tk (Q : selected -> list L -> World E L -> Prop) w d :
  done_at ctx = Some d ->
  (forall w', clock w <= clock w' -> d <= clock w' -> Q SelDone [] w') ->
  (forall w', clock w' = Z.max (clock w) (next_tick tk) ->
     (clock w' < d \/ d <= clock w /\ next_tick tk <= clock w \/ clock w' = d) ->
     Q (SelTick (fired tk (clock w))) [] w') ->
  wp (select_done_tick ctx tk) Q w.
Proof.
  intros Hd HD HT. unfold wp, select_done_tick. rewrite Hd.
  destruct (Z.ltb_spec (Z.max (clock w) d) (Z.max (clock w) (next_tick tk))).
  { eexists _, _, []. rewrite app_nil_r. repeat split; [simpl; lia|]. apply HD; simpl; lia. }
  destruct (Z.ltb_spec (Z.max (clock w) (next_tick tk)) (Z.max (clock w) d)).
  { eexists _, _, []. rewrite app_nil_r. repeat split; [simpl; lia|]. apply HT; simpl; lia. }
  destruct (choose (env w)) as [[] e'];
    (eexists _, _, []; rewrite app_nil_r; repeat split; [simpl; lia|]).
  - apply HD; simpl; lia.
  - apply HT; simpl; lia.
Qed.

Lemma ctx_err_at_done ctx d t :
  done_at ctx = Some d -> d <= t -> ctx_err_at ctx t = Some (ESentinel (done_cause ctx)).
Proof. intros Hd Hle. unfold ctx_err_at. rewrite Hd. by destruct (Z.leb_spec d t); [|lia]. Qed.

(** Enough fuel for a loop whose context ends at [d]: one turn per tick that can still
    come before [d], one for a tick left in the channel, one to notice the end. *)
Definition fuel_enough (fuel : nat) (d : Z) (tk : Ticker) : Prop :=
  Z.max 0 (ticks tk d - ticks tk (t_last tk)) + 2 <= Z.of_nat fuel.

(** The rule for polling loops: an invariant [I] on the events of the loop, a body that
    does not wait once the context has ended, and enough fuel. The loop then returns. *)
Lemma wp_poll {E L A} `{Scheduler E} fuel ctx tk (body : M E L (option (result A)))
    (I : list L -> Prop) (Q : result A -> list L -> World E L -> Prop) d w :
  0 < t_period tk -> done_at ctx = Some d -> fuel_enough fuel d tk ->
  (forall evs w, I evs ->
     wp body (fun o evs' w' =>
       match o with
       | Some r => Q r (evs ++ evs') w'
       | None => I (evs ++ evs') /\ (d <= clock w -> clock w' = clock w)
       end) w) ->
  (forall evs w', I evs -> d <= clock w' -> Q (Err (ESentinel (done_cause ctx))) evs w') ->
  I [] -> wp (poll_loop fuel ctx tk body) Q w.
Proof.
  intros Hp Hd Hfuel Hbody Hexit HI.
  assert (forall fuel tk evs w, I evs -> 0 < t_period tk ->
    (fuel_enough fuel d tk \/ (1 <= fuel)%nat /\ d <= clock w < next_tick tk) ->
    wp (poll_loop fuel ctx tk body) (fun r evs' w' => Q r (evs ++ evs') w') w) as Hloop;
    [|by apply (Hloop fuel tk [] w); auto].
  clear fuel tk w Hp Hfuel HI. induction fuel as [|fuel IH]; intros tk evs w HI Hp Hf.
  { exfalso. destruct Hf as [Hf|[? _]]; [unfold fuel_enough in Hf|]; lia. }
  cbn [poll_loop]. apply wp_bind. eapply wp_mono; [by apply Hbody|].
  intros [r|] evs1 w1 Hc1 HQ; [apply wp_ret; by rewrite app_nil_r|].
  destruct HQ as [HI1 Hstill]. apply wp_bind. apply (wp_select _ _ _ _ d Hd).
  - intros w2 Hc2 Hd2. do 2 wp_step. rewrite (ctx_err_at_done _ _ _ Hd Hd2).
    wp_step. by apply Hexit.
  - intros w2 Hc2 Hw2. eapply wp_mono.
    + apply (IH _ (evs ++ evs1)); [done|done|].
      set (tk' := fired tk (clock w1)).
      assert (t_last tk' = clock w2) as Hlast by (unfold tk', fired; simpl; lia).
      assert (clock w2 < next_tick tk') as Hnext
        by (rewrite <-Hlast; apply next_tick_gt; done).
      assert (1 <= fuel)%nat as Hf1.
      { destruct Hf as [Hf|[Hf1 Hf2]]; [unfold fuel_enough in Hf; lia|].
        rewrite Hstill in * by lia. lia. }
      destruct (Z_lt_le_dec (clock w2) d) as [Hlt|Hle]; [left|right; split; [done|lia]].
      assert (ticks tk (next_tick tk) <= ticks tk d) by (apply ticks_mono; lia).
      rewrite ticks_next in * by done.
      assert (ticks tk (t_last tk) + 1 <= ticks tk' (t_last tk')) as Hadv.
      { rewrite Hlast. change (ticks tk' (clock w2)) with (ticks tk (clock w2)).
        rewrite <-ticks_next by done. apply ticks_mono; lia. }
      destruct Hf as [Hf|[_ Hf]]; [|lia].
      unfold fuel_enough in *. change (ticks tk' d) with (ticks tk d). lia.
    + intros r evs2 w3 _ HQ. cbv beta in HQ |- *. by rewrite app_assoc.
Qed.

Lemma fuel_enough_new fuel d period t n :
  0 < period -> d <= t + n * period -> 0 <= n -> n + 2 <= Z.of_nat fuel ->
  fuel_enough fuel d (mkTicker t period t).
Proof.
  intros Hp Hd Hn Hf. unfold fuel_enough, ticks. simpl. rewrite Z.sub_diag, Z.div_0_l by lia.
  assert ((d - t) / period <= n) by (apply Z.div_le_upper_bound; lia). lia.
Qed.

(** ** Contexts that stay open, and loops that settle *)

(** The context does not end before or at [t]. *)
Definition lasts (ctx : GoContext) (t : Z) : Prop := forall d, done_at ctx = Some d -> t < d.

Lemma lasts_open ctx t : lasts ctx t -> ctx_err_at ctx t = None.
Proof.
  intros Hl. unfold ctx_err_at. destruct (done_at ctx) as [d|] eqn:Hd; [|done].
  specialize (Hl d Hd). by destruct (Z.leb_spec d t); [lia|].
Qed.

Lemma lasts_before ctx t u : u <= t -> lasts ctx t -> lasts ctx u.
Proof. intros Hu Hl d Hd. specialize (Hl d Hd). lia. Qed.

Lemma lasts_WithDeadline ctx t u : lasts ctx t -> t < u -> lasts (WithDeadline ctx u) t.
Proof.
  unfold lasts, done_at, cancel_first, WithDeadline. simpl. intros Hl Hu d.
  destruct (cancelled_at ctx) as [c|], (deadline ctx) as [e|]; simpl;
    repeat case_match; intros; simplify_eq;
    repeat match goal with
    | Hl : forall d, Some ?x = Some d -> _ |- _ => specialize (Hl x eq_refl)
    end; lia.
Qed.

(** The next tick of a ticker comes within its period after the last one. *)
Lemma next_tick_le tk : 0 < t_period tk -> next_tick tk <= t_last tk + t_period tk.
Proof.
  intros Hp. unfold next_tick, ticks.
  pose proof (Z.div_mod (t_last tk - t_start tk) (t_period tk)).
  pose proof (Z.mod_pos_bound (t_last tk - t_start tk) (t_period tk)). nia.
Qed.

(** A select before the end of the context waits for the tick. *)
Lemma wp_select_tick {E L} `{Scheduler E} ctx tk (Q : selected -> list L -> World E L -> Prop) w :
  lasts ctx (Z.max (clock w) (next_tick tk)) ->
  Q (SelTick (fired tk (clock w))) [] (mkWorld (Z.max (clock w) (next_tick tk)) (env w) (trace w)) ->
  wp (select_done_tick ctx tk) Q w.
Proof.
  intros Hl HQ. unfold wp, select_done_tick. destruct (done_at ctx) as [d|] eqn:Hd.
  - specialize (Hl d Hd). destruct (Z.ltb_spec (Z.max (clock w) d) (Z.max (clock w) (next_tick tk))); [lia|].
    destruct (Z.ltb_spec (Z.max (clock w) (next_tick tk)) (Z.max (clock w) d)); [|lia].
    eexists _, _, []. rewrite app_nil_r. split_and!; [done|done|simpl; lia|done].
  - eexists _, _, []. rewrite app_nil_r. split_and!; [done|done|simpl; lia|done].
Qed.

(** The rule for a polling loop whose body finds an answer from the instant [T] on: with a
    context that stays open long enough, the loop ends with an answer of the body. [P] is
    what holds of the outside in between, and a turn takes at most [s]. *)
Lemma wp_poll_settles {E L A} `{Scheduler E} fuel ctx tk (body : M E L (option (result A)))
    (P : E -> Prop) (Q : result A -> E -> Prop) s T last w :
  0 <= s -> 0 < t_period tk -> t_last tk <= clock w ->
  T + s + t_period tk <= last -> fuel_enough fuel last tk ->
  (forall w, P (env w) -> lasts ctx (clock w + s) ->
     wp body (fun o _ w' => clock w' <= clock w + s /\
       match o with Some r => Q r (env w') | None => P (env w') /\ clock w < T end) w) ->
  lasts ctx (Z.max (clock w) last + s) -> P (env w) ->
  wp (poll_loop fuel ctx tk body) (fun r _ w' =>
    Q r (env w') /\ clock w' <= Z.max (clock w) last + s) w.
Proof.
  intros Hs Hp Hlast HD Hf Hbody. revert tk w Hp Hlast HD Hf.
  induction fuel as [|fuel IH]; intros tk w Hp Hlast HD Hf Hctx HP; [unfold fuel_enough in Hf; lia|].
  cbn [poll_loop]. wp_step.
  eapply wp_mono; [apply Hbody; [done|eapply lasts_before; [|exact Hctx]; lia]|].
  intros [r|] evs1 w1 Hc1 [Hb HQ]; [wp_step; split; [done|lia]|]. destruct HQ as [HP1 HT].
  pose proof (next_tick_le tk Hp) as Hnext.
  wp_step. apply wp_select_tick; [eapply lasts_before; [|exact Hctx]; lia|].
  set (tk' := fired tk (clock w1)). set (w2 := mkWorld _ _ _).
  assert (ticks tk (t_last tk) + 1 <= ticks tk' (t_last tk')) as Hadv.
  { rewrite <-ticks_next by done. apply (ticks_mono tk); simpl; lia. }
  assert (ticks tk' (t_last tk') <= ticks tk last) as Hle by (apply (ticks_mono tk); simpl; lia).
  eapply wp_mono; [apply (IH tk' w2); [done|simpl; lia|done| |eapply lasts_before; [|exact Hctx]; simpl; lia|done]|].
  - unfold fuel_enough in *. change (ticks tk' last) with (ticks tk last). lia.
  - intros r evs2 w3 _ [HQ Hc3]. split; [done|]. simpl in Hc3. lia.
Qed.

(** ** Runs

    [runs m w Q]: run in [w], [m] returns, and [Q] holds of what it returns and of the
    events it leaves. *)
Definition runs {E L A} (m : M E L A) (w : World E L) (Q : A -> list L -> Prop) : Prop :=
  exists a w' evs, m w = Some (a, w') /\ trace w' = trace w ++ evs /\ Q a evs.

Lemma wp_runs {E L A} (m : M E L A) (Q : A -> list L -> Prop) w :
  wp m (fun a evs _ => Q a evs) w -> runs m w Q.
Proof. intros (a & w' & evs & ? & ? & _ & ?). by exists a, w', evs. Qed.

Lemma runs_mono {E L A} (m : M E L A) (Q Q' : A -> list L -> Prop) w :
  runs m w Q -> (forall a evs, Q a evs -> Q' a evs) -> runs m w Q'.
Proof. intros (a & w' & evs & ? & ? & ?) HQ. exists a, w', evs. eauto. Qed.

(** ** Lifting

    A computation with events of its own, as a part of one with more kinds of events. *)
Definition lift {E L L' A} (f : L -> L') (m : M E L A) : M E L' A := fun w =>
  match m (mkWorld (clock w) (env w) []) with
  | Some (a, w') => Some (a, mkWorld (clock w') (env w') (trace w ++ map f (trace w')))
  | None => None
  end.

Lemma wp_lift {E L L' A} (f : L -> L') (m : M E L A) (Q : A -> list L' -> World E L' -> Prop) w :
  wp m (fun a evs w' => forall w'', clock w'' = clock w' -> env w'' = env w' -> Q a (map f evs) w'')
    (mkWorld (clock w) (env w) []) ->
  wp (lift f m) Q w.
Proof.
  intros (a & w' & evs & Hm & Ht & Hc & HQ). simpl in Ht. subst evs.
  exists a. eexists _, (map f (trace w')). unfold lift. rewrite Hm.
  split_and!; [done|done|exact Hc|by apply HQ].
Qed.
