(* ===== verification/Replay.v ===== *)
(** * Replaying the events of a run on an abstract state

    A client of the outside (the cloud, the host) is told what its calls do to an abstract
    view of the outside's state by a relation [step]. A run is then a replay: the view at
    its end is the view at its beginning after the events the run left. *)

From S2P Require Import Prelude GoStrings GoErrors Runtime.

Local Open Scope stdpp_scope.

(** ** Replays *)

Section Replay.
Context {S L : Type}.
Variable step : S -> L -> S -> Prop.

Inductive replay : S -> list L -> S -> Prop :=
| replay_nil s : replay s [] s
| replay_cons s ev s' evs s'' : step s ev s' -> replay s' evs s'' -> replay s (ev :: evs) s''.

Lemma replay_one s ev s' : step s ev s' -> replay s [ev] s'.
Proof. intros Hs. by eapply replay_cons; [|constructor]. Qed.

Lemma replay_app s evs s' evs' s'' :
  replay s evs s' -> replay s' evs' s'' -> replay s (evs ++ evs') s''.
Proof. induction 1; [done|]. intros Hr. eapply replay_cons; eauto. Qed.

Lemma replay_nil_inv s s' : replay s [] s' -> s' = s.
Proof. by inversion 1. Qed.

Lemma replay_cons_inv s ev evs s'' :
  replay s (ev :: evs) s'' -> exists s', step s ev s' /\ replay s' evs s''.
Proof. inversion 1; subst; eauto. Qed.

Lemma replay_app_inv s evs evs' s'' :
  replay s (evs ++ evs') s'' -> exists s', replay s evs s' /\ replay s' evs' s''.
Proof.
  revert s. induction evs as [|ev evs IH]; intros s Hr; [by exists s; split; [constructor|]|].
  apply replay_cons_inv in Hr as (s1 & Hs & Hr). apply IH in Hr as (s2 & Hr1 & Hr2).
  exists s2. split; [by eapply replay_cons|done].
Qed.

(** Events that leave the state as it is. *)
Lemma replay_still (P : L -> Prop) s evs s' :
  (forall s ev s', P ev -> step s ev s' -> s' = s) ->
  Forall P evs -> replay s evs s' -> s' = s.
Proof.
  intros Hstill Hall Hr. induction Hr as [|s ev s1 evs s2 Hs _ IH]; [done|].
  apply Forall_cons_iff in Hall as [Hev Hall]. rewrite IH by done. by eapply Hstill.
Qed.
End Replay.

(** ** Runs that replay

    [tracked view m]: whatever [m] does to the outside's state is seen in its events. *)
Section Tracked.
Context {E S L : Type} (step : S -> L -> S -> Prop) (view : E -> S).

Definition tracked {A} (m : M E L A) : Prop := forall w a w', m w = Some (a, w') ->
  exists evs, trace w' = trace w ++ evs /\ replay step (view (env w)) evs (view (env w')).

Lemma tracked_ret {A} (a : A) : tracked (ret a).
Proof. intros w b w' [= <- <-]. exists []. rewrite app_nil_r. by split; [|constructor]. Qed.

Lemma tracked_diverge {A} : tracked (diverge : M E L A).
Proof. by intros w a w'. Qed.

Lemma tracked_bind {A B} (m : M E L A) (k : A -> M E L B) :
  tracked m -> (forall a, tracked (k a)) -> tracked (bind m k).
Proof.
  intros Hm Hk w b w' Hb. unfold bind in Hb. destruct (m w) as [[a w1]|] eqn:Em; [|done].
  destruct (Hm w a w1 Em) as (evs1 & Ht1 & Hr1). destruct (Hk a w1 b w' Hb) as (evs2 & Ht2 & Hr2).
  exists (evs1 ++ evs2). split; [by rewrite Ht2, Ht1, app_assoc|by eapply replay_app].
Qed.

Lemma tracked_try {A B} (m : M E L (result A)) (k : A -> M E L (result B)) :
  tracked m -> (forall a, tracked (k a)) -> tracked (try m k).
Proof. intros Hm Hk. apply tracked_bind; [done|]. intros [a|e]; [apply Hk|apply tracked_ret]. Qed.

Lemma tracked_ctx_err ctx : tracked (ctx_err ctx : M E L _).
Proof. intros w a w' [= <- <-]. exists []. rewrite app_nil_r. by split; [|constructor]. Qed.

Lemma tracked_now : tracked (now : M E L _).
Proof. intros w a w' [= <- <-]. exists []. rewrite app_nil_r. by split; [|constructor]. Qed.

Lemma tracked_with_timeout {A} ctx d (k : GoContext -> M E L A) :
  (forall ctx, tracked (k ctx)) -> tracked (with_timeout ctx d k).
Proof. intros Hk. apply tracked_bind; [apply tracked_now|]. intros t. apply Hk. Qed.

Lemma tracked_NewTicker period : tracked (NewTicker period : M E L _).
Proof. intros w a w' [= <- <-]. exists []. rewrite app_nil_r. by split; [|constructor]. Qed.

(** A call whose answer and effect follow the relation. *)
Lemma tracked_call {A} (f : Z -> E -> N * A * E) (ev : A -> L) :
  (forall t e, step (view e) (ev (f t e).1.2) (view (f t e).2)) -> tracked (call f ev).
Proof.
  intros Hf w a w' Hc. unfold call in Hc. specialize (Hf (clock w) (env w)).
  destruct (f (clock w) (env w)) as [[dt b] e'] eqn:Ef. injection Hc as <- <-.
  exists [ev b]. split; [done|]. by apply replay_one.
Qed.

Lemma wp_tracked {A} (m : M E L A) (Q : A -> list L -> World E L -> Prop) w :
  wp m Q w -> tracked m ->
  wp m (fun a evs w' => Q a evs w' /\ replay step (view (env w)) evs (view (env w'))) w.
Proof.
  intros (a & w' & evs & Hm & Ht & Hc & HQ) Htr. exists a, w', evs. split_and!; [done..|].
  destruct (Htr w a w' Hm) as (evs' & Ht' & Hr). rewrite Ht in Ht'.
  by apply app_inv_head in Ht' as <-.
Qed.
End Tracked.

(** Walks a computation down to its calls. *)
Ltac track_step :=
  lazymatch goal with
  | |- tracked _ _ (bind _ _) => apply tracked_bind; [|intros ?]
  | |- tracked _ _ (try _ _) => apply tracked_try; [|intros ?]
  | |- tracked _ _ (ret _) => apply tracked_ret
  | |- tracked _ _ (ctx_err _) => apply tracked_ctx_err
  | |- tracked _ _ (with_timeout _ _ _) => apply tracked_with_timeout; intros ?
  | |- tracked _ _ (match ?x with _ => _ end) => destruct x
  end.

(** ** The events of a run, whatever its outcome *)

(** Every event of a run satisfies [P]. *)
Definition emits {E L A} (P : L -> Prop) (m : M E L A) : Prop :=
  forall w a w', m w = Some (a, w') -> exists evs, trace w' = trace w ++ evs /\ Forall P evs.

Section Emits.
Context {E L : Type} (P : L -> Prop).

Lemma emits_ret {A} (a : A) : emits P (ret a : M E L A).
Proof. intros w b w' [= <- <-]. exists []. by rewrite app_nil_r. Qed.

Lemma emits_diverge {A} : emits P (diverge : M E L A).
Proof. by intros w a w'. Qed.

Lemma emits_bind {A B} (m : M E L A) (k : A -> M E L B) :
  emits P m -> (forall a, emits P (k a)) -> emits P (bind m k).
Proof.
  intros Hm Hk w b w'. unfold bind. destruct (m w) as [[a w1]|] eqn:Em; [|done]. intros Hb.
  destruct (Hm _ _ _ Em) as (evs & Ht & Hevs), (Hk _ _ _ _ Hb) as (evs' & Ht' & Hevs').
  exists (evs ++ evs'). rewrite Ht', Ht, app_assoc. split; [done|by apply Forall_app].
Qed.

Lemma emits_try {A B} (m : M E L (result A)) (k : A -> M E L (result B)) :
  emits P m -> (forall a, emits P (k a)) -> emits P (try m k).
Proof. intros Hm Hk. apply emits_bind; [done|]. intros [a|e]; [done|apply emits_ret]. Qed.

Lemma emits_ctx_err ctx : emits P (ctx_err ctx : M E L _).
Proof. intros w a w' [= <- <-]. exists []. by rewrite app_nil_r. Qed.

Lemma emits_NewTicker period : emits P (NewTicker period : M E L _).
Proof. intros w a w' [= <- <-]. exists []. by rewrite app_nil_r. Qed.

Lemma emits_call {A} (f : Z -> E -> N * A * E) ev :
  (forall a, P (ev a)) -> emits P (call f ev).
Proof.
  intros Hev w a w'. unfold call. destruct (f _ _) as [[dt b] e']. intros [= <- <-]. exists [ev b].
  split; [done|by constructor].
Qed.

Lemma emits_select `{Scheduler E} ctx tk : emits P (select_done_tick ctx tk : M E L _).
Proof.
  intros w a w' Hs. exists []. rewrite app_nil_r. split; [|done].
  unfold select_done_tick in Hs. case_in Hs; by simplify_eq.
Qed.

Lemma emits_poll `{Scheduler E} {A} fuel ctx tk (body : M E L (option (result A))) :
  emits P body -> emits P (poll_loop fuel ctx tk body).
Proof.
  intros Hb. revert tk. induction fuel as [|fuel IH]; intros tk; [apply emits_diverge|].
  simpl. apply emits_bind; [done|]. intros [r|]; [apply emits_ret|].
  apply emits_bind; [apply emits_select|]. intros [|tk']; [|done].
  apply emits_bind; [apply emits_ctx_err|]. intros [e|]; [apply emits_ret|apply emits_diverge].
Qed.

Lemma emits_with_timeout {A} ctx d (k : GoContext -> M E L A) :
  (forall u, emits P (k (WithDeadline ctx u))) -> emits P (with_timeout ctx d k).
Proof. intros Hk w a w' Hw. exact (Hk _ w a w' Hw). Qed.

Lemma emits_deref {A B} (o : option A) (k : A -> M E L B) :
  (forall a, o = Some a -> emits P (k a)) -> emits P (deref o k).
Proof. destruct o; simpl; intros Hk; [by apply Hk|apply emits_diverge]. Qed.
End Emits.

Create HintDb emits.
#[export] Hint Resolve emits_ret emits_diverge emits_bind emits_try emits_ctx_err
  emits_NewTicker emits_select emits_poll emits_with_timeout emits_deref : emits.

Lemma emits_now {E L} (P : L -> Prop) : emits P (now : M E L _).
Proof. intros w a w' [= <- <-]. exists []. by rewrite app_nil_r. Qed.

Lemma wp_emits {E L A} (P : L -> Prop) (m : M E L A) (Q : A -> list L -> World E L -> Prop) w :
  wp m Q w -> emits P m -> wp m (fun a evs w' => Q a evs w' /\ Forall P evs) w.
Proof.
  intros (a & w' & evs & Hm & Ht & Hc & HQ) He. exists a, w', evs. split_and!; [done..|].
  destruct (He w a w' Hm) as (evs' & Ht' & Hall). rewrite Ht in Ht'. by apply app_inv_head in Ht' as <-.
Qed.

(** Walks a computation down to its calls. *)
Ltac emit_step :=
  lazymatch goal with
  | |- emits _ (ret _) => apply emits_ret
  | |- emits _ diverge => apply emits_diverge
  | |- emits _ (bind _ _) => apply emits_bind; [|intros ?]
  | |- emits _ (try _ _) => apply emits_try; [|intros ?]
  | |- emits _ (ctx_err _) => apply emits_ctx_err
  | |- emits _ now => apply emits_now
  | |- emits _ (with_timeout _ _ _) => apply emits_with_timeout; intros ?
  | |- emits _ (match ?x with _ => _ end) => destruct x
  end.
