(* ===== verification/GoPath.v ===== *)
(** * Slash-separated paths: the functions of package path/filepath the driver calls

    On the driver's platform the separator is the slash and there are no volume names.
    The functions are lexical; they are defined on the list of path elements. *)

From S2P Require Import Prelude GoStrings GoErrors.

Local Open Scope stdpp_scope.

Definition slash : ascii := "/"%char.

Definition IsAbs (path : string) : bool := HasPrefix path "/".

(** ** Clean *)

(** One element against the elements kept so far, in reverse order. *)
Definition clean_step (rooted : bool) (kept : list string) (x : string) : list string :=
  if decide (x = "" \/ x = ".") then kept else
  if decide (x = "..") then
    match kept with
    | y :: kept' => if decide (y = "..") then x :: kept else kept'
    | [] => if rooted then [] else [x]
    end
  else x :: kept.

Definition clean_elems (rooted : bool) (l : list string) : list string :=
  rev (fold_left (clean_step rooted) l []).

(** The elements of a path after cleaning. *)
Definition elems (path : string) : list string :=
  clean_elems (IsAbs path) (split_on slash path).

Definition render (rooted : bool) (l : list string) : string :=
  if rooted then "/" +:+ Join l "/" else
  match l with [] => "." | _ => Join l "/" end.

Definition Clean (path : string) : string := render (IsAbs path) (elems path).

(** ** Dir and Join *)

(** The path up to and including its last slash. *)
Fixpoint upto_slash (s : string) : string :=
  match s with
  | EmptyString => ""
  | String a t =>
      if contains_byte slash t then String a (upto_slash t)
      else if byte_eqb a slash then "/" else ""
  end.

Definition Dir (path : string) : string := Clean (upto_slash path).

(** filepath.Base: the last element, without trailing slashes. *)
Fixpoint trim_slashes (rev_path : string) : string :=
  match rev_path with
  | String a t => if byte_eqb a slash then trim_slashes t else rev_path
  | EmptyString => EmptyString
  end.

Fixpoint until_slash (s : string) : string :=
  match s with
  | String a t => if byte_eqb a slash then EmptyString else String a (until_slash t)
  | EmptyString => EmptyString
  end.

Definition Base (path : string) : string :=
  if bool_decide (path = "") then "." else
  let last := String.rev (until_slash (trim_slashes (String.rev path))) in
  if bool_decide (last = "") then "/" else last.

Example bases : map Base [""; "/"; "a"; "/a/b"; "/a/b//"; "a/"] = ["."; "/"; "a"; "b"; "b"; "a"].
Proof. by vm_compute. Qed.

(** filepath.Join of two elements. *)
Definition path_Join (a b : string) : string :=
  if decide (a = "") then (if decide (b = "") then "" else Clean b)
  else Clean (a +:+ "/" +:+ b).

(** ** Rel *)

Fixpoint strip_common (base targ : list string) : list string * list string :=
  match base, targ with
  | b :: base', t :: targ' =>
      if decide (b = t) then strip_common base' targ' else (base, targ)
  | _, _ => (base, targ)
  end.

(** filepath.Rel for an absolute target, which a relative base cannot reach. *)
Definition Rel (base targ : string) : result string :=
  if negb (IsAbs base) then
    Err (ENew ("Rel: can't make " +:+ targ +:+ " relative to " +:+ base)) else
  if decide (Clean targ = Clean base) then Ok "." else
  let '(b, t) := strip_common (elems base) (elems targ) in
  Ok (Join (map (fun _ => "..") b ++ t) "/").

(** ** Facts about splitting and joining *)

Lemma split_on_ne sep s : split_on sep s <> [].
Proof. destruct s; simpl; [done|]. case_goal; done. Qed.

Lemma split_on_no_sep sep s x : x ∈ split_on sep s -> contains_byte sep x = false.
Proof.
  revert x. induction s as [|a s IH]; intros x; simpl.
  - by intros ->%list_elem_of_singleton.
  - destruct (byte_eqb a sep) eqn:Ea.
    + intros [->|Hx]%elem_of_cons; [done|auto].
    + destruct (split_on sep s) as [|y l]; intros [->|Hx]%elem_of_cons; simpl.
      * rewrite byte_eqb_sym, Ea. done.
      * by apply elem_of_nil in Hx.
      * rewrite byte_eqb_sym, Ea. apply IH. set_solver.
      * apply IH. set_solver.
Qed.

Lemma split_on_concat sep x s :
  split_on sep (x +:+ String sep s) = split_on sep x ++ split_on sep s.
Proof.
  induction x as [|a x IH]; [simpl; by rewrite byte_eqb_refl|].
  change (String a x +:+ String sep s) with (String a (x +:+ String sep s)). simpl. rewrite IH.
  destruct (byte_eqb a sep); [done|]. destruct (split_on sep x) eqn:Ex; [by destruct (split_on_ne sep x)|done].
Qed.

Lemma split_on_Join_words sep l :
  l <> [] -> split_on sep (Join l (String sep "")) = concat (map (split_on sep) l).
Proof.
  induction l as [|x [|y l] IH]; intros Hne; [done|by simpl; rewrite app_nil_r|].
  change (Join (x :: y :: l) (String sep ""))
    with (x +:+ String sep (Join (y :: l) (String sep ""))).
  by rewrite split_on_concat, IH.
Qed.

Lemma split_on_app sep x s :
  contains_byte sep x = false ->
  split_on sep (x +:+ String sep s) = x :: split_on sep s.
Proof.
  induction x as [|a x IH]; intros Hx; simpl.
  - by rewrite byte_eqb_refl.
  - simpl in Hx. apply orb_false_iff in Hx as [Ha Hx].
    change (String a x +:+ String sep s) with (String a (x +:+ String sep s)). simpl.
    rewrite byte_eqb_sym, Ha, IH by done. done.
Qed.

Lemma split_on_whole sep x : contains_byte sep x = false -> split_on sep x = [x].
Proof.
  induction x as [|a x IH]; intros Hx; simpl; [done|].
  simpl in Hx. apply orb_false_iff in Hx as [Ha Hx]. by rewrite byte_eqb_sym, Ha, IH.
Qed.

Lemma split_on_Join sep l :
  l <> [] -> Forall (fun x => contains_byte sep x = false) l ->
  split_on sep (Join l (String sep "")) = l.
Proof.
  induction l as [|x [|y l] IH]; intros Hne Hl; [done| |].
  - apply Forall_cons_iff in Hl as [Hx _]. by apply split_on_whole.
  - apply Forall_cons_iff in Hl as [Hx Hl]. 
    change (Join (x :: y :: l) (String sep ""))
      with (x +:+ String sep (Join (y :: l) (String sep ""))).
    rewrite split_on_app by done. by rewrite IH.
Qed.

(** ** Cleaned element lists *)

(** What [clean_step] keeps, in reverse order: names, and leading parent references only
    in a relative path. *)
Inductive kept_ok (rooted : bool) : list string -> Prop :=
| kept_nil : kept_ok rooted []
| kept_name x kept : x <> "" -> x <> "." -> x <> ".." -> contains_byte slash x = false ->
    kept_ok rooted kept -> kept_ok rooted (x :: kept)
| kept_up kept : rooted = false -> Forall (fun y => y = "..") kept ->
    kept_ok rooted kept -> kept_ok rooted (".." :: kept).

Lemma clean_step_ok rooted kept x :
  contains_byte slash x = false -> kept_ok rooted kept -> kept_ok rooted (clean_step rooted kept x).
Proof.
  intros Hx Hk. unfold clean_step. destruct (decide (x = "" \/ x = ".")) as [|H1]; [done|].
  destruct (decide (x = "..")) as [->|H2].
  - destruct Hk as [|y kept Hy1 Hy2 Hy3 Hy4 Hk|kept Hr Hup Hk].
    + destruct rooted eqn:Er; [constructor|]. by apply kept_up; [|constructor|constructor].
    + by rewrite decide_False.
    + rewrite decide_True by done. apply kept_up; [done|by constructor|by apply kept_up].
  - by apply kept_name; auto.
Qed.

Lemma clean_elems_ok rooted l :
  Forall (fun x => contains_byte slash x = false) l ->
  kept_ok rooted (fold_left (clean_step rooted) l []).
Proof.
  assert (forall kept, kept_ok rooted kept -> Forall (fun x => contains_byte slash x = false) l ->
    kept_ok rooted (fold_left (clean_step rooted) l kept)) as Hgen; [|apply Hgen; constructor].
  induction l as [|x l IH]; intros kept Hk Hl; simpl; [done|].
  apply Forall_cons_iff in Hl as [Hx Hl]. apply IH; [|done]. by apply clean_step_ok.
Qed.

(** Cleaning keeps a list that is clean already. *)
Lemma clean_elems_again rooted kept :
  kept_ok rooted kept -> clean_elems rooted (rev kept) = rev kept.
Proof.
  intros Hk. unfold clean_elems. f_equal. induction Hk as [|x kept H1 H2 H3 _ _ IH|kept -> Hup _ IH].
  - done.
  - simpl. rewrite fold_left_app, IH. simpl. unfold clean_step.
    rewrite decide_False, decide_False; [done|done|by intros [|]].
  - simpl. rewrite fold_left_app, IH. simpl. unfold clean_step. simpl.
    destruct Hup as [|y kept -> _]; [done|]. by rewrite decide_True.
Qed.

Lemma elems_kept path : exists kept, kept_ok (IsAbs path) kept /\ elems path = rev kept.
Proof.
  exists (fold_left (clean_step (IsAbs path)) (split_on slash path) []). split; [|done].
  apply clean_elems_ok, list.Forall_forall. intros x. apply split_on_no_sep.
Qed.

Lemma kept_no_slash rooted kept :
  kept_ok rooted kept -> Forall (fun x => contains_byte slash x = false) (rev kept).
Proof.
  intros Hk. apply Forall_rev. induction Hk; constructor; auto.
Qed.

Lemma kept_ne rooted kept x : kept_ok rooted kept -> x ∈ rev kept -> x <> "".
Proof.
  intros Hk Hx. rewrite list_elem_of_In, <-in_rev, <-list_elem_of_In in Hx. induction Hk as [|y kept ? _ _ _ _ IH|kept _ _ _ IH].
  - by apply elem_of_nil in Hx.
  - apply elem_of_cons in Hx as [->|Hx]; auto.
  - apply elem_of_cons in Hx as [->|Hx]; auto.
Qed.

Lemma IsAbs_slash s : IsAbs (String slash s) = true.
Proof. by destruct s. Qed.

Lemma IsAbs_other a s : a <> slash -> IsAbs (String a s) = false.
Proof.
  intros Ha. destruct (IsAbs (String a s)) eqn:E; [|done].
  apply HasPrefix_spec in E as [t Ht]. injection Ht as Ht _. by destruct Ha.
Qed.

(** The kind and the elements of a rendered path. *)
Lemma render_IsAbs rooted kept : kept_ok rooted kept -> IsAbs (render rooted (rev kept)) = rooted.
Proof.
  intros Hk. unfold render. destruct rooted; [apply IsAbs_slash|].
  pose proof (kept_no_slash _ _ Hk) as Hs. pose proof (fun x => kept_ne _ _ x Hk) as Hne.
  destruct (rev kept) as [|x l]; [done|].
  apply Forall_cons_iff in Hs as [Hs _].
  destruct x as [|a x]; [by destruct (Hne ""); [apply list_elem_of_here|]|].
  assert (a <> slash) as Ha by (by intros ->).
  destruct l; simpl Join; by apply IsAbs_other.
Qed.

Lemma elems_render rooted kept : kept_ok rooted kept -> elems (render rooted (rev kept)) = rev kept.
Proof.
  intros Hk. unfold elems. rewrite (render_IsAbs _ _ Hk). rewrite <-(clean_elems_again _ _ Hk) at 2.
  pose proof (kept_no_slash _ _ Hk) as Hs. unfold render.
  destruct (rev kept) as [|x l] eqn:El; [by destruct rooted|].
  assert (split_on slash (Join (x :: l) "/") = x :: l) as Hsplit by (by apply split_on_Join).
  destruct rooted; [|by rewrite Hsplit].
  change ("/" +:+ Join (x :: l) "/") with ("" +:+ String slash (Join (x :: l) "/")).
  by rewrite split_on_app, Hsplit by done.
Qed.

Lemma Clean_facts path :
  Clean (Clean path) = Clean path /\ IsAbs (Clean path) = IsAbs path
  /\ elems (Clean path) = elems path.
Proof.
  destruct (elems_kept path) as (kept & Hk & Hel).
  pose proof (render_IsAbs _ _ Hk) as Habs. pose proof (elems_render _ _ Hk) as Helems.
  assert (Clean path = render (IsAbs path) (rev kept)) as -> by (unfold Clean; by rewrite Hel).
  rewrite Habs, Helems, Hel. split_and!; [|done..]. unfold Clean. by rewrite Habs, Helems.
Qed.

(** ** Properties *)

(** Clean is idempotent, keeps whether a path is absolute, and the path it returns has
    the same elements: none empty, none a dot, and parent references only at the front of
    a relative path. *)
Theorem Clean_idempotent path :
  Clean (Clean path) = Clean path
  /\ IsAbs (Clean path) = IsAbs path /\ elems (Clean path) = elems path
  /\ kept_ok (IsAbs path) (rev (elems path)).
Proof.
  destruct (Clean_facts path) as (H1 & H2 & H3). split_and!; [done..|].
  destruct (elems_kept path) as (kept & Hk & ->). by rewrite rev_involutive.
Qed.
