(* ===== verification/GoURL.v ===== *)
(** * URLs: the part of package net/url the driver uses

    What counts as a URL changes between releases of the language, so the parser is an
    operation of the class [CloudURLs], and the theorems hold for every one. The driver
    reads the fields below and, in one place, prints a URL it has changed the path of. *)

From S2P Require Import Prelude GoStrings GoErrors.

Local Open Scope stdpp_scope.

Record ParsedURL := mkParsedURL {
  u_Scheme : string; u_User : option string; u_Host : string; u_Path : string;
  u_RawQuery : string; u_Fragment : string }.

(** url.Parse and URL.String. *)
Class CloudURLs := {
  url_Parse : string -> result ParsedURL;
  url_String : ParsedURL -> string }.

Definition set_path (u : ParsedURL) (path : string) : ParsedURL :=
  mkParsedURL (u_Scheme u) (u_User u) (u_Host u) path (u_RawQuery u) (u_Fragment u).
