(* ===== verification/GoTime.v ===== *)
(** * Durations and instants as text: the functions of package time the end-to-end asset calls

    A duration is a number of nanoseconds in 64 bits. Duration.String, Duration.Round and
    ParseDuration follow the standard library step by step; the one floating-point
    expression of ParseDuration is computed with the binary64 arithmetic of SpecFloat. *)

From Stdlib Require Import SpecFloat.
From S2P Require Import Prelude GoStrings GoErrors Runtime.

Local Open Scope stdpp_scope.
Local Open Scope Z_scope.

Definition Microsecond : Z := 1000.
Definition Hour : Z := 60 * Minute.

(** ** 64-bit arithmetic *)

Definition min_int64 : Z := - 2 ^ 63.
Definition max_int64 : Z := 2 ^ 63 - 1.

(** A result in two's complement. *)
Definition wrap_int64 (z : Z) : Z := (z + 2 ^ 63) mod 2 ^ 64 - 2 ^ 63.

(** ** Duration.String *)

Definition digit (n : Z) : ascii := ascii_of_N (Z.to_N (48 + n)).

(** fmtFrac: the fraction of [v] over 10^[prec] without trailing zeros, in front of
    [tail]; then the integer part. [print] tells whether a digit has been written. *)
Fixpoint fmtFrac (prec : nat) (v : Z) (print : bool) (tail : string) : string * Z :=
  match prec with
  | O => (if print then String "." tail else tail, v)
  | S prec =>
      let d := v mod 10 in
      let print := print || negb (d =? 0) in
      fmtFrac prec (v / 10) print (if print then String (digit d) tail else tail)
  end.

Definition micro_unit : string := String "194" (String "181" "s").

Definition Duration_String (d : Z) : string :=
  let u := Z.abs d in
  let body :=
    if u <? Second then
      if u =? 0 then "0s"
      else if u <? Microsecond then let '(f, v) := fmtFrac 0 u false "ns" in itoa v +:+ f
      else if u <? Millisecond then let '(f, v) := fmtFrac 3 u false micro_unit in itoa v +:+ f
      else let '(f, v) := fmtFrac 6 u false "ms" in itoa v +:+ f
    else
      let '(f, s) := fmtFrac 9 u false "s" in
      let secs := itoa (s mod 60) +:+ f in
      let m := s / 60 in
      if 0 <? m then
        let mins := itoa (m mod 60) +:+ "m" +:+ secs in
        let h := m / 60 in
        if 0 <? h then itoa h +:+ "h" +:+ mins else mins
      else secs in
  if d <? 0 then String "-" body else body.

(** Duration.Round: to the nearest multiple, halves away from zero. *)
Definition Round (d m : Z) : Z :=
  if m <=? 0 then d else
  let r := Z.rem d m in
  if d <? 0 then
    let r := - r in
    if r + r <? m then d + r
    else let d1 := wrap_int64 (d - m + r) in if d1 <? d then d1 else min_int64
  else
    if r + r <? m then d - r
    else let d1 := wrap_int64 (d + m - r) in if d <? d1 then d1 else max_int64.

(** ** ParseDuration *)

Definition is_digit (a : ascii) : bool := byte_in 48 57 a.
Definition digit_value (a : ascii) : Z := byte_code a - 48.

(** leadingInt: the value of the leading digits, or [None] beyond 2^63, and the rest. *)
Fixpoint leadingInt (x : Z) (s : string) : option (Z * string) :=
  match s with
  | EmptyString => Some (x, s)
  | String c t =>
      if negb (is_digit c) then Some (x, s)
      else if 2 ^ 63 / 10 <? x then None
      else
        let y := x * 10 + digit_value c in
        if 2 ^ 63 <? y then None else leadingInt y t
  end.

(** leadingFraction: the digits as a number, how many of them it holds, and the rest;
    digits beyond 63 bits are dropped. *)
Fixpoint leadingFraction (x : Z) (k : nat) (overflow : bool) (s : string) : Z * nat * string :=
  match s with
  | EmptyString => (x, k, s)
  | String c t =>
      if negb (is_digit c) then (x, k, s)
      else if overflow then leadingFraction x k true t
      else if (2 ^ 63 - 1) / 10 <? x then leadingFraction x k true t
      else
        let y := x * 10 + digit_value c in
        if 2 ^ 63 <? y then leadingFraction x k true t else leadingFraction y (S k) false t
  end.

(** float64 of a non-negative integer. *)
Definition float64 (n : Z) : spec_float := binary_normalize 53 1024 n 0 false.

(** Conversion to uint64: the integer part. *)
Definition float_to_Z (f : spec_float) : Z :=
  match f with
  | S754_finite false m e => Z.shiftl (Zpos m) e
  | _ => 0
  end.

(** uint64(float64(f) * (float64(unit) / scale)) for the scale 10^k, which is exact. *)
Definition fraction_of (f unit : Z) (k : nat) : Z :=
  float_to_Z (SFmul 53 1024 (float64 f) (SFdiv 53 1024 (float64 unit) (float64 (10 ^ Z.of_nat k)))).

Definition unitMap (u : string) : option Z :=
  if bool_decide (u = "ns") then Some 1
  else if bool_decide (u = "us") || bool_decide (u = micro_unit)
          || bool_decide (u = String "206" (String "188" "s")) then Some Microsecond
  else if bool_decide (u = "ms") then Some Millisecond
  else if bool_decide (u = "s") then Some Second
  else if bool_decide (u = "m") then Some Minute
  else if bool_decide (u = "h") then Some Hour
  else None.

(** The unit: everything up to a digit or a dot. *)
Fixpoint unit_text (s : string) : string :=
  match s with
  | EmptyString => ""
  | String c t => if byte_eqb c "." || is_digit c then "" else String c (unit_text t)
  end.

(** The loop over the terms; [None] is an invalid duration. A turn takes at least one byte,
    so the length of the text is enough fuel. *)
Fixpoint duration_terms (fuel : nat) (d : Z) (s : string) : option Z :=
  match fuel with
  | O => None
  | S fuel =>
      match s with
      | EmptyString => Some d
      | String c _ =>
          if negb (byte_eqb c "." || is_digit c) then None else
          match leadingInt 0 s with
          | None => None
          | Some (v, s1) =>
              let pre := negb (String.length s =? String.length s1)%nat in
              let '(f, k, s2, post) :=
                match s1 with
                | String c1 t1 =>
                    if byte_eqb c1 "." then
                      let '(f, k, r) := leadingFraction 0 0 false t1 in
                      (f, k, r, negb (String.length t1 =? String.length r)%nat)
                    else (0, 0%nat, s1, false)
                | EmptyString => (0, 0%nat, s1, false)
                end in
              if negb pre && negb post then None else
              let u := unit_text s2 in
              if bool_decide (u = "") then None else
              let s3 := string_drop (String.length u) s2 in
              match unitMap u with
              | None => None
              | Some unit =>
                  if 2 ^ 63 / unit <? v then None else
                  let v := v * unit in
                  let v' := if 0 <? f then v + fraction_of f unit k else v in
                  if (0 <? f) && (2 ^ 63 <? v') then None else
                  let d := (d + v') mod 2 ^ 64 in
                  if 2 ^ 63 <? d then None else duration_terms fuel d s3
              end
          end
      end
  end.

Definition ParseDuration (s : string) : option Z :=
  let '(neg, body) :=
    match s with
    | String c t => if byte_eqb c "-" then (true, t) else if byte_eqb c "+" then (false, t) else (false, s)
    | EmptyString => (false, s)
    end in
  if bool_decide (body = "0") then Some 0
  else if bool_decide (body = "") then None
  else
    match duration_terms (S (String.length body)) 0 body with
    | None => None
    | Some d => if neg then Some (- d) else if 2 ^ 63 - 1 <? d then None else Some d
    end.

(** ** Instants *)

(** The date of a day counted from 1 January 1970: year, month, day. *)
Definition civil (days : Z) : Z * Z * Z :=
  let z := days + 719468 in
  let era := z / 146097 in
  let doe := z mod 146097 in
  let yoe := (doe - doe / 1460 + doe / 36524 - doe / 146096) / 365 in
  let doy := doe - (365 * yoe + yoe / 4 - yoe / 100) in
  let mp := (5 * doy + 2) / 153 in
  let day := doy - (153 * mp + 2) / 5 + 1 in
  let month := if mp <? 10 then mp + 3 else mp - 9 in
  (yoe + era * 400 + (if month <=? 2 then 1 else 0), month, day).

(** A non-negative number with at least [width] digits. *)
Definition zero_padded (width : nat) (n : Z) : string :=
  let s := itoa n in
  foldr (fun _ acc => String "0" acc) s (seq 0 (width - String.length s)).

(** t.UTC().Format(time.RFC3339) of an instant in nanoseconds from 1970, for the years of
    four digits and more. *)
Definition RFC3339 (t : Z) : string :=
  let secs := t / Second in
  let '(year, month, day) := civil (secs / 86400) in
  let s := secs mod 86400 in
  zero_padded 4 year +:+ "-" +:+ zero_padded 2 month +:+ "-" +:+ zero_padded 2 day +:+ "T"
    +:+ zero_padded 2 (s / 3600) +:+ ":" +:+ zero_padded 2 (s / 60 mod 60) +:+ ":"
    +:+ zero_padded 2 (s mod 60) +:+ "Z".

(** ** Facts *)

(** Rounding answers the nearest multiple, when the neighbours fit in 64 bits. *)
Lemma Round_nearest d m :
  0 < m -> min_int64 + m <= d -> d + m <= max_int64 ->
  (m | Round d m) /\ 2 * Z.abs (Round d m - d) <= m.
Proof.
  intros Hm Hlo Hhi. unfold Round. destruct (Z.leb_spec m 0); [lia|].
  pose proof (Z.quot_rem' d m) as Hq. assert (wrap_int64 (d - m + - Z.rem d m) = d - m - Z.rem d m \/ 0 <= d) as Hw1.
  { destruct (Z.lt_ge_cases d 0) as [Hd|]; [left|by right].
    pose proof (Z.rem_bound_pos_neg d m Hm (Z.lt_le_incl _ _ Hd)). unfold wrap_int64, min_int64, max_int64 in *.
    rewrite Z.mod_small; lia. }
  assert (wrap_int64 (d + m - Z.rem d m) = d + m - Z.rem d m \/ d < 0) as Hw2.
  { destruct (Z.lt_ge_cases d 0) as [|Hd]; [by right|left].
    pose proof (Z.rem_bound_pos d m Hd Hm). unfold wrap_int64, min_int64, max_int64 in *.
    rewrite Z.mod_small; lia. }
  assert (forall k, d - Z.rem d m + k * m = (Z.quot d m + k) * m) as Hk by lia.
  destruct (Z.ltb_spec d 0) as [Hd|Hd].
  - destruct Hw1 as [Hw1|]; [|lia]. pose proof (Z.rem_bound_pos_neg d m Hm (Z.lt_le_incl _ _ Hd)).
    destruct (Z.ltb_spec (- Z.rem d m + - Z.rem d m) m); [split; [exists (Z.quot d m); lia|lia]|].
    rewrite Hw1. destruct (Z.ltb_spec (d - m - Z.rem d m) d); [|lia].
    split; [exists (Z.quot d m + -1); lia|lia].
  - destruct Hw2 as [Hw2|]; [|lia]. pose proof (Z.rem_bound_pos d m Hd Hm).
    destruct (Z.ltb_spec (Z.rem d m + Z.rem d m) m); [split; [exists (Z.quot d m); lia|lia]|].
    rewrite Hw2. destruct (Z.ltb_spec d (d + m - Z.rem d m)); [|lia].
    split; [exists (Z.quot d m + 1); lia|lia].
Qed.

(** ** Concrete values *)

Example duration_texts :
  map Duration_String [0; 1; 1500; 2500000; Second; 90 * Second; 45 * Minute; 2 * Hour; - 1500 * Millisecond]
  = ["0s"; "1ns"; "1.5" +:+ micro_unit; "2.5ms"; "1s"; "1m30s"; "45m0s"; "2h0m0s"; "-1.5s"].
Proof. by vm_compute. Qed.

Example parsed_durations :
  map ParseDuration ["45m"; "1h30m"; "1.5s"; "-2ms"; "0"; ".5h"; "3"; "m"; "1d"; ""; "0.1s"; "2562047h47m16.854775807s"]
  = [Some (45 * Minute); Some (90 * Minute); Some (1500 * Millisecond); Some (- 2 * Millisecond); Some 0;
     Some (30 * Minute); None; None; None; None; Some (100 * Millisecond); Some max_int64].
Proof. by vm_compute. Qed.

Example rounded : map (fun d => Round d Millisecond) [1499999; 1500000; - 1500000; - 1499999; 7]
  = [Millisecond; 2 * Millisecond; - 2 * Millisecond; - Millisecond; 0].
Proof. by vm_compute. Qed.

Example instants :
  map (fun s => RFC3339 (s * Second)) [0; 951782399; 951782400; 1767225599; 4107542399]
  = ["1970-01-01T00:00:00Z"; "2000-02-28T23:59:59Z"; "2000-02-29T00:00:00Z"; "2025-12-31T23:59:59Z";
     "2100-02-28T23:59:59Z"].
Proof. by vm_compute. Qed.
