(* ===== verification/GoTabwriter.v ===== *)
(** * Aligned columns: package text/tabwriter as the end-to-end asset uses it

    A writer made by NewWriter(w, 0, 4, 2, ' ', 0): no minimal width, two spaces of
    padding, cells aligned to the left, no flags. Text is written to it, and Flush hands
    the aligned text to the destination. The byte 0xff, which opens an escaped passage,
    occurs in no UTF-8 text and is not treated. *)

From S2P Require Import Prelude GoStrings.

Local Open Scope stdpp_scope.
Local Open Scope nat_scope.

Definition padding : nat := 2.

(** utf8.RuneCountInString on valid UTF-8: the bytes that do not continue a rune. *)
Fixpoint rune_count (s : string) : nat :=
  match s with
  | EmptyString => 0
  | String a t => (if byte_in 128 191 a then 0 else 1) + rune_count t
  end.

Definition htab : ascii := "009"%char.
Definition vtab : ascii := "011"%char.
Definition formfeed : ascii := "012"%char.

(** ** Cells

    A line is the list of its cells; only a cell a tab ends belongs to a column. *)

Definition is_tab (a : ascii) : bool := byte_eqb a htab || byte_eqb a vtab.

Fixpoint cells (s : string) : list string :=
  match s with
  | EmptyString => [""]
  | String a t =>
      if is_tab a then "" :: cells t
      else match cells t with
           | c :: l => String a c :: l
           | [] => [String a ""]
           end
  end.

(** ** Columns *)

(** Whether the line has a cell in the column. *)
Definition in_column (j : nat) (line : list string) : bool := j <? length line - 1.

Fixpoint run_width (j : nat) (lines : list (list string)) : nat :=
  match lines with
  | [] => 0
  | line :: lines =>
      if in_column j line
      then Nat.max (rune_count (nth j line "") + padding) (run_width j lines)
      else 0
  end.

(** The width of the column block around a line: the widest cell of the consecutive lines
    before and after it that have the column. *)
Definition block_width (j : nat) (above : list (list string)) (line : list string)
    (below : list (list string)) : nat :=
  Nat.max (run_width j above) (run_width j (line :: below)).

Fixpoint spaces (n : nat) : string :=
  match n with O => "" | S n => String " " (spaces n) end.

Fixpoint format_cells (j : nat) (width : nat -> nat) (line : list string) : string :=
  match line with
  | [] => ""
  | [c] => c
  | c :: line => c +:+ spaces (width j - rune_count c) +:+ format_cells (S j) width line
  end.

(** [above] holds the lines before, the nearest first. *)
Fixpoint format_lines (above lines : list (list string)) : list string :=
  match lines with
  | [] => []
  | line :: lines =>
      format_cells 0 (fun j => block_width j above line lines) line :: format_lines (line :: above) lines
  end.

(** A form feed ends a line and the blocks above it. *)
Definition tabwriter (text : string) : string :=
  Join (map (fun section => Join (format_lines [] (map cells (split_on newline section))) (String newline ""))
          (split_on formfeed text)) (String newline "").

(** ** Facts *)

(** Two lines of a table whose cells hold no control bytes are aligned. *)
Example aligned :
  tabwriter ("  a" +:+ String htab ("bcd" +:+ String htab ("x" +:+ String newline
    ("  long" +:+ String htab (String htab ("y" +:+ String newline ""))))))
  = "  a     bcd  x" +:+ String newline ("  long       y" +:+ String newline "").
Proof. by vm_compute. Qed.

Lemma spaces_length n : String.length (spaces n) = n.
Proof. induction n; simpl; auto. Qed.

(** Only spaces are added: without its spaces, a formatted line is its cells without theirs. *)
Fixpoint no_spaces (s : string) : string :=
  match s with
  | EmptyString => ""
  | String a t => if byte_eqb a " " then no_spaces t else String a (no_spaces t)
  end.

Lemma no_spaces_app s t : no_spaces (s +:+ t) = no_spaces s +:+ no_spaces t.
Proof. induction s as [|a s IH]; simpl; [done|]. rewrite IH. by destruct (byte_eqb a " "). Qed.

Lemma no_spaces_spaces n : no_spaces (spaces n) = "".
Proof. by induction n. Qed.

Lemma format_cells_content j width line :
  no_spaces (format_cells j width line) = no_spaces (foldr String.append "" line).
Proof.
  revert j. induction line as [|c [|d line] IH]; intros j; [done| |].
  - simpl. by rewrite append_nil_r.
  - change (no_spaces (c +:+ spaces (width j - rune_count c) +:+ format_cells (S j) width (d :: line))
      = no_spaces (c +:+ foldr String.append "" (d :: line))).
    by rewrite !no_spaces_app, no_spaces_spaces, IH.
Qed.

(** Formatting keeps the number and the order of the lines and adds nothing but spaces. *)
Lemma format_lines_content above lines :
  map no_spaces (format_lines above lines) = map (fun line => no_spaces (foldr String.append "" line)) lines.
Proof.
  revert above. induction lines as [|line lines IH]; intros above; [done|]. simpl.
  by rewrite format_cells_content, IH.
Qed.
