(* ===== verification/GoFlag.v ===== *)
(** * Command lines: package flag as the driver and its tests use it

    A flag set, FlagSet.Parse with ContinueOnError, and the functions of package strconv
    behind its values. Parsing yields the values that were set, of which the last setting
    of a flag wins, and either the arguments left or the first error. *)

From S2P Require Import Prelude GoStrings GoErrors.

Local Open Scope stdpp_scope.

Definition ErrHelp : sentinel := Sentinel "flag.ErrHelp" "flag: help requested".

(** A flag by the interface of its value: a string, a boolean, or another type whose Set
    method answers the text of its error. *)
Inductive flag_kind := StringFlag | BoolFlag | ValueFlag (Set_ : string -> option string).

(** strconv.ParseBool. *)
Definition ParseBool (s : string) : option bool :=
  if decide (s ∈ ["1"; "t"; "T"; "true"; "TRUE"; "True"]) then Some true else
  if decide (s ∈ ["0"; "f"; "F"; "false"; "FALSE"; "False"]) then Some false else None.

(** *** strconv.ParseInt and Atoi *)

Inductive num_error := ErrSyntax | ErrRange.

Definition lower (c : ascii) : ascii := if byte_in 65 90 c then ascii_of_N (N_of_ascii c + 32) else c.

Definition digit_of (c : ascii) : option Z :=
  if byte_in 48 57 c then Some (byte_code c - 48)%Z
  else if byte_in 97 122 (lower c) then Some (byte_code (lower c) - 97 + 10)%Z
  else None.

(** The loop over the digits; [base0] allows underscores. *)
Fixpoint uint_digits (base0 : bool) (base n : Z) (s : string) : num_error + Z :=
  match s with
  | EmptyString => inr n
  | String c t =>
      if byte_eqb c "_" && base0 then uint_digits base0 base n t else
      match digit_of c with
      | None => inl ErrSyntax
      | Some d =>
          if (base <=? d)%Z then inl ErrSyntax
          else if ((2 ^ 64 - 1) / base + 1 <=? n)%Z then inl ErrRange
          else if (2 ^ 64 - 1 <? n * base + d)%Z then inl ErrRange
          else uint_digits base0 base (n * base + d)%Z t
      end
  end.

(** underscoreOK after the sign and the base prefix: underscores separate digits only. [saw]
    is the class of the last byte: a digit, an underscore, or another. *)
Fixpoint underscores_ok (hex : bool) (saw : ascii) (s : string) : bool :=
  match s with
  | EmptyString => negb (byte_eqb saw "_")
  | String c t =>
      if byte_in 48 57 c || (hex && byte_in 97 102 (lower c)) then underscores_ok hex "0" t
      else if byte_eqb c "_" then if byte_eqb saw "0" then underscores_ok hex "_" t else false
      else if byte_eqb saw "_" then false
      else underscores_ok hex "!" t
  end.

(** The base a text in base 0 announces, and its digits. *)
Definition base_prefix (s : string) : Z * string :=
  match s with
  | String "0" (String c (String d t)) =>
      if byte_eqb (lower c) "b" then (2%Z, String d t)
      else if byte_eqb (lower c) "o" then (8%Z, String d t)
      else if byte_eqb (lower c) "x" then (16%Z, String d t)
      else (8%Z, String c (String d t))
  | String "0" t => (8%Z, t)
  | _ => (10%Z, s)
  end.

Definition underscoreOK (s : string) : bool :=
  match s with
  | String "0" (String c t) =>
      if byte_eqb (lower c) "b" || byte_eqb (lower c) "o" || byte_eqb (lower c) "x"
      then underscores_ok (byte_eqb (lower c) "x") "0" t
      else underscores_ok false "^" s
  | _ => underscores_ok false "^" s
  end.

Definition ParseUint (base0 : bool) (s : string) : num_error + Z :=
  if bool_decide (s = "") then inl ErrSyntax else
  let '(base, digits) := if base0 then base_prefix s else (10%Z, s) in
  match uint_digits base0 base 0 digits with
  | inl e => inl e
  | inr n => if base0 && contains_byte "_" s && negb (underscoreOK s) then inl ErrSyntax else inr n
  end.

(** strconv.ParseInt in base 0 or 10 and 64 bits. *)
Definition ParseInt (base0 : bool) (s : string) : num_error + Z :=
  let '(neg, body) :=
    match s with
    | String c t => if byte_eqb c "+" then (false, t) else if byte_eqb c "-" then (true, t) else (false, s)
    | EmptyString => (false, s)
    end in
  match ParseUint base0 body with
  | inl e => inl e
  | inr n =>
      if negb neg && (2 ^ 63 <=? n)%Z then inl ErrRange
      else if neg && (2 ^ 63 <? n)%Z then inl ErrRange
      else inr (if neg then - n else n)%Z
  end.

(** strconv.Atoi. *)
Definition Atoi (s : string) : num_error + Z := ParseInt false s.

(** The values flag.IntVar declares. *)
Definition IntFlag : flag_kind :=
  ValueFlag (fun s => match ParseInt true s with
                      | inr _ => None
                      | inl ErrSyntax => Some "parse error"
                      | inl ErrRange => Some "value out of range"
                      end).

(** ** Arguments *)

Definition dash : ascii := "-"%char.
Definition equals : ascii := "="%char.

(** What an argument is: a positional one that ends the flags, the terminator, a
    malformed flag, or a flag with the value behind its equals sign. *)
Inductive argument :=
| ArgPlain
| ArgEnd
| ArgBad
| ArgFlag (name : string) (value : option string).

Definition starts_with (a : ascii) (s : string) : bool :=
  match s with String b _ => byte_eqb a b | EmptyString => false end.

(** The name up to the first equals sign after its first byte, and the rest. *)
Fixpoint cut_equals (s : string) : string * option string :=
  match s with
  | EmptyString => ("", None)
  | String a t =>
      if byte_eqb a equals then ("", Some t)
      else let '(name, value) := cut_equals t in (String a name, value)
  end.

Definition flag_name (s : string) : argument :=
  match s with
  | EmptyString => ArgBad
  | String a t =>
      if byte_eqb a dash || byte_eqb a equals then ArgBad else
      let '(name, value) := cut_equals t in ArgFlag (String a name) value
  end.

Definition read_argument (s : string) : argument :=
  match s with
  | String a (String b t) =>
      if negb (byte_eqb a dash) then ArgPlain else
      if byte_eqb b dash then
        (if decide (t = "") then ArgEnd else flag_name t)
      else flag_name (String b t)
  | _ => ArgPlain
  end.

(** FlagSet.Parse: the values set, and the arguments left or the first error. *)
Fixpoint flag_Parse (formal : string -> option flag_kind) (args : list string)
    (vals : gmap string string) : gmap string string * result (list string) :=
  match args with
  | [] => (vals, Ok [])
  | s :: rest =>
      match read_argument s with
      | ArgPlain => (vals, Ok args)
      | ArgEnd => (vals, Ok rest)
      | ArgBad => (vals, Err (ENew ("bad flag syntax: " +:+ s)))
      | ArgFlag name value =>
          match formal name with
          | None =>
              (vals, if bool_decide (name = "help") || bool_decide (name = "h")
                     then Err (ESentinel ErrHelp)
                     else Err (ENew ("flag provided but not defined: -" +:+ name)))
          | Some BoolFlag =>
              match value with
              | None => flag_Parse formal rest (<[name := "true"]> vals)
              | Some v =>
                  match ParseBool v with
                  | Some b => flag_Parse formal rest (<[name := if b then "true" else "false"]> vals)
                  | None => (vals, Err (ENew ("invalid boolean value " +:+ quote v +:+ " for -"
                                  +:+ name +:+ ": parse error")))
                  end
              end
          | Some k =>
              let set v rest :=
                match k with
                | ValueFlag Set_ =>
                    match Set_ v with
                    | Some text => (vals, Err (ENew ("invalid value " +:+ quote v +:+ " for flag -"
                                                 +:+ name +:+ ": " +:+ text)))
                    | None => flag_Parse formal rest (<[name := v]> vals)
                    end
                | _ => flag_Parse formal rest (<[name := v]> vals)
                end in
              match value, rest with
              | Some v, _ => set v rest
              | None, v :: rest => set v rest
              | None, [] => (vals, Err (ENew ("flag needs an argument: -" +:+ name)))
              end
          end
      end
  end.

(** ** Facts *)

Example parsed_integers :
  map (ParseInt true) ["0"; "-0x1F"; "1_000"; "0_7"; "08"; "1__0"; "9223372036854775808"; "-9223372036854775808"; "+"]
  = [inr 0; inr (-31); inr 1000; inr 7; inl ErrSyntax; inl ErrSyntax; inl ErrRange; inr (- 2 ^ 63); inl ErrSyntax]%Z
  /\ map Atoi ["42"; "1_000"; "0x1"; "007"; " 1"] = [inr 42; inl ErrSyntax; inl ErrSyntax; inr 7; inl ErrSyntax]%Z.
Proof. by vm_compute. Qed.

(** What is set is a declared flag with a value its type accepts. *)
Definition accepts (k : flag_kind) (v : string) : Prop :=
  match k with
  | StringFlag => True
  | BoolFlag => v = "true" \/ v = "false"
  | ValueFlag Set_ => Set_ v = None
  end.

Definition well_set (formal : string -> option flag_kind) (vals : gmap string string) : Prop :=
  forall name v, vals !! name = Some v -> exists k, formal name = Some k /\ accepts k v.

Lemma well_set_insert formal vals name v k :
  well_set formal vals -> formal name = Some k -> accepts k v -> well_set formal (<[name := v]> vals).
Proof.
  intros Hw Hk Hv n u. destruct (decide (n = name)) as [->|Hn].
  - rewrite lookup_insert. case_decide; [|done]. intros [= <-]. eauto.
  - rewrite lookup_insert_ne by done. apply Hw.
Qed.

Lemma flag_Parse_well_set formal args : forall vals,
  well_set formal vals -> well_set formal (flag_Parse formal args vals).1.
Proof.
  induction args as [args IH] using (induction_ltof1 _ (@length string)). unfold ltof in IH.
  intros vals Hw. destruct args as [|s rest]; [done|]. cbn [flag_Parse].
  assert (forall rest' name v k, (length rest' <= length rest)%nat -> formal name = Some k ->
    accepts k v -> well_set formal (flag_Parse formal rest' (<[name := v]> vals)).1) as Hrec.
  { intros rest' name v k Hlen Hk Hv. apply IH; [simpl; lia|]. by eapply well_set_insert. }
  destruct (read_argument s) as [| | |name value]; [done..|].
  destruct (formal name) as [[| |Set_]|] eqn:Ef; [| | |by case_match].
  - destruct value as [v|]; [by eapply (Hrec rest)|]. destruct rest as [|v rest]; [done|].
    eapply Hrec; [simpl; lia|done|done].
  - destruct value as [v|]; [|eapply (Hrec rest); [lia|done|by left]].
    destruct (ParseBool v) as [[]|]; [| |done]; (eapply (Hrec rest); [lia|done|simpl; auto]).
  - destruct value as [v|]; [|destruct rest as [|v rest]; [done|]]; cbn beta zeta;
      (destruct (Set_ v) eqn:Ev; [done|]); eapply Hrec; [|done|done| |done|done]; simpl; lia.
Qed.
