(* ===== verification/DriverConfig.v ===== *)
(** * Configuration (internal/config/config.go)

    Flags, environment, validation and the node's own facts. The linker stamps the version
    into the binary: it is the argument [DriverVersion]. *)

From S2P Require Import Prelude GoStrings GoErrors GoURL GoFlag GoPath Runtime.

Local Open Scope stdpp_scope.
Local Open Scope go_scope.

(** ** Constants *)

Definition DefaultDriverName : string := "evs.csi.t-cloud.wilaris.dev".
Definition DefaultEndpoint : string :=
  "unix:///var/lib/kubelet/plugins/evs.csi.t-cloud.wilaris.dev/csi.sock".

Definition EnvAuthURL : string := "OS_AUTH_URL".
Definition EnvAccessKey : string := "OS_ACCESS_KEY".
Definition EnvSecretKey : string := "OS_SECRET_KEY".
Definition EnvProjectID : string := "OS_PROJECT_ID".
Definition EnvRegionName : string := "OS_REGION_NAME".
Definition EnvSecurityToken : string := "OS_SECURITY_TOKEN".

Definition ErrVersionRequested : sentinel :=
  Sentinel "config.ErrVersionRequested" "version requested".

(** type Role string. *)
Definition Role : Type := string.
Definition RoleController : Role := "controller".
Definition RoleNode : Role := "node".

(** ** Secrets *)

(** SecretString, and its String method. *)
Record SecretString := Secret { Secret_Value : string }.

Definition Secret_String (s : SecretString) : string :=
  if decide (Secret_Value s = "") then "" else "***".

(** ** The configuration *)

Record DriverConfig := mkDriverConfig {
  cf_Role : Role; cf_Endpoint : string; cf_NodeID : string; cf_DriverName : string;
  cf_Version : string; cf_AvailabilityZone : string;
  cf_AuthURL : string; cf_AccessKey : SecretString; cf_SecretKey : SecretString;
  cf_ProjectID : string; cf_RegionName : string; cf_SecurityToken : SecretString }.

Definition Config_String (c : DriverConfig) : string :=
  "Config{Role:" +:+ quote (cf_Role c) +:+ ", Endpoint:" +:+ quote (cf_Endpoint c)
  +:+ ", NodeID:" +:+ quote (cf_NodeID c) +:+ ", DriverName:" +:+ quote (cf_DriverName c)
  +:+ ", Version:" +:+ quote (cf_Version c)
  +:+ ", AvailabilityZone:" +:+ quote (cf_AvailabilityZone c)
  +:+ ", AuthURL:" +:+ quote (cf_AuthURL c)
  +:+ ", AccessKey:" +:+ Secret_String (cf_AccessKey c)
  +:+ ", SecretKey:" +:+ Secret_String (cf_SecretKey c)
  +:+ ", ProjectID:" +:+ quote (cf_ProjectID c) +:+ ", RegionName:" +:+ quote (cf_RegionName c)
  +:+ ", SecurityToken:" +:+ Secret_String (cf_SecurityToken c) +:+ "}".

Definition parseRole (raw : string) : result Role :=
  if decide (raw = RoleController \/ raw = RoleNode) then Ok raw else
  if decide (raw = "") then
    Err (ENew ("invalid configuration: missing required --role flag, expected "
      +:+ quote RoleController +:+ " or " +:+ quote RoleNode))
  else
    Err (ENew ("invalid configuration: unknown --role " +:+ quote raw +:+ ", expected "
      +:+ quote RoleController +:+ " or " +:+ quote RoleNode)).

Definition isCleanAbsPath (path : string) : bool :=
  negb (bool_decide (path = "")) && IsAbs path && bool_decide (Clean path = path).

Section Validation.
Context `{CloudURLs}.

(** The network and the address to listen on. *)
Definition resolveEndpoint (endpoint : string) : result (string * string) :=
  let invalid msg := Err (ENew ("invalid configuration: " +:+ msg)) in
  if decide (endpoint = "") then invalid "endpoint cannot be empty" else
  let malformed :=
    invalid ("endpoint must be a valid unix:// or tcp:// URI, got " +:+ quote endpoint) in
  match url_Parse endpoint with
  | Err _ => malformed
  | Ok u =>
      if bool_decide (u_Scheme u = "")
         || (negb (bool_decide (u_Scheme u = "unix")) && negb (bool_decide (u_Scheme u = "tcp")))
      then malformed else
      if negb (bool_decide (u_RawQuery u = "")) || negb (bool_decide (u_Fragment u = ""))
         || bool_decide (is_Some (u_User u))
      then invalid ("endpoint must carry no query, fragment or user information, got " +:+ quote endpoint)
      else
      if decide (u_Scheme u = "tcp") then
        if decide (u_Host u = "")
        then invalid ("tcp endpoint must name a host address, got " +:+ quote endpoint) else
        if negb (bool_decide (u_Path u = ""))
        then invalid ("tcp endpoint must carry no path, got " +:+ quote endpoint) else
        Ok ("tcp", u_Host u)
      else
      if negb (bool_decide (u_Host u = ""))
      then invalid ("unix endpoint must use the unix:///absolute/path form, got " +:+ quote endpoint)
      else
      if negb (isCleanAbsPath (u_Path u))
      then invalid ("unix endpoint must be an absolute, clean socket path, got " +:+ quote endpoint)
      else Ok ("unix", u_Path u)
  end.

Definition missing_env {A} (name : string) : result A :=
  Err (ENew ("missing or empty required environment variable " +:+ name)).

Definition validateCloudCredentials (c : DriverConfig) : result unit :=
  let malformed := Err (ENew ("invalid environment variable " +:+ EnvAuthURL
                         +:+ ": must be a valid URL with scheme and host")) in
  if decide (cf_AuthURL c = "") then missing_env EnvAuthURL else
  match url_Parse (cf_AuthURL c) with
  | Err _ => malformed
  | Ok u =>
      if bool_decide (u_Scheme u = "") || bool_decide (u_Host u = "") then malformed else
      if decide (Secret_Value (cf_AccessKey c) = "") then missing_env EnvAccessKey else
      if decide (Secret_Value (cf_SecretKey c) = "") then missing_env EnvSecretKey else
      if decide (cf_ProjectID c = "") then missing_env EnvProjectID else
      if decide (cf_RegionName c = "") then missing_env EnvRegionName else
      Ok tt
  end.

Definition Validate (c : DriverConfig) : result unit :=
  if negb (bool_decide (cf_Role c = RoleController)) && negb (bool_decide (cf_Role c = RoleNode)) then
    Err (ENew ("invalid configuration: role must be " +:+ quote RoleController +:+ " or "
           +:+ quote RoleNode)) else
  match resolveEndpoint (cf_Endpoint c) with
  | Err e => Err e
  | Ok _ =>
      if decide (cf_DriverName c = "")
      then Err (ENew "invalid configuration: driver name cannot be empty") else
      if decide (cf_Version c = "")
      then Err (ENew "invalid configuration: version cannot be empty") else
      if decide (cf_Role c = RoleController) then validateCloudCredentials c else Ok tt
  end.

Definition Network (c : DriverConfig) : result (string * string) := resolveEndpoint (cf_Endpoint c).

(** ** Parsing *)

(** The flags of the driver. *)
Definition driver_flags (name : string) : option flag_kind :=
  if decide (name ∈ ["role"; "endpoint"; "nodeid"; "availability-zone"]) then Some StringFlag else
  if decide (name = "version") then Some BoolFlag else None.

Definition flag_value (vals : gmap string string) (name dflt : string) : string :=
  default dflt (vals !! name).

Variable DriverVersion : string.

(** The configuration the flags and the environment describe. *)
Definition read_config (role : Role) (vals : gmap string string) (getenv : string -> string) :
    DriverConfig :=
  let env name := if decide (role = RoleController) then TrimSpace (getenv name) else "" in
  mkDriverConfig role (TrimSpace (flag_value vals "endpoint" DefaultEndpoint))
    (TrimSpace (flag_value vals "nodeid" "")) DefaultDriverName DriverVersion
    (TrimSpace (flag_value vals "availability-zone" ""))
    (env EnvAuthURL) (Secret (env EnvAccessKey)) (Secret (env EnvSecretKey))
    (env EnvProjectID) (env EnvRegionName) (Secret (env EnvSecurityToken)).

(** [None] for getenv means os.Getenv. What -version prints is left out. *)
Definition Parse (args : list string) (getenv : option (string -> string))
    (os_Getenv : string -> string) : result DriverConfig :=
  let getenv := default os_Getenv getenv in
  match flag_Parse driver_flags args ∅ with
  | (_, Err err) => Err (wrapf "failed to parse CLI flags: " err)
  | (vals, Ok _) =>
      if decide (vals !! "version" = Some "true") then Err (ESentinel ErrVersionRequested) else
      match parseRole (TrimSpace (flag_value vals "role" "")) with
      | Err e => Err e
      | Ok role =>
          let cfg := read_config role vals getenv in
          match Validate cfg with
          | Err e => Err e
          | Ok _ => Ok cfg
          end
      end
  end.
End Validation.

(** ** The node's facts *)

Record nodeFacts := mkNodeFacts { serverUUID : string; availabilityZone : string }.

Definition validateNodeFacts (c : DriverConfig) : result unit :=
  if decide (cf_NodeID c = "") then
    Err (ENew "invalid configuration: node ID is required; pass --nodeid or make the node metadata service reachable")
  else if decide (cf_AvailabilityZone c = "") then
    Err (ENew "invalid configuration: availability zone is required; pass --availability-zone or make the node metadata service reachable")
  else Ok tt.

(** The facts fill the fields no flag set. *)
Definition fill_facts (c : DriverConfig) (f : nodeFacts) : DriverConfig :=
  mkDriverConfig (cf_Role c) (cf_Endpoint c)
    (if decide (cf_NodeID c = "") then serverUUID f else cf_NodeID c)
    (cf_DriverName c) (cf_Version c)
    (if decide (cf_AvailabilityZone c = "") then availabilityZone f else cf_AvailabilityZone c)
    (cf_AuthURL c) (cf_AccessKey c) (cf_SecretKey c) (cf_ProjectID c) (cf_RegionName c)
    (cf_SecurityToken c).

Section Resolution.
Context {E L : Type}.
Variable fetch : GoContext -> M E L (result nodeFacts).

(** resolveNodeFacts; the receiver's new value is the result. *)
Definition resolveNodeFacts (c : DriverConfig) (ctx : GoContext) : M E L (result DriverConfig) :=
  let checked c := ret (match validateNodeFacts c with Err e => Err e | Ok _ => Ok c end) in
  if negb (bool_decide (cf_Role c = RoleNode)) then ret (Ok c) else
  if negb (bool_decide (cf_NodeID c = "")) && negb (bool_decide (cf_AvailabilityZone c = ""))
  then checked c else
  try! facts := fetch ctx in
  checked (fill_facts c facts).

Definition Load `{CloudURLs} (DriverVersion : string) (ctx : GoContext) (args : list string)
    (getenv : option (string -> string)) (os_Getenv : string -> string) :
    M E L (result DriverConfig) :=
  match Parse DriverVersion args getenv os_Getenv with
  | Err e => ret (Err e)
  | Ok cfg => resolveNodeFacts cfg ctx
  end.
End Resolution.

(** ** Properties *)

(** The configuration with its secrets blanked out. *)
Definition hide (s : SecretString) : SecretString :=
  Secret (if decide (Secret_Value s = "") then "" else "secret").

Definition hide_secrets (c : DriverConfig) : DriverConfig :=
  mkDriverConfig (cf_Role c) (cf_Endpoint c) (cf_NodeID c) (cf_DriverName c) (cf_Version c)
    (cf_AvailabilityZone c) (cf_AuthURL c) (hide (cf_AccessKey c)) (hide (cf_SecretKey c))
    (cf_ProjectID c) (cf_RegionName c) (hide (cf_SecurityToken c)).

Lemma Secret_String_hide s : Secret_String (hide s) = Secret_String s.
Proof. unfold Secret_String, hide. simpl. by destruct (decide (Secret_Value s = "")). Qed.

(** The text of a configuration tells nothing about its three secrets but whether each
    is set: it is the text of the configuration in which they are replaced. *)
Theorem Config_String_hides c : Config_String c = Config_String (hide_secrets c).
Proof. unfold Config_String. simpl. by rewrite !Secret_String_hide. Qed.
