(* ===== verification/Metadata.v ===== *)
(** * Instance metadata (internal/config/metadata.go)

    The retrieval of the node's facts with its retries. The HTTP client of net/http and
    the JSON decoder are the class [MetadataHTTP]; every request leaves an event. *)

From S2P Require Import Prelude GoStrings GoErrors GoURL GoFlag Runtime DriverConfig.

Local Open Scope stdpp_scope.
Local Open Scope go_scope.

(** ** Data *)

Definition metadataURL : string := "http://169.254.169.254/openstack/latest/meta_data.json".
Definition metadataTimeout : Z := 30 * Second.
Definition metadataAttemptTimeout : Z := 5 * Second.
Definition metadataRetryBase : Z := 250 * Millisecond.
Definition metadataRetryMax : Z := 2 * Second.
Definition metadataBodyLimit : Z := 64 * 1024.

(** The client: no proxy, and redirects are answers, not followed. *)
Record metadataClient := mkMetadataClient {
  baseURL : string; http_Timeout : Z; use_proxy : bool; follow_redirects : bool }.

Definition newMetadataClient : metadataClient :=
  mkMetadataClient metadataURL metadataAttemptTimeout false false.

Record Response := mkResponse { StatusCode : Z; Body : string }.

(** The document's two fields; a field the document lacks is empty. *)
Record metadataDoc := mkDoc { doc_UUID : string; doc_AvailabilityZone : string }.

Class MetadataHTTP (E : Type) := {
  http_NewRequest : string -> option gerror;
  http_Do : metadataClient -> GoContext -> prim E (result Response);
  json_Decode : string -> result metadataDoc;
  metadata_scheduler :: Scheduler E }.

(** io.LimitReader. *)
Definition limited (body : string) : string := string_take (Z.to_nat metadataBodyLimit) body.
#[global] Opaque limited.

Record MetadataCall := mkMetadataCall {
  mc_client : metadataClient; mc_ctx : GoContext; mc_answer : result Response }.

(** What an attempt returns: facts, or an error and whether it is worth repeating. *)
Inductive attempted := Got (facts : nodeFacts) | Failed (retryable : bool) (err : gerror).

Section Retrieval.
Context {E : Type} `{MetadataHTTP E}.

Definition http_get (c : metadataClient) (ctx : GoContext) : M E MetadataCall (result Response) :=
  call (http_Do c ctx) (mkMetadataCall c ctx).

Definition attempt (c : metadataClient) (ctx : GoContext) : M E MetadataCall attempted :=
  match http_NewRequest (baseURL c) with
  | Some err => ret (Failed false (wrapf "failed to build node metadata request: " err))
  | None =>
      let! r := http_get c ctx in
      match r with
      | Err err =>
          let! e := ctx_err ctx in
          ret (Failed (match e with None => true | Some _ => false end)
                 (wrapf "failed to retrieve node metadata: " err))
      | Ok resp =>
          if negb (StatusCode resp =? 200)%Z then
            ret (Failed (500 <=? StatusCode resp)%Z
                   (ENew ("node metadata request returned status " +:+ itoa (StatusCode resp))))
          else
          match json_Decode (limited (Body resp)) with
          | Err err => ret (Failed false (wrapf "failed to decode node metadata: " err))
          | Ok doc =>
              ret (Got (mkNodeFacts (TrimSpace (doc_UUID doc)) (TrimSpace (doc_AvailabilityZone doc))))
          end
      end
  end.

(** The loop of fetch. A timer is the first tick of a ticker. *)
Fixpoint fetch_loop (fuel : nat) (c : metadataClient) (ctx : GoContext) (backoff : Z) :
    M E MetadataCall (result nodeFacts) :=
  match fuel with
  | O => diverge
  | S fuel =>
      let! a := attempt c ctx in
      match a with
      | Got facts => ret (Ok facts)
      | Failed false err => ret (Err err)
      | Failed true err =>
          let! timer := NewTicker backoff in
          let! s := select_done_tick ctx timer in
          match s with
          | SelDone =>
              let! e := ctx_err ctx in
              match e with
              | Some e => ret (Err (EWrap (Error err +:+ ": " +:+ Error e) [err; e]))
              | None => diverge
              end
          | SelTick _ => fetch_loop fuel c ctx (Z.min (backoff * 2) metadataRetryMax)
          end
      end
  end.

(** Eighteen waits outlast the deadline; see [waits_outlast]. *)
Definition fetch_fuel : nat := 19.

Definition fetch (c : metadataClient) (ctx : GoContext) : M E MetadataCall (result nodeFacts) :=
  with_timeout ctx metadataTimeout (fun ctx => fetch_loop fetch_fuel c ctx metadataRetryBase).

(** ** Rules *)

Lemma wp_attempt c ctx w :
  wp (attempt c ctx) (fun a evs _ =>
    (length evs <= 1)%nat
    /\ Forall (fun ev => mc_client ev = c /\ mc_ctx ev = ctx) evs
    /\ (forall f, a = Got f -> exists resp doc,
          evs = [mkMetadataCall c ctx (Ok resp)] /\ StatusCode resp = 200%Z
          /\ json_Decode (limited (Body resp)) = Ok doc
          /\ f = mkNodeFacts (TrimSpace (doc_UUID doc)) (TrimSpace (doc_AvailabilityZone doc)))
    /\ (forall e, a = Failed true e -> exists r, evs = [mkMetadataCall c ctx r]
          /\ match r with Err _ => True | Ok resp => (500 <= StatusCode resp)%Z end)) w.
Proof.
  unfold attempt. destruct (http_NewRequest _); [wp_step; split_and!; [simpl; lia|done..]|].
  wp_step. apply wp_call. intros [resp|err] w1 _.
  2: { do 3 wp_step. split_and!; [done|by repeat constructor|done|]. intros e _. by exists (Err err). }
  destruct (Z.eqb_spec (StatusCode resp) 200) as [Hs|Hs]; cbn [negb].
  - destruct (json_Decode _) as [doc|err] eqn:Ej; wp_step;
      (split_and!; [done|by repeat constructor| |done]); [|done].
    intros f [= <-]. by exists resp, doc.
  - wp_step. split_and!; [done|by repeat constructor|done|]. intros e [= Hr _]. exists (Ok resp).
    split; [done|]. by apply Z.leb_le in Hr.
Qed.

(** The time [n] waits take, from a first wait of [b] on. *)
Fixpoint waits (b : Z) (n : nat) : Z :=
  match n with O => 0%Z | S n => (b + waits (Z.min (b * 2) metadataRetryMax) n)%Z end.

Lemma waits_outlast : (metadataTimeout < waits metadataRetryBase 18)%Z.
Proof. reflexivity. Qed.

Definition retried (ev : MetadataCall) : Prop :=
  match mc_answer ev with Err _ => True | Ok resp => (500 <= StatusCode resp)%Z end.

Lemma wp_fetch_loop n c ctx d b w :
  done_at ctx = Some d -> (0 < b)%Z -> (d < clock w + waits b n)%Z ->
  wp (fetch_loop (S n) c ctx b) (fun r evs _ =>
    (length evs <= S n)%nat /\ Forall (fun ev => mc_client ev = c /\ mc_ctx ev = ctx) evs
    /\ (forall pre ev ev' post, evs = pre ++ ev :: ev' :: post -> retried ev)
    /\ (forall f, r = Ok f -> exists pre resp doc,
          evs = pre ++ [mkMetadataCall c ctx (Ok resp)] /\ StatusCode resp = 200%Z
          /\ json_Decode (limited (Body resp)) = Ok doc
          /\ f = mkNodeFacts (TrimSpace (doc_UUID doc)) (TrimSpace (doc_AvailabilityZone doc)))) w.
Proof.
  intros Hd. revert b w. induction n as [|n IH]; intros b w Hb Hw; cbn [fetch_loop].
  all: wp_step; eapply wp_mono; [apply wp_attempt|]; intros a evs w1 Hc1 (Hlen & Hall & Hgot & Hretry).
  all: assert (forall pre ev ev' post, evs = pre ++ ev :: ev' :: post -> retried ev) as Hone
    by (intros pre ev ev' post Heq; exfalso; rewrite Heq, length_app in Hlen; simpl in Hlen; lia).
  all: destruct a as [f|[] err];
    [wp_step; split_and!; [lia|done|done|]; intros f' [= <-];
       destruct (Hgot f eq_refl) as (resp & doc & -> & H1 & H2 & H3); by exists [], resp, doc
    | |wp_step; split_and!; [lia|done..]].
  all: do 3 wp_step; apply (wp_select _ _ _ _ d Hd);
    [intros w2 _ Hd2; do 2 wp_step; rewrite (ctx_err_at_done _ _ _ Hd Hd2); wp_step;
       split_and!; [lia|done..]|].
  all: unfold next_tick, ticks; simpl; rewrite Z.sub_diag, Z.div_0_l by lia; intros w2 Hw2 Hor.
  { simpl in Hw. lia. }
  eapply wp_mono; [apply IH|].
  - unfold metadataRetryMax, Second, Millisecond. lia.
  - simpl in Hw. lia.
  - intros r evs' w3 _ (Hlen' & Hall' & Hretry' & Hok'). destruct (Hretry err eq_refl) as (x & -> & Hx).
    split_and!; [simpl in *; lia|by apply Forall_app| |].
    + intros [|y pre] ev ev' post Heq; simplify_list_eq; [exact Hx|by eapply Hretry'].
    + intros f (pre & resp & doc & -> & Hrest)%Hok'.
      by exists (mkMetadataCall c ctx x :: pre), resp, doc.
Qed.

Lemma wp_fetch c ctx w :
  wp (fetch c ctx) (fun r evs _ =>
    (length evs <= 19)%nat
    /\ Forall (fun ev => mc_client ev = c /\ exists d, done_at (mc_ctx ev) = Some d
                 /\ (d <= clock w + metadataTimeout)%Z) evs
    /\ (forall pre ev ev' post, evs = pre ++ ev :: ev' :: post -> retried ev)
    /\ (forall f, r = Ok f -> exists pre ctx' resp doc,
          evs = pre ++ [mkMetadataCall c ctx' (Ok resp)] /\ StatusCode resp = 200%Z
          /\ json_Decode (limited (Body resp)) = Ok doc
          /\ f = mkNodeFacts (TrimSpace (doc_UUID doc)) (TrimSpace (doc_AvailabilityZone doc)))) w.
Proof.
  unfold fetch. wp_step.
  destruct (done_at_WithDeadline ctx (clock w + metadataTimeout)) as (d & Hd & Hle).
  set (ctx' := WithDeadline ctx _) in *. pose proof waits_outlast.
  eapply wp_mono; [apply (wp_fetch_loop 18 c ctx' d); [done|done|lia]|].
  intros r evs w1 _ (Hlen & Hall & Hretry & Hok). split_and!; [done| |done|].
  - eapply Forall_impl; [|exact Hall]. intros ev [-> ->]. split; [done|]. by exists d.
  - intros f (pre & resp & doc & Hrest)%Hok. by exists pre, ctx', resp, doc.
Qed.
End Retrieval.

(** ** Properties *)

(** C36. Retrieving the metadata returns, after at most nineteen requests to the one client
    that neither uses a proxy nor follows redirects, each under a context that ends
    thirty seconds after the start at the latest. A request is repeated only after a
    transport failure or a 5xx answer, and facts come from a 200 answer whose document,
    cut at the body limit, was decoded. *)
Theorem fetch_bounded {E} `{MetadataHTTP E} ctx w :
  runs (fetch newMetadataClient ctx) w (fun r evs =>
    (length evs <= 19)%nat
    /\ Forall (fun ev => mc_client ev = newMetadataClient /\ exists d, done_at (mc_ctx ev) = Some d
                 /\ (d <= clock w + 30 * Second)%Z) evs
    /\ (forall pre ev ev' post, evs = pre ++ ev :: ev' :: post -> retried ev)
    /\ (forall f, r = Ok f -> exists pre ctx' resp doc,
          evs = pre ++ [mkMetadataCall newMetadataClient ctx' (Ok resp)] /\ StatusCode resp = 200%Z
          /\ json_Decode (limited (Body resp)) = Ok doc
          /\ f = mkNodeFacts (TrimSpace (doc_UUID doc)) (TrimSpace (doc_AvailabilityZone doc)))).
Proof. apply wp_runs, wp_fetch. Qed.
