(* ===== verification/Log.v ===== *)
(** * Redaction of credentials in log output (internal/log/logger.go)

    [maskKeyValues] is the index loop of the source. [mask_scan] is a one-pass
    reference definition of the same function, proved equal to it. *)

From S2P Require Import Prelude GoStrings.

Local Open Scope stdpp_scope.

(** ** Levels and keys *)

Inductive Level := LevelDebug | LevelInfo | LevelWarn | LevelError.

#[export] Instance Level_eq_dec : EqDecision Level.
Proof. solve_decision. Defined.

Definition ParseLevel (levelStr : string) : Level :=
  let l := ToLower (TrimSpace levelStr) in
  if decide (l = "debug") then LevelDebug else
  if decide (l = "info") then LevelInfo else
  if decide (l = "warn" \/ l = "warning") then LevelWarn else
  if decide (l = "error") then LevelError else LevelInfo.

Definition sensitiveKeys : list string :=
  ["OS_ACCESS_KEY"; "OS_SECRET_KEY"; "OS_SECURITY_TOKEN"; "Authorization"; "authorization";
   "AK"; "SK"].

Definition sensitiveSeparators : list string := [": Bearer "; ": Basic "; "="; ":"].

Definition IsSensitiveKey (key : string) : bool :=
  let k := ToUpper (TrimSpace key) in
  if decide (k = "AUTHORIZATION" \/ k = "AK" \/ k = "SK") then true
  else Contains k "SECRET_KEY" || Contains k "ACCESS_KEY" || Contains k "SECURITY_TOKEN".

(** ** Masking values behind a key *)

Definition isLetterOrDigit (b : ascii) : bool :=
  byte_in 97 122 b || byte_in 65 90 b || byte_in 48 57 b.

(** Space, double quote, single quote. *)
Definition isQuoteOrSpace (b : ascii) : bool :=
  byte_in 32 32 b || byte_in 34 34 b || byte_in 39 39 b.

(** Space, quotes, closing brace, comma, semicolon, newline. *)
Definition isTokenDelimiter (b : ascii) : bool :=
  byte_in 32 32 b || byte_in 34 34 b || byte_in 39 39 b || byte_in 125 125 b
  || byte_in 44 44 b || byte_in 59 59 b || byte_in 10 10 b.

Definition startsName (s : string) (pos : nat) : bool :=
  match pos with
  | O => true
  | S p => match String.get p s with Some b => negb (isLetterOrDigit b) | None => true end
  end.

(** Number of leading bytes that satisfy [p]. *)
Fixpoint count_while (p : ascii -> bool) (s : string) : nat :=
  match s with
  | String a t => if p a then S (count_while p t) else 0
  | EmptyString => 0
  end.

Definition valueBounds (s : string) (start : nat) : nat * nat :=
  let valStart := start + count_while isQuoteOrSpace (string_drop start s) in
  let valEnd :=
    valStart + count_while (fun b => negb (isTokenDelimiter b)) (string_drop valStart s) in
  (valStart, valEnd).

(** The loop of the source; [None] is running out of fuel. *)
Fixpoint mask_loop (fuel : nat) (prefix s : string) (idx : nat) : option string :=
  match fuel with
  | O => None
  | S fuel =>
      match Index (string_drop idx s) prefix with
      | None => Some s
      | Some pos =>
          let keyStart := idx + pos in
          if negb (startsName s keyStart) then mask_loop fuel prefix s (keyStart + 1)
          else
            let start := keyStart + String.length prefix in
            let '(valStart, valEnd) := valueBounds s start in
            if (valStart <? valEnd)%nat
            then mask_loop fuel prefix
                   (string_take valStart s +:+ "***" +:+ string_drop valEnd s) (valStart + 3)
            else mask_loop fuel prefix s start
      end
  end.

Definition maskKeyValues (s prefix : string) : string :=
  default s (mask_loop (S (String.length s)) prefix s 0).

Definition RedactString (s : string) : string :=
  if decide (s = "") then s else
  fold_left (fun res key =>
    fold_left (fun res sep => maskKeyValues res (key +:+ sep)) sensitiveSeparators res)
    sensitiveKeys s.

(** ** Structured values

    A slog.Value: a string, a group, an error or fmt.Stringer with the text %v prints,
    a LogValuer that yields another value, or any other kind. *)
#[warnings="-register-all"]
Inductive Value :=
| StringValue (s : string)
| GroupValue (attrs : list (string * Value))
| TextValue (text : string)
| LogValuer (inner : Value)
| OtherValue (repr : string).

Definition Attr : Type := string * Value.

(** Value.isEmptyGroup: slog.GroupValue and Record.AddAttrs drop the attributes whose value
    is one. *)
Definition isEmptyGroup (v : Value) : bool := match v with GroupValue [] => true | _ => false end.

Definition kept_attr (a : Attr) : bool := negb (isEmptyGroup a.2).

(** slog.GroupValue. *)
Definition group_value (attrs : list Attr) : Value := GroupValue (List.filter kept_attr attrs).

(** slog.maxLogValues, the bound of Value.Resolve. *)
Definition maxLogValues : nat := 100.

Definition too_many_LogValue : string := "LogValue called too many times".

(** redactValue, with Value.Resolve's loop merged in: [n] more values may be resolved. *)
Fixpoint redact_resolving (n : nat) (val : Value) : Value :=
  match n with
  | O => StringValue (RedactString too_many_LogValue)
  | S n =>
      match val with
      | LogValuer inner => redact_resolving n inner
      | StringValue s => StringValue (RedactString s)
      | GroupValue attrs =>
          group_value (map (fun a : Attr =>
            if IsSensitiveKey a.1 then (a.1, StringValue "***")
            else (a.1, redact_resolving maxLogValues a.2)) attrs)
      | TextValue text => StringValue (RedactString text)
      | OtherValue r => OtherValue r
      end
  end.

Definition redactValue (val : Value) : Value := redact_resolving maxLogValues val.

Definition RedactAttr (a : Attr) : Attr :=
  if IsSensitiveKey a.1 then (a.1, StringValue "***") else (a.1, redactValue a.2).

(** ** The handler *)

Record Record_ := mkRecord {
  r_time : Z; r_level : Level; r_message : string; r_pc : N; r_attrs : list Attr }.

(** Record.AddAttrs. *)
Definition AddAttrs (r : Record_) (attrs : list Attr) : Record_ :=
  mkRecord (r_time r) (r_level r) (r_message r) (r_pc r) (r_attrs r ++ List.filter kept_attr attrs).

(** SanitizingHandler.Handle: the record handed to the next handler. *)
Definition Handle (r : Record_) : Record_ :=
  fold_left (fun newRecord a => AddAttrs newRecord [RedactAttr a]) (r_attrs r)
    (mkRecord (r_time r) (r_level r) (RedactString (r_message r)) (r_pc r) []).

(** SanitizingHandler.WithAttrs: the attributes handed to the next handler. *)
Definition WithAttrs (attrs : list Attr) : list Attr := map RedactAttr attrs.

(** slog.Handler. [R] is what handling a record yields: the effect of writing it. *)
Class SlogHandler (H R : Type) := {
  sh_Enabled : H -> Level -> bool;
  sh_Handle : H -> Record_ -> R;
  sh_WithAttrs : H -> list Attr -> H;
  sh_WithGroup : H -> string -> H }.

(** The handler around another one. *)
Record SanitizingHandler (H : Type) := NewSanitizingHandler { next : H }.
Arguments NewSanitizingHandler {H} _.
Arguments next {H} _.

Definition sanitizing_handler {H R} `{SlogHandler H R} : SlogHandler (SanitizingHandler H) R := {|
  sh_Enabled h level := sh_Enabled (next h) level;
  sh_Handle h r := sh_Handle (next h) (Handle r);
  sh_WithAttrs h attrs := NewSanitizingHandler (sh_WithAttrs (next h) (WithAttrs attrs));
  sh_WithGroup h name := NewSanitizingHandler (sh_WithGroup (next h) name) |}.
#[export] Existing Instance sanitizing_handler.

(** A slog.Logger is its handler. The JSON handler of package slog, over a writer and with
    a level, is a parameter. *)
Section Loggers.
Context {W H : Type} (Stdout : W) (NewJSONHandler : W -> Level -> H).

Definition NewLogger (w : option W) (level : Level) : SanitizingHandler H :=
  NewSanitizingHandler (NewJSONHandler (default Stdout w) level).

Definition NewLoggerFromEnv (getenv : string -> string) (w : option W) : SanitizingHandler H :=
  NewLogger w (ParseLevel (getenv "LOG_LEVEL")).
End Loggers.

(** What a caller does with a logger before it logs: Logger.With and Logger.WithGroup. *)
Inductive Derivation := DeriveAttrs (attrs : list Attr) | DeriveGroup (name : string).

Definition derive {H R} `{SlogHandler H R} (h : H) (d : Derivation) : H :=
  match d with DeriveAttrs attrs => sh_WithAttrs h attrs | DeriveGroup name => sh_WithGroup h name end.

(** ** A one-pass reference definition *)

Fixpoint drop_while (p : ascii -> bool) (s : string) : string :=
  match s with
  | String a t => if p a then drop_while p t else s
  | EmptyString => EmptyString
  end.

Fixpoint take_while (p : ascii -> bool) (s : string) : string :=
  match s with
  | String a t => if p a then String a (take_while p t) else EmptyString
  | EmptyString => EmptyString
  end.

Definition value_of (t : string) : string :=
  take_while (fun b => negb (isTokenDelimiter b)) (drop_while isQuoteOrSpace t).

Definition after_value (t : string) : string :=
  drop_while (fun b => negb (isTokenDelimiter b)) (drop_while isQuoteOrSpace t).

(** Whether a key may start behind the byte [prev]. *)
Definition name_start (prev : option ascii) : bool :=
  match prev with Some b => negb (isLetterOrDigit b) | None => true end.

(** The last byte of [s], or [prev] when there is none. *)
Fixpoint last_byte (prev : option ascii) (s : string) : option ascii :=
  match s with
  | EmptyString => prev
  | String a t => last_byte (Some a) t
  end.

Fixpoint mask_scan (fuel : nat) (prefix : string) (prev : option ascii) (s : string) : string :=
  match fuel with
  | O => s
  | S fuel =>
      if HasPrefix s prefix && name_start prev then
        let t := string_drop (String.length prefix) s in
        if decide (value_of t = "")
        then prefix +:+ mask_scan fuel prefix (last_byte prev prefix) t
        else prefix +:+ take_while isQuoteOrSpace t +:+ "***"
               +:+ mask_scan fuel prefix (Some "*"%char) (after_value t)
      else
        match s with
        | EmptyString => EmptyString
        | String a t => String a (mask_scan fuel prefix (Some a) t)
        end
  end.

(** ** Facts about the string scans *)

Lemma take_drop_while p s : take_while p s +:+ drop_while p s = s.
Proof. induction s as [|a s IH]; simpl; [done|]. destruct (p a); simpl; [by rewrite IH|done]. Qed.

Lemma count_while_length p s : count_while p s = String.length (take_while p s).
Proof. induction s as [|a s IH]; simpl; [done|]. destruct (p a); simpl; [by rewrite IH|done]. Qed.

Lemma length_drop_while p s : String.length (drop_while p s) <= String.length s.
Proof. induction s as [|a s IH]; simpl; [done|]. destruct (p a); simpl; lia. Qed.

Lemma string_drop_add n m s : string_drop (n + m) s = string_drop m (string_drop n s).
Proof. revert s. induction n; intros [|a s]; simpl; auto. by destruct m. Qed.

Lemma string_take_app p s : string_take (String.length p) (p +:+ s) = p.
Proof. induction p as [|a p IH]; simpl; [by destruct s|]. by rewrite IH. Qed.

Lemma last_byte_app prev s t : last_byte prev (s +:+ t) = last_byte (last_byte prev s) t.
Proof. revert prev. induction s; intros prev; simpl; auto. Qed.

Lemma get_last_byte s t :
  s <> "" -> String.get (String.length s - 1) (s +:+ t) = last_byte None s.
Proof.
  intros Hs. assert (forall prev, String.get (String.length s - 1) (s +:+ t) = last_byte prev s)
    as H; [|apply H]. induction s as [|a s IH]; [done|].
  intros prev. destruct s as [|b s]; [by destruct t|].
  specialize (IH ltac:(done) (Some a)). simpl in *. by rewrite Nat.sub_0_r in *.
Qed.

Lemma startsName_app u r : startsName (u +:+ r) (String.length u) = name_start (last_byte None u).
Proof.
  destruct u as [|a u]; [done|]. pose proof (get_last_byte (String a u) r ltac:(done)) as H.
  simpl in H. rewrite Nat.sub_0_r in H. unfold startsName, name_start. simpl String.length.
  cbv iota. simpl last_byte. by rewrite <-H.
Qed.

Lemma Index_Some s sub i :
  Index s sub = Some i ->
  exists a b, s = a +:+ b /\ String.length a = i /\ HasPrefix b sub = true /\
    forall a1 a2, a = a1 +:+ a2 -> a2 <> "" -> HasPrefix (a2 +:+ b) sub = false.
Proof.
  revert i. induction s as [|c s IH]; intros i; cbn [Index].
  - destruct (HasPrefix "" sub) eqn:E; intros [= <-]. exists "", "". repeat split; [done|].
    by intros a1 a2 [-> ->]%eq_sym%append_eq_nil ?.
  - destruct (HasPrefix (String c s) sub) eqn:E.
    + intros [= <-]. exists "", (String c s). repeat split; [done|].
      by intros a1 a2 [-> ->]%eq_sym%append_eq_nil ?.
    + destruct (Index s sub) as [j|]; [|done]. intros [= <-].
      destruct (IH j eq_refl) as (a & b & -> & <- & Hb & Hmin).
      exists (String c a), b. repeat split; [done|]. intros [|d a1] a2 Ha Hne; simpl in Ha.
      * subst a2. done.
      * injection Ha as -> ->. by eapply Hmin.
Qed.

Lemma Index_None_tail c s sub : Index (String c s) sub = None ->
  HasPrefix (String c s) sub = false /\ Index s sub = None.
Proof.
  cbn [Index]. destruct (HasPrefix (String c s) sub); [done|].
  by destruct (Index s sub).
Qed.

Lemma value_of_app t : t = take_while isQuoteOrSpace t +:+ value_of t +:+ after_value t.
Proof. unfold value_of, after_value. by rewrite !take_drop_while. Qed.

Lemma length_after_value t :
  value_of t <> "" -> String.length (after_value t) < String.length t.
Proof.
  intros H. rewrite (value_of_app t) at 2. rewrite !length_append.
  destruct (value_of t); [done|]. simpl. lia.
Qed.

Lemma valueBounds_spec u t :
  let q := take_while isQuoteOrSpace t in
  valueBounds (u +:+ t) (String.length u) =
    (String.length (u +:+ q), String.length (u +:+ q +:+ value_of t)).
Proof.
  simpl. unfold valueBounds. rewrite string_drop_app, count_while_length, string_drop_add,
    string_drop_app, count_while_length, !length_append.
  f_equal. rewrite <-Nat.add_assoc. do 3 f_equal. unfold value_of. f_equal.
  rewrite <-(take_drop_while isQuoteOrSpace t) at 2. by rewrite string_drop_app.
Qed.

Lemma take_value u t :
  string_take (String.length (u +:+ take_while isQuoteOrSpace t)) (u +:+ t)
  = u +:+ take_while isQuoteOrSpace t.
Proof. rewrite (value_of_app t) at 2. by rewrite <-append_assoc, string_take_app. Qed.

Lemma drop_value u t :
  string_drop (String.length (u +:+ take_while isQuoteOrSpace t +:+ value_of t)) (u +:+ t)
  = after_value t.
Proof.
  replace (u +:+ t) with ((u +:+ take_while isQuoteOrSpace t +:+ value_of t) +:+ after_value t);
    [apply string_drop_app|]. rewrite !append_assoc. by rewrite <-value_of_app.
Qed.

Lemma valueBounds_lt u t :
  (String.length (u +:+ take_while isQuoteOrSpace t) <?
   String.length (u +:+ take_while isQuoteOrSpace t +:+ value_of t))%nat
  = negb (bool_decide (value_of t = "")).
Proof.
  rewrite <-append_assoc, (length_append _ (value_of t)).
  destruct (value_of t) eqn:E; simpl; [rewrite Nat.add_0_r; apply Nat.ltb_irrefl|].
  apply Nat.ltb_lt. lia.
Qed.

(** ** The index loop and the scan *)

Section Masking.
Context (prefix : string).
Hypothesis prefix_ne : prefix <> "".

Lemma length_prefix : 1 <= String.length prefix.
Proof. destruct prefix; [done|simpl; lia]. Qed.

(** The scan copies what lies before the first occurrence. *)
Lemma mask_scan_copy f prev a b :
  (forall a1 a2, a = a1 +:+ a2 -> a2 <> "" -> HasPrefix (a2 +:+ b) prefix = false) ->
  mask_scan (String.length a + f) prefix prev (a +:+ b)
  = a +:+ mask_scan f prefix (last_byte prev a) b.
Proof.
  revert prev. induction a as [|c a IH]; intros prev Hmin; [done|].
  cbn [String.length Nat.add mask_scan]. rewrite (Hmin "" (String c a)) by done. simpl.
  f_equal. apply IH. intros a1 a2 -> Hne. by apply (Hmin (String c a1)).
Qed.

Lemma mask_scan_none f prev r :
  Index r prefix = None -> String.length r < f -> mask_scan f prefix prev r = r.
Proof.
  revert f prev. induction r as [|c r IH]; intros [|f] prev HI Hf; try (simpl in Hf; lia).
  - cbn [mask_scan]. destruct (HasPrefix "" prefix) eqn:E; [|done].
    cbn [Index] in HI. by rewrite E in HI.
  - apply Index_None_tail in HI as [HP HI]. cbn [mask_scan]. rewrite HP. simpl.
    f_equal. apply IH; [done|]. simpl in Hf. lia.
Qed.

Lemma mask_scan_hit f prev t :
  name_start prev = true ->
  mask_scan (S f) prefix prev (prefix +:+ t) =
    if decide (value_of t = "")
    then prefix +:+ mask_scan f prefix (last_byte prev prefix) t
    else prefix +:+ take_while isQuoteOrSpace t +:+ "***"
           +:+ mask_scan f prefix (Some "*"%char) (after_value t).
Proof. intros Hn. cbn [mask_scan]. by rewrite HasPrefix_app, Hn, string_drop_app. Qed.

Lemma mask_scan_fuel f1 f2 prev r :
  String.length r < f1 -> String.length r < f2 ->
  mask_scan f1 prefix prev r = mask_scan f2 prefix prev r.
Proof.
  revert f2 prev r. induction f1 as [|f1 IH]; intros [|f2] prev r H1 H2; try lia.
  destruct (HasPrefix r prefix && name_start prev) eqn:E.
  - apply andb_true_iff in E as [[t ->]%HasPrefix_spec Hn].
    rewrite !mask_scan_hit by done. rewrite length_append in H1, H2.
    pose proof length_prefix. case_decide as Hv; [f_equal; apply IH; lia|].
    do 3 f_equal. apply IH; pose proof (length_after_value t Hv); lia.
  - cbn [mask_scan]. rewrite E. destruct r as [|c r]; [done|]. f_equal.
    apply IH; simpl in *; lia.
Qed.

(** From position |u| on, the loop computes the scan of the rest. *)
Lemma mask_loop_scan f1 f2 u r :
  String.length r < f1 -> String.length r < f2 ->
  mask_loop f1 prefix (u +:+ r) (String.length u)
  = Some (u +:+ mask_scan f2 prefix (last_byte None u) r).
Proof.
  revert f2 u r. induction f1 as [|f1 IH]; intros f2 u r H1 H2; [lia|].
  cbn [mask_loop]. rewrite string_drop_app.
  destruct (Index r prefix) as [pos|] eqn:HI; [|by rewrite mask_scan_none].
  apply Index_Some in HI as (a & b & -> & <- & [t ->]%HasPrefix_spec & Hmin).
  pose proof length_prefix as Hp. rewrite !length_append in H1, H2.
  replace f2 with (String.length a + S (f2 - String.length a - 1)) by lia.
  rewrite mask_scan_copy by done. set (f := f2 - String.length a - 1).
  rewrite <-length_append, <-append_assoc, startsName_app, <-last_byte_app.
  destruct (name_start (last_byte None (u +:+ a))) eqn:Hn; simpl negb; cbv iota.
  - rewrite mask_scan_hit by done. rewrite <-length_append, <-(append_assoc _ prefix t).
    rewrite valueBounds_spec. cbv zeta iota. rewrite valueBounds_lt, take_value, drop_value.
    case_bool_decide as Hv; simpl negb; cbv iota; case_decide; try done.
    + rewrite (IH f) by lia. by rewrite !last_byte_app, !append_assoc.
    + set (P := ((u +:+ a) +:+ prefix) +:+ take_while isQuoteOrSpace t).
      rewrite <-(append_assoc P).
      replace (String.length P + 3) with (String.length (P +:+ "***"))
        by (by rewrite length_append).
      pose proof (length_after_value t Hv). rewrite (IH f) by lia.
      rewrite (last_byte_app _ _ "***"). simpl last_byte. unfold P. by rewrite !append_assoc.
  - destruct prefix as [|c p] eqn:Ep; [done|].
    cbn [mask_scan]. rewrite HasPrefix_app, Hn. simpl.
    replace ((u +:+ a) +:+ String c (p +:+ t)) with ((u +:+ a +:+ String c "") +:+ p +:+ t)
      by (by rewrite !append_assoc).
    replace (String.length (u +:+ a) + 1) with (String.length (u +:+ a +:+ String c ""))
      by (rewrite !length_append; simpl; lia).
    rewrite (IH f) by (rewrite length_append; simpl in *; lia).
    by rewrite !last_byte_app, !append_assoc.
Qed.
End Masking.

(** ** What a pass leaves behind *)

(** No proper suffix of the string is also a prefix of it. *)
Fixpoint no_border_from (p s : string) : bool :=
  match s with
  | EmptyString => true
  | String _ t => (bool_decide (t = "") || negb (HasPrefix p t)) && no_border_from p t
  end.

Definition good_prefix (p : string) : bool :=
  match p with
  | EmptyString => false
  | String a _ => isLetterOrDigit a
  end && negb (contains_byte "*" p) && no_border_from p p.

Lemma good_prefixes :
  forallb (fun key => forallb (fun sep => good_prefix (key +:+ sep)) sensitiveSeparators)
    sensitiveKeys = true.
Proof. vm_compute. done. Qed.

Lemma no_border p x y :
  no_border_from p p = true -> p = x +:+ y -> x <> "" -> y <> "" -> HasPrefix p y = false.
Proof.
  intros H Hp Hx Hy. assert (forall s x, no_border_from p s = true -> s = x +:+ y ->
    x <> "" -> HasPrefix p y = false) as Hgen; [|by eapply Hgen].
  clear Hp Hx x H. intros s. induction s as [|a s IH]; intros [|b x] Hs Heq Hx; try done.
  simpl in Hs, Heq. injection Heq as -> ->. apply andb_true_iff in Hs as [H1 H2].
  destruct x as [|c x]; [|by apply (IH (String c x))].
  simpl in H1. case_bool_decide; [done|]. simpl in H1. by apply negb_true_iff.
Qed.

Lemma alnum_not_delim a : isLetterOrDigit a = true -> isTokenDelimiter a = false.
Proof.
  destruct a as [[] [] [] [] [] [] [] []]; vm_compute; congruence.
Qed.

Lemma quote_is_delim a : isQuoteOrSpace a = true -> isTokenDelimiter a = true.
Proof. destruct a as [[] [] [] [] [] [] [] []]; vm_compute; congruence. Qed.

Lemma take_while_all p s t : take_while p s = s -> take_while p (s +:+ t) = s +:+ take_while p t.
Proof.
  induction s as [|a s IH]; simpl; [done|]. destruct (p a); [|done]. intros [= H].
  by rewrite IH.
Qed.

Lemma take_while_idem p s : take_while p (take_while p s) = take_while p s.
Proof. induction s as [|a s IH]; simpl; [done|]. destruct (p a) eqn:E; simpl; [|done]. by rewrite E, IH. Qed.

Lemma drop_while_all p s t : take_while p s = s -> drop_while p (s +:+ t) = drop_while p t.
Proof.
  induction s as [|a s IH]; simpl; [done|]. destruct (p a); [|done]. intros [= H]. by apply IH.
Qed.

(** Either nothing is left or a byte that stops the scan. *)
Lemma drop_while_head p s : drop_while p s = "" \/ exists a t, drop_while p s = String a t /\ p a = false.
Proof. induction s as [|a s IH]; simpl; [by left|]. destruct (p a) eqn:E; eauto. Qed.

Lemma value_of_quotes q t :
  take_while isQuoteOrSpace q = q -> value_of (q +:+ t) = value_of t.
Proof. intros H. unfold value_of. by rewrite drop_while_all. Qed.

Lemma value_of_delim a t : isTokenDelimiter a = true -> isQuoteOrSpace a = false -> value_of (String a t) = "".
Proof. intros H1 H2. unfold value_of. simpl. rewrite H2. simpl. by rewrite H1. Qed.

Section Masked.
Context (prefix : string).
Hypothesis prefix_good : good_prefix prefix = true.

Lemma prefix_head : exists a p, prefix = String a p /\ isLetterOrDigit a = true.
Proof.
  unfold good_prefix in prefix_good. destruct prefix as [|a p]; [done|].
  to_prop. eauto.
Qed.

Lemma good_prefix_ne : prefix <> "".
Proof. destruct prefix_head as (a & p & -> & _). done. Qed.

Lemma prefix_no_star : contains_byte "*" prefix = false.
Proof. unfold good_prefix in prefix_good. to_prop. done. Qed.

Lemma prefix_no_border x y :
  prefix = x +:+ y -> x <> "" -> y <> "" -> HasPrefix prefix y = false.
Proof. unfold good_prefix in prefix_good. to_prop. by apply no_border. Qed.

(** A byte no key starts with is copied. *)
Lemma mask_scan_other f prev a t :
  isLetterOrDigit a = false ->
  mask_scan (S f) prefix prev (String a t) = String a (mask_scan f prefix (Some a) t).
Proof.
  intros Ha. cbn [mask_scan]. destruct prefix_head as (b & p & -> & Hb).
  destruct (HasPrefix (String a t) (String b p)) eqn:E; [|done].
  apply HasPrefix_spec in E as [u [= -> _]]. congruence.
Qed.

Lemma mask_scan_nil f prev : mask_scan f prefix prev "" = "".
Proof. destruct f; [done|]. cbn [mask_scan]. destruct prefix_head as (b & p & -> & _). done. Qed.

(** A prefix of the output without [*] is a prefix of the input. *)
Lemma HasPrefix_mask_scan f prev s q :
  contains_byte "*" q = false -> HasPrefix (mask_scan f prefix prev s) q = true ->
  HasPrefix s q = true.
Proof.
  revert prev s q. induction f as [|f IH]; intros prev s q Hq; [done|].
  assert (forall p x y, contains_byte "*" p = false ->
    (forall q', contains_byte "*" q' = false -> HasPrefix x q' = true -> HasPrefix y q' = true) ->
    HasPrefix (p +:+ x) q = true -> HasPrefix (p +:+ y) q = true) as Hstep.
  { intros p x y _ Hxy [t H]%HasPrefix_spec. apply HasPrefix_spec.
    destruct (append_eq_inv _ _ _ _ H) as [(w & -> & ->)|(w & -> & ->)].
    - rewrite contains_byte_app in Hq. apply orb_false_iff in Hq as [_ Hq].
      specialize (Hxy w Hq (HasPrefix_app _ _)). apply HasPrefix_spec in Hxy as [u ->].
      exists u. by rewrite append_assoc.
    - exists (w +:+ y). by rewrite append_assoc. }
  destruct (HasPrefix s prefix && name_start prev) eqn:E.
  - apply andb_true_iff in E as [[t ->]%HasPrefix_spec Hn]. rewrite mask_scan_hit by done.
    case_decide as Hv.
    + apply Hstep; [apply prefix_no_star|]. eauto.
    + apply Hstep; [apply prefix_no_star|]. intros q' Hq' [u H]%HasPrefix_spec.
      rewrite (value_of_app t). destruct (append_eq_inv _ _ _ _ H) as [(w & -> & H')|(w & -> & ->)].
      * destruct w as [|b w]; [rewrite append_nil_r; apply HasPrefix_app|].
        injection H' as <- _. rewrite contains_byte_app in Hq'. simpl in Hq'.
        by rewrite orb_true_r in Hq'.
      * apply HasPrefix_spec. rewrite append_assoc. eauto.
  - cbn [mask_scan]. rewrite E. destruct s as [|a s]; [done|].
    change (String a (mask_scan f prefix (Some a) s)) with
      (String a "" +:+ mask_scan f prefix (Some a) s).
    change (String a s) with (String a "" +:+ s).
    destruct (byte_eqb "*" a) eqn:Ea.
    + apply byte_eqb_eq in Ea as <-. intros [u H]%HasPrefix_spec. destruct q as [|b q]; [by rewrite HasPrefix_nil|].
      injection H as <- _. done.
    + apply Hstep; [simpl; by rewrite Ea|]. eauto.
Qed.

Lemma value_of_scan f prev t :
  String.length t < f -> value_of t = "" -> value_of (mask_scan f prefix prev t) = "".
Proof.
  revert prev t. induction f as [|f IH]; intros prev t Hf Hv; [lia|].
  destruct t as [|a t]; [by rewrite mask_scan_nil|].
  assert (isTokenDelimiter a = true) as Hd.
  { destruct (isQuoteOrSpace a) eqn:Eq; [by apply quote_is_delim|].
    unfold value_of in Hv. simpl in Hv. rewrite Eq in Hv. simpl in Hv.
    destruct (isTokenDelimiter a); done. }
  rewrite mask_scan_other.
  2: { destruct (isLetterOrDigit a) eqn:E; [|done]. apply alnum_not_delim in E. congruence. }
  destruct (isQuoteOrSpace a) eqn:Eq.
  - change (String a ?x) with (String a "" +:+ x).
    rewrite value_of_quotes by (simpl; by rewrite Eq).
    apply IH; [simpl in Hf; lia|]. revert Hv. change (String a t) with (String a "" +:+ t).
    by rewrite value_of_quotes by (simpl; by rewrite Eq).
  - by apply value_of_delim.
Qed.

Lemma value_of_masked f t :
  String.length (after_value t) < f ->
  value_of (take_while isQuoteOrSpace t +:+ "***" +:+ mask_scan f prefix (Some "*"%char) (after_value t))
  = "***".
Proof.
  intros Hf. rewrite value_of_quotes by apply take_while_idem. unfold value_of. simpl. do 3 f_equal.
  unfold after_value in *. destruct (drop_while_head (fun b => negb (isTokenDelimiter b))
    (drop_while isQuoteOrSpace t)) as [->|(a & u & -> & Ha)]; [by rewrite mask_scan_nil|].
  destruct f as [|f]; [simpl in Hf; lia|]. apply negb_false_iff in Ha.
  rewrite mask_scan_other.
  2: { destruct (isLetterOrDigit a) eqn:E; [|done]. apply alnum_not_delim in E. congruence. }
  simpl. by rewrite Ha.
Qed.

(** An occurrence of the prefix in [p +:+ rest], where [p] is the prefix itself or text
    no key starts in, is at the front or inside [rest]. *)
Lemma occurrence_after p rest x y :
  (forall x' z, p = x' +:+ z -> z <> "" -> x' <> "" \/ p <> prefix ->
     forall u, z +:+ u <> prefix +:+ y) ->
  p +:+ rest = x +:+ prefix +:+ y ->
  (exists x', x = p +:+ x' /\ rest = x' +:+ prefix +:+ y) \/ (x = "" /\ p = prefix /\ rest = y).
Proof.
  intros Hp H. destruct (append_eq_inv _ _ _ _ H) as [(w & -> & ->)|(w & -> & Hw)]; [eauto|].
  destruct (decide (w = "")) as [->|Hne].
  - left. exists "". rewrite !append_nil_r. split; [done|]. by symmetry in Hw.
  - right. destruct (decide (x = "" /\ w = prefix)) as [[-> ->]|Hno].
    { apply (f_equal (string_drop (String.length prefix))) in Hw.
      by rewrite !string_drop_app in Hw. }
    exfalso. symmetry in Hw. apply (Hp x w eq_refl Hne) in Hw; [done|].
    destruct x; [|by left]. right. intros Hpe. by apply Hno.
Qed.

Lemma no_key_in_prefix x z y :
  prefix = x +:+ z -> z <> "" -> x <> "" -> forall u, z +:+ u <> prefix +:+ y.
Proof.
  intros Hp Hz Hx u H. pose proof (prefix_no_border x z Hp Hx Hz) as Hb.
  enough (HasPrefix prefix z = true) by congruence. apply HasPrefix_spec.
  destruct (append_eq_inv _ _ _ _ H) as [(w & ? & _)|(w & -> & _)]; [by exists w|].
  exfalso. apply (f_equal String.length) in Hp. rewrite !length_append in Hp.
  destruct x; [done|]. simpl in Hp. lia.
Qed.

Lemma no_key_in_other p x z y :
  (forall a, contains_byte a p = true -> isLetterOrDigit a = false) ->
  p = x +:+ z -> z <> "" -> forall u, z +:+ u <> prefix +:+ y.
Proof.
  intros Hp -> Hz u H. destruct z as [|a z]; [done|].
  destruct prefix_head as (b & q & E & Hb). rewrite E in H. injection H as -> _.
  specialize (Hp b). rewrite contains_byte_app in Hp. simpl in Hp.
  rewrite byte_eqb_refl, orb_true_r in Hp. rewrite Hp in Hb; done.
Qed.

Lemma quotes_no_alnum t a :
  contains_byte a (take_while isQuoteOrSpace t) = true -> isLetterOrDigit a = false.
Proof.
  induction t as [|b t IH]; simpl; [done|]. destruct (isQuoteOrSpace b) eqn:E; simpl; [|done].
  intros [Hb|?]%orb_true_iff; [|auto]. apply byte_eqb_eq in Hb as ->.
  destruct (isLetterOrDigit b) eqn:Ea; [|done]. apply alnum_not_delim in Ea.
  apply quote_is_delim in E. congruence.
Qed.

Lemma mask_scan_masked f prev s x y :
  String.length s < f ->
  mask_scan f prefix prev s = x +:+ prefix +:+ y ->
  name_start (last_byte prev x) = true -> value_of y = "" \/ value_of y = "***".
Proof.
  revert prev s x. induction f as [|f IH]; intros prev s x Hf H Hn; [lia|].
  destruct (HasPrefix s prefix && name_start prev) eqn:E.
  - apply andb_true_iff in E as [[t ->]%HasPrefix_spec Hp]. rewrite mask_scan_hit in H by done.
    rewrite length_append in Hf. pose proof (length_prefix prefix good_prefix_ne).
    assert (forall x' z, prefix = x' +:+ z -> z <> "" -> x' <> "" \/ prefix <> prefix ->
      forall u, z +:+ u <> prefix +:+ y) as Hov.
    { intros x' z ? ? [?|?]; [|done]. by eapply no_key_in_prefix. }
    case_decide as Hv.
    + apply occurrence_after in H as [(x' & -> & H)|(-> & _ & <-)]; [| |done].
      * rewrite last_byte_app in Hn. by eapply (IH _ t); [lia|..].
      * left. apply value_of_scan; [lia|done].
    + pose proof (length_after_value t Hv).
      apply occurrence_after in H as [(x' & -> & H)|(-> & _ & <-)]; [| |done].
      * rewrite <-append_assoc in H.
        apply occurrence_after in H as [(x'' & -> & H)|(-> & Hq & _)].
        -- rewrite !last_byte_app in Hn. by eapply (IH _ (after_value t)); [lia|..].
        -- exfalso. destruct prefix_head as (b & q & E & Hb). rewrite E in Hq.
           pose proof (quotes_no_alnum t b) as Hb'. destruct (take_while isQuoteOrSpace t) eqn:Et;
             simpl in Hq; injection Hq as <- _; [done|].
           simpl in Hb'. rewrite byte_eqb_refl in Hb'. by rewrite Hb' in Hb.
        -- intros x'' z ? ? _. eapply no_key_in_other; [|done..]. intros a.
           rewrite contains_byte_app. intros [Ha|Ha]%orb_true_iff; [by eapply quotes_no_alnum|].
           simpl in Ha. rewrite !orb_false_r in Ha. destruct (byte_eqb a "*") eqn:Ea; [|done].
           by apply byte_eqb_eq in Ea as ->.
      * right. apply value_of_masked. lia.
  - cbn [mask_scan] in H. rewrite E in H. destruct s as [|a s].
    { exfalso. symmetry in H. apply append_eq_nil in H as [_ H]. apply append_eq_nil in H as [H _].
      by apply good_prefix_ne. }
    destruct x as [|b x].
    + exfalso. simpl in H, Hn. rewrite Hn, andb_true_r in E.
      enough (HasPrefix (String a s) prefix = true) by congruence.
      apply (HasPrefix_mask_scan (S f) prev); [apply prefix_no_star|].
      cbn [mask_scan]. rewrite E, H. simpl. apply HasPrefix_app.
    + injection H as -> H. by eapply (IH _ s); [simpl in Hf; lia|..].
Qed.
End Masked.

(** ** Redaction invents no text

    A pattern without the mask's byte that occurs after redaction occurred before. *)
Section NoInvention.
Context (o : string).
Hypothesis o_ne : o <> "".
Hypothesis o_no_star : contains_byte "*" o = false.

Lemma occurs_under p x y :
  (forall q, contains_byte "*" q = false -> HasPrefix x q = true -> HasPrefix y q = true) ->
  (occurs o x -> occurs o y) -> occurs o (p +:+ x) -> occurs o (p +:+ y).
Proof.
  intros Hxy Hocc. induction p as [|a p IH]; [done|].
  rewrite !append_cons, !occurs_cons. intros [H|H]; [left|right; auto].
  apply HasPrefix_spec in H as [t H]. apply HasPrefix_spec.
  change (String a p +:+ x = o +:+ t) in H. change (exists t, String a p +:+ y = o +:+ t).
  destruct (append_eq_inv _ _ _ _ H) as [(w & Hw & ->)|(w & Hw & ->)].
  - assert (contains_byte "*" w = false) as Hs.
    { rewrite Hw, contains_byte_app in o_no_star. by apply orb_false_iff in o_no_star as [_ ?]. }
    specialize (Hxy w Hs (HasPrefix_app _ _)). apply HasPrefix_spec in Hxy as [u ->].
    exists u. by rewrite Hw, append_assoc.
  - exists (w +:+ y). by rewrite Hw, append_assoc.
Qed.

Lemma occurs_mask_scan prefix f prev s :
  good_prefix prefix = true -> occurs o (mask_scan f prefix prev s) -> occurs o s.
Proof.
  intros Hg. revert prev s. induction f as [|f IH]; intros prev s; [done|].
  destruct (HasPrefix s prefix && name_start prev) eqn:E.
  - apply andb_true_iff in E as [[t ->]%HasPrefix_spec Hp]. rewrite mask_scan_hit by done.
    case_decide as Hv.
    + apply occurs_under; [|by eauto]. intros q. by apply HasPrefix_mask_scan.
    + intros H. rewrite <-append_assoc in H. rewrite (value_of_app t), <-append_assoc.
      apply occurs_sep in H as [H|H]; [by apply occurs_app_l| |done..].
      apply (occurs_sep o "" "*") in H as [H%occurs_nil_inv|H]; [done| |done..].
      apply (occurs_sep o "" "*") in H as [H%occurs_nil_inv|H]; [done| |done..].
      do 2 apply occurs_app_r. eauto.
  - cbn [mask_scan]. rewrite E. destruct s as [|a s]; [done|].
    change (String a (mask_scan f prefix (Some a) s)) with
      (String a "" +:+ mask_scan f prefix (Some a) s).
    change (String a s) with (String a "" +:+ s).
    apply occurs_under; [|by eauto]. intros q. by apply HasPrefix_mask_scan.
Qed.

Lemma maskKeyValues_eq s prefix :
  prefix <> "" -> maskKeyValues s prefix = mask_scan (S (String.length s)) prefix None s.
Proof.
  intros Hp. unfold maskKeyValues.
  pose proof (mask_loop_scan prefix Hp (S (String.length s)) (S (String.length s)) "" s) as H.
  cbn -[mask_loop mask_scan] in H. by rewrite H by lia.
Qed.

Lemma good_key key sep :
  key ∈ sensitiveKeys -> sep ∈ sensitiveSeparators -> good_prefix (key +:+ sep) = true.
Proof.
  intros Hk%list_elem_of_In Hs%list_elem_of_In.
  pose proof (proj1 (List.forallb_forall _ _) good_prefixes _ Hk) as H.
  exact (proj1 (List.forallb_forall _ _) H _ Hs).
Qed.

Lemma occurs_fold {B} (f : string -> B -> string) (l : list B) s :
  (forall s x, x ∈ l -> occurs o (f s x) -> occurs o s) ->
  occurs o (fold_left f l s) -> occurs o s.
Proof.
  revert s. induction l as [|x l IH]; intros s Hf; [done|]. simpl. intros H.
  apply (Hf s x); [set_solver|]. apply IH; [|done]. intros s' y Hy. apply Hf. set_solver.
Qed.

Lemma occurs_RedactString s : occurs o (RedactString s) -> occurs o s.
Proof.
  unfold RedactString. case_decide; [done|]. apply occurs_fold. intros s1 key Hk.
  apply occurs_fold. intros s2 sep Hs. pose proof (good_key key sep Hk Hs) as Hg.
  rewrite maskKeyValues_eq by (by apply good_prefix_ne).
  by apply occurs_mask_scan.
Qed.
End NoInvention.

(** ** Structured values *)

Section ValueInd.
Context (P : Value -> Prop).
Hypothesis P_string : forall s, P (StringValue s).
Hypothesis P_group : forall attrs, Forall (fun a : Attr => P a.2) attrs -> P (GroupValue attrs).
Hypothesis P_text : forall t, P (TextValue t).
Hypothesis P_valuer : forall v, P v -> P (LogValuer v).
Hypothesis P_other : forall r, P (OtherValue r).

Fixpoint Value_ind' (v : Value) : P v :=
  match v with
  | StringValue s => P_string s
  | GroupValue attrs =>
      P_group attrs
        ((fix go (l : list Attr) : Forall (fun a : Attr => P a.2) l :=
            match l with
            | [] => @Forall_nil _ _
            | a :: l => @Forall_cons _ _ a l (Value_ind' a.2) (go l)
            end) attrs)
  | TextValue t => P_text t
  | LogValuer i => P_valuer i (Value_ind' i)
  | OtherValue r => P_other r
  end.
End ValueInd.

(** What may reach the next handler: text went through [RedactString], a sensitive key
    carries the mask, and nothing is left that could yield another value later. *)
Fixpoint clean_value (v : Value) : Prop :=
  match v with
  | StringValue s => exists u, s = RedactString u
  | GroupValue attrs =>
      (fix go (l : list Attr) : Prop :=
         match l with
         | [] => True
         | a :: l =>
             (if IsSensitiveKey a.1 then a.2 = StringValue "***" else clean_value a.2) /\ go l
         end) attrs
  | TextValue _ | LogValuer _ => False
  | OtherValue _ => True
  end.

Definition clean_attr (a : Attr) : Prop :=
  if IsSensitiveKey a.1 then a.2 = StringValue "***" else clean_value a.2.

Lemma clean_group attrs : clean_value (GroupValue attrs) <-> Forall clean_attr attrs.
Proof. induction attrs as [|a l IH]; simpl; [done|]. rewrite Forall_cons_iff, <-IH. done. Qed.

Lemma Forall_kept (P : Attr -> Prop) l : Forall P l -> Forall P (List.filter kept_attr l).
Proof.
  rewrite !list.Forall_forall. intros Hl a [Ha _]%list_elem_of_In%filter_In.
  by apply Hl, list_elem_of_In.
Qed.

Lemma clean_redact v : forall n, clean_value (redact_resolving n v).
Proof.
  induction v as [s|attrs IH|t|v IH|r] using Value_ind'; intros [|n];
    try (by eexists); [|apply IH].
  cbn [redact_resolving]. apply clean_group, Forall_kept, Forall_map. eapply Forall_impl; [|exact IH].
  intros a Ha. unfold clean_attr. simpl. destruct (IsSensitiveKey a.1) eqn:E; simpl; by rewrite E.
Qed.

Lemma clean_RedactAttr a : clean_attr (RedactAttr a).
Proof.
  unfold clean_attr, RedactAttr. destruct (IsSensitiveKey a.1) eqn:E; simpl; rewrite E; [done|].
  apply clean_redact.
Qed.

(** ** Properties *)

(** C31. The loop of maskKeyValues terminates within the length of its text and computes the
    one-pass reference scan; behind every occurrence of a credential key that starts a
    name, the text it leaves is empty or the mask. *)
Theorem maskKeyValues_masks s key sep :
  key ∈ sensitiveKeys -> sep ∈ sensitiveSeparators ->
  let prefix := key +:+ sep in
  mask_loop (S (String.length s)) prefix s 0 = Some (maskKeyValues s prefix)
  /\ maskKeyValues s prefix = mask_scan (S (String.length s)) prefix None s
  /\ forall x y, maskKeyValues s prefix = x +:+ prefix +:+ y ->
       name_start (last_byte None x) = true -> value_of y = "" \/ value_of y = "***".
Proof.
  intros Hk Hs prefix. pose proof (good_key _ _ Hk Hs) as Hg. fold prefix in Hg.
  assert (prefix <> "") as Hne by (by apply good_prefix_ne).
  pose proof (maskKeyValues_eq s prefix Hne) as Heq. split_and!; [|done|].
  - rewrite Heq. pose proof (mask_loop_scan prefix Hne (S (String.length s))
      (S (String.length s)) "" s) as H. cbn -[mask_loop mask_scan] in H. apply H; lia.
  - intros x y. rewrite Heq. apply mask_scan_masked; [done|lia].
Qed.

Lemma maskKeyValues_masks_witness :
  maskKeyValues "set AK=k1, DISK=d AK=k2" "AK=" = "set AK=***, DISK=d AK=***"
  /\ mask_loop 24 "AK=" "set AK=k1, DISK=d AK=k2" 0
     = Some (maskKeyValues "set AK=k1, DISK=d AK=k2" "AK=").
Proof.
  split; [vm_compute; reflexivity|].
  destruct (maskKeyValues_masks "set AK=k1, DISK=d AK=k2" "AK" "=") as [H _].
  - apply (bool_decide_unpack _). vm_compute. exact I.
  - apply (bool_decide_unpack _). vm_compute. exact I.
  - exact H.
Defined.

Lemma clean_redacted l : Forall clean_attr (map RedactAttr l).
Proof. apply Forall_map, Forall_true. intros a. apply clean_RedactAttr. Qed.

Lemma RedactAttr_name a : (RedactAttr a).1 = a.1.
Proof. unfold RedactAttr. by destruct (IsSensitiveKey a.1). Qed.

(** The attributes of a handled record: those of the record, redacted, without empty groups. *)
Lemma Handle_eq r :
  Handle r = mkRecord (r_time r) (r_level r) (RedactString (r_message r)) (r_pc r)
               (List.filter kept_attr (map RedactAttr (r_attrs r))).
Proof.
  unfold Handle. assert (forall l r', fold_left (fun newRecord a => AddAttrs newRecord [RedactAttr a]) l r'
    = AddAttrs r' (map RedactAttr l)) as ->; [|done].
  induction l as [|a l IH]; intros [t lv msg pc as']; unfold AddAttrs; simpl; [by rewrite app_nil_r|].
  rewrite IH. unfold AddAttrs. simpl. rewrite <-app_assoc. by destruct (kept_attr (RedactAttr a)).
Qed.

(** A derivation whose attributes are clean. *)
Definition clean_derivation (d : Derivation) : Prop :=
  match d with DeriveAttrs attrs => Forall clean_attr attrs | DeriveGroup _ => True end.

Definition redact_derivation (d : Derivation) : Derivation :=
  match d with DeriveAttrs attrs => DeriveAttrs (WithAttrs attrs) | DeriveGroup name => DeriveGroup name end.

Lemma derive_sanitizing {H R} `{SlogHandler H R} (h : H) ds :
  fold_left derive ds (NewSanitizingHandler h)
  = NewSanitizingHandler (fold_left derive (map redact_derivation ds) h).
Proof. revert h. induction ds as [|[attrs|name] ds IH]; intros h; simpl; [done|apply IH..]. Qed.

(** C32. Whatever a logger of the driver is asked to log, the handler below it gets no clear
    text. A logger derived by any sequence of With and WithGroup calls hands on its
    level test, its derivations and its record to the JSON handler with every attribute
    clean: one with a credential name carries the mask, at any depth of groups, every
    other text went through RedactString, and no value is left that could still yield an
    unredacted one. The message went through RedactString, time, level and position are
    those of the record, and no attribute is lost, except those that package slog drops
    because nothing is in their group. *)
Theorem logger_clean {W H R} `{SlogHandler H R} (Stdout : W) (json : W -> Level -> H)
    (w : option W) getenv ds r :
  let base := json (default Stdout w) (ParseLevel (getenv "LOG_LEVEL")) in
  let logger := fold_left derive ds (NewLoggerFromEnv Stdout json getenv w) in
  exists ds' r', sh_Handle logger r = sh_Handle (fold_left derive ds' base) r'
    /\ (forall level, sh_Enabled logger level = sh_Enabled (fold_left derive ds' base) level)
    /\ Forall clean_derivation ds' /\ length ds' = length ds
    /\ Forall clean_attr (r_attrs r')
    /\ map fst (r_attrs r')
       = map fst (List.filter (fun a => negb (isEmptyGroup (RedactAttr a).2)) (r_attrs r))
    /\ r_message r' = RedactString (r_message r) /\ r_level r' = r_level r
    /\ r_time r' = r_time r /\ r_pc r' = r_pc r.
Proof.
  intros base logger. exists (map redact_derivation ds), (Handle r). unfold logger.
  change (NewLoggerFromEnv Stdout json getenv w) with (NewSanitizingHandler base).
  rewrite derive_sanitizing, Handle_eq. split_and!; try done.
  - simpl. by rewrite Handle_eq.
  - apply Forall_map, Forall_true. intros [attrs|name]; [apply clean_redacted|done].
  - apply length_map.
  - apply Forall_kept, clean_redacted.
  - simpl. induction (r_attrs r) as [|a l IH]; [done|]. simpl. unfold kept_attr at 1.
    destruct (isEmptyGroup (RedactAttr a).2); simpl; [done|]. by rewrite IH, RedactAttr_name.
Qed.
