(* ===== verification/EvsClient.v ===== *)
(** * The EVS client's errors (internal/evs/client.go)

    Every cloud failure leaves the client as one of eight sentinels, with its text
    stripped of the configured credentials. *)

From S2P Require Import Prelude GoStrings GoErrors Log.

Local Open Scope stdpp_scope.

(** ** Sentinels *)

Definition ErrNotFound := Sentinel "evs.ErrNotFound" "cloud resource not found".
Definition ErrConflict := Sentinel "evs.ErrConflict" "cloud operation conflict".
Definition ErrInvalidArgument := Sentinel "evs.ErrInvalidArgument" "cloud rejected input".
Definition ErrNotOwned := Sentinel "evs.ErrNotOwned" "volume is not owned by this driver".
Definition ErrUnauthenticated :=
  Sentinel "evs.ErrUnauthenticated" "cloud authentication failed".
Definition ErrPermissionDenied :=
  Sentinel "evs.ErrPermissionDenied" "cloud authorization failed".
Definition ErrUnavailable := Sentinel "evs.ErrUnavailable" "cloud service unavailable".
Definition ErrOperationFailed := Sentinel "evs.ErrOperationFailed" "cloud operation failed".

(** transport.go's two sentinels. *)
Definition errGatewayFailure :=
  Sentinel "evs.errGatewayFailure" "cloud gateway reported a transient failure".
Definition errRedirectRefused :=
  Sentinel "evs.errRedirectRefused" "refused a cloud redirect".

(** ** Configuration *)

Record Config := mkConfig {
  AuthURL : string; AccessKey : string; SecretKey : string;
  ProjectID : string; RegionName : string; SecurityToken : string }.

(** ** Sanitizing *)

(** The configured secrets, longest first. *)
Definition secrets (cfg : Config) : list string :=
  insertion_sort (fun a b => (String.length b <? String.length a)%nat)
    (List.filter (fun s => negb (bool_decide (s = "")))
       [AccessKey cfg; SecretKey cfg; SecurityToken cfg]).

Definition redacted_marker : string := marker "[" "]" "REDACTED".

Definition redact_text (cfg : Config) (msg : string) : string :=
  RedactString
    (fold_left (fun m secret => ReplaceAll m secret redacted_marker) (secrets cfg) msg).

Definition sanitizeError (err : gerror) (cfg : Config) : gerror :=
  match as_url_inner err with
  | Some inner =>
      if Is inner errRedirectRefused then inner
      else ENew (redact_text cfg (Error err))
  | None => ENew (redact_text cfg (Error err))
  end.

(** ** Classification *)

Definition domain_sentinels : list sentinel :=
  [ErrNotFound; ErrConflict; ErrInvalidArgument; ErrNotOwned; ErrUnauthenticated;
   ErrPermissionDenied; ErrUnavailable; ErrOperationFailed].

Definition StatusBadGateway : Z := 502.
Definition StatusGatewayTimeout : Z := 504.

Definition classifyErrorKind (err : gerror) : sentinel :=
  match find_first (Is err) domain_sentinels with
  | Some s => s
  | None =>
      if Is err errGatewayFailure then ErrUnavailable else
      if Is err errRedirectRefused then ErrOperationFailed else
      if as_sdk (ErrDefault 400) err then ErrInvalidArgument else
      if as_sdk (ErrDefault 401) err then ErrUnauthenticated else
      if as_sdk (ErrDefault 403) err then ErrPermissionDenied else
      if as_sdk (ErrDefault 404) err then ErrNotFound else
      if as_sdk (ErrDefault 409) err then ErrConflict else
      if as_sdk (ErrDefault 408) err || as_sdk (ErrDefault 429) err
         || as_sdk (ErrDefault 500) err || as_sdk (ErrDefault 503) err
      then ErrUnavailable else
      match as_net_timeout err with
      | Some true => ErrUnavailable
      | _ =>
          match as_unexpected_code err with
          | Some actual =>
              if (actual =? StatusBadGateway)%Z || (actual =? StatusGatewayTimeout)%Z
              then ErrUnavailable else ErrOperationFailed
          | None => ErrOperationFailed
          end
      end
  end.

(** Client.classifyError for a non-nil error; [cfg] is the client's configuration. *)
Definition classifyError (cfg : Config) (operation : string) (err : gerror) : gerror :=
  let wrap s :=
    EWrap (operation +:+ ": " +:+ sentinel_text s +:+ ": " +:+ Error (sanitizeError err cfg))
      [ESentinel s] in
  if Is err Canceled then wrap Canceled else
  if Is err DeadlineExceeded then wrap DeadlineExceeded else
  wrap (classifyErrorKind err).

(** ** Facts *)

(** The caller's context ended, as the source asks before it looks at the kind. *)
Definition context_error (e : gerror) : bool := Is e Canceled || Is e DeadlineExceeded.

(** Failures the source keeps polling or reconciling on. *)
Definition transient (e : gerror) : bool :=
  bool_decide (classifyErrorKind e = ErrUnavailable \/ classifyErrorKind e = ErrOperationFailed).

Lemma classifyErrorKind_domain e : classifyErrorKind e ∈ domain_sentinels.
Proof.
  unfold classifyErrorKind. destruct (find_first _ _) as [s|] eqn:E.
  - by apply find_first_elem in E as [? _].
  - repeat first [case_match | set_solver].
Qed.

Lemma classifyErrorKind_sentinel s :
  s ∈ domain_sentinels -> classifyErrorKind (ESentinel s) = s.
Proof.
  intros Hs. unfold domain_sentinels in Hs.
  repeat (apply elem_of_cons in Hs as [->|Hs]; [vm_compute; done|]).
  by apply elem_of_nil in Hs.
Qed.

Lemma classifyErrorKind_wrap1 msg e : classifyErrorKind (EWrap msg [e]) = classifyErrorKind e.
Proof. unfold classifyErrorKind. simpl find_first. by autorewrite with go. Qed.

Lemma domain_not_context s :
  s ∈ domain_sentinels -> s <> Canceled /\ s <> DeadlineExceeded.
Proof.
  intros Hs. unfold domain_sentinels in Hs.
  repeat (apply elem_of_cons in Hs as [->|Hs]; [done|]). by apply elem_of_nil in Hs.
Qed.

(** The class of an error. *)
Definition error_class (e : gerror) : sentinel :=
  if Is e Canceled then Canceled else
  if Is e DeadlineExceeded then DeadlineExceeded else classifyErrorKind e.

Lemma classifyError_shape cfg op e :
  exists msg, classifyError cfg op e = EWrap msg [ESentinel (error_class e)].
Proof.
  unfold classifyError, error_class.
  destruct (Is e Canceled); [|destruct (Is e DeadlineExceeded)]; by eexists.
Qed.

Lemma classifyError_Is cfg op e s :
  Is (classifyError cfg op e) s = bool_decide (s = error_class e).
Proof.
  destruct (classifyError_shape cfg op e) as [msg ->]. autorewrite with go. by apply bool_decide_ext.
Qed.

Lemma error_class_again cfg op e : error_class (classifyError cfg op e) = error_class e.
Proof.
  destruct (classifyError_shape cfg op e) as [msg ->].
  unfold error_class at 1. autorewrite with go. rewrite classifyErrorKind_wrap1.
  unfold error_class. destruct (Is e Canceled); [done|]. destruct (Is e DeadlineExceeded); [done|].
  destruct (domain_not_context _ (classifyErrorKind_domain e)).
  rewrite !bool_decide_false by done. apply classifyErrorKind_sentinel, classifyErrorKind_domain.
Qed.

Lemma classifyError_context cfg op e :
  context_error (classifyError cfg op e) = context_error e.
Proof.
  unfold context_error. rewrite !classifyError_Is. unfold error_class.
  destruct (Is e Canceled); [done|]. destruct (Is e DeadlineExceeded); [done|].
  destruct (domain_not_context _ (classifyErrorKind_domain e)).
  by rewrite !bool_decide_false by done.
Qed.

(** ** Secrets *)

Lemma redacted_marker_eq : redacted_marker = "[REDACTED]".
Proof. done. Qed.

(** A credential the redaction can hide: it shares no byte with the brackets or the mask
    and is not a piece of the word REDACTED. Of any other the marker itself would show a
    part, as [REDACTED] shows the key RED. *)
Definition plain_secret (s : string) : bool :=
  negb (bool_decide (s = "")) && negb (contains_byte "[" s) && negb (contains_byte "]" s)
  && negb (contains_byte "*" s) && negb (Contains "REDACTED" s).

Lemma plain_secret_spec s :
  plain_secret s = true ->
  s <> "" /\ contains_byte "[" s = false /\ contains_byte "]" s = false
  /\ contains_byte "*" s = false /\ ~ occurs s "REDACTED".
Proof. unfold plain_secret. intros H. to_prop. repeat split; try done. by apply Contains_false. Qed.

Lemma elem_of_secrets cfg s :
  s ∈ secrets cfg <->
  s <> "" /\ (s = AccessKey cfg \/ s = SecretKey cfg \/ s = SecurityToken cfg).
Proof.
  unfold secrets. rewrite insertion_sort_perm, !list_elem_of_In, List.filter_In, negb_true_iff,
    bool_decide_eq_false. simpl. intuition congruence.
Qed.

Lemma occurs_replace_all (l : list string) s msg :
  plain_secret s = true -> s ∈ l ->
  ~ occurs s (fold_left (fun m secret => ReplaceAll m secret redacted_marker) l msg).
Proof. intros (? & ? & ? & ? & ?)%plain_secret_spec Hin. by apply occurs_replace_list. Qed.

Lemma redact_text_no_secret cfg s msg :
  plain_secret s = true -> s ∈ secrets cfg -> ~ occurs s (redact_text cfg msg).
Proof.
  intros Hs Hin Ho. unfold redact_text in Ho. pose proof (plain_secret_spec s Hs) as (? & _ & _ & ? & _).
  apply occurs_RedactString in Ho; [|done..]. by apply occurs_replace_all in Ho.
Qed.

(** ** Properties *)

(** C28. An error the client returns belongs to exactly one class its callers test for: a
    context error exactly when the cause is one (cancellation first), else one of the
    eight domain classes; and classifying it again, under any operation name, keeps the
    class. *)
Theorem classifyError_class c op e :
  (exists s, (forall t, Is (classifyError c op e) t = bool_decide (t = s))
    /\ (s = Canceled <-> Is e Canceled = true)
    /\ (s = DeadlineExceeded <-> Is e Canceled = false /\ Is e DeadlineExceeded = true)
    /\ ((s ∈ domain_sentinels) <-> Is e Canceled = false /\ Is e DeadlineExceeded = false))
  /\ (forall op' t, Is (classifyError c op' (classifyError c op e)) t
                   = Is (classifyError c op e) t).
Proof.
  pose proof (classifyErrorKind_domain e) as Hdom.
  destruct (domain_not_context _ Hdom) as [Hc Hd].
  assert ((Canceled ∉ domain_sentinels) /\ (DeadlineExceeded ∉ domain_sentinels)) as [Hnc Hnd].
  { split; intros [? ?]%domain_not_context; done. }
  split.
  - exists (error_class e). split; [intros t; apply classifyError_Is|]. unfold error_class.
    destruct (Is e Canceled); [|destruct (Is e DeadlineExceeded)];
      (split_and!; split; intros; destruct_and?; try done; congruence).
  - intros op' t. rewrite (classifyError_Is _ op'), classifyError_Is. by rewrite error_class_again.
Qed.
