(* ===== verification/EvsTransport.v ===== *)
(** * HTTP transport layers of the EVS client (internal/evs/transport.go and the
    provider set-up of internal/evs/client.go)

    The base transport (net/http below the SDK) is a parameter; the two layers the
    driver adds, the per-request scoping and the redirect policy are definitions. *)

From S2P Require Import Prelude GoStrings GoErrors Runtime EvsClient.

Local Open Scope stdpp_scope.
Local Open Scope go_scope.

(** ** Bounds *)

Definition requestTimeout : Z := 60 * Second.
Definition maxOperationTimeout : Z := 10 * Minute.
Definition maxRedirects : nat := 3.

(** ** Requests and round trippers *)

Record URL := mkURL { url_Scheme : string; url_Host : string; url_Path : string }.

Record Request := mkRequest { req_Method : string; req_URL : URL; req_ctx : GoContext }.

Record Response := mkResponse { StatusCode : Z; Body : string }.

(** req.Clone. *)
Definition Clone (req : Request) (ctx : GoContext) : Request :=
  mkRequest (req_Method req) (req_URL req) ctx.

(** An http.RoundTripper value: one of net/http's own transports, a layer of this package,
    or the layer of the end-to-end asset (test/e2e/service_client.go). Pointers that may
    be nil are options. *)
#[warnings="-register-all"]
Inductive RoundTripper :=
| HTTPTransport (id : N)
| contextTransport (ctx : option GoContext) (next : option RoundTripper)
| gatewayTransport (next : option RoundTripper)
| requestContextTransport (ctx : GoContext) (next : option RoundTripper).

(** http.DefaultTransport. *)
Definition DefaultTransport : RoundTripper := HTTPTransport 0.

(** What the base transports do, and what a round trip leaves in the trace. *)
Class HTTP (E : Type) := base_round_trip : N -> Request -> Z -> E -> N * result Response * E.

Record Sent := mkSent { sent_by : N; sent : Request; answered : result Response }.

Section RoundTrip.
Context {E : Type} `{HTTP E}.

Definition gateway_check (resp : Response) : result Response :=
  if (StatusCode resp =? StatusBadGateway)%Z || (StatusCode resp =? StatusGatewayTimeout)%Z
  then Err (EWrap (sentinel_text errGatewayFailure +:+ ": status " +:+ itoa (StatusCode resp))
              [ESentinel errGatewayFailure])
  else Ok resp.

Fixpoint RoundTrip (t : RoundTripper) (req : Request) : M E Sent (result Response) :=
  match t with
  | HTTPTransport id => call (base_round_trip id req) (mkSent id req)
  | contextTransport ctx next =>
      let ctx := default Background ctx in
      match next with
      | Some next => RoundTrip next (Clone req ctx)
      | None => call (base_round_trip 0 (Clone req ctx)) (mkSent 0 (Clone req ctx))
      end
  | gatewayTransport next =>
      let inner :=
        match next with
        | Some next => RoundTrip next req
        | None => call (base_round_trip 0 req) (mkSent 0 req)
        end in
      try! resp := inner in
      ret (gateway_check resp)
  | requestContextTransport ctx next =>
      match next with
      | Some next => RoundTrip next (Clone req ctx)
      | None => call (base_round_trip 0 (Clone req ctx)) (mkSent 0 (Clone req ctx))
      end
  end.
End RoundTrip.

(** ** Service clients *)

(** The fields of the SDK's provider client the driver touches. *)
Record ProviderClient := mkProvider {
  Transport : option RoundTripper;
  Timeout : Z;
  MaxBackoffRetries : option nat;
  BackoffRetryTimeout : option Z }.

Record ServiceClient := mkService {
  sc_provider : option ProviderClient;
  Endpoint : string;
  ResourceBase : string }.

Definition set_transport (p : ProviderClient) (t : option RoundTripper) : ProviderClient :=
  mkProvider t (Timeout p) (MaxBackoffRetries p) (BackoffRetryTimeout p).

Definition withRequestContext (ctx : GoContext) (client : option ServiceClient) :
    option ServiceClient :=
  match client with
  | None => None
  | Some c =>
      match sc_provider c with
      | None => client
      | Some provider =>
          let base :=
            match Transport provider with
            | Some (gatewayTransport next) => Some (gatewayTransport next)
            | base => Some (gatewayTransport base)
            end in
          Some (mkService
            (Some (set_transport provider (Some (contextTransport (Some ctx) base))))
            (Endpoint c) (ResourceBase c))
      end
  end.

(** ** Redirects *)

(** checkRedirect; [via] are the requests made already, oldest first. net/http passes at
    least one, so the fallback of [default] is never used. The re-signing of an accepted
    hop changes headers only. *)
Definition checkRedirect (req : Request) (via : list Request) : result unit :=
  if (maxRedirects <? length via)%nat then
    Err (EWrap (sentinel_text errRedirectRefused +:+ ": exceeded "
                +:+ itoa (Z.of_nat maxRedirects) +:+ " redirects")
           [ESentinel errRedirectRefused])
  else
    let previous := default req (via !! (length via - 1)%nat) in
    if negb (bool_decide (url_Scheme (req_URL req) = url_Scheme (req_URL previous)))
       || negb (bool_decide (url_Host (req_URL req) = url_Host (req_URL previous)))
    then Err (EWrap (sentinel_text errRedirectRefused +:+ ": cross-origin redirect")
                [ESentinel errRedirectRefused])
    else Ok tt.

(** ** Provider construction *)

Record AKSKAuthOptions := mkAuth {
  IdentityEndpoint : string; auth_AccessKey : string; auth_SecretKey : string;
  ProjectId : string; auth_SecurityToken : string }.

(** The SDK's provider constructor and its authentication exchange. *)
Class ProviderSDK (E : Type) := {
  openstack_NewClient : string -> result ProviderClient;
  openstack_Authenticate :
    ProviderClient -> AKSKAuthOptions -> Z -> E -> N * option gerror * E }.

Record AuthCall := mkAuthCall { auth_provider : ProviderClient; auth_error : option gerror }.

Definition config_complete (cfg : Config) : bool :=
  negb (bool_decide (AuthURL cfg = "")) && negb (bool_decide (AccessKey cfg = ""))
  && negb (bool_decide (SecretKey cfg = "")) && negb (bool_decide (ProjectID cfg = ""))
  && negb (bool_decide (RegionName cfg = "")).

Section Provider.
Context {E : Type} `{ProviderSDK E}.

Definition NewProviderClient (ctx : GoContext) (cfg : Config) :
    M E AuthCall (result ProviderClient) :=
  if negb (config_complete cfg)
  then ret (Err (ENew "invalid configuration: required fields missing")) else
  let opts := mkAuth (AuthURL cfg) (AccessKey cfg) (SecretKey cfg) (ProjectID cfg)
                (SecurityToken cfg) in
  match openstack_NewClient (AuthURL cfg) with
  | Err err =>
      ret (Err (let safe := sanitizeError err cfg in
                EWrap ("create provider client: " +:+ Error safe) [safe]))
  | Ok client =>
      let gateway := gatewayTransport (Transport client) in
      let client :=
        mkProvider (Some (contextTransport (Some ctx) (Some gateway))) requestTimeout
          (Some 0%nat) (Some 0%Z) in
      let! err := call (openstack_Authenticate client opts) (mkAuthCall client) in
      match err with
      | Some err =>
          ret (Err (let safe := sanitizeError err cfg in
                    EWrap ("authenticate provider client: " +:+ Error safe) [safe]))
      | None => ret (Ok (set_transport client (Some gateway)))
      end
  end.
End Provider.

(** ** Facts *)

Section Facts.
Context {E : Type} `{HTTP E}.
(** A layered transport reaches the base once. *)
Lemma wp_RoundTrip t req (w : World E Sent) :
  wp (RoundTrip t req) (fun _ evs _ => exists id ctx, Forall (fun s =>
    sent_by s = id /\ sent s = Clone req ctx) evs /\ length evs = 1%nat) w.
Proof.
  revert t req w. fix IH 1. intros t req w. destruct t as [id|ctx [next|]|[next|]|ctx [next|]];
    cbn [RoundTrip].
  - apply wp_call. intros r w' _. exists id, (req_ctx req). split; [|done].
    repeat constructor. by destruct req.
  - eapply wp_mono; [apply IH|]. intros r evs w' _ (id & c & Hs & Hl). by exists id, c.
  - apply wp_call. intros r w' _. exists 0%N, (default Background ctx). split; [|done].
    by repeat constructor.
  - wp_step. eapply wp_mono; [apply IH|]. intros [r|e] evs w' _ (id & c & Hs & Hl); [wp_step|]; by exists id, c.
  - wp_step. apply wp_call. intros [r|e] w' _; [wp_step|]; exists 0%N, (req_ctx req);
      (split; [|done]); repeat constructor; by destruct req.
  - eapply wp_mono; [apply IH|]. intros r evs w' _ (id & c & Hs & Hl). by exists id, c.
  - apply wp_call. intros r w' _. exists 0%N, ctx. split; [|done]. by repeat constructor.
Qed.

Lemma gateway_check_status resp r :
  gateway_check resp = Ok r -> r = resp /\ StatusCode r <> 502%Z /\ StatusCode r <> 504%Z.
Proof.
  unfold gateway_check, StatusBadGateway, StatusGatewayTimeout. intros Hr.
  destruct (Z.eqb_spec (StatusCode resp) 502), (Z.eqb_spec (StatusCode resp) 504);
    simpl in Hr; simplify_eq; auto.
Qed.

Lemma gateway_check_err resp e :
  gateway_check resp = Err e -> classifyErrorKind e = ErrUnavailable.
Proof.
  unfold gateway_check. destruct (_ || _); intros; simplify_eq. by rewrite classifyErrorKind_wrap1.
Qed.
End Facts.

(** A transport whose next hop is a net/http transport behind at most one gateway layer:
    what the driver installs in a provider. *)
Definition base_transport (t : option RoundTripper) : Prop :=
  match t with
  | None | Some (HTTPTransport _) => True
  | Some (gatewayTransport next) =>
      match next with None | Some (HTTPTransport _) => True | _ => False end
  | _ => False
  end.

Definition scoped_transport (ctx : GoContext) (t : option RoundTripper) : Prop :=
  exists next, t = Some (contextTransport (Some ctx) (Some (gatewayTransport next)))
    /\ match next with None | Some (HTTPTransport _) => True | _ => False end.

Lemma withRequestContext_scoped ctx c p :
  sc_provider c = Some p -> base_transport (Transport p) ->
  exists c' p', withRequestContext ctx (Some c) = Some c' /\ sc_provider c' = Some p'
    /\ scoped_transport ctx (Transport p') /\ Endpoint c' = Endpoint c
    /\ ResourceBase c' = ResourceBase c.
Proof.
  intros Hp Hb. unfold withRequestContext. rewrite Hp.
  eexists _, _. split; [done|]. split; [done|]. split; [|done]. simpl.
  unfold scoped_transport, base_transport in *.
  destruct (Transport p) as [[id|? ?|[[]|]|? ?]|]; try done; eexists; done.
Qed.

(** ** Properties *)

(** A request through a scoped client is sent exactly once, by the provider's own
    transport, under the operation's context and otherwise unchanged. The answer is
    passed on, except that a 502 or 504 becomes an error the driver classifies as
    transient, so the SDK never repeats a request on it. *)
Theorem scoped_RoundTrip {E} `{HTTP E} ctx id req (w : World E Sent) :
  runs (RoundTrip (contextTransport (Some ctx) (Some (gatewayTransport (Some (HTTPTransport id)))))
          req) w (fun r evs =>
    exists a, evs = [mkSent id (Clone req ctx) a] /\
      match a with
      | Err e => r = Err e
      | Ok resp =>
          if decide (StatusCode resp = 502 \/ StatusCode resp = 504)%Z
          then exists e, r = Err e /\ classifyErrorKind e = ErrUnavailable
          else r = Ok resp
      end).
Proof.
  apply wp_runs. cbn [RoundTrip default from_option]. wp_step. apply wp_call. intros [resp|e] w' _.
  - wp_step. exists (Ok resp). split; [done|]. unfold gateway_check, StatusBadGateway, StatusGatewayTimeout.
    destruct (Z.eqb_spec (StatusCode resp) 502), (Z.eqb_spec (StatusCode resp) 504);
      destruct (decide _); try lia; simpl; try done;
      (eexists; split; [reflexivity|by rewrite classifyErrorKind_wrap1]).
  - by exists (Err e).
Qed.

(** The requests of one exchange, oldest first: each hop was accepted against those before. *)
Inductive redirect_chain (first : Request) : list Request -> Prop :=
| chain_first : redirect_chain first [first]
| chain_hop via req : redirect_chain first via -> checkRedirect req via = Ok tt ->
    redirect_chain first (via ++ [req]).

Lemma checkRedirect_ok req via last :
  checkRedirect req (via ++ [last]) = Ok tt ->
  (length via < maxRedirects)%nat /\ url_Scheme (req_URL req) = url_Scheme (req_URL last)
  /\ url_Host (req_URL req) = url_Host (req_URL last).
Proof.
  unfold checkRedirect. rewrite length_app. simpl.
  replace (length via + 1 - 1)%nat with (length via) by lia.
  rewrite list_lookup_middle by done. simpl.
  destruct (Nat.ltb_spec maxRedirects (length via + 1)); [done|].
  destruct (_ || _) eqn:Eo; [done|]. to_prop. split; [lia|done].
Qed.

(** What a refused redirect says: one of two fixed texts, which name no URL. *)
Definition refusal_texts : list string :=
  [sentinel_text errRedirectRefused +:+ ": exceeded 3 redirects";
   sentinel_text errRedirectRefused +:+ ": cross-origin redirect"].

Lemma checkRedirect_refusal req via e :
  checkRedirect req via = Err e -> Error e ∈ refusal_texts /\ Is e errRedirectRefused = true.
Proof.
  unfold checkRedirect. destruct (_ <? _)%nat; [|destruct (_ || _); [|done]]; intros [= <-];
    (split; [|by vm_compute]); [apply list_elem_of_here|apply list_elem_of_further, list_elem_of_here].
Qed.

(** C29. No credential survives in the text of a sanitized error: whatever the SDK put in
    its message, a configured access key, secret key or token does not occur in it. The
    one error passed through unredacted is the refusal of a redirect inside a url.Error,
    which comes from checkRedirect, and only the refusal, without the URL around it. The
    credential must be one that can be hidden: without brackets or a star, not a piece of
    the word REDACTED, and not a piece of the two fixed texts of a refusal. *)
Theorem sanitizeError_no_secret err c s :
  plain_secret s = true -> s ∈ secrets c -> Forall (fun text => ~ occurs s text) refusal_texts ->
  (forall inner, as_url_inner err = Some inner -> Is inner errRedirectRefused = true ->
     exists req via, checkRedirect req via = Err inner) ->
  ~ occurs s (Error (sanitizeError err c)).
Proof.
  intros Hs Hin Htexts Hurl. unfold sanitizeError.
  destruct (as_url_inner err) as [inner|] eqn:Ei; [|by apply redact_text_no_secret].
  destruct (Is inner errRedirectRefused) eqn:Er; [|by apply redact_text_no_secret].
  destruct (Hurl inner eq_refl Er) as (req & via & [Ht _]%checkRedirect_refusal).
  by apply (proj1 (list.Forall_forall _ _) Htexts).
Qed.

Lemma sanitizeError_no_secret_witness :
  let c := mkConfig "https://iam" "AKID77" "topsecret" "p" "eu-de" "" in
  let refusal := EWrap (sentinel_text errRedirectRefused +:+ ": cross-origin redirect")
                   [ESentinel errRedirectRefused] in
  let err := EURL "Get" "https://elsewhere/?key=topsecret" refusal in
  ~ occurs "topsecret" (Error (sanitizeError err c)).
Proof.
  intros c refusal err. apply sanitizeError_no_secret.
  - vm_compute. reflexivity.
  - apply (bool_decide_unpack _). vm_compute. exact I.
  - repeat constructor; apply Contains_false; vm_compute; reflexivity.
  - intros inner [= <-] _. set (r host := mkRequest "GET" (mkURL "https" host "/") Background).
    exists (r "elsewhere"), [r "evs.example"]. vm_compute. reflexivity.
Defined.

(** C30. Redirects stay at the origin they started from: whatever chain of hops the redirect
    policy accepts, every request of it has the scheme and host of the first one, and
    there are at most three redirects, so credentials reach no other host. *)
Theorem redirects_same_origin first l :
  redirect_chain first l ->
  (length l <= S maxRedirects)%nat
  /\ Forall (fun r => url_Scheme (req_URL r) = url_Scheme (req_URL first)
                   /\ url_Host (req_URL r) = url_Host (req_URL first)) l.
Proof.
  intros Hc. induction Hc as [|via req Hc [Hlen Hall] Hok]; [split; [simpl; lia|by repeat constructor]|].
  destruct via as [|last via _] using rev_ind; [inversion Hc; by destruct via|].
  apply checkRedirect_ok in Hok as (Hl & Hs & Hh).
  rewrite !length_app in *. simpl in *. split; [lia|]. apply Forall_app. split; [done|].
  apply Forall_app in Hall as [_ Hlast]. apply Forall_cons_iff in Hlast as [[H1 H2] _].
  repeat constructor; congruence.
Qed.

Lemma redirects_same_origin_witness :
  let r path := mkRequest "GET" (mkURL "https" "evs.example" path) Background in
  (length [r "/a"; r "/b"; r "/c"] <= 4)%nat
  /\ Forall (fun q => url_Scheme (req_URL q) = "https" /\ url_Host (req_URL q) = "evs.example")
       [r "/a"; r "/b"; r "/c"].
Proof.
  intros r. apply (redirects_same_origin (r "/a")).
  apply (chain_hop _ [r "/a"; r "/b"]); [|vm_compute; reflexivity].
  apply (chain_hop _ [r "/a"]); [|vm_compute; reflexivity]. constructor.
Defined.
