(* ===== verification/EvsSDK.v ===== *)
(** * The cloud SDK as the EVS client sees it

    The SDK (gophertelekomcloud) and the cloud behind it are not part of the
    repository. The class [CloudSDK] has one operation per SDK function the client
    calls; its answers are arbitrary. Every call is recorded with the service client it
    was made through, so that theorems can speak of the requests an operation sends. *)

From S2P Require Import Prelude GoStrings GoErrors GoURL Runtime EvsClient EvsTransport.

Local Open Scope stdpp_scope.
Local Open Scope go_scope.

(** ** Data of the SDK *)

Record v3CreateOpts := mkV3CreateOpts {
  v3o_AvailabilityZone : string; v3o_VolumeType : string; v3o_Name : string;
  v3o_Description : string; v3o_Size : Z; v3o_Multiattach : bool;
  v3o_Tags : gmap string string }.

Record v3Attachment := mkV3Attachment { va_ServerID : string }.

Record v3Volume := mkV3Volume {
  v3_ID : string; v3_Name : string; v3_Status : string; v3_Size : Z;
  v3_AvailabilityZone : string; v3_VolumeType : string;
  v3_Metadata : gmap string string; v3_Tags : gmap string string; v3_Multiattach : bool;
  v3_Attachments : list v3Attachment }.

Record v2Metadata := mkV2Metadata {
  SystemCmkID : string; SystemEncrypted : string; FullClone : string;
  HwPassthrough : string; OrderID : string; ResourceType : string;
  ResourceSpecCode : string; ReadOnly : string; AttachedMode : string }.

Record v2Volume := mkV2Volume {
  v2_ID : string; v2_Name : string; v2_Status : string; v2_Size : Z;
  v2_AvailabilityZone : string; v2_VolumeType : string; v2_Metadata : v2Metadata;
  v2_Tags : gmap string string; v2_Multiattach : bool }.

Record v2ListOpts := mkV2ListOpts {
  v2l_Name : string; v2l_Status : string; v2l_AvailabilityZone : string;
  v2l_ID : string; v2l_Limit : Z; v2l_Offset : Z }.

Record JobResponse := mkJobResponse { JobID : string }.

(** The answer of v3volumes.Create: its Err field, and what ExtractJobResponse yields. *)
Record CreateResult := mkCreateResult {
  cr_Err : option gerror; ExtractJobResponse : result JobResponse }.

Record JobStatus := mkJobStatus {
  js_Status : string; js_VolumeID : string; js_ErrorCode : string; js_FailReason : string }.

Record diskAttachment := mkDiskAttachment {
  da_VolumeID : string; da_ServerID : string; da_Device : string }.

Record diskCreateOpts := mkDiskCreateOpts { dc_ServerID : string; dc_VolumeID : string }.

(** ** Operations *)

Class CloudSDK (E : Type) := {
  v3_Create : option ServiceClient -> v3CreateOpts -> prim E CreateResult;
  v3_Get : option ServiceClient -> string -> prim E (result v3Volume);
  v3_Delete : option ServiceClient -> string -> prim E (option gerror);
  v2_List : option ServiceClient -> v2ListOpts -> prim E (result (list v2Volume));
  evs_GetJob : ServiceClient -> string -> prim E (result JobStatus);
  disk_GetAttachments :
    option ServiceClient -> string -> prim E (result (option (list diskAttachment)));
  disk_Attach :
    option ServiceClient -> diskCreateOpts -> prim E (result (option JobResponse));
  disk_Detach :
    option ServiceClient -> string -> string -> Z -> prim E (result (option JobResponse));
  ecs_GetJob : option ServiceClient -> string -> prim E (result JobStatus);
  cloud_scheduler :: Scheduler E }.

(** The SDK's service client constructors. *)
Class ServiceSDK := {
  NewBlockStorageV3 : ProviderClient -> string -> result ServiceClient;
  NewBlockStorageV2 : ProviderClient -> string -> result ServiceClient;
  NewComputeV1 : ProviderClient -> string -> result ServiceClient }.

(** ** The trace *)

Inductive Call :=
| CallCreate (opts : v3CreateOpts) (r : CreateResult)
| CallGet (id : string) (r : result v3Volume)
| CallDelete (id : string) (r : option gerror)
| CallList (opts : v2ListOpts) (r : result (list v2Volume))
| CallJob (id : string) (r : result JobStatus)
| CallGetAttachments (server : string) (r : result (option (list diskAttachment)))
| CallAttach (opts : diskCreateOpts) (r : result (option JobResponse))
| CallDetach (server volume : string) (delete_flag : Z) (r : result (option JobResponse))
| CallServerJob (id : string) (r : result JobStatus).

Record Event := mkEvent { ev_client : option ServiceClient; ev_call : Call }.

Section Calls.
Context {E : Type} `{CloudSDK E}.
Abbreviation sdk A := (M E Event A).

Definition sdk_Create (sc : option ServiceClient) opts : sdk CreateResult :=
  call (v3_Create sc opts) (fun r => mkEvent sc (CallCreate opts r)).
Definition sdk_Get (sc : option ServiceClient) id : sdk (result v3Volume) :=
  call (v3_Get sc id) (fun r => mkEvent sc (CallGet id r)).
Definition sdk_Delete (sc : option ServiceClient) id : sdk (option gerror) :=
  call (v3_Delete sc id) (fun r => mkEvent sc (CallDelete id r)).
Definition sdk_List (sc : option ServiceClient) opts : sdk (result (list v2Volume)) :=
  call (v2_List sc opts) (fun r => mkEvent sc (CallList opts r)).
Definition sdk_Job (sc : ServiceClient) id : sdk (result JobStatus) :=
  call (evs_GetJob sc id) (fun r => mkEvent (Some sc) (CallJob id r)).
Definition sdk_GetAttachments (sc : option ServiceClient) server :
    sdk (result (option (list diskAttachment))) :=
  call (disk_GetAttachments sc server) (fun r => mkEvent sc (CallGetAttachments server r)).
Definition sdk_Attach (sc : option ServiceClient) opts : sdk (result (option JobResponse)) :=
  call (disk_Attach sc opts) (fun r => mkEvent sc (CallAttach opts r)).
Definition sdk_Detach (sc : option ServiceClient) server volume flag :
    sdk (result (option JobResponse)) :=
  call (disk_Detach sc server volume flag)
    (fun r => mkEvent sc (CallDetach server volume flag r)).
Definition sdk_ServerJob (sc : option ServiceClient) id : sdk (result JobStatus) :=
  call (ecs_GetJob sc id) (fun r => mkEvent sc (CallServerJob id r)).
End Calls.

(** ** The client *)

(** evs.Client. *)
Record Client := mkClient {
  cfg : Config;
  v3Client : option ServiceClient;
  v2Client : option ServiceClient;
  ecsClient : option ServiceClient }.

Definition v3 (c : Client) (ctx : GoContext) : option ServiceClient :=
  withRequestContext ctx (v3Client c).
Definition v2 (c : Client) (ctx : GoContext) : option ServiceClient :=
  withRequestContext ctx (v2Client c).
Definition ecs (c : Client) (ctx : GoContext) : option ServiceClient :=
  withRequestContext ctx (ecsClient c).

(** ** Construction *)

Section Construction.
Context `{ServiceSDK}.

Definition NewClientFromProvider (provider : ProviderClient) (c : Config) : result Client :=
  let fail what err :=
    Err (wrapf ("create " +:+ what +:+ " service client: ") (sanitizeError err c)) in
  match NewBlockStorageV3 provider (RegionName c) with
  | Err err => fail "block storage v3" err
  | Ok v3 =>
      match NewBlockStorageV2 provider (RegionName c) with
      | Err err => fail "block storage v2" err
      | Ok v2 =>
          match NewComputeV1 provider (RegionName c) with
          | Err err => fail "ECS v1" err
          | Ok ecs => Ok (mkClient c (Some v3) (Some v2) (Some ecs))
          end
      end
  end.

Definition NewClientWithServiceClients (v3 v2 ecs : option ServiceClient) (c : Config) :
    Client := mkClient c v3 v2 ecs.

Definition NewClient {E} `{ProviderSDK E} (ctx : GoContext) (c : Config) :
    M E AuthCall (result Client) :=
  try! provider := NewProviderClient ctx c in
  ret (NewClientFromProvider provider c).
End Construction.

(** ** Facts *)

Lemma classifyErrorKind_sentinelf msg s :
  s ∈ domain_sentinels -> classifyErrorKind (sentinelf msg s) = s.
Proof. intros Hs. unfold sentinelf. rewrite classifyErrorKind_wrap1. by apply classifyErrorKind_sentinel. Qed.

(** The SDK calls, one rule each. *)
Ltac sdk_step :=
  lazymatch goal with
  | |- wp (sdk_Create _ _) _ _ => apply wp_call
  | |- wp (sdk_Get _ _) _ _ => apply wp_call
  | |- wp (sdk_Delete _ _) _ _ => apply wp_call
  | |- wp (sdk_List _ _) _ _ => apply wp_call
  | |- wp (sdk_Job _ _) _ _ => apply wp_call
  | |- wp (sdk_GetAttachments _ _) _ _ => apply wp_call
  | |- wp (sdk_Attach _ _) _ _ => apply wp_call
  | |- wp (sdk_Detach _ _ _ _) _ _ => apply wp_call
  | |- wp (sdk_ServerJob _ _) _ _ => apply wp_call
  | _ => wp_step
  end.
