(* ===== verification/EvsVolume.v ===== *)
(** * EVS volumes (internal/evs/volume.go)

    Create, get and delete, over the SDK of [EvsSDK]; listing and discovery are in
    [EvsListing]. *)

From S2P Require Import Prelude GoStrings GoErrors GoURL Runtime EvsClient EvsTransport EvsSDK.

Local Open Scope stdpp_scope.
Local Open Scope go_scope.

(** ** Constants *)

Definition OwnershipTagKey : string := "managed-by".
Definition OwnershipTagValue : string := "evs-csi-t-cloud-wilaris-dev".

Definition volumeStatusAvailable : string := "available".
Definition volumeStatusAttaching : string := "attaching".
Definition volumeStatusInUse : string := "in-use".
Definition volumeStatusDetaching : string := "detaching".
Definition volumeStatusDeleting : string := "deleting".
Definition volumeStatusErrorDeleting : string := "error_deleting".

Definition volumeAbsencePollInterval : Z := Second.
Definition volumeAbsenceMaxAttempts : nat := 60.

(** ** Data *)

Record Volume := mkVolume {
  vol_ID : string; vol_Name : string; vol_Status : string; vol_Size : Z;
  vol_AvailabilityZone : string; vol_VolumeType : string;
  vol_Metadata : gmap string string; vol_Tags : gmap string string;
  vol_Multiattach : bool }.

Record CreateVolumeOpts := mkCreateVolumeOpts {
  cvo_AvailabilityZone : string; cvo_VolumeType : string; cvo_Name : string;
  cvo_Description : string; cvo_Size : Z; cvo_Multiattach : bool }.

(** ** Mapping of SDK records *)

(** The pointer the SDK's Extract returns without an error is never nil. *)
Definition mapV3VolumeToDomain (v : v3Volume) : Volume :=
  mkVolume (v3_ID v) (v3_Name v) (v3_Status v) (v3_Size v) (v3_AvailabilityZone v)
    (v3_VolumeType v) (v3_Metadata v) (v3_Tags v) (v3_Multiattach v).

(** ** Ownership *)

(** Reading a missing key of a Go map yields the zero value. *)
Definition tag (vol : Volume) (k : string) : string := default "" (vol_Tags vol !! k).

Definition owned (vol : Volume) : bool :=
  bool_decide (tag vol OwnershipTagKey = OwnershipTagValue).

(** ** Job polling *)

Definition jobPollShouldStop (err : gerror) : bool :=
  if context_error err then true else negb (transient err).

(** One turn per second of the operation bound, and two to notice the end. *)
Definition poll_fuel : nat := Z.to_nat (maxOperationTimeout / Second) + 2.

Definition jobStatusEndpoint `{CloudURLs} (endpoint : string) : result string :=
  match url_Parse endpoint with
  | Err err =>
      Err (EWrap ("wait for job: parse endpoint: " +:+ sentinel_text ErrOperationFailed
                  +:+ ": " +:+ Error err) [ESentinel ErrOperationFailed])
  | Ok u =>
      match CutPrefix (u_Path u) "/v3/" with
      | None =>
          Err (sentinelf ("wait for job: endpoint path " +:+ quote (u_Path u)
                          +:+ " does not start with /v3/: ") ErrOperationFailed)
      | Some rest => Ok (url_String (set_path u ("/v1/" +:+ rest)))
      end
  end.

Section Operations.
Context {E : Type} `{CloudSDK E} `{CloudURLs}.
Abbreviation op A := (M E Event (result A)).

(** The check [if ctx.Err() != nil] with its classified error. *)
Definition check_ctx {A} (c : Client) (ctx : GoContext) (operation : string) (k : op A) : op A :=
  let! e := ctx_err ctx in
  match e with
  | Some e => ret (Err (classifyError (cfg c) operation e))
  | None => k
  end.

(** One turn of waitForJobSuccess; [None] waits for the next tick. *)
Definition job_turn (ctx : GoContext) (jobClient : ServiceClient) (jobID : string) :
    M E Event (option (result string)) :=
  let! e := ctx_err ctx in
  match e with
  | Some e => ret (Some (Err e))
  | None =>
      let! r := sdk_Job jobClient jobID in
      match r with
      | Ok job =>
          if decide (js_Status job = "SUCCESS") then
            let volID := TrimSpace (js_VolumeID job) in
            if decide (volID = "")
            then ret (Some (Err (sentinelf ("EVS job " +:+ jobID
                   +:+ " succeeded without a volume_id: ") ErrOperationFailed)))
            else ret (Some (Ok volID))
          else if decide (js_Status job = "FAIL") then
            ret (Some (Err (ENew ("EVS job " +:+ jobID +:+ " failed (code "
                   +:+ js_ErrorCode job +:+ "): " +:+ js_FailReason job))))
          else ret None
      | Err err => if jobPollShouldStop err then ret (Some (Err err)) else ret None
      end
  end.

Definition waitForJobSuccess (c : Client) (ctx : GoContext) (jobID : string) : op string :=
  deref (v3 c ctx) (fun jobClient =>
  match jobStatusEndpoint (Endpoint jobClient) with
  | Err err => ret (Err err)
  | Ok jobEndpoint =>
      let jobClient := mkService (sc_provider jobClient) jobEndpoint jobEndpoint in
      let! ticker := NewTicker Second in
      poll_loop poll_fuel ctx ticker (job_turn ctx jobClient jobID)
  end).

(** ** Reading *)

Definition GetVolume (c : Client) (ctx : GoContext) (id : string) : op Volume :=
  with_timeout ctx maxOperationTimeout (fun ctx =>
  check_ctx c ctx "get volume" (
  if blank id
  then ret (Err (sentinelf "get volume: volume id cannot be empty: " ErrInvalidArgument)) else
  let! r := sdk_Get (v3 c ctx) id in
  match r with
  | Err err => ret (Err (classifyError (cfg c) ("get volume " +:+ id) err))
  | Ok v3Vol => ret (Ok (mapV3VolumeToDomain v3Vol))
  end)).

(** ** Creating *)

Definition v3_create_opts (opts : CreateVolumeOpts) : v3CreateOpts :=
  mkV3CreateOpts (cvo_AvailabilityZone opts) (cvo_VolumeType opts) (cvo_Name opts)
    (cvo_Description opts) (cvo_Size opts) (cvo_Multiattach opts)
    {[ OwnershipTagKey := OwnershipTagValue ]}.

Definition CreateVolume (c : Client) (ctx : GoContext) (opts : CreateVolumeOpts) : op Volume :=
  with_timeout ctx maxOperationTimeout (fun ctx =>
  check_ctx c ctx "create volume" (
  if blank (cvo_AvailabilityZone opts)
  then ret (Err (sentinelf "create volume: availability_zone is required: " ErrInvalidArgument))
  else if blank (cvo_VolumeType opts)
  then ret (Err (sentinelf "create volume: volume_type is required: " ErrInvalidArgument))
  else if (cvo_Size opts <=? 0)%Z
  then ret (Err (sentinelf "create volume: volume size must be greater than 0: "
                   ErrInvalidArgument))
  else
  let! res := sdk_Create (v3 c ctx) (v3_create_opts opts) in
  match cr_Err res with
  | Some err => ret (Err (classifyError (cfg c) "create volume" err))
  | None =>
      match ExtractJobResponse res with
      | Err err => ret (Err (classifyError (cfg c) "create volume" err))
      | Ok jobResp =>
          if decide (JobID jobResp = "")
          then ret (Err (sentinelf "create volume: response missing job_id: " ErrOperationFailed))
          else
          let! r := waitForJobSuccess c ctx (JobID jobResp) in
          match r with
          | Err err => ret (Err (classifyError (cfg c) "create volume: wait for job" err))
          | Ok volID => GetVolume c ctx volID
          end
      end
  end)).

(** ** Deleting *)

(** The error after the last poll. *)
Definition absence_exhausted (observedPresent : bool) (lastTransient : option gerror) : gerror :=
  if observedPresent
  then sentinelf "delete volume: volume still present after polling: " ErrOperationFailed
  else match lastTransient with
       | Some e => wrapf "delete volume: absence polling exhausted without observing the volume: " e
       | None => ENew "delete volume: absence polling exhausted without observing the volume: %!w(<nil>)"
       end.

(** What one poll of GetVolume means. *)
Inductive absence_reading :=
| AbsenceReached
| AbsencePresent
| AbsenceStop (err : gerror)
| AbsenceTransient (err : gerror).

Definition read_absence (r : result Volume) : absence_reading :=
  match r with
  | Ok _ => AbsencePresent
  | Err err =>
      if Is err ErrNotFound then AbsenceReached
      else if context_error err then AbsenceStop err
      else if negb (transient err) then AbsenceStop err
      else AbsenceTransient err
  end.

(** [n] attempts are left. The source leaves the loop before the select of the last one. *)
Fixpoint absence_loop (n : nat) (c : Client) (ctx : GoContext) (id : string) (ticker : Ticker)
    (observedPresent : bool) (lastTransient : option gerror) : op unit :=
  match n with
  | O => ret (Err (absence_exhausted observedPresent lastTransient))
  | S n =>
      let! r := GetVolume c ctx id in
      let continue observedPresent lastTransient :=
        if (n =? 0)%nat then ret (Err (absence_exhausted observedPresent lastTransient)) else
        let! s := select_done_tick ctx ticker in
        match s with
        | SelDone =>  (* ctx.Err() is not nil once Done is closed *)
            check_ctx c ctx "delete volume: wait for absence" diverge
        | SelTick ticker => absence_loop n c ctx id ticker observedPresent lastTransient
        end in
      match read_absence r with
      | AbsenceReached => ret (Ok tt)
      | AbsenceStop err => ret (Err err)
      | AbsencePresent => continue true lastTransient
      | AbsenceTransient err => continue observedPresent (Some err)
      end
  end.

Definition waitForVolumeAbsence (c : Client) (ctx : GoContext) (id : string) : op unit :=
  let! ticker := NewTicker volumeAbsencePollInterval in
  absence_loop volumeAbsenceMaxAttempts c ctx id ticker false None.

Definition DeleteVolume (c : Client) (ctx : GoContext) (id : string) : op unit :=
  with_timeout ctx maxOperationTimeout (fun ctx =>
  check_ctx c ctx "delete volume" (
  if blank id
  then ret (Err (sentinelf "delete volume: volume id cannot be empty: " ErrInvalidArgument)) else
  try! vol := GetVolume c ctx id in
  if negb (owned vol)
  then ret (Err (sentinelf "delete volume: volume carries no ownership marker: " ErrNotOwned))
  else if decide (vol_Status vol = volumeStatusErrorDeleting)
  then ret (Err (sentinelf "delete volume: cloud reports a failed deletion for this volume: "
                   ErrOperationFailed))
  else if decide (vol_Status vol = volumeStatusDeleting)
  then waitForVolumeAbsence c ctx id
  else
  let! err := sdk_Delete (v3 c ctx) id in
  match err with
  | Some err => ret (Err (classifyError (cfg c) ("delete volume " +:+ id) err))
  | None => waitForVolumeAbsence c ctx id
  end)).
End Operations.

(** ** Rules of the calculus for these operations *)

Section Rules.
Context {E : Type} `{CloudSDK E} `{CloudURLs}.
Abbreviation post A := (A -> list Event -> World E Event -> Prop).

Lemma wp_check_ctx {A} c ctx op (k : M E Event (result A)) (Q : post (result A)) w :
  (forall e, ctx_err_at ctx (clock w) = Some e -> Q (Err (classifyError (cfg c) op e)) [] w) ->
  (ctx_err_at ctx (clock w) = None -> wp k Q w) ->
  wp (check_ctx c ctx op k) Q w.
Proof.
  intros He Hk. unfold check_ctx. do 2 wp_step. destruct (ctx_err_at _ _) eqn:E1.
  - wp_step. by apply He.
  - simpl. by apply Hk.
Qed.

(** What GetVolume returns for an answer of the SDK. *)
Definition get_result (c : Client) (id : string) (r : result v3Volume) : result Volume :=
  match r with
  | Err err => Err (classifyError (cfg c) ("get volume " +:+ id) err)
  | Ok v => Ok (mapV3VolumeToDomain v)
  end.

Definition context_cause (e : gerror) : Prop :=
  e = ESentinel Canceled \/ e = ESentinel DeadlineExceeded.

Inductive get_outcome (c : Client) (id : string) : result Volume -> list Event -> Prop :=
| get_ended e : context_cause e ->
    get_outcome c id (Err (classifyError (cfg c) "get volume" e)) []
| get_blank : blank id = true ->
    get_outcome c id (Err (sentinelf "get volume: volume id cannot be empty: " ErrInvalidArgument)) []
| get_answered sc r : blank id = false ->
    get_outcome c id (get_result c id r) [mkEvent sc (CallGet id r)].

Lemma wp_GetVolume c ctx id w :
  wp (GetVolume c ctx id) (fun r evs w' => get_outcome c id r evs
    /\ (is_Some (ctx_err_at ctx (clock w)) -> w' = w)) w.
Proof.
  unfold GetVolume. wp_step. apply wp_check_ctx; intros e.
  - intros He. split; [|done]. constructor. by eapply ctx_err_at_cause.
  - assert (~ is_Some (ctx_err_at ctx (clock w))) as Hlive.
    { intros Hs. apply (ctx_err_WithDeadline _ (clock w + maxOperationTimeout)%Z) in Hs as [? Hs].
      congruence. }
    destruct (blank id) eqn:Eb; [wp_step; split; [by constructor|done]|].
    wp_step. sdk_step. intros r w' _.
    pose proof (get_answered c id (v3 c (WithDeadline ctx (clock w + maxOperationTimeout))) r Eb).
    destruct r; wp_step; by split.
Qed.

(** The cloud answered that the volume does not exist. *)
Definition reports_absent (r : result v3Volume) : Prop :=
  exists e, r = Err e /\ context_error e = false /\ classifyErrorKind e = ErrNotFound.

Lemma get_result_NotFound c id r e :
  get_result c id r = Err e -> Is e ErrNotFound = true -> reports_absent r.
Proof.
  destruct r as [v|err]; simpl; [done|]. intros [= <-]. rewrite classifyError_Is.
  unfold reports_absent, context_error, error_class.
  destruct (Is err Canceled) eqn:E1; [done|]. destruct (Is err DeadlineExceeded) eqn:E2; [done|].
  intros Hk%bool_decide_eq_true. by exists err; rewrite E1, E2.
Qed.

Lemma context_cause_error e : context_cause e -> context_error e = true.
Proof. intros [-> | ->]; done. Qed.

(** *** Polling for absence *)

Definition is_get (id : string) (ev : Event) : Prop :=
  exists r, ev_call ev = CallGet id r.

(** Every poll is a read of the volume, and success means that the last one found it
    gone. *)
Definition absence_spec (id : string) (n : nat) (r : result unit) (evs : list Event) : Prop :=
  Forall (is_get id) evs /\ (length evs <= n)%nat /\
  (r = Ok tt -> exists evs0 sc a, evs = evs0 ++ [mkEvent sc (CallGet id a)] /\ reports_absent a) /\
  (forall e, r = Err e -> Is e ErrNotFound = false).

Lemma absence_exhausted_kind obs lt :
  (forall e, lt = Some e -> Is e ErrNotFound = false) ->
  Is (absence_exhausted obs lt) ErrNotFound = false.
Proof.
  intros Hlt. unfold absence_exhausted. destruct obs; [by rewrite Is_sentinelf|].
  destruct lt; [|done]. rewrite Is_wrapf. by apply Hlt.
Qed.

Lemma context_not_NotFound c op e :
  context_cause e -> Is (classifyError c op e) ErrNotFound = false.
Proof. rewrite classifyError_Is. by intros [-> | ->]. Qed.

Lemma wp_absence_loop n c ctx id ticker d obs lt w :
  done_at ctx = Some d -> (forall e, lt = Some e -> Is e ErrNotFound = false) ->
  wp (absence_loop n c ctx id ticker obs lt) (fun r evs _ => absence_spec id n r evs) w.
Proof.
  intros Hd. revert ticker obs lt w. induction n as [|n IH]; intros ticker obs lt w Hlt.
  { simpl. wp_step. split_and!; [constructor|simpl; lia|done|]. intros e [= <-].
    by apply absence_exhausted_kind. }
  cbn [absence_loop]. wp_step. eapply wp_mono; [apply wp_GetVolume|].
  intros r evs w1 _ [Hget _].
  assert (Forall (is_get id) evs /\ (length evs <= 1)%nat) as [Hg Hl].
  { destruct Hget; simpl; (split; [|lia]); repeat constructor. by eexists. }
  assert (forall e, Is e ErrNotFound = false -> absence_spec id (S n) (Err e) evs) as Hstop.
  { intros e He. split_and!; [done|lia|done|by intros e' [= <-]]. }
  assert (forall obs lt, (forall e, lt = Some e -> Is e ErrNotFound = false) ->
    wp (if (n =? 0)%nat then ret (Err (absence_exhausted obs lt)) else
      bind (select_done_tick ctx ticker) (fun s => match s with
        | SelDone => check_ctx c ctx "delete volume: wait for absence" diverge
        | SelTick ticker => absence_loop n c ctx id ticker obs lt end))
      (fun r evs' _ => absence_spec id (S n) r (evs ++ evs')) w1) as Hcont.
  { intros obs' lt' Hlt'. destruct (Nat.eqb_spec n 0) as [->|Hn].
    { wp_step. by apply Hstop, absence_exhausted_kind. }
    wp_step. apply (wp_select _ _ _ _ d Hd).
    - intros w2 _ Hd2. apply wp_check_ctx.
      + intros e He. rewrite app_nil_r. apply Hstop, context_not_NotFound. by eapply ctx_err_at_cause.
      + by rewrite (ctx_err_at_done _ _ _ Hd Hd2).
    - intros w2 _ _. eapply wp_mono; [by apply IH|]. intros r' evs' w' _ (H1 & H2 & H3 & H4).
      split; [by apply Forall_app|]. rewrite length_app. split; [simpl; lia|]. split; [|exact H4].
      intros (evs0 & sc & a & -> & Ha)%H3. exists (evs ++ evs0), sc, a.
      split; [simpl; by rewrite app_assoc|exact Ha]. }
  unfold read_absence. destruct r as [v|err]; [by apply Hcont|].
  destruct (Is err ErrNotFound) eqn:Enf.
  - wp_step. split_and!; [done|lia| |done]. intros _. inversion Hget as [e He Hr|Hb Hr|sc a Hb Hr]; subst.
    + rewrite classifyError_Is in Enf. by destruct He as [-> | ->].
    + by autorewrite with go in Enf.
    + exists [], sc, a. split; [done|]. by eapply get_result_NotFound.
  - destruct (context_error err); [wp_step; by apply Hstop|].
    destruct (negb (transient err)); [wp_step; by apply Hstop|].
    apply Hcont. by intros e [= <-].
Qed.

Lemma wp_waitForVolumeAbsence c ctx id d w :
  done_at ctx = Some d ->
  wp (waitForVolumeAbsence c ctx id)
    (fun r evs _ => absence_spec id volumeAbsenceMaxAttempts r evs) w.
Proof.
  intros Hd. unfold waitForVolumeAbsence. do 2 wp_step. by apply (wp_absence_loop _ _ _ _ _ d).
Qed.

(** *** Deleting *)

(** The volume record allows a DELETE. *)
Definition deletable (v : Volume) : bool :=
  owned v && negb (bool_decide (vol_Status v = volumeStatusErrorDeleting))
  && negb (bool_decide (vol_Status v = volumeStatusDeleting)).

Lemma owned_tag v : owned v = true -> vol_Tags v !! OwnershipTagKey = Some OwnershipTagValue.
Proof. unfold owned, tag. intros H1. to_prop. by destruct (vol_Tags v !! _); simplify_eq/=. Qed.

Lemma owned_spec v :
  owned (mapV3VolumeToDomain v) = true -> v3_Tags v !! OwnershipTagKey = Some OwnershipTagValue.
Proof. apply owned_tag. Qed.

Lemma deletable_spec v :
  deletable (mapV3VolumeToDomain v) = true ->
  v3_Tags v !! OwnershipTagKey = Some OwnershipTagValue
  /\ v3_Status v <> volumeStatusDeleting /\ v3_Status v <> volumeStatusErrorDeleting.
Proof. unfold deletable. simpl. intros H1. to_prop. by rewrite owned_spec. Qed.

Inductive delete_outcome (c : Client) (id : string) : result unit -> list Event -> Prop :=
| del_not_sent e : Is e ErrNotFound = false -> delete_outcome c id (Err e) []
| del_not_read sc err :
    delete_outcome c id (Err (classifyError (cfg c) ("get volume " +:+ id) err))
      [mkEvent sc (CallGet id (Err err))]
| del_refused sc v e :
    deletable (mapV3VolumeToDomain v) = false -> Is e ErrNotFound = false ->
    (owned (mapV3VolumeToDomain v) = false -> Is e ErrNotOwned = true) ->
    delete_outcome c id (Err e) [mkEvent sc (CallGet id (Ok v))]
| del_observed sc v r polls :
    owned (mapV3VolumeToDomain v) = true -> v3_Status v = volumeStatusDeleting ->
    absence_spec id volumeAbsenceMaxAttempts r polls ->
    delete_outcome c id r (mkEvent sc (CallGet id (Ok v)) :: polls)
| del_rejected sc v sc' err :
    deletable (mapV3VolumeToDomain v) = true ->
    delete_outcome c id (Err (classifyError (cfg c) ("delete volume " +:+ id) err))
      [mkEvent sc (CallGet id (Ok v)); mkEvent sc' (CallDelete id (Some err))]
| del_accepted sc v sc' r polls :
    deletable (mapV3VolumeToDomain v) = true ->
    absence_spec id volumeAbsenceMaxAttempts r polls ->
    delete_outcome c id r
      (mkEvent sc (CallGet id (Ok v)) :: mkEvent sc' (CallDelete id None) :: polls).

Lemma wp_DeleteVolume c ctx id w :
  wp (DeleteVolume c ctx id) (fun r evs _ => delete_outcome c id r evs) w.
Proof.
  unfold DeleteVolume. wp_step.
  destruct (done_at_WithDeadline ctx (clock w + maxOperationTimeout)) as (d & Hd & _).
  set (ctx' := WithDeadline ctx _) in *. apply wp_check_ctx.
  { intros e He. apply del_not_sent, context_not_NotFound. by eapply ctx_err_at_cause. }
  intros _.
  destruct (blank id) eqn:Eb; [wp_step; apply del_not_sent, Is_sentinelf|].
  wp_step. eapply wp_mono; [apply wp_GetVolume|]. intros r evs w1 _ [Hget _].
  inversion Hget as [e He|?|sc a _]; subst;
    [by apply del_not_sent, context_not_NotFound|congruence|].
  destruct a as [v|err]; simpl; [|constructor].
  set (vol := mapV3VolumeToDomain v). destruct (owned vol) eqn:Eo; simpl.
  2: { wp_step. apply del_refused; [unfold deletable; fold vol; by rewrite Eo|..]; by autorewrite with go. }
  destruct (decide (v3_Status v = volumeStatusErrorDeleting)) as [Es|Es].
  { wp_step. apply del_refused; fold vol; [|by rewrite Is_sentinelf|by rewrite Eo].
    unfold deletable. simpl. by rewrite Es, bool_decide_true, andb_false_r by done. }
  destruct (decide (v3_Status v = volumeStatusDeleting)) as [Es'|Es'].
  { eapply wp_mono; [by apply (wp_waitForVolumeAbsence _ _ _ d)|].
    intros r polls w2 _ Hp. by apply del_observed. }
  assert (deletable vol = true) as Hdel.
  { unfold deletable. simpl. by rewrite Eo, !bool_decide_false by done. }
  wp_step. sdk_step. intros [err|] w2 _; [wp_step; by apply del_rejected|].
  eapply wp_mono; [by apply (wp_waitForVolumeAbsence _ _ _ d)|].
  intros r polls w3 _ Hp. by apply del_accepted.
Qed.

(** *** Creating *)

(** The turns of the job poll: job reads, the last one a success when [r] is one. *)
Definition job_ok (job : JobStatus) (volID : string) : Prop :=
  js_Status job = "SUCCESS" /\ volID = TrimSpace (js_VolumeID job) /\ volID <> "".

Definition is_job (jobID : string) (ev : Event) : Prop :=
  exists r, ev_call ev = CallJob jobID r.

Definition job_spec (jobID : string) (r : result string) (evs : list Event) : Prop :=
  Forall (is_job jobID) evs /\
  (forall volID, r = Ok volID -> exists evs0 sc job,
     evs = evs0 ++ [mkEvent sc (CallJob jobID (Ok job))] /\ job_ok job volID).

Lemma wp_job_turn ctx sc jobID d evs w :
  done_at ctx = Some d -> Forall (is_job jobID) evs ->
  wp (job_turn ctx sc jobID) (fun o evs' w' =>
    match o with
    | Some r => job_spec jobID r (evs ++ evs')
    | None => Forall (is_job jobID) (evs ++ evs') /\ (d <= clock w -> clock w' = clock w)%Z
    end) w.
Proof.
  intros Hd Hevs. unfold job_turn. do 2 wp_step.
  destruct (ctx_err_at ctx (clock w)) as [e|] eqn:Ee.
  { wp_step. by split. }
  wp_step. sdk_step. intros r w1 _.
  set (ev := mkEvent _ _). assert (Forall (is_job jobID) (evs ++ [ev])) as Hall.
  { apply Forall_app. split; [done|]. repeat constructor. by eexists. }
  assert (d <= clock w -> clock w1 = clock w)%Z as Hstill.
  { intros Hle. rewrite (ctx_err_at_done _ _ _ Hd Hle) in Ee. done. }
  destruct r as [job|err]; [|destruct (jobPollShouldStop err); wp_step; by split].
  destruct (decide (js_Status job = "SUCCESS")) as [Es|_].
  - destruct (decide (TrimSpace (js_VolumeID job) = "")); wp_step; (split; [done|]); [done|].
    intros volID [= <-]. by exists evs, (Some sc), job.
  - destruct (decide (js_Status job = "FAIL")); wp_step; by split.
Qed.

Lemma wp_waitForJobSuccess cf v3c v2c ecsc ctx jobID d w :
  done_at ctx = Some d -> (d <= clock w + maxOperationTimeout)%Z ->
  wp (waitForJobSuccess (mkClient cf (Some v3c) v2c ecsc) ctx jobID)
    (fun r evs _ => job_spec jobID r evs) w.
Proof.
  intros Hd Hle. unfold waitForJobSuccess.
  assert (is_Some (v3 (mkClient cf (Some v3c) v2c ecsc) ctx)) as [sc ->].
  { unfold v3, withRequestContext. simpl. destruct (sc_provider v3c); eauto. }
  cbn [deref]. destruct (jobStatusEndpoint _) as [ep|err]; [|by wp_step].
  do 2 wp_step. apply (wp_poll _ _ _ _ (Forall (is_job jobID)) _ d); [done|done| | | |constructor].
  - apply (fuel_enough_new _ _ _ _ 600); [done| |done|done].
    unfold maxOperationTimeout, Minute, Second, Millisecond in *. lia.
  - intros evs w'. by apply wp_job_turn.
  - intros evs w' Hevs _. by split.
Qed.

(** The creation request: the caller's options and the ownership tag. *)
Inductive create_outcome (c : Client) (opts : CreateVolumeOpts) :
    result Volume -> list Event -> Prop :=
| cre_not_sent e : create_outcome c opts (Err e) []
| cre_rejected sc res e :
    create_outcome c opts (Err e) [mkEvent sc (CallCreate (v3_create_opts opts) res)]
| cre_job_failed sc res job e evs :
    Forall (is_job job) evs ->
    create_outcome c opts (Err e) (mkEvent sc (CallCreate (v3_create_opts opts) res) :: evs)
| cre_done sc res job js sc' volID r evs gets :
    cr_Err res = None -> ExtractJobResponse res = Ok job ->
    Forall (is_job (JobID job)) evs -> job_ok js volID ->
    get_outcome c volID r gets ->
    create_outcome c opts r
      (mkEvent sc (CallCreate (v3_create_opts opts) res) :: evs
       ++ mkEvent sc' (CallJob (JobID job) (Ok js)) :: gets).

Lemma wp_CreateVolume cf v3c v2c ecsc ctx opts w :
  let c := mkClient cf (Some v3c) v2c ecsc in
  wp (CreateVolume c ctx opts) (fun r evs _ => create_outcome c opts r evs
    /\ (evs <> [] -> blank (cvo_AvailabilityZone opts) = false
        /\ blank (cvo_VolumeType opts) = false /\ (0 < cvo_Size opts)%Z)) w.
Proof.
  intros c. unfold CreateVolume. wp_step.
  destruct (done_at_WithDeadline ctx (clock w + maxOperationTimeout)) as (d & Hd & Hle).
  set (ctx' := WithDeadline ctx _) in *.
  apply wp_check_ctx; [intros e _; split; [constructor|done]|intros _].
  destruct (blank (cvo_AvailabilityZone opts)) eqn:Ea; [wp_step; split; [constructor|done]|].
  destruct (blank (cvo_VolumeType opts)) eqn:Et; [wp_step; split; [constructor|done]|].
  destruct (Z.leb_spec (cvo_Size opts) 0); [wp_step; split; [constructor|done]|].
  assert (forall (m : M E Event (result Volume)) pre w', wp m (fun r evs _ =>
      create_outcome c opts r (pre ++ evs)) w' ->
    wp m (fun r evs _ => create_outcome c opts r (pre ++ evs) /\ (pre ++ evs <> [] ->
      false = false /\ false = false /\ (0 < cvo_Size opts)%Z)) w') as Hvalid.
  { intros m pre w' Hm. eapply wp_mono; [exact Hm|]. by intros r evs w'' _ Ho. }
  wp_step. sdk_step. intros res w1 Hc1. apply Hvalid.
  destruct (cr_Err res) as [err|] eqn:Er; [wp_step; constructor|].
  destruct (ExtractJobResponse res) as [job|err] eqn:Ej; [|wp_step; constructor].
  destruct (decide (JobID job = "")); [wp_step; constructor|].
  wp_step. eapply wp_mono; [apply (wp_waitForJobSuccess _ _ _ _ _ _ d); [done|lia]|].
  intros [volID|err] evs w2 _ [Hjobs Hok]; [|wp_step; by eapply cre_job_failed].
  destruct (Hok volID eq_refl) as (evs0 & sc & js & -> & Hjs).
  eapply wp_mono; [apply wp_GetVolume|]. intros r gets w3 _ [Hget _].
  apply Forall_app in Hjobs as [Hjobs _]. simpl. rewrite <-app_assoc. by eapply cre_done.
Qed.
End Rules.

(** ** Properties *)

Section Properties.
Context {E : Type} `{CloudSDK E} `{CloudURLs}.

(** Among reads there is no DELETE. *)
Lemma polls_no_delete id polls pre ev post id' res :
  Forall (is_get id) polls -> ev_call ev = CallDelete id' res -> polls <> pre ++ ev :: post.
Proof.
  intros Hp Hev ->. apply Forall_app in Hp as [_ Hp]. apply Forall_cons_iff in Hp as [[r Hr] _].
  by rewrite Hr in Hev.
Qed.

Lemma delete_second id e1 e2 polls pre ev post id' res :
  is_get id e1 -> Forall (is_get id) polls -> ev_call ev = CallDelete id' res ->
  e1 :: e2 :: polls = pre ++ ev :: post -> pre = [e1] /\ ev = e2.
Proof.
  intros H1 Hp Hev Heq. destruct pre as [|x [|y pre]]; simplify_list_eq; [|done|].
  - destruct H1 as [r H1]. congruence.
  - exfalso. by eapply (polls_no_delete id).
Qed.

Lemma delete_guarded c id r evs pre ev post id' res :
  delete_outcome c id r evs -> evs = pre ++ ev :: post -> ev_call ev = CallDelete id' res ->
  id' = id /\ exists sc v, pre = [mkEvent sc (CallGet id (Ok v))]
    /\ v3_Tags v !! OwnershipTagKey = Some OwnershipTagValue
    /\ v3_Status v <> volumeStatusDeleting /\ v3_Status v <> volumeStatusErrorDeleting.
Proof.
  intros Ho Hevs Hev.
  assert (forall sc a polls, Forall (is_get id) polls ->
    mkEvent sc (CallGet id a) :: polls <> pre ++ ev :: post) as Hreads.
  { intros sc a polls Hp Heq. apply (polls_no_delete id) with (3 := Heq) (2 := Hev).
    constructor; [by eexists|done]. }
  destruct Ho as [e _|sc err|sc v e _ _ _|sc v r polls _ _ Hp|sc v sc' err Hd|sc v sc' r polls Hd Hp].
  - by destruct pre.
  - by apply Hreads in Hevs.
  - by apply Hreads in Hevs.
  - apply Hreads in Hevs; [done|apply Hp].
  - apply deletable_spec in Hd as (Ho & Hs1 & Hs2).
    apply (delete_second id _ _ [] _ _ _ id' res) in Hevs as [-> ->]; [|by eexists|done..].
    simplify_eq/=. eauto 10.
  - apply deletable_spec in Hd as (Ho & Hs1 & Hs2).
    apply (delete_second id _ _ polls _ _ _ id' res) in Hevs as [-> ->];
      [|by eexists|apply Hp|done]. simplify_eq/=. eauto 10.
Qed.

(** C1. DeleteVolume always returns, and every DELETE it sends is its second request, for
    the volume it was asked to delete, right after a read in which that volume carried
    the ownership tag and was neither deleting nor error_deleting. So it never deletes a
    volume of somebody else, and sends at most one DELETE. *)
Theorem DeleteVolume_guarded c ctx id w :
  runs (DeleteVolume c ctx id) w (fun r evs =>
    forall pre ev post id' res,
      evs = pre ++ ev :: post -> ev_call ev = CallDelete id' res ->
      id' = id /\ exists sc v, pre = [mkEvent sc (CallGet id (Ok v))]
        /\ v3_Tags v !! OwnershipTagKey = Some OwnershipTagValue
        /\ v3_Status v <> volumeStatusDeleting /\ v3_Status v <> volumeStatusErrorDeleting).
Proof.
  eapply runs_mono; [apply wp_runs, wp_DeleteVolume|].
  intros r evs Ho pre ev post id' res. by apply (delete_guarded c id r).
Qed.

(** DeleteVolume succeeds only after the volume was read as an owned one and the last
    request, a read of that volume, was answered with "not found". The reads between are
    at most sixty. *)
Theorem DeleteVolume_confirmed c ctx id w :
  runs (DeleteVolume c ctx id) w (fun r evs =>
    (length evs <= 62)%nat /\
    (r = Ok tt -> exists sc v evs' sc' a,
      evs = mkEvent sc (CallGet id (Ok v)) :: evs' ++ [mkEvent sc' (CallGet id a)]
      /\ v3_Tags v !! OwnershipTagKey = Some OwnershipTagValue
      /\ v3_Status v <> volumeStatusErrorDeleting /\ reports_absent a)).
Proof.
  eapply runs_mono; [apply wp_runs, wp_DeleteVolume|]. intros r evs Ho.
  destruct Ho as [e _|sc err|sc v e _ _ _|sc v r polls Ho Hs (Hp & Hlen & Hok & _)|sc v sc' err Hd
    |sc v sc' r polls Hd (Hp & Hlen & Hok & _)]; simpl; unfold volumeAbsenceMaxAttempts in *;
    (split; [lia|]); try done.
  - intros (evs0 & sc' & a & -> & Ha)%Hok. exists sc, v, evs0, sc', a.
    repeat split; [|by rewrite Hs|done]. by apply owned_spec.
  - intros (evs0 & sc0 & a & -> & Ha)%Hok. apply deletable_spec in Hd as (? & ? & ?).
    by exists sc, v, (mkEvent sc' (CallDelete id None) :: evs0), sc0, a.
Qed.

(** A creation in a run of the client is its first request, and carries its options. *)
Lemma create_first cf v3c v2c ecsc opts r evs pre ev post o res :
  create_outcome (mkClient cf (Some v3c) v2c ecsc) opts r evs ->
  evs = pre ++ ev :: post -> ev_call ev = CallCreate o res -> pre = [] /\ o = v3_create_opts opts.
Proof.
  assert (forall e0 rest, (exists a, ev_call e0 = CallCreate (v3_create_opts opts) a) ->
    Forall (fun ev => forall o res, ev_call ev <> CallCreate o res) rest ->
    e0 :: rest = pre ++ ev :: post -> ev_call ev = CallCreate o res ->
    pre = [] /\ o = v3_create_opts opts) as Hone.
  { intros e0 rest [a Ha] Hrest Heq Hev. destruct pre as [|x pre]; simplify_list_eq.
    - rewrite Ha in Hev. by injection Hev as <- _.
    - apply Forall_app in Hrest as [_ Hrest]. apply Forall_cons_iff in Hrest as [Hrest _].
      by apply Hrest in Hev. }
  assert (forall job evs, Forall (is_job job) evs ->
    Forall (fun ev => forall o res, ev_call ev <> CallCreate o res) evs) as Hjobs.
  { intros job l Hl. eapply Forall_impl; [|exact Hl]. intros x [a ->]. done. }
  intros Ho. destruct Ho as [e|sc a e|sc a job e evs Hj|sc a job js sc' volID r evs gets _ _ Hj _ Hg].
  - by destruct pre.
  - apply Hone; [by eexists|done].
  - apply Hone; [by eexists|by eapply Hjobs].
  - apply Hone; [by eexists|]. apply Forall_app. split; [by eapply Hjobs|].
    constructor; [by intros|]. destruct Hg; repeat constructor. by intros.
Qed.

(** C16. CreateVolume always returns. It sends at most one creation request, its first
    one, with the caller's options and the driver's ownership tag, and only for valid
    options; it reports a volume only when the job of that request succeeded and the
    volume the job names was read back. *)
Theorem CreateVolume_tagged cf v3c v2c ecsc ctx opts w :
  let c := mkClient cf (Some v3c) v2c ecsc in
  runs (CreateVolume c ctx opts) w (fun r evs =>
    (forall pre ev post o res, evs = pre ++ ev :: post -> ev_call ev = CallCreate o res ->
      pre = [] /\ o = v3_create_opts opts
      /\ v3o_Tags o !! OwnershipTagKey = Some OwnershipTagValue /\ (0 < v3o_Size o)%Z) /\
    (forall vol, r = Ok vol -> exists sc res job evs0 sc' js sc'' v,
      cr_Err res = None /\ ExtractJobResponse res = Ok job /\ js_Status js = "SUCCESS"
      /\ evs = mkEvent sc (CallCreate (v3_create_opts opts) res) :: evs0
          ++ [mkEvent sc' (CallJob (JobID job) (Ok js));
              mkEvent sc'' (CallGet (TrimSpace (js_VolumeID js)) (Ok v))]
      /\ vol = mapV3VolumeToDomain v)).
Proof.
  intros c. eapply runs_mono; [apply wp_runs, wp_CreateVolume|]. intros r evs [Ho Hvalid]. split.
  - intros pre ev post o res Hevs Hev.
    destruct (create_first _ _ _ _ _ _ _ _ _ _ _ _ Ho Hevs Hev) as [-> ->].
    split_and!; [done..|]. apply Hvalid. by rewrite Hevs.
  - intros vol Hvol.
    destruct Ho as [e|sc res e|sc res job e evs Hj|sc res job js sc' volID r evs gets Hc He Hj Hok Hget];
      try done.
    destruct Hok as (Hs & -> & _). destruct Hget as [|?|sc0 a Hb]; try done.
    destruct a as [v|]; simplify_eq/=. by exists sc, res, job, evs, sc', js, sc0, v.
Qed.
End Properties.
