(* ===== verification/EvsListing.v ===== *)
(** * Listing and discovery of EVS volumes (internal/evs/volume.go)

    The page walk of ListVolumes and the adoption choice of DiscoverVolume; their rules
    and properties, with the cloud their witnesses run against. *)

From S2P Require Import Prelude GoStrings GoErrors GoURL Runtime EvsClient EvsTransport EvsSDK EvsVolume.

Local Open Scope stdpp_scope.
Local Open Scope go_scope.

(** ** Data *)

Definition DiscoveryPageSize : Z := 100.
Definition volumeListMaxPages : nat := 50.

Record ListVolumeOpts := mkListVolumeOpts {
  lvo_Name : string; lvo_Status : string; lvo_AvailabilityZone : string;
  lvo_ID : string; lvo_Limit : Z; lvo_Offset : Z }.

Record DiscoverVolumeOpts := mkDiscoverVolumeOpts {
  dvo_Name : string; dvo_AvailabilityZone : string; dvo_VolumeType : string;
  dvo_MinSizeGiB : Z; dvo_MaxSizeGiB : Z }.

Definition set_nonempty (k v : string) (m : gmap string string) : gmap string string :=
  if decide (v = "") then m else <[k := v]> m.

Definition mapV2VolumeToDomain (v : v2Volume) : Volume :=
  let md := v2_Metadata v in
  let metadata :=
    set_nonempty "attached_mode" (AttachedMode md) $
    set_nonempty "readonly" (ReadOnly md) $
    set_nonempty "resourceSpecCode" (ResourceSpecCode md) $
    set_nonempty "resourceType" (ResourceType md) $
    set_nonempty "orderID" (OrderID md) $
    set_nonempty "hw:passthrough" (HwPassthrough md) $
    set_nonempty "full_clone" (FullClone md) $
    set_nonempty "__system__encrypted" (SystemEncrypted md) $
    set_nonempty "__system__cmkid" (SystemCmkID md) ∅ in
  mkVolume (v2_ID v) (v2_Name v) (v2_Status v) (v2_Size v) (v2_AvailabilityZone v)
    (v2_VolumeType v) metadata (v2_Tags v) (v2_Multiattach v).

(** ** Adoption *)

Definition isAdoptable (vol : Volume) (opts : DiscoverVolumeOpts) : bool :=
  if negb (owned vol) then false else
  if negb (bool_decide (vol_Status vol = volumeStatusAvailable))
     && negb (bool_decide (vol_Status vol = volumeStatusInUse)) then false else
  if negb (bool_decide (vol_AvailabilityZone vol = dvo_AvailabilityZone opts)) then false else
  if negb (bool_decide (vol_VolumeType vol = dvo_VolumeType opts)) then false else
  if (vol_Size vol <? dvo_MinSizeGiB opts)%Z then false else
  if (0 <? dvo_MaxSizeGiB opts)%Z && (dvo_MaxSizeGiB opts <? vol_Size vol)%Z then false else
  true.

(** strings.Compare(a.ID, b.ID) < 0. *)
Definition id_before (a b : Volume) : bool :=
  match String.compare (vol_ID a) (vol_ID b) with Lt => true | _ => false end.

(** ** Listing and discovering *)

Section Operations.
Context {E : Type} `{CloudSDK E}.
Abbreviation op A := (M E Event (result A)).

Definition listVolumePage (c : Client) (ctx : GoContext) (opts : ListVolumeOpts) :
    op (list Volume) :=
  check_ctx c ctx "list volumes" (
  let listOpts := mkV2ListOpts (lvo_Name opts) (lvo_Status opts) (lvo_AvailabilityZone opts)
                    (lvo_ID opts) (lvo_Limit opts) (lvo_Offset opts) in
  let! r := sdk_List (v2 c ctx) listOpts in
  match r with
  | Err err => ret (Err (classifyError (cfg c) "list volumes" err))
  | Ok v2Vols => ret (Ok (map mapV2VolumeToDomain v2Vols))
  end).

Definition page_opts (opts : ListVolumeOpts) (res : list Volume) : ListVolumeOpts :=
  mkListVolumeOpts (lvo_Name opts) (lvo_Status opts) (lvo_AvailabilityZone opts) (lvo_ID opts)
    DiscoveryPageSize (Z.of_nat (length res)).

(** The page loop; [n] fetches are left. *)
Fixpoint list_pages (n : nat) (c : Client) (ctx : GoContext) (opts : ListVolumeOpts)
    (res : list Volume) : op (list Volume) :=
  match n with
  | O => ret (Err (sentinelf "list volumes: more pages than the listing bound allows: "
                     ErrOperationFailed))
  | S n =>
      try! page := listVolumePage c ctx (page_opts opts res) in
      if (length page =? 0)%nat then ret (Ok res) else list_pages n c ctx opts (res ++ page)
  end.

Definition ListVolumes (c : Client) (ctx : GoContext) (opts : ListVolumeOpts) :
    op (list Volume) :=
  with_timeout ctx maxOperationTimeout (fun ctx =>
  if (0 <? lvo_Limit opts)%Z || (0 <? lvo_Offset opts)%Z
  then listVolumePage c ctx opts
  else list_pages (S volumeListMaxPages) c ctx opts []).

(** The choice DiscoverVolume makes among the listed candidates. *)
Definition choose_volume (candidates : list Volume) (opts : DiscoverVolumeOpts) :
    result Volume :=
  let named := List.filter (fun v => bool_decide (vol_Name v = dvo_Name opts)) candidates in
  if (length named =? 0)%nat
  then Err (sentinelf "discover volume: no volume with that name: " ErrNotFound) else
  match find_first (fun v => isAdoptable v opts) (insertion_sort id_before named) with
  | Some v => Ok v
  | None =>
      Err (sentinelf ("discover volume: an existing volume with that name is not owned by this driver"
                      +:+ " or is incompatible with the request: ") ErrConflict)
  end.

Definition DiscoverVolume (c : Client) (ctx : GoContext) (opts : DiscoverVolumeOpts) :
    op Volume :=
  with_timeout ctx maxOperationTimeout (fun ctx =>
  if blank (dvo_Name opts)
  then ret (Err (sentinelf "discover volume: name cannot be empty: " ErrInvalidArgument)) else
  try! candidates := ListVolumes c ctx (mkListVolumeOpts (dvo_Name opts) "" "" "" 0 0) in
  ret (choose_volume candidates opts)).
End Operations.

(** ** The order of volume IDs *)

Lemma id_before_spec a b : id_before a b = false <-> String.le (vol_ID b) (vol_ID a).
Proof.
  unfold id_before, String.le, String.leb. rewrite (String.compare_antisym (vol_ID a)).
  destruct (String.compare (vol_ID b) (vol_ID a)); simpl; by split.
Qed.

Lemma id_before_true a b : id_before a b = true -> String.le (vol_ID a) (vol_ID b).
Proof.
  unfold id_before, String.le, String.leb. by destruct (String.compare _ _).
Qed.

Lemma id_before_asym a b : id_before a b = true -> id_before b a = false.
Proof. intros H. apply id_before_spec. by apply id_before_true. Qed.

Lemma id_before_cotrans a b c :
  id_before b a = false -> id_before c b = false -> id_before c a = false.
Proof. rewrite !id_before_spec. intros; by etrans. Qed.

Definition sorted_ids : list Volume -> Prop := StronglySorted (not_after id_before).

Lemma sort_ids_sorted l : sorted_ids (insertion_sort id_before l).
Proof. apply insertion_sort_sorted; [apply id_before_asym|apply id_before_cotrans]. Qed.

(** The first match of a sorted list is a least one. *)
Lemma find_first_least p l v :
  sorted_ids l -> find_first p l = Some v ->
  forall v', v' ∈ l -> p v' = true -> String.le (vol_ID v) (vol_ID v').
Proof.
  intros Hs (l1 & l2 & -> & Hv & Hl1)%find_first_Some v' Hin Hp.
  apply StronglySorted_app_1_r in Hs. apply StronglySorted_cons in Hs as [Hle _].
  apply elem_of_app in Hin as [Hin|Hin].
  { rewrite list.Forall_forall in Hl1. apply Hl1 in Hin. congruence. }
  apply elem_of_cons in Hin as [->|Hin]; [done|].
  rewrite list.Forall_forall in Hle. by apply id_before_spec, Hle.
Qed.

(** ** The choice *)

Definition named (opts : DiscoverVolumeOpts) (v : Volume) : bool :=
  bool_decide (vol_Name v = dvo_Name opts).

(** The relation DiscoverVolume implements: the least adoptable volume of that name, or
    the reason there is none. *)
Inductive chosen (cands : list Volume) (opts : DiscoverVolumeOpts) : result Volume -> Prop :=
| chosen_least v :
    v ∈ cands -> vol_Name v = dvo_Name opts -> isAdoptable v opts = true ->
    (forall v', v' ∈ cands -> vol_Name v' = dvo_Name opts -> isAdoptable v' opts = true ->
       String.le (vol_ID v) (vol_ID v')) ->
    chosen cands opts (Ok v)
| chosen_absent e :
    (forall v, v ∈ cands -> vol_Name v <> dvo_Name opts) -> Is e ErrNotFound = true ->
    chosen cands opts (Err e)
| chosen_conflict v e :
    v ∈ cands -> vol_Name v = dvo_Name opts ->
    (forall v', v' ∈ cands -> vol_Name v' = dvo_Name opts -> isAdoptable v' opts = false) ->
    Is e ErrConflict = true ->
    chosen cands opts (Err e).

Lemma elem_of_named cands opts v :
  v ∈ List.filter (named opts) cands <-> v ∈ cands /\ vol_Name v = dvo_Name opts.
Proof.
  rewrite !list_elem_of_In, List.filter_In. unfold named. by rewrite bool_decide_eq_true.
Qed.

Lemma choose_volume_chosen cands opts : chosen cands opts (choose_volume cands opts).
Proof.
  unfold choose_volume. fold (named opts). set (l := List.filter _ _).
  pose proof (elem_of_named cands opts) as Hl. fold l in Hl.
  destruct (Nat.eqb_spec (length l) 0) as [El|El].
  { apply chosen_absent; [|by autorewrite with go].
    intros v Hv Hn. apply length_zero_iff_nil in El.
    specialize (Hl v). rewrite El in Hl. by apply (not_elem_of_nil v), Hl. }
  destruct (find_first _ _) as [v|] eqn:Ef.
  - pose proof (find_first_least _ _ _ (sort_ids_sorted l) Ef) as Hleast.
    apply find_first_elem in Ef as [Hin Ha]. rewrite insertion_sort_perm in Hin.
    apply Hl in Hin as [Hin Hn]. apply chosen_least; try done.
    intros v' Hin' Hn' Ha'. apply Hleast; [|done]. rewrite insertion_sort_perm. by apply Hl.
  - apply find_first_None in Ef. rewrite list.Forall_forall in Ef.
    destruct l as [|v0 l0] eqn:El'; [done|]. rewrite <-El' in *.
    destruct (proj1 (Hl v0)) as [Hin Hn]; [rewrite El'; apply list_elem_of_here|].
    apply (chosen_conflict _ _ v0); [done|done| |by autorewrite with go].
    intros v' Hin' Hn'. apply Ef. rewrite insertion_sort_perm. by apply Hl.
Qed.

(** ** Listing *)

Section Listing.
Context {E : Type} `{CloudSDK E} `{CloudURLs}.

Definition page_event (opts : ListVolumeOpts) (off : nat) (sc : option ServiceClient)
    (r : result (list v2Volume)) : Event :=
  mkEvent sc (CallList (mkV2ListOpts (lvo_Name opts) (lvo_Status opts)
    (lvo_AvailabilityZone opts) (lvo_ID opts) DiscoveryPageSize (Z.of_nat off)) r).

(** From [res], the pages fetched by [evs] accumulate to [out]; each asks for the offset
    reached so far. *)
Inductive pages (opts : ListVolumeOpts) : list Volume -> list Event -> list Volume -> Prop :=
| pages_none res : pages opts res [] res
| pages_more res sc ps evs out :
    ps <> [] -> pages opts (res ++ map mapV2VolumeToDomain ps) evs out ->
    pages opts res (page_event opts (length res) sc (Ok ps) :: evs) out.

Definition is_list (ev : Event) : Prop := exists o r, ev_call ev = CallList o r.

Definition not_empty_page (ev : Event) : Prop := forall o, ev_call ev <> CallList o (Ok []).

(** The listing ends with an empty page exactly when it succeeds. *)
Definition list_spec (opts : ListVolumeOpts) (n : nat) (res : list Volume)
    (r : result (list Volume)) (evs : list Event) : Prop :=
  (length evs <= n)%nat /\
  match r with
  | Ok out => exists evs0 sc,
      evs = evs0 ++ [page_event opts (length out) sc (Ok [])] /\ pages opts res evs0 out
  | Err _ => Forall not_empty_page evs
  end.

Lemma wp_listVolumePage c ctx opts w :
  wp (listVolumePage c ctx opts) (fun r evs _ =>
    (exists e, r = Err e /\ evs = []) \/
    (exists sc a, evs = [mkEvent sc (CallList (mkV2ListOpts (lvo_Name opts) (lvo_Status opts)
        (lvo_AvailabilityZone opts) (lvo_ID opts) (lvo_Limit opts) (lvo_Offset opts)) a)] /\
      match a with Ok l => r = Ok (map mapV2VolumeToDomain l)
                 | Err e => r = Err (classifyError (cfg c) "list volumes" e) end)) w.
Proof.
  unfold listVolumePage. apply wp_check_ctx; [intros e _; left; by eexists|intros _].
  wp_step. sdk_step.
  intros [l|e] w' _; wp_step; right; eexists _, _; (split; [reflexivity|done]).
Qed.

Lemma wp_list_pages n c ctx opts res w :
  wp (list_pages n c ctx opts res)
    (fun r evs _ => list_spec opts n res r evs /\ Forall is_list evs) w.
Proof.
  revert res w. induction n as [|n IH]; intros res w; cbn [list_pages].
  { wp_step. by split; [split; [simpl; lia|]|]. }
  wp_step. eapply wp_mono; [apply wp_listVolumePage|].
  intros r evs w1 _ [(e & -> & ->)|(sc & a & -> & Ha)].
  { by split; [split; [simpl; lia|]|]. }
  destruct a as [l|e]; subst r.
  2: { split; [split; [simpl; lia|]|]; repeat constructor; [by intros o|do 2 eexists; done]. }
  destruct (Nat.eqb_spec (length (map mapV2VolumeToDomain l)) 0) as [El|El].
  - apply length_zero_iff_nil, map_eq_nil in El as ->. wp_step.
    split; [|by repeat constructor; do 2 eexists]. split; [simpl; lia|].
    exists [], sc. by split; [|constructor].
  - assert (l <> []) as Hl by (by intros ->).
    eapply wp_mono; [apply IH|]. intros r evs w2 _ [[Hlen Hok] Hall].
    split; [|constructor; [by do 2 eexists|done]]. split; [simpl; lia|]. destruct r as [out|e].
    + destruct Hok as (evs0 & sc0 & -> & Hp).
      exists (page_event opts (length res) sc (Ok l) :: evs0), sc0. by split; [|constructor].
    + constructor; [|done]. intros o [= _ ?]. done.
Qed.

Lemma wp_ListVolumes c ctx opts w :
  (lvo_Limit opts <= 0)%Z -> (lvo_Offset opts <= 0)%Z ->
  wp (ListVolumes c ctx opts)
    (fun r evs _ => list_spec opts (S volumeListMaxPages) [] r evs /\ Forall is_list evs) w.
Proof.
  intros Hl Ho. unfold ListVolumes. wp_step.
  destruct (Z.ltb_spec 0 (lvo_Limit opts)), (Z.ltb_spec 0 (lvo_Offset opts)); try lia.
  apply wp_list_pages.
Qed.

Definition by_name (name : string) : ListVolumeOpts := mkListVolumeOpts name "" "" "" 0 0.

Lemma wp_DiscoverVolume c ctx opts w :
  wp (DiscoverVolume c ctx opts) (fun r evs _ =>
    Forall is_list evs /\
    exists r0, list_spec (by_name (dvo_Name opts)) (S volumeListMaxPages) [] r0 evs /\
      match r0 with Ok cands => r = choose_volume cands opts | Err e => exists e, r = Err e end) w.
Proof.
  unfold DiscoverVolume. wp_step. destruct (blank (dvo_Name opts)).
  { wp_step. split; [done|]. exists (Err (ENew "unlisted")). split; [by split; [simpl; lia|]|by eexists]. }
  wp_step. eapply wp_mono; [by apply wp_ListVolumes|].
  intros [cands|e] evs w1 _ [Hs Hall]; [wp_step|]; (split; [done|]).
  - by exists (Ok cands).
  - exists (Err e). split; [done|by eexists].
Qed.
End Listing.

(** ** A paginating cloud

    The documented behaviour of the listing endpoint: at most [Limit] of the matching
    volumes, from [Offset] on, in a stable order. A page takes ten seconds at most, the
    timeout of one request being thirty. *)
Definition page_time : Z := 10 * Second.

Definition paginated {E} `{CloudSDK E}
    (matching : string -> string -> string -> string -> list v2Volume) : Prop :=
  forall sc o t e, exists dt e',
    v2_List sc o t e =
      (dt, Ok (take (Z.to_nat (v2l_Limit o)) (drop (Z.to_nat (v2l_Offset o))
                (matching (v2l_Name o) (v2l_Status o) (v2l_AvailabilityZone o) (v2l_ID o)))), e')
    /\ (Z.of_N dt <= page_time)%Z.

Section Paginated.
Context {E : Type} `{CloudSDK E} `{CloudURLs}.
Variable matching : string -> string -> string -> string -> list v2Volume.
Hypothesis Hpag : paginated matching.
Variables (c : Client) (opts : ListVolumeOpts).

Definition matches : list v2Volume :=
  matching (lvo_Name opts) (lvo_Status opts) (lvo_AvailabilityZone opts) (lvo_ID opts).

Definition too_many_pages : gerror :=
  sentinelf "list volumes: more pages than the listing bound allows: " ErrOperationFailed.

Lemma page_at ctx d res w :
  done_at ctx = Some d -> (clock w < d)%Z -> exists w',
  listVolumePage c ctx (page_opts opts res) w =
    Some (Ok (map mapV2VolumeToDomain (take 100 (drop (length res) matches))), w')
  /\ (clock w' <= clock w + page_time)%Z.
Proof.
  intros Hd Hlt. unfold listVolumePage, check_ctx, bind, ctx_err, ctx_err_at. rewrite Hd.
  destruct (Z.leb_spec d (clock w)); [lia|]. unfold sdk_List, call. simpl.
  match goal with |- context [v2_List ?sc ?o ?t ?e] =>
    destruct (Hpag sc o t e) as (dt & e' & Heq & Hdt) end.
  rewrite Heq. simpl. rewrite Nat2Z.id. eexists. split; [done|]. simpl. lia.
Qed.

Lemma list_pages_complete ctx d n k w :
  done_at ctx = Some d -> (k <= length matches)%nat ->
  (clock w + Z.of_nat n * page_time < d)%Z ->
  exists w', list_pages n c ctx opts (map mapV2VolumeToDomain (take k matches)) w =
    Some (if (length matches + 100 <=? k + 100 * n)%nat
          then Ok (map mapV2VolumeToDomain matches) else Err too_many_pages, w').
Proof.
  intros Hd. revert k w. induction n as [|n IH]; intros k w Hk Ht.
  { destruct (Nat.leb_spec (length matches + 100) (k + 100 * 0)); [lia|]. by eexists. }
  assert (0 < page_time)%Z as Hpt by done.
  cbn [list_pages]. unfold try, bind.
  destruct (page_at ctx d (map mapV2VolumeToDomain (take k matches)) w Hd) as (w1 & -> & Hw1); [nia|].
  rewrite !length_map, (length_take_le matches k Hk), length_firstn, length_skipn. destruct (Nat.eqb_spec (100 `min` (length matches - k)) 0).
  - assert (k = length matches) as -> by lia. rewrite firstn_all.
    destruct (Nat.leb_spec (length matches + 100) (length matches + 100 * S n)); [|lia].
    by eexists.
  - rewrite <-map_app, take_take_drop.
    destruct (decide (k + 100 <= length matches)%nat) as [Hle|Hgt].
    + destruct (IH (k + 100)%nat w1 Hle) as [w2 ->]; [nia|]. exists w2. do 2 f_equal.
      by replace (k + 100 * S n)%nat with (k + 100 + 100 * n)%nat by lia.
    + rewrite (take_ge matches) by lia.
      destruct (IH (length matches) w1) as [w2 E2]; [done|nia|].
      rewrite firstn_all in E2. rewrite E2. exists w2. do 2 f_equal.
      destruct (Nat.leb_spec (length matches + 100) (length matches + 100 * n)),
        (Nat.leb_spec (length matches + 100) (k + 100 * S n)); try done; lia.
Qed.
End Paginated.

(** ** Properties *)

Section Properties.
Context {E : Type} `{CloudSDK E} `{CloudURLs}.

(** The requests fetched contiguous pages up to an empty one, and the pages hold [cands]. *)
Definition listed (opts : ListVolumeOpts) (evs : list Event) (cands : list Volume) : Prop :=
  exists evs0 sc, evs = evs0 ++ [page_event opts (length cands) sc (Ok [])]
    /\ pages opts [] evs0 cands.

Lemma pages_fun opts res evs out :
  pages opts res evs out -> forall out', pages opts res evs out' -> out = out'.
Proof.
  induction 1 as [res|res sc ps evs out Hps Hp IH]; intros out' Hp'; inversion Hp'; subst; [done|].
  by apply IH.
Qed.

(** C18. DiscoverVolume sends at most 51 list requests and nothing else. It answers with a
    volume only from a complete listing of contiguous pages, and whenever its listing
    completed the answer is the adoptable volume of that name with the least ID among
    all the listed ones, not-found when none has the name, and a conflict otherwise. *)
Theorem DiscoverVolume_least c ctx opts w :
  runs (DiscoverVolume c ctx opts) w (fun r evs =>
    Forall is_list evs /\ (length evs <= 51)%nat /\
    (forall v, r = Ok v -> exists cands, listed (by_name (dvo_Name opts)) evs cands) /\
    (forall cands, listed (by_name (dvo_Name opts)) evs cands -> chosen cands opts r)).
Proof.
  eapply runs_mono; [apply wp_runs, wp_DiscoverVolume|].
  intros r evs (Hall & r0 & [Hlen Hs] & Hr). split; [done|]. split; [exact Hlen|].
  destruct r0 as [cands|e].
  - split; [by exists cands|]. intros cands' (evs1 & sc1 & He1 & Hp1).
    destruct Hs as (evs0 & sc0 & He0 & Hp0). rewrite He0 in He1.
    apply app_inj_tail in He1 as [<- _]. rewrite (pages_fun _ _ _ _ Hp1 _ Hp0), Hr.
    apply choose_volume_chosen.
  - destruct Hr as [e' ->]. split; [done|]. intros cands (evs0 & sc0 & -> & _).
    apply Forall_app in Hs as [_ Hs]. apply Forall_cons_iff in Hs as [Hs _]. by edestruct Hs.
Qed.

(** The choice does not depend on the order in which the cloud lists the volumes, as
    long as their IDs differ. *)
Theorem choose_volume_perm opts cands cands' :
  NoDup (map vol_ID cands) -> cands ≡ₚ cands' ->
  choose_volume cands opts = choose_volume cands' opts.
Proof.
  intros Hnd Hp. unfold choose_volume. fold (named opts).
  assert (List.filter (named opts) cands ≡ₚ List.filter (named opts) cands') as Hf
    by (by rewrite Hp).
  assert (insertion_sort id_before (List.filter (named opts) cands)
    = insertion_sort id_before (List.filter (named opts) cands')) as ->.
  { apply StronglySorted_unique_strong with (R := not_after id_before).
    - intros v v' Hv Hv' H1%id_before_spec H2%id_before_spec.
      rewrite insertion_sort_perm, elem_of_named in Hv, Hv'. rewrite <-Hp in Hv'.
      apply (NoDup_map_elem vol_ID cands); [done|apply Hv|apply Hv'|by apply (anti_symm String.le)].
    - apply sort_ids_sorted.
    - apply sort_ids_sorted.
    - by rewrite !insertion_sort_perm. }
  by rewrite Hf.
Qed.
End Properties.

(** C25. Against a cloud that paginates, ListVolumes without a caller's page returns every
    matching volume in order, however many requests that takes, and refuses with
    ErrOperationFailed the listings of more than 5000 volumes: no listing is cut short. *)
Theorem ListVolumes_complete {E} `{CloudSDK E} matching c opts w :
  paginated matching -> (lvo_Limit opts <= 0)%Z -> (lvo_Offset opts <= 0)%Z ->
  exists w', ListVolumes c Background opts w =
    Some (if (length (matches matching opts) <=? 5000)%nat
          then Ok (map mapV2VolumeToDomain (matches matching opts))
          else Err too_many_pages, w').
Proof.
  intros Hpag Hl Ho. unfold ListVolumes, with_timeout, bind, now.
  destruct (Z.ltb_spec 0 (lvo_Limit opts)), (Z.ltb_spec 0 (lvo_Offset opts)); try lia. cbn [orb].
  destruct (list_pages_complete matching Hpag c opts
    (WithDeadline Background (clock w + maxOperationTimeout)) (clock w + maxOperationTimeout)
    (S volumeListMaxPages) 0 w) as [w' Hw']; [done|lia| |].
  { unfold volumeListMaxPages, page_time, maxOperationTimeout, Minute, Second, Millisecond. lia. }
  exists w'. etrans; [exact Hw'|]. unfold volumeListMaxPages. do 2 f_equal.
  destruct (Nat.leb_spec (length (matches matching opts) + 100) (0 + 100 * 51)),
    (Nat.leb_spec (length (matches matching opts)) 5000); try done; lia.
Qed.

(** ** Witnesses *)

(** A cloud that holds a fixed set of volumes, filters them by name and pages through them,
    one second a page. *)
Definition stock_matching (stock : list v2Volume) (name status az id : string) :
    list v2Volume :=
  List.filter (fun v => bool_decide (v2_Name v = name)) stock.

Definition stock_cloud (stock : list v2Volume) : CloudSDK unit := {|
  v3_Create _ _ _ e := (0%N, mkCreateResult (Some (ENew "read only")) (Err (ENew "read only")), e);
  v3_Get _ _ _ e := (0%N, Err (ESDK (ErrDefault 404) "no such volume"), e);
  v3_Delete _ _ _ e := (0%N, Some (ENew "read only"), e);
  v2_List _ o _ e :=
    (1000000000%N, Ok (take (Z.to_nat (v2l_Limit o)) (drop (Z.to_nat (v2l_Offset o))
       (stock_matching stock (v2l_Name o) (v2l_Status o) (v2l_AvailabilityZone o) (v2l_ID o)))), e);
  evs_GetJob _ _ _ e := (0%N, Err (ENew "no jobs"), e);
  disk_GetAttachments _ _ _ e := (0%N, Ok None, e);
  disk_Attach _ _ _ e := (0%N, Ok None, e);
  disk_Detach _ _ _ _ _ e := (0%N, Ok None, e);
  ecs_GetJob _ _ _ e := (0%N, Err (ENew "no jobs"), e);
  cloud_scheduler := fun e => (true, e) |}.

Definition stock_volume (id : string) : v2Volume :=
  mkV2Volume id "pvc-1" "available" 10 "eu-de-01" "SSD"
    (mkV2Metadata "" "" "" "" "" "" "" "" "") {[ OwnershipTagKey := OwnershipTagValue ]} false.

Definition stock_request : DiscoverVolumeOpts := mkDiscoverVolumeOpts "pvc-1" "eu-de-01" "SSD" 10 0.

Definition stock_client : Client :=
  mkClient (mkConfig "" "" "" "" "" "") (Some (mkService None "" "")) (Some (mkService None "" "")) None.

Lemma stock_paginated stock :
  @paginated unit (stock_cloud stock) (stock_matching stock).
Proof. intros sc o t e. do 2 eexists. by split. Qed.

Lemma choose_volume_perm_witness :
  choose_volume (map mapV2VolumeToDomain [stock_volume "b"; stock_volume "a"]) stock_request
  = choose_volume (map mapV2VolumeToDomain [stock_volume "a"; stock_volume "b"]) stock_request.
Proof.
  apply choose_volume_perm.
  - apply (bool_decide_unpack _). vm_compute. exact I.
  - apply Permutation_swap.
Defined.

Lemma ListVolumes_complete_witness :
  exists w', @ListVolumes unit (stock_cloud [stock_volume "b"; stock_volume "a"]) stock_client
    Background (by_name "pvc-1") (mkWorld 0 tt []) =
  Some (Ok (map mapV2VolumeToDomain [stock_volume "b"; stock_volume "a"]), w').
Proof.
  destruct (@ListVolumes_complete unit (stock_cloud [stock_volume "b"; stock_volume "a"])
    (stock_matching [stock_volume "b"; stock_volume "a"]) stock_client (by_name "pvc-1")
    (mkWorld 0 tt [])) as [w' Hw'].
  - apply stock_paginated.
  - done.
  - done.
  - exists w'. exact Hw'.
Defined.
