(* ===== verification/EvsAttachment.v ===== *)
(** * Attachments (internal/evs/attachment.go)

    AttachVolume and DetachVolume with their waits, the probe of the volume record after
    a refusal, and the reconciliation windows; then the protocol they follow as a step
    relation, and the properties. *)

From S2P Require Import Prelude GoStrings GoErrors GoURL Runtime EvsClient EvsTransport EvsSDK EvsVolume.

Local Open Scope stdpp_scope.
Local Open Scope go_scope.

(** ** Constants and data *)

Definition attachmentPollInterval : Z := Second.
Definition refusedAttachReconcileWindow : Z := 90 * Second.
Definition refusedDetachReconcileWindow : Z := 90 * Second.
Definition detachKeepVolume : Z := 0.

Record Attachment := mkAttachment { VolumeID : string; ServerID : string; DeviceName : string }.

(** A nil *Attachment is [None]. *)
Definition attachedWithDevice (attachment : option Attachment) : bool :=
  match attachment with
  | Some a => negb (bool_decide (DeviceName a = ""))
  | None => false
  end.

Definition detached (attachment : option Attachment) : bool :=
  match attachment with Some _ => false | None => true end.

Definition validateAttachmentInput (volumeID serverID : string) : option gerror :=
  if blank volumeID || blank serverID then Some (ESentinel ErrInvalidArgument) else None.

Inductive refusalProbeReading :=
| probeUnknown | probeDenied | probeInFlight | probeAttachedElsewhere.

#[export] Instance refusalProbeReading_eq_dec : EqDecision refusalProbeReading.
Proof. solve_decision. Defined.

(** The loop of observeAttachment over the listing. *)
Definition find_attachment (volumeID serverID : string) (l : list diskAttachment) :
    option Attachment :=
  match find_first (fun a => bool_decide (da_VolumeID a = volumeID)
                             && bool_decide (da_ServerID a = serverID)) l with
  | Some a => Some (mkAttachment (da_VolumeID a) (da_ServerID a) (TrimSpace (da_Device a)))
  | None => None
  end.

(** The tests of the two probes on a volume record. *)
Definition lists_server (serverID : string) (detail : v3Volume) : bool :=
  existsb (fun a => bool_decide (va_ServerID a = serverID)) (v3_Attachments detail).

Definition read_attach_probe (serverID : string) (detail : v3Volume) : refusalProbeReading :=
  if lists_server serverID detail then probeInFlight else
  if (0 <? length (v3_Attachments detail))%nat then probeAttachedElsewhere else
  if decide (v3_Status detail = volumeStatusAttaching) then probeInFlight else probeDenied.

Definition read_detach_probe (serverID : string) (detail : v3Volume) : bool :=
  if decide (v3_Status detail = volumeStatusAttaching \/ v3_Status detail = volumeStatusDetaching)
  then true else lists_server serverID detail.

Section Operations.
Context {E : Type} `{CloudSDK E}.
Abbreviation op A := (M E Event (result A)).

(** ** Observation and waiting *)

Definition observe_listing (volumeID serverID : string) (l : option (list diskAttachment)) :
    option Attachment :=
  match l with None => None | Some l => find_attachment volumeID serverID l end.

Definition observeAttachment (ctx : GoContext) (ecsClient : option ServiceClient)
    (volumeID serverID : string) : op (option Attachment) :=
  let! e := ctx_err ctx in
  match e with
  | Some e => ret (Err e)
  | None =>
      try! attachments := sdk_GetAttachments ecsClient serverID in
      ret (Ok (observe_listing volumeID serverID attachments))
  end.

(** One turn of waitForAttachmentState; [None] waits for the next tick. *)
Definition state_turn (ctx : GoContext) (ecsClient : option ServiceClient)
    (volumeID serverID : string) (settled : option Attachment -> bool) :
    M E Event (option (result (option Attachment))) :=
  let! r := observeAttachment ctx ecsClient volumeID serverID in
  match r with
  | Ok attachment => ret (if settled attachment then Some (Ok attachment) else None)
  | Err err => ret (if negb (transient err) then Some (Err err) else None)
  end.

Definition waitForAttachmentState (c : Client) (ctx : GoContext) (volumeID serverID : string)
    (settled : option Attachment -> bool) : op (option Attachment) :=
  let ecsClient := ecs c ctx in
  let! ticker := NewTicker attachmentPollInterval in
  poll_loop poll_fuel ctx ticker (state_turn ctx ecsClient volumeID serverID settled).

(** One turn of waitForAttachmentJob. *)
Definition server_job_turn (ctx : GoContext) (jobClient : option ServiceClient) (jobID : string) :
    M E Event (option (result unit)) :=
  let! e := ctx_err ctx in
  match e with
  | Some e => ret (Some (Err e))
  | None =>
      let! r := sdk_ServerJob jobClient jobID in
      match r with
      | Ok job =>
          if decide (js_Status job = "SUCCESS") then ret (Some (Ok tt)) else
          if decide (js_Status job = "FAIL") then
            ret (Some (Err (ENew ("ECS job " +:+ jobID +:+ " failed (code "
                   +:+ js_ErrorCode job +:+ "): " +:+ js_FailReason job))))
          else ret None
      | Err err => if jobPollShouldStop err then ret (Some (Err err)) else ret None
      end
  end.

Definition waitForAttachmentJob (c : Client) (ctx : GoContext) (jobID : string) : op unit :=
  let jobClient := ecs c ctx in
  let! ticker := NewTicker attachmentPollInterval in
  poll_loop poll_fuel ctx ticker (server_job_turn ctx jobClient jobID).

(** The response [if job == nil || strings.TrimSpace(job.JobID) == ""]. *)
Definition job_of (job : option JobResponse) : option string :=
  match job with
  | Some j => if blank (JobID j) then None else Some (JobID j)
  | None => None
  end.

(** ** Attaching *)

Definition attach_operation (volumeID serverID : string) : string :=
  "attach volume " +:+ volumeID +:+ " to server " +:+ serverID.

Definition attachInFlight (c : Client) (ctx : GoContext) (volumeID serverID : string) :
    op refusalProbeReading :=
  let! e := ctx_err ctx in
  match e with
  | Some e => ret (Err e)
  | None =>
      try! detail := sdk_Get (v3 c ctx) volumeID in
      ret (Ok (read_attach_probe serverID detail))
  end.

Definition reconcileRefusedAttach (c : Client) (ctx : GoContext) (volumeID serverID : string) :
    op (option Attachment) :=
  with_timeout ctx refusedAttachReconcileWindow (fun reconcileCtx =>
  waitForAttachmentState c reconcileCtx volumeID serverID attachedWithDevice).

(** [if observeErr == nil return; if ctx.Err() != nil classify that; else classify cause]. *)
Definition or_cause {A} (c : Client) (ctx : GoContext) (operation : string) (cause : gerror)
    (r : result A) : op A :=
  match r with
  | Ok a => ret (Ok a)
  | Err _ => check_ctx c ctx operation (ret (Err cause))
  end.

Definition finishAttachAfterEffectError (c : Client) (ctx : GoContext)
    (operation volumeID serverID : string) (attachErr : gerror) : op (option Attachment) :=
  let cause := classifyError (cfg c) operation attachErr in
  let kind := classifyErrorKind attachErr in
  if bool_decide (kind = ErrUnavailable) || bool_decide (kind = ErrOperationFailed) then
    let! r := waitForAttachmentState c ctx volumeID serverID attachedWithDevice in
    or_cause c ctx operation cause r
  else if negb (bool_decide (kind = ErrInvalidArgument)) then ret (Err cause) else
  let! reading := attachInFlight c ctx volumeID serverID in
  check_ctx c ctx operation (
  match reading with
  | Err _ => ret (Err cause)
  | Ok reading =>
      if decide (reading = probeAttachedElsewhere) then
        ret (Err (sentinelf (operation +:+ ": volume attached to another server: ") ErrConflict))
      else if negb (bool_decide (reading = probeInFlight)) then ret (Err cause) else
      let! r := reconcileRefusedAttach c ctx volumeID serverID in
      or_cause c ctx operation cause r
  end).

(** [if err != nil return c.classifyError(operation, err)]. *)
Definition or_classified {A B} (c : Client) (operation : string) (m : op A) (k : A -> op B) :
    op B :=
  let! r := m in
  match r with
  | Ok a => k a
  | Err err => ret (Err (classifyError (cfg c) operation err))
  end.

(** The returned pointer is nil only together with an error. *)
Definition AttachVolume (c : Client) (ctx : GoContext) (volumeID serverID : string) :
    op (option Attachment) :=
  let operation := attach_operation volumeID serverID in
  match validateAttachmentInput volumeID serverID with
  | Some err => ret (Err (wrapf (operation +:+ ": ") err))
  | None =>
  with_timeout ctx maxOperationTimeout (fun ctx =>
  or_classified c operation (observeAttachment ctx (ecs c ctx) volumeID serverID) (fun existing =>
  if attachedWithDevice existing then ret (Ok existing) else
  if negb (detached existing) then
    or_classified c operation
      (waitForAttachmentState c ctx volumeID serverID attachedWithDevice) (fun a => ret (Ok a))
  else
  let! r := sdk_Attach (ecs c ctx) (mkDiskCreateOpts serverID volumeID) in
  match r with
  | Err err => finishAttachAfterEffectError c ctx operation volumeID serverID err
  | Ok job =>
      match job_of job with
      | None =>
          let! r := waitForAttachmentState c ctx volumeID serverID attachedWithDevice in
          or_cause c ctx operation (sentinelf (operation +:+ ": ") ErrOperationFailed) r
      | Some jobID =>
          or_classified c operation (waitForAttachmentJob c ctx jobID) (fun _ =>
          or_classified c operation
            (waitForAttachmentState c ctx volumeID serverID attachedWithDevice)
            (fun a => ret (Ok a)))
      end
  end))
  end.

(** ** Detaching *)

Definition detach_operation (volumeID serverID : string) : string :=
  "detach volume " +:+ volumeID +:+ " from server " +:+ serverID.

Definition detachInFlight (c : Client) (ctx : GoContext) (volumeID serverID : string) : op bool :=
  let! e := ctx_err ctx in
  match e with
  | Some e => ret (Err e)
  | None =>
      try! detail := sdk_Get (v3 c ctx) volumeID in
      ret (Ok (read_detach_probe serverID detail))
  end.

(** [_, err := ...]: the value is dropped. *)
Definition error_only {A} (m : op A) : op unit :=
  let! r := m in
  ret (match r with Ok _ => Ok tt | Err e => Err e end).

Definition reconcileRefusedDetach (c : Client) (ctx : GoContext) (volumeID serverID : string) :
    op unit :=
  with_timeout ctx refusedDetachReconcileWindow (fun reconcileCtx =>
  error_only (waitForAttachmentState c reconcileCtx volumeID serverID detached)).

Definition finishDetachAfterEffectError (c : Client) (ctx : GoContext)
    (operation volumeID serverID : string) (detachErr : gerror) : op unit :=
  let cause := classifyError (cfg c) operation detachErr in
  let kind := classifyErrorKind detachErr in
  if bool_decide (kind = ErrUnavailable) || bool_decide (kind = ErrOperationFailed) then
    let! r := error_only (waitForAttachmentState c ctx volumeID serverID detached) in
    or_cause c ctx operation cause r
  else if negb (bool_decide (kind = ErrInvalidArgument)) then ret (Err cause) else
  let! moving := detachInFlight c ctx volumeID serverID in
  check_ctx c ctx operation (
  match moving with
  | Err _ => ret (Err cause)
  | Ok moving =>
      if negb moving then ret (Err cause) else
      let! r := reconcileRefusedDetach c ctx volumeID serverID in
      or_cause c ctx operation cause r
  end).

Definition DetachVolume (c : Client) (ctx : GoContext) (volumeID serverID : string) :
    op unit :=
  let operation := detach_operation volumeID serverID in
  match validateAttachmentInput volumeID serverID with
  | Some err => ret (Err (wrapf (operation +:+ ": ") err))
  | None =>
  with_timeout ctx maxOperationTimeout (fun ctx =>
  or_classified c operation (observeAttachment ctx (ecs c ctx) volumeID serverID) (fun existing =>
  if detached existing then ret (Ok tt) else
  let! r := sdk_Detach (ecs c ctx) serverID volumeID detachKeepVolume in
  match r with
  | Err err => finishDetachAfterEffectError c ctx operation volumeID serverID err
  | Ok job =>
      match job_of job with
      | None =>
          let! r := error_only (waitForAttachmentState c ctx volumeID serverID detached) in
          or_cause c ctx operation (sentinelf (operation +:+ ": ") ErrOperationFailed) r
      | Some jobID =>
          or_classified c operation (waitForAttachmentJob c ctx jobID) (fun _ =>
          or_classified c operation
            (waitForAttachmentState c ctx volumeID serverID detached) (fun _ => ret (Ok tt)))
      end
  end))
  end.
End Operations.

(** ** The protocol

    Both operations follow one protocol towards the cloud. A protocol says which
    observation ends it, which one lets it send its effect, which call is the effect, and
    which volume record means that a refused effect is under way. *)

Record Protocol := mkProtocol {
  p_volume : string;
  p_server : string;
  p_settled : option Attachment -> bool;
  p_request : option Attachment -> bool;
  p_effect : result (option JobResponse) -> Call;
  p_inflight : v3Volume -> bool }.

Definition attach_protocol (volumeID serverID : string) : Protocol :=
  mkProtocol volumeID serverID attachedWithDevice detached
    (CallAttach (mkDiskCreateOpts serverID volumeID))
    (fun v => bool_decide (read_attach_probe serverID v = probeInFlight)).

Definition detach_protocol (volumeID serverID : string) : Protocol :=
  mkProtocol volumeID serverID detached (fun a => negb (detached a))
    (CallDetach serverID volumeID detachKeepVolume)
    (read_detach_probe serverID).

Inductive phase :=
| Idle                        (* nothing sent *)
| Ready                       (* observed that the effect is to be sent *)
| JobWait (job : string)      (* effect accepted with a job *)
| Refused                     (* effect refused as invalid: the volume record decides *)
| Watching                    (* polling the attachment listing *)
| Settled (a : option Attachment)
| Stopped.

Section Protocol.
Variable p : Protocol.

Abbreviation obs l := (observe_listing (p_volume p) (p_server p) l).

(** What the next request may be, and where its answer leads. *)
Inductive step : phase -> Call -> phase -> Prop :=
| first_settled l : p_settled p (obs l) = true ->
    step Idle (CallGetAttachments (p_server p) (Ok l)) (Settled (obs l))
| first_request l : p_settled p (obs l) = false -> p_request p (obs l) = true ->
    step Idle (CallGetAttachments (p_server p) (Ok l)) Ready
| first_watch l : p_settled p (obs l) = false -> p_request p (obs l) = false ->
    step Idle (CallGetAttachments (p_server p) (Ok l)) Watching
| first_failed e : step Idle (CallGetAttachments (p_server p) (Err e)) Stopped
| effect_job j id : job_of j = Some id -> step Ready (p_effect p (Ok j)) (JobWait id)
| effect_no_job j : job_of j = None -> step Ready (p_effect p (Ok j)) Watching
| effect_unsure e : transient e = true -> step Ready (p_effect p (Err e)) Watching
| effect_refused e : classifyErrorKind e = ErrInvalidArgument ->
    step Ready (p_effect p (Err e)) Refused
| effect_failed e : transient e = false -> classifyErrorKind e <> ErrInvalidArgument ->
    step Ready (p_effect p (Err e)) Stopped
| job_done id j : js_Status j = "SUCCESS" -> step (JobWait id) (CallServerJob id (Ok j)) Watching
| job_turn_again id r : (forall j, r = Ok j -> js_Status j <> "SUCCESS") ->
    step (JobWait id) (CallServerJob id r) (JobWait id)
| probe_inflight v : p_inflight p v = true -> step Refused (CallGet (p_volume p) (Ok v)) Watching
| probe_denied v : p_inflight p v = false -> step Refused (CallGet (p_volume p) (Ok v)) Stopped
| probe_failed e : step Refused (CallGet (p_volume p) (Err e)) Stopped
| watch_settled l : p_settled p (obs l) = true ->
    step Watching (CallGetAttachments (p_server p) (Ok l)) (Settled (obs l))
| watch_again l : p_settled p (obs l) = false ->
    step Watching (CallGetAttachments (p_server p) (Ok l)) Watching
| watch_failed e : step Watching (CallGetAttachments (p_server p) (Err e)) Watching.

Inductive steps : phase -> list Event -> phase -> Prop :=
| steps_nil ph : steps ph [] ph
| steps_cons ph ev ph' evs ph'' :
    step ph (ev_call ev) ph' -> steps ph' evs ph'' -> steps ph (ev :: evs) ph''.

(** The result that ends an execution: success exactly in a settled phase. *)
Definition ends {B} (f : option Attachment -> B) (ph : phase) (r : result B) : Prop :=
  match r with
  | Ok b => exists a, ph = Settled a /\ b = f a
  | Err _ => forall a, ph <> Settled a
  end.

Definition conforms {B} (f : option Attachment -> B) (start : phase) (r : result B)
    (evs : list Event) : Prop :=
  exists ph, steps start evs ph /\ ends f ph r.

Lemma steps_app ph evs ph' evs' ph'' :
  steps ph evs ph' -> steps ph' evs' ph'' -> steps ph (evs ++ evs') ph''.
Proof. induction 1; simpl; [done|]. intros. econstructor; eauto. Qed.

Lemma steps_one ph ev ph' : step ph (ev_call ev) ph' -> steps ph [ev] ph'.
Proof. intros. econstructor; [done|constructor]. Qed.

Lemma conforms_app {B} (f : option Attachment -> B) ph evs ph' r evs' :
  steps ph evs ph' -> conforms f ph' r evs' -> conforms f ph r (evs ++ evs').
Proof. intros Hs (ph'' & Hs' & He). exists ph''. split; [by eapply steps_app|done]. Qed.

Lemma conforms_err {B} (f : option Attachment -> B) ph evs ph' e :
  steps ph evs ph' -> (forall a, ph' <> Settled a) -> conforms f ph (Err e) evs.
Proof. intros Hs Hn. by exists ph'. Qed.
End Protocol.

(** ** The operations follow the protocol *)

Section Refinement.
Context {E : Type} `{CloudSDK E}.
Abbreviation post A := (A -> list Event -> World E Event -> Prop).
Variables (p : Protocol) (c : Client).

Abbreviation watched r evs :=
  (match r with Ok a => steps p Watching evs (Settled a)
              | Err _ => steps p Watching evs Watching end).

Lemma wp_observe ctx sc w (Q : post (result (option Attachment))) :
  (forall e, ctx_err_at ctx (clock w) = Some e -> Q (Err e) [] w) ->
  (forall a w', clock w <= clock w' -> ctx_err_at ctx (clock w) = None ->
     Q (match a with Ok l => Ok (observe_listing (p_volume p) (p_server p) l)
                   | Err e => Err e end)
       [mkEvent sc (CallGetAttachments (p_server p) a)] w')%Z ->
  wp (observeAttachment ctx sc (p_volume p) (p_server p)) Q w.
Proof.
  intros He Ha. unfold observeAttachment. do 2 wp_step.
  destruct (ctx_err_at ctx (clock w)) as [e|] eqn:Ec; [wp_step; by apply He|].
  wp_step. sdk_step. intros a w' Hw'. specialize (Ha a w' Hw' eq_refl). simpl.
  destruct a; [wp_step|]; exact Ha.
Qed.

Lemma wp_state_turn ctx sc d evs w :
  done_at ctx = Some d -> steps p Watching evs Watching ->
  wp (state_turn ctx sc (p_volume p) (p_server p) (p_settled p)) (fun o evs' w' =>
    match o with
    | Some r => watched r (evs ++ evs')
    | None => steps p Watching (evs ++ evs') Watching /\ (d <= clock w -> clock w' = clock w)%Z
    end) w.
Proof.
  intros Hd Hevs. unfold state_turn. wp_step. apply wp_observe.
  - intros e He. destruct (negb (transient e)); wp_step; [done|by split].
  - intros [l|e] w' _ Hlive.
    + destruct (p_settled p _) eqn:Es; wp_step.
      * eapply steps_app; [done|]. by apply steps_one, watch_settled.
      * split; [eapply steps_app; [done|]; by apply steps_one, watch_again|].
        intros Hle. by rewrite (ctx_err_at_done _ _ _ Hd Hle) in Hlive.
    + assert (steps p Watching (evs ++ [mkEvent sc (CallGetAttachments (p_server p) (Err e))]) Watching).
      { eapply steps_app; [done|]. by apply steps_one, watch_failed. }
      destruct (negb (transient e)); wp_step; [done|]. split; [done|].
      intros Hle. by rewrite (ctx_err_at_done _ _ _ Hd Hle) in Hlive.
Qed.

Lemma poll_fuel_enough d t : (d <= t + maxOperationTimeout)%Z ->
  fuel_enough poll_fuel d (mkTicker t attachmentPollInterval t).
Proof.
  intros Hle. apply (fuel_enough_new _ _ _ _ 600); [done| |done|done].
  unfold maxOperationTimeout, attachmentPollInterval, Minute, Second, Millisecond in *. lia.
Qed.

Lemma wp_waitForAttachmentState ctx d w :
  done_at ctx = Some d -> (d <= clock w + maxOperationTimeout)%Z ->
  wp (waitForAttachmentState c ctx (p_volume p) (p_server p) (p_settled p))
    (fun r evs _ => watched r evs) w.
Proof.
  intros Hd Hle. unfold waitForAttachmentState. do 2 wp_step.
  apply (wp_poll _ _ _ _ (fun evs => steps p Watching evs Watching) _ d);
    [done|done|by apply poll_fuel_enough| |done|constructor].
  intros evs w'. by apply wp_state_turn.
Qed.

Lemma wp_waitForAttachmentJob ctx id d w :
  done_at ctx = Some d -> (d <= clock w + maxOperationTimeout)%Z ->
  wp (waitForAttachmentJob c ctx id) (fun r evs _ =>
    match r with Ok _ => steps p (JobWait id) evs Watching
               | Err _ => steps p (JobWait id) evs (JobWait id) end) w.
Proof.
  intros Hd Hle. unfold waitForAttachmentJob. do 2 wp_step.
  apply (wp_poll _ _ _ _ (fun evs => steps p (JobWait id) evs (JobWait id)) _ d);
    [done|done|by apply poll_fuel_enough| |done|constructor].
  intros evs w1 Hevs. unfold server_job_turn. do 2 wp_step.
  destruct (ctx_err_at ctx (clock w1)) as [e|] eqn:Ec; [by wp_step|].
  wp_step. sdk_step. intros r w2 _. set (ev := mkEvent _ _).
  assert (d <= clock w1 -> clock w2 = clock w1)%Z as Hstill.
  { intros Hd1. by rewrite (ctx_err_at_done _ _ _ Hd Hd1) in Ec. }
  assert ((forall j, r = Ok j -> js_Status j <> "SUCCESS") ->
    steps p (JobWait id) (evs ++ [ev]) (JobWait id)) as Hagain.
  { intros Hr. eapply steps_app; [done|]. by apply steps_one, job_turn_again. }
  destruct r as [job|err].
  - destruct (decide (js_Status job = "SUCCESS")) as [Es|Es].
    { wp_step. change (steps p (JobWait id) (evs ++ [ev]) Watching). eapply steps_app; [exact Hevs|]. by apply steps_one, job_done. }
    destruct (decide (js_Status job = "FAIL")); wp_step; [|split; [|exact Hstill]];
      apply Hagain; congruence.
  - destruct (jobPollShouldStop err); wp_step; [|split; [|exact Hstill]]; by apply Hagain.
Qed.

Lemma wp_or_cause {B} ctx op cause (r : result B) (Q : post (result B)) w :
  (forall b, r = Ok b -> Q (Ok b) [] w) -> (forall e e', r = Err e -> Q (Err e') [] w) ->
  wp (or_cause c ctx op cause r) Q w.
Proof.
  intros Hok Herr. unfold or_cause. destruct r as [b|e]; [wp_step; by apply Hok|].
  apply wp_check_ctx; [by intros; apply (Herr e)|]. intros _. wp_step. by apply (Herr e).
Qed.

Lemma wp_or_classified {A B} op (m : M E Event (result A)) (k : A -> M E Event (result B))
    (Q : post (result B)) w :
  wp m (fun r evs w' => match r with
                        | Ok a => wp (k a) (fun b evs' w'' => Q b (evs ++ evs') w'') w'
                        | Err e => Q (Err (classifyError (cfg c) op e)) evs w'
                        end) w ->
  wp (or_classified c op m k) Q w.
Proof.
  intros H1. apply wp_bind. eapply wp_mono; [exact H1|].
  intros [a|e] evs w' _ HQ; [exact HQ|]. wp_step. exact HQ.
Qed.

Lemma wp_error_only {A} (m : M E Event (result A)) (Q : post (result unit)) w :
  wp m (fun r evs w' => Q (match r with Ok _ => Ok tt | Err e => Err e end) evs w') w ->
  wp (error_only m) Q w.
Proof.
  intros H1. apply wp_bind. eapply wp_mono; [exact H1|]. intros r evs w' _ HQ. by wp_step.
Qed.

(** Waiting, then [or_cause]: the tail of three branches of each operation. *)
Lemma wp_watch_or_cause ctx op cause (m : M E Event (result (option Attachment))) w :
  wp m (fun r evs _ => watched r evs) w ->
  wp (bind m (or_cause c ctx op cause)) (fun r evs _ => conforms p id Watching r evs) w.
Proof.
  intros Hm. wp_step. eapply wp_mono; [exact Hm|].
  intros r evs w' _ Hr. apply wp_or_cause; intros; subst; rewrite app_nil_r.
  - exists (Settled b). split; [done|by exists b].
  - by apply (conforms_err p id _ _ Watching).
Qed.

Abbreviation watched_only r evs :=
  (match r with Ok _ => exists a, steps p Watching evs (Settled a)
              | Err _ => steps p Watching evs Watching end).

Lemma wp_watched_only (m : M E Event (result (option Attachment))) w :
  wp m (fun r evs _ => watched r evs) w ->
  wp (error_only m) (fun r evs _ => watched_only r evs) w.
Proof.
  intros Hm. apply wp_error_only. eapply wp_mono; [exact Hm|].
  intros [a|e] evs w' _ Hr; [by exists a|done].
Qed.

Lemma wp_watch_error_or_cause ctx op cause (m : M E Event (result unit)) w :
  wp m (fun r evs _ => watched_only r evs) w ->
  wp (bind m (or_cause c ctx op cause)) (fun r evs _ => conforms p (const tt) Watching r evs) w.
Proof.
  intros Hm. wp_step. eapply wp_mono; [exact Hm|].
  intros r evs w' _ Hr. apply wp_or_cause; intros; subst; rewrite app_nil_r.
  - destruct Hr as [a Hr]. exists (Settled a). split; [done|]. exists a. by destruct b.
  - by apply (conforms_err p (const tt) _ _ Watching).
Qed.

(** A reconciliation window inside the operation's bound. *)
Lemma wp_reconcile ctx window w :
  (window <= maxOperationTimeout)%Z ->
  wp (with_timeout ctx window (fun ctx =>
      waitForAttachmentState c ctx (p_volume p) (p_server p) (p_settled p)))
    (fun r evs _ => watched r evs) w.
Proof.
  intros Hw. wp_step. destruct (done_at_WithDeadline ctx (clock w + window)) as (d & Hd & Hle).
  apply (wp_waitForAttachmentState _ d); [done|lia].
Qed.

Lemma wp_watch {B} (f : option Attachment -> B) ctx op d w :
  done_at ctx = Some d -> (d <= clock w + maxOperationTimeout)%Z ->
  wp (or_classified c op (waitForAttachmentState c ctx (p_volume p) (p_server p) (p_settled p))
       (fun a => ret (Ok (f a))))
    (fun r evs _ => conforms p f Watching r evs) w.
Proof.
  intros Hd Hle. apply wp_or_classified. eapply wp_mono; [by apply (wp_waitForAttachmentState _ d)|].
  intros [a|e] evs w' _ Hr.
  - wp_step. exists (Settled a). split; [done|by exists a].
  - by apply (conforms_err p f _ _ Watching).
Qed.

Lemma wp_job_and_watch {B} (f : option Attachment -> B) ctx op id d w :
  done_at ctx = Some d -> (d <= clock w + maxOperationTimeout)%Z ->
  wp (or_classified c op (waitForAttachmentJob c ctx id) (fun _ =>
      or_classified c op (waitForAttachmentState c ctx (p_volume p) (p_server p) (p_settled p))
       (fun a => ret (Ok (f a)))))
    (fun r evs _ => conforms p f (JobWait id) r evs) w.
Proof.
  intros Hd Hle. apply wp_or_classified. eapply wp_mono; [by apply (wp_waitForAttachmentJob _ _ d)|].
  intros [[]|e] evs w' Hc Hr.
  - eapply wp_mono; [apply (wp_watch f _ _ d); [done|lia]|]. intros r evs' w'' _ Hr'.
    by eapply conforms_app.
  - by apply (conforms_err p f _ _ (JobWait id)).
Qed.
End Refinement.

Section Conformance.
Context {E : Type} `{CloudSDK E}.

Lemma transient_kind e :
  bool_decide (classifyErrorKind e = ErrUnavailable)
  || bool_decide (classifyErrorKind e = ErrOperationFailed) = transient e.
Proof. unfold transient. repeat case_bool_decide; intuition congruence. Qed.

(** The volume record read of the two probes. *)
Lemma wp_probe {A} c ctx volumeID (f : v3Volume -> A)
    (Q : result A -> list Event -> World E Event -> Prop) w :
  (forall e, Q (Err e) [] w) ->
  (forall sc v w', (clock w <= clock w')%Z -> Q (Ok (f v)) [mkEvent sc (CallGet volumeID (Ok v))] w') ->
  (forall sc e w', (clock w <= clock w')%Z -> Q (Err e) [mkEvent sc (CallGet volumeID (Err e))] w') ->
  wp (bind (ctx_err ctx) (fun e => match e with
      | Some e => ret (Err e)
      | None => try (sdk_Get (v3 c ctx) volumeID) (fun detail => ret (Ok (f detail)))
      end)) Q w.
Proof.
  intros He Hok Herr. do 2 wp_step. destruct (ctx_err_at ctx (clock w)); [wp_step; apply He|].
  wp_step. sdk_step. intros [v|e] w' Hw'; [wp_step; by apply Hok|by apply Herr].
Qed.

(** The shape the two error paths share. [T] is the wait after a transient failure, [K] goes
    on from what the probe read. *)
Lemma wp_finish {A B} p (f : option Attachment -> B) c ctx op cause e
    (T : M E Event (result B)) (g : v3Volume -> A) (K : A -> M E Event (result B)) w :
  wp T (fun r evs _ => conforms p f Watching r evs) w ->
  (forall v w', wp (K (g v)) (fun r evs _ =>
     conforms p f (if p_inflight p v then Watching else Stopped) r evs) w') ->
  wp (if bool_decide (classifyErrorKind e = ErrUnavailable)
         || bool_decide (classifyErrorKind e = ErrOperationFailed) then T
      else if negb (bool_decide (classifyErrorKind e = ErrInvalidArgument)) then ret (Err cause)
      else bind (bind (ctx_err ctx) (fun e => match e with
             | Some e => ret (Err e)
             | None => try (sdk_Get (v3 c ctx) (p_volume p)) (fun detail => ret (Ok (g detail)))
             end)) (fun reading => check_ctx c ctx op (
             match reading with Err _ => ret (Err cause) | Ok a => K a end)))
    (fun r evs _ => forall sc, conforms p f Ready r (mkEvent sc (p_effect p (Err e)) :: evs)) w.
Proof.
  intros HT HK. rewrite transient_kind. destruct (transient e) eqn:Et.
  { eapply wp_mono; [exact HT|]. intros r evs w' _ Hr sc.
    apply (conforms_app p f _ [_] Watching); [|exact Hr]. by apply steps_one, (effect_unsure p). }
  case_bool_decide as Ek; simpl negb; cbn beta iota.
  2: { wp_step. intros sc. apply (conforms_err p f _ _ Stopped); [|done].
       by apply steps_one, (effect_failed p). }
  assert (forall sc, steps p Ready [mkEvent sc (p_effect p (Err e))] Refused) as Href
    by (intros sc; by apply steps_one, (effect_refused p)).
  assert (forall sc sc' a ph, step p Refused (CallGet (p_volume p) a) ph ->
    steps p Ready ([mkEvent sc (p_effect p (Err e))] ++ [mkEvent sc' (CallGet (p_volume p) a)]) ph)
    as Hstep by (intros; eapply steps_app; [apply Href|by apply steps_one]).
  wp_step. apply wp_probe.
  - intros e'. apply wp_check_ctx; [intros ? _ sc|intros _; wp_step; intros sc];
      by eapply conforms_err.
  - intros sc' v w1 Hw1.
    assert (step p Refused (CallGet (p_volume p) (Ok v))
      (if p_inflight p v then Watching else Stopped)) as Hv.
    { destruct (p_inflight p v) eqn:Ev; [by apply probe_inflight|by apply probe_denied]. }
    apply wp_check_ctx.
    { intros e' _ sc. eapply (conforms_err p); [by apply Hstep|by destruct (p_inflight p v)]. }
    intros _. eapply wp_mono; [apply HK|]. intros r evs w2 _ Hr sc.
    by eapply (conforms_app p f _ ([_] ++ [_])); [apply Hstep|].
  - intros sc' e' w1 Hw1. pose proof (probe_failed p e') as Hf.
    apply wp_check_ctx; [intros ? _ sc|intros _; wp_step; intros sc];
      by eapply (conforms_err p); [apply Hstep|].
Qed.

Lemma wp_finishAttach c ctx op volumeID serverID e d w :
  done_at ctx = Some d -> (d <= clock w + maxOperationTimeout)%Z ->
  wp (finishAttachAfterEffectError c ctx op volumeID serverID e)
    (fun r evs _ => forall sc, conforms (attach_protocol volumeID serverID) id Ready r
       (mkEvent sc (CallAttach (mkDiskCreateOpts serverID volumeID) (Err e)) :: evs)) w.
Proof.
  intros Hd Hle. set (p := attach_protocol volumeID serverID). apply (wp_finish p id).
  { by apply (wp_watch_or_cause p), (wp_waitForAttachmentState p c _ d). }
  intros v w'. simpl p_inflight. destruct (decide (read_attach_probe serverID v = _)) as [->|_].
  { wp_step. by apply (conforms_err p id _ _ Stopped); [constructor|]. }
  case_bool_decide; simpl negb; cbn beta iota.
  - by apply (wp_watch_or_cause p), (wp_reconcile p c).
  - wp_step. by apply (conforms_err p id _ _ Stopped); [constructor|].
Qed.

Lemma wp_finishDetach c ctx op volumeID serverID e d w :
  done_at ctx = Some d -> (d <= clock w + maxOperationTimeout)%Z ->
  wp (finishDetachAfterEffectError c ctx op volumeID serverID e)
    (fun r evs _ => forall sc, conforms (detach_protocol volumeID serverID) (const tt) Ready r
       (mkEvent sc (CallDetach serverID volumeID detachKeepVolume (Err e)) :: evs)) w.
Proof.
  intros Hd Hle. set (p := detach_protocol volumeID serverID). apply (wp_finish p (const tt)).
  { by apply (wp_watch_error_or_cause p), (wp_watched_only p), (wp_waitForAttachmentState p c _ d). }
  intros v w'. simpl p_inflight. destruct (read_detach_probe serverID v); simpl negb; cbn beta iota.
  - apply (wp_watch_error_or_cause p). unfold reconcileRefusedDetach. wp_step.
    destruct (done_at_WithDeadline ctx (clock w' + refusedDetachReconcileWindow)) as (d' & Hd' & Hle').
    apply (wp_watched_only p), (wp_waitForAttachmentState p c _ d'); [done|].
    assert (refusedDetachReconcileWindow <= maxOperationTimeout)%Z by done. lia.
  - wp_step. by apply (conforms_err p (const tt) _ _ Stopped); [constructor|].
Qed.

(** The happy path behind an accepted effect. *)
Lemma validate_none volumeID serverID : validateAttachmentInput volumeID serverID = None ->
  blank volumeID = false /\ blank serverID = false.
Proof. unfold validateAttachmentInput. by destruct (blank volumeID), (blank serverID). Qed.

(** The first observation allowed the effect, and the effect was answered. *)
Lemma conforms_effect {B} p (f : option Attachment -> B) r l a ph sc sc' evs :
  p_settled p (observe_listing (p_volume p) (p_server p) l) = false ->
  p_request p (observe_listing (p_volume p) (p_server p) l) = true ->
  step p Ready (p_effect p a) ph -> conforms p f ph r evs ->
  conforms p f Idle r (mkEvent sc' (CallGetAttachments (p_server p) (Ok l))
    :: mkEvent sc (p_effect p a) :: evs).
Proof.
  intros Hs Hr Hst Hc. apply (conforms_app p f _ [_] Ready).
  - apply steps_one. by apply first_request.
  - by apply (conforms_app p f _ [_] ph); [apply steps_one|].
Qed.

Lemma wp_AttachVolume c ctx volumeID serverID w :
  wp (AttachVolume c ctx volumeID serverID) (fun r evs _ =>
    conforms (attach_protocol volumeID serverID) id Idle r evs
    /\ (evs <> [] -> blank volumeID = false /\ blank serverID = false)) w.
Proof.
  set (p := attach_protocol volumeID serverID). unfold AttachVolume.
  destruct (validateAttachmentInput volumeID serverID) eqn:Ev.
  { wp_step. split; [|done]. by apply (conforms_err p id _ _ Idle); [constructor|]. }
  apply validate_none in Ev. eapply (wp_mono _ (fun r evs _ => conforms p id Idle r evs)); [|done].
  wp_step. destruct (done_at_WithDeadline ctx (clock w + maxOperationTimeout)) as (d & Hd & Hle).
  set (ctx' := WithDeadline _ _) in *. apply wp_or_classified, (wp_observe p).
  { intros e _. by apply (conforms_err p id _ _ Idle); [constructor|]. }
  intros [l|e] w1 Hw1 _.
  2: { apply (conforms_err p id _ _ Stopped); [|done]. by apply steps_one, (first_failed p). }
  set (a := observe_listing (p_volume p) (p_server p) l).
  destruct (attachedWithDevice a) eqn:Ea.
  { wp_step. exists (Settled a). split; [|by exists a]. by apply steps_one, (first_settled p). }
  destruct (detached a) eqn:Edet; simpl negb; cbn beta iota.
  2: { eapply wp_mono; [apply (wp_watch p c id _ _ d); [done|lia]|]. intros r evs w2 _ Hr.
       eapply (conforms_app p id _ _ Watching); [|exact Hr]. by apply steps_one, (first_watch p). }
  wp_step. sdk_step. intros [job|err] w2 Hw2.
  2: { eapply wp_mono; [apply (wp_finishAttach _ _ _ _ _ _ d); [done|lia]|]. intros r evs w3 _ Hr.
       eapply (conforms_app p id _ [_] Ready); [|apply Hr]. by apply steps_one, (first_request p). }
  destruct (job_of job) as [jid|] eqn:Ej.
  - eapply wp_mono; [apply (wp_job_and_watch p c id _ _ _ d); [done|lia]|]. intros r evs w3 _ Hr.
    by eapply (conforms_effect p id); [..|apply (effect_job p)|].
  - eapply wp_mono; [apply (wp_watch_or_cause p), (wp_waitForAttachmentState p c _ d); [done|lia]|].
    intros r evs w3 _ Hr. by eapply (conforms_effect p id); [..|apply (effect_no_job p)|].
Qed.

Lemma wp_DetachVolume c ctx volumeID serverID w :
  wp (DetachVolume c ctx volumeID serverID) (fun r evs _ =>
    conforms (detach_protocol volumeID serverID) (const tt) Idle r evs
    /\ (evs <> [] -> blank volumeID = false /\ blank serverID = false)) w.
Proof.
  set (p := detach_protocol volumeID serverID). set (f := const tt). unfold DetachVolume.
  destruct (validateAttachmentInput volumeID serverID) eqn:Ev.
  { wp_step. split; [|done]. by apply (conforms_err p f _ _ Idle); [constructor|]. }
  apply validate_none in Ev. eapply (wp_mono _ (fun r evs _ => conforms p f Idle r evs)); [|done].
  wp_step. destruct (done_at_WithDeadline ctx (clock w + maxOperationTimeout)) as (d & Hd & Hle).
  set (ctx' := WithDeadline _ _) in *. apply wp_or_classified, (wp_observe p).
  { intros e _. by apply (conforms_err p f _ _ Idle); [constructor|]. }
  intros [l|e] w1 Hw1 _.
  2: { apply (conforms_err p f _ _ Stopped); [|done]. by apply steps_one, (first_failed p). }
  set (a := observe_listing (p_volume p) (p_server p) l).
  assert (p_request p a = negb (detached a)) as Hreq by done.
  destruct (detached a) eqn:Edet.
  { wp_step. exists (Settled a). split; [|by exists a]. by apply steps_one, (first_settled p). }
  wp_step. sdk_step. intros [job|err] w2 Hw2.
  2: { eapply wp_mono; [apply (wp_finishDetach _ _ _ _ _ _ d); [done|lia]|]. intros r evs w3 _ Hr.
       eapply (conforms_app p f _ [_] Ready); [|apply Hr]. by apply steps_one, (first_request p). }
  destruct (job_of job) as [jid|] eqn:Ej.
  - eapply wp_mono; [apply (wp_job_and_watch p c f _ _ _ d); [done|lia]|]. intros r evs w3 _ Hr.
    by eapply (conforms_effect p f); [..|apply (effect_job p)|].
  - eapply wp_mono; [apply (wp_watch_error_or_cause p), (wp_watched_only p),
      (wp_waitForAttachmentState p c _ d); [done|lia]|].
    intros r evs w3 _ Hr. by eapply (conforms_effect p f); [..|apply (effect_no_job p)|].
Qed.
End Conformance.

(** ** Invariants of the protocol *)

(** The calls that change the cloud. *)
Definition mutates (call : Call) : bool :=
  match call with
  | CallCreate _ _ | CallDelete _ _ | CallAttach _ _ | CallDetach _ _ _ _ => true
  | _ => false
  end.

Definition past_effect (ph : phase) : Prop :=
  match ph with Idle | Ready => False | _ => True end.

Section Invariants.
Variable p : Protocol.

Lemma step_past ph call ph' :
  step p ph call ph' -> past_effect ph -> past_effect ph' /\ mutates call = false.
Proof. by destruct 1. Qed.

Lemma steps_past ph evs ph' :
  steps p ph evs ph' -> past_effect ph -> Forall (fun ev => mutates (ev_call ev) = false) evs.
Proof.
  induction 1 as [|ph ev ph1 evs ph2 Hst _ IH]; intros Hp; [done|].
  destruct (step_past _ _ _ Hst Hp) as [Hp1 Hm]. constructor; auto.
Qed.

(** A mutating call is the effect, the second request, and follows an observation that
    allowed it. *)
Lemma steps_once evs ph pre ev post :
  steps p Idle evs ph -> evs = pre ++ ev :: post -> mutates (ev_call ev) = true ->
  exists sc l a, pre = [mkEvent sc (CallGetAttachments (p_server p) (Ok l))]
    /\ p_request p (observe_listing (p_volume p) (p_server p) l) = true
    /\ ev_call ev = p_effect p a.
Proof.
  intros Hs Hevs Hm. inversion Hs as [|? ev1 ph1 evs1 ? Hst1 Hs1]; subst; [by destruct pre|].
  assert (mutates (ev_call ev1) = false) as Hm1 by (by inversion Hst1).
  destruct pre as [|x pre]; simplify_list_eq; [congruence|].
  destruct ph1; inversion Hst1 as [|l Hset Hreq Heq| | | | | | | | | | | | | | |]; subst;
    try (apply steps_past in Hs1; [|done]; apply Forall_app in Hs1 as [_ Hs1];
         apply Forall_cons_iff in Hs1 as [Hs1 _]; congruence).
  inversion Hs1 as [|? ev2 ph2 evs2 ? Hst2 Hs2]; subst; [by destruct pre|].
  assert (past_effect ph2) as Hp2 by (by inversion Hst2).
  assert (exists a, ev_call ev2 = p_effect p a) as [a Ha] by (inversion Hst2; eauto).
  destruct pre as [|y pre]; simplify_list_eq.
  - destruct x as [sc call]. simpl in *. subst call. by exists sc, l, a.
  - apply steps_past in Hs2; [|done]. apply Forall_app in Hs2 as [_ Hs2].
    apply Forall_cons_iff in Hs2 as [Hs2 _]. congruence.
Qed.

(** A settled phase is entered by the observation it reports. *)
Lemma steps_settled ph evs a :
  steps p ph evs (Settled a) -> (forall b, ph <> Settled b) ->
  exists pre sc l, evs = pre ++ [mkEvent sc (CallGetAttachments (p_server p) (Ok l))]
    /\ a = observe_listing (p_volume p) (p_server p) l /\ p_settled p a = true.
Proof.
  remember (Settled a) as last eqn:El. intros Hs. revert El.
  induction Hs as [ph|ph [sc call] ph1 evs ph2 Hst Hs IH]; intros El Hn; [by destruct (Hn a)|].
  subst. assert ((exists b, ph1 = Settled b) \/ (forall b, ph1 <> Settled b)) as [[b ->]|Hb]
    by (destruct ph1; eauto; right; congruence).
  - inversion Hs as [|? ? ? ? ? Hst2]; subst; [|by inversion Hst2].
    inversion Hst; simpl in *; subst; by exists [], sc, l.
  - destruct (IH eq_refl Hb) as (pre & sc' & l & -> & ? & ?).
    by exists (mkEvent sc call :: pre), sc', l.
Qed.
End Invariants.

(** ** Properties *)

Section Properties.
Context {E : Type} `{CloudSDK E}.

(** C19. AttachVolume always returns, and its requests are an execution of the attach
    protocol that ends settled exactly when it succeeds. *)
Theorem AttachVolume_refines c ctx volumeID serverID w :
  runs (AttachVolume c ctx volumeID serverID) w (fun r evs =>
    exists ph, steps (attach_protocol volumeID serverID) Idle evs ph
      /\ match r with Ok a => ph = Settled a | Err _ => forall a, ph <> Settled a end).
Proof.
  eapply runs_mono; [apply wp_runs, wp_AttachVolume|]. intros r evs [(ph & Hs & He) _].
  exists ph. split; [done|]. destruct r as [a|e]; [|done]. by destruct He as (b & -> & ->).
Qed.

(** C8. AttachVolume changes the cloud at most once: its only mutating request is an attach
    of the given pair, sent second, after the compute listing showed the pair absent. It
    sends nothing for blank identifiers. *)
Theorem AttachVolume_once c ctx volumeID serverID w :
  runs (AttachVolume c ctx volumeID serverID) w (fun r evs =>
    (blank volumeID = true \/ blank serverID = true -> evs = []) /\
    forall pre ev post, evs = pre ++ ev :: post -> mutates (ev_call ev) = true ->
      exists sc l a, pre = [mkEvent sc (CallGetAttachments serverID (Ok l))]
        /\ observe_listing volumeID serverID l = None
        /\ ev_call ev = CallAttach (mkDiskCreateOpts serverID volumeID) a).
Proof.
  eapply runs_mono; [apply wp_runs, wp_AttachVolume|]. intros r evs [(ph & Hs & _) Hb]. split.
  - intros Hblank. destruct evs; [done|]. destruct Hb as [Hv Hsv]; [done|].
    destruct Hblank; congruence.
  - intros pre ev post Hevs Hm. destruct (steps_once _ _ _ _ _ _ Hs Hevs Hm)
      as (sc & l & a & Hpre & Hreq & Hev). exists sc, l, a. split_and!; [done| |done].
    simpl in Hreq. by destruct (observe_listing volumeID serverID l).
Qed.

Lemma attach_reported volumeID serverID a evs :
  conforms (attach_protocol volumeID serverID) id Idle (Ok a) evs -> exists pre sc l d,
    evs = pre ++ [mkEvent sc (CallGetAttachments serverID (Ok (Some l)))]
    /\ d ∈ l /\ da_VolumeID d = volumeID /\ da_ServerID d = serverID
    /\ a = Some (mkAttachment volumeID serverID (TrimSpace (da_Device d)))
    /\ TrimSpace (da_Device d) <> "".
Proof.
  intros (ph & Hs & He). destruct He as (b & -> & ->).
  destruct (steps_settled _ _ _ _ Hs) as (pre & sc & l & -> & Hl & Hset); [done|].
  simpl in Hl, Hset. destruct l as [l|]; [|by subst]. exists pre, sc, l. simpl in Hl.
  unfold find_attachment in Hl. destruct (find_first _ l) as [d|] eqn:Ef; [|by subst].
  apply find_first_elem in Ef as [Hin Hd]. to_prop. subst b. exists d. simpl in Hset.
  to_prop. unfold id. by subst.
Qed.

(** What AttachVolume reports was observed: its last request was a compute listing that
    names the requested pair, and the reported device is that entry's, trimmed and not
    empty. *)
Theorem AttachVolume_observed c ctx volumeID serverID w :
  runs (AttachVolume c ctx volumeID serverID) w (fun r evs =>
    forall a, r = Ok a -> exists pre sc l d,
      evs = pre ++ [mkEvent sc (CallGetAttachments serverID (Ok (Some l)))]
      /\ d ∈ l /\ da_VolumeID d = volumeID /\ da_ServerID d = serverID
      /\ a = Some (mkAttachment volumeID serverID (TrimSpace (da_Device d)))
      /\ TrimSpace (da_Device d) <> "").
Proof.
  eapply runs_mono; [apply wp_runs, wp_AttachVolume|]. intros r evs [Hc _] a ->.
  by apply attach_reported.
Qed.

(** C9. DetachVolume always returns; its only mutating request is one detach of the given
    pair with the flag that keeps the volume, sent second, after the compute listing
    showed the pair; and it succeeds only when the last listing no longer shows it. *)
Theorem DetachVolume_once c ctx volumeID serverID w :
  runs (DetachVolume c ctx volumeID serverID) w (fun r evs =>
    (forall pre ev post, evs = pre ++ ev :: post -> mutates (ev_call ev) = true ->
      exists sc l a, pre = [mkEvent sc (CallGetAttachments serverID (Ok l))]
        /\ observe_listing volumeID serverID l <> None
        /\ ev_call ev = CallDetach serverID volumeID 0 a) /\
    (r = Ok tt -> exists pre sc l,
      evs = pre ++ [mkEvent sc (CallGetAttachments serverID (Ok l))]
      /\ observe_listing volumeID serverID l = None)).
Proof.
  eapply runs_mono; [apply wp_runs, wp_DetachVolume|]. intros r evs [(ph & Hs & He) _]. split.
  - intros pre ev post Hevs Hm. destruct (steps_once _ _ _ _ _ _ Hs Hevs Hm)
      as (sc & l & a & Hpre & Hreq & Hev). exists sc, l, a. split_and!; [done| |done].
    simpl in Hreq. by destruct (observe_listing volumeID serverID l).
  - intros ->. destruct He as (b & -> & _).
    destruct (steps_settled _ _ _ _ Hs) as (pre & sc & l & -> & Hl & Hset); [done|].
    exists pre, sc, l. split; [done|]. simpl in Hl, Hset. subst b.
    by destruct (observe_listing volumeID serverID l).
Qed.
End Properties.
