(* ===== verification/EvsBounds.v ===== *)
(** * Time bounds of the EVS client's requests

    Every exported operation runs under a context that ends ten minutes after it starts,
    or earlier when its caller says so, and every request it sends carries a context that
    ends no later. *)

From S2P Require Import Prelude GoStrings GoErrors GoURL Runtime Replay EvsClient EvsTransport EvsSDK.
From S2P Require Import EvsVolume EvsListing EvsAttachment.

Local Open Scope stdpp_scope.
Local Open Scope go_scope.

(** ** Contexts that end by an instant *)

Definition ends_by (t : Z) (ctx : GoContext) : Prop :=
  exists d, deadline ctx = Some d /\ (d <= t)%Z.

Lemma ends_by_WithDeadline t ctx u : ends_by t ctx -> ends_by t (WithDeadline ctx u).
Proof.
  intros (d & Hd & Hle). exists (Z.min d u). unfold WithDeadline. simpl. rewrite Hd.
  split; [done|lia].
Qed.

Lemma ends_by_new t ctx u : (u <= t)%Z -> ends_by t (WithDeadline ctx u).
Proof. intros Hu. unfold ends_by, WithDeadline. simpl. destruct (deadline ctx); eexists; split; [done|lia..|done|done]. Qed.

(** A service client whose every request carries a context that ends by [t], and whose
    gateway failures the SDK does not see. A client without a provider sends nothing. *)
Definition scoped_by (t : Z) (sc : option ServiceClient) : Prop :=
  match sc with
  | None => True
  | Some sc =>
      match sc_provider sc with
      | None => True
      | Some p => exists ctx next,
          Transport p = Some (contextTransport (Some ctx) (Some (gatewayTransport next)))
          /\ ends_by t ctx
      end
  end.

Lemma withRequestContext_by t ctx sc : ends_by t ctx -> scoped_by t (withRequestContext ctx sc).
Proof.
  intros Hc. unfold withRequestContext. destruct sc as [sc|]; [|done].
  destruct (sc_provider sc) as [p|] eqn:Ep; simpl; [|by rewrite Ep].
  destruct (Transport p) as [[]|]; eauto.
Qed.

(** ** The operations *)

Section Bounds.
Context {E : Type} `{CloudSDK E} `{CloudURLs}.
Variables (c : Client) (t : Z).

Definition bounded (ev : Event) : Prop := scoped_by t (ev_client ev).

Abbreviation in_time m := (emits bounded m).

Lemma in_time_check_ctx {A} ctx op (k : M E Event (result A)) :
  in_time k -> in_time (check_ctx c ctx op k).
Proof. intros Hk. apply emits_bind; [auto with emits|]. intros []; auto with emits. Qed.

Lemma in_time_or_cause {A} ctx op e (r : result A) :
  in_time (or_cause c ctx op e r : M E Event _).
Proof. destruct r; simpl; [auto with emits|apply in_time_check_ctx; auto with emits]. Qed.

Lemma in_time_or_classified {A B} op (m : M E Event (result A)) (k : A -> M E Event (result B)) :
  in_time m -> (forall a, in_time (k a)) -> in_time (or_classified c op m k).
Proof. intros Hm Hk. apply emits_bind; [done|]. intros []; auto with emits. Qed.

Lemma in_time_error_only {A} (m : M E Event (result A)) : in_time m -> in_time (error_only m).
Proof. intros Hm. apply emits_bind; auto with emits. Qed.

Lemma in_time_call {A} (f : Z -> E -> N * A * E) sc (ev : A -> Call) :
  scoped_by t sc -> in_time (call f (fun a => mkEvent sc (ev a))).
Proof. intros Hs. by apply emits_call. Qed.

#[local] Hint Resolve in_time_check_ctx in_time_or_cause in_time_or_classified
  in_time_error_only in_time_call ends_by_WithDeadline withRequestContext_by : emits.

(** Walks an operation: every step of it is one of the rules. *)
Ltac walk :=
  repeat first
    [ progress intros
    | lazymatch goal with
      | |- emits _ (ret _) => apply emits_ret
      | |- emits _ diverge => apply emits_diverge
      | |- emits _ (bind _ _) => apply emits_bind
      | |- emits _ (try _ _) => apply emits_try
      | |- emits _ (with_timeout _ _ _) => apply emits_with_timeout
      | |- emits _ (check_ctx _ _ _ _) => apply in_time_check_ctx
      | |- emits _ (or_classified _ _ _ _) => apply in_time_or_classified
      | |- emits _ (or_cause _ _ _ _ _) => apply in_time_or_cause
      | |- emits _ (error_only _) => apply in_time_error_only
      | |- emits _ (poll_loop _ _ _ _) => apply emits_poll
      | |- emits _ (ctx_err _) => apply emits_ctx_err
      | |- emits _ (NewTicker _) => apply emits_NewTicker
      | |- emits _ (select_done_tick _ _) => apply emits_select
      | |- emits _ (match ?x with _ => _ end) => destruct x
      | |- emits _ (sdk_Create _ _) => apply in_time_call
      | |- emits _ (sdk_Get _ _) => apply in_time_call
      | |- emits _ (sdk_Delete _ _) => apply in_time_call
      | |- emits _ (sdk_List _ _) => apply in_time_call
      | |- emits _ (sdk_GetAttachments _ _) => apply in_time_call
      | |- emits _ (sdk_Attach _ _) => apply in_time_call
      | |- emits _ (sdk_Detach _ _ _ _) => apply in_time_call
      | |- emits _ (sdk_ServerJob _ _) => apply in_time_call
      | |- scoped_by _ (v3 _ _) => apply withRequestContext_by
      | |- scoped_by _ (v2 _ _) => apply withRequestContext_by
      | |- scoped_by _ (ecs _ _) => apply withRequestContext_by
      end
    | solve [auto with emits] ].

Lemma in_time_GetVolume ctx id : ends_by t ctx -> in_time (GetVolume c ctx id).
Proof. intros Hc. unfold GetVolume. walk. Qed.

Lemma in_time_listVolumePage ctx opts : ends_by t ctx -> in_time (listVolumePage c ctx opts).
Proof. intros Hc. unfold listVolumePage. walk. Qed.

Lemma in_time_list_pages n ctx opts res :
  ends_by t ctx -> in_time (list_pages n c ctx opts res).
Proof.
  intros Hc. revert res. induction n as [|n IH]; intros res; simpl; walk.
  by apply in_time_listVolumePage.
Qed.

Lemma in_time_ListVolumes ctx opts : ends_by t ctx -> in_time (ListVolumes c ctx opts).
Proof.
  intros Hc. unfold ListVolumes. walk.
  - apply in_time_listVolumePage; auto with emits.
  - apply in_time_list_pages; auto with emits.
Qed.

Lemma in_time_DiscoverVolume ctx opts : ends_by t ctx -> in_time (DiscoverVolume c ctx opts).
Proof. intros Hc. unfold DiscoverVolume. walk. apply in_time_ListVolumes; auto with emits. Qed.

Lemma in_time_waitForJobSuccess ctx id : ends_by t ctx -> in_time (waitForJobSuccess c ctx id).
Proof.
  intros Hc. unfold waitForJobSuccess. apply emits_deref. intros sc Hsc.
  assert (scoped_by t (Some sc)) as Hs by (rewrite <-Hsc; by apply withRequestContext_by).
  destruct (jobStatusEndpoint _) as [ep|e]; [|walk]. unfold job_turn. walk. by apply in_time_call.
Qed.

Lemma in_time_CreateVolume ctx opts : ends_by t ctx -> in_time (CreateVolume c ctx opts).
Proof.
  intros Hc. unfold CreateVolume. walk.
  - apply in_time_waitForJobSuccess; auto with emits.
  - apply in_time_GetVolume; auto with emits.
Qed.

Lemma in_time_absence_loop n ctx id tk obs lt :
  ends_by t ctx -> in_time (absence_loop n c ctx id tk obs lt).
Proof.
  intros Hc. revert tk obs lt. induction n as [|n IH]; intros tk obs lt; cbn [absence_loop]; walk;
    by apply in_time_GetVolume.
Qed.

Lemma in_time_DeleteVolume ctx id : ends_by t ctx -> in_time (DeleteVolume c ctx id).
Proof.
  intros Hc. unfold DeleteVolume, waitForVolumeAbsence.
  walk; try (apply in_time_absence_loop); try (apply in_time_GetVolume); auto with emits.
Qed.

Lemma in_time_observe ctx sc v s : scoped_by t sc -> in_time (observeAttachment ctx sc v s).
Proof. intros Hs. unfold observeAttachment. walk. Qed.

Lemma in_time_waitForAttachmentState ctx v s settled :
  ends_by t ctx -> in_time (waitForAttachmentState c ctx v s settled).
Proof.
  intros Hc. unfold waitForAttachmentState, state_turn. walk.
  apply in_time_observe. by apply withRequestContext_by.
Qed.

Lemma in_time_waitForAttachmentJob ctx id : ends_by t ctx -> in_time (waitForAttachmentJob c ctx id).
Proof. intros Hc. unfold waitForAttachmentJob, server_job_turn. walk. Qed.

#[local] Hint Resolve in_time_waitForAttachmentState in_time_waitForAttachmentJob
  in_time_observe in_time_absence_loop in_time_GetVolume : emits.

Lemma in_time_AttachVolume ctx v s : ends_by t ctx -> in_time (AttachVolume c ctx v s).
Proof.
  intros Hc. unfold AttachVolume, finishAttachAfterEffectError, attachInFlight, reconcileRefusedAttach.
  walk. apply in_time_observe, withRequestContext_by. auto with emits.
Qed.

Lemma in_time_DetachVolume ctx v s : ends_by t ctx -> in_time (DetachVolume c ctx v s).
Proof.
  intros Hc. unfold DetachVolume, finishDetachAfterEffectError, detachInFlight, reconcileRefusedDetach.
  walk. apply in_time_observe, withRequestContext_by. auto with emits.
Qed.
End Bounds.

(** ** Property *)

(** The exported operations of the client. *)
Inductive operation :=
| OpCreate (opts : CreateVolumeOpts)
| OpGet (id : string)
| OpList (opts : ListVolumeOpts)
| OpDiscover (opts : DiscoverVolumeOpts)
| OpDelete (id : string)
| OpAttach (volumeID serverID : string)
| OpDetach (volumeID serverID : string).

Definition discard {E A} (m : M E Event (result A)) : M E Event (option gerror) :=
  bind m (fun r => ret (err_of r)).

Definition perform {E} `{CloudSDK E} `{CloudURLs} (c : Client) (ctx : GoContext)
    (o : operation) : M E Event (option gerror) :=
  match o with
  | OpCreate opts => discard (CreateVolume c ctx opts)
  | OpGet id => discard (GetVolume c ctx id)
  | OpList opts => discard (ListVolumes c ctx opts)
  | OpDiscover opts => discard (DiscoverVolume c ctx opts)
  | OpDelete id => discard (DeleteVolume c ctx id)
  | OpAttach v s => discard (AttachVolume c ctx v s)
  | OpDetach v s => discard (DetachVolume c ctx v s)
  end.

Lemma with_timeout_again {E L A} ctx d (k : GoContext -> M E L A) w :
  with_timeout (WithDeadline ctx (clock w + d)) d k w = with_timeout ctx d k w.
Proof.
  unfold with_timeout, bind, now. f_equal. unfold WithDeadline. simpl. do 2 f_equal.
  destruct (deadline ctx); lia.
Qed.

Lemma discard_ext {E A} (m m' : M E Event (result A)) w : m w = m' w -> discard m w = discard m' w.
Proof. intros Hm. unfold discard, bind. by rewrite Hm. Qed.

(** An operation is already bounded by the deadline it sets itself. *)
Lemma perform_again {E} `{CloudSDK E} `{CloudURLs} c ctx o (w : World E Event) :
  perform c (WithDeadline ctx (clock w + maxOperationTimeout)) o w = perform c ctx o w.
Proof.
  destruct o; apply discard_ext;
    unfold CreateVolume, GetVolume, ListVolumes, DiscoverVolume, DeleteVolume, AttachVolume, DetachVolume.
  6, 7: destruct (validateAttachmentInput _ _); [reflexivity|].
  all: apply with_timeout_again.
Qed.

Lemma in_time_perform {E} `{CloudSDK E} `{CloudURLs} c t ctx o :
  ends_by t ctx -> emits (bounded t) (perform c ctx o : M E Event _).
Proof.
  intros Hc. destruct o; apply emits_bind; intros; try apply emits_ret.
  - by apply in_time_CreateVolume.
  - by apply in_time_GetVolume.
  - by apply in_time_ListVolumes.
  - by apply in_time_DiscoverVolume.
  - by apply in_time_DeleteVolume.
  - by apply in_time_AttachVolume.
  - by apply in_time_DetachVolume.
Qed.

(** C22. Every request of every exported operation, retries, job polls and nested operations
    included, is sent through a service client whose transport carries a context that
    ends within ten minutes of the operation's start (and no later than the caller's
    deadline), with the gateway guard below it. *)
Theorem operations_bounded {E} `{CloudSDK E} `{CloudURLs} c ctx o (w : World E Event) r w' :
  perform c ctx o w = Some (r, w') ->
  exists evs, trace w' = trace w ++ evs /\
    Forall (fun ev => scoped_by (match deadline ctx with
      | Some d => Z.min d (clock w + maxOperationTimeout)
      | None => clock w + maxOperationTimeout end) (ev_client ev)) evs.
Proof.
  rewrite <-perform_again. intros Hr. eapply in_time_perform; [|exact Hr].
  unfold ends_by, WithDeadline. simpl. by destruct (deadline ctx); eexists.
Qed.

(** A cloud reached through a provider, and a delete that finds no volume there. *)
Definition provided_client : Client :=
  let sc := mkService (Some (mkProvider None 0 None None)) "https://evs/v3/p" "https://evs/v3/p" in
  mkClient (mkConfig "" "" "" "" "" "") (Some sc) (Some sc) (Some sc).

Definition plain_urls : CloudURLs := {|
  url_Parse s := Ok (mkParsedURL "https" None "evs" s "" "");
  url_String := u_Path |}.

Definition bounded_run : option (option gerror * World unit Event) :=
  @perform unit (stock_cloud []) plain_urls provided_client Background (OpDelete "vol-1")
    (mkWorld 0 tt []).

Lemma operations_bounded_witness :
  exists r w', bounded_run = Some (r, w') /\ length (trace w') = 1%nat
  /\ exists evs, trace w' = [] ++ evs
      /\ Forall (fun ev => scoped_by (0 + maxOperationTimeout) (ev_client ev)) evs.
Proof.
  destruct bounded_run as [[r w']|] eqn:Hrun; [|vm_compute in Hrun; discriminate Hrun].
  exists r, w'. split; [reflexivity|]. split.
  - vm_compute in Hrun. injection Hrun as <- <-. reflexivity.
  - exact (@operations_bounded unit (stock_cloud []) plain_urls provided_client Background
      (OpDelete "vol-1") (mkWorld 0 tt []) r w' Hrun).
Defined.
