(* ===== verification/EvsContract.v ===== *)
(** * The contract of the EVS client

    Every error an exported operation returns belongs to exactly one of the classes the
    controller tells apart, and discovery and attachment answer what was asked. *)

From S2P Require Import Prelude GoStrings GoErrors GoURL Runtime EvsClient EvsTransport EvsSDK.
From S2P Require Import EvsVolume EvsListing EvsAttachment.

Local Open Scope stdpp_scope.
Local Open Scope go_scope.

(** ** Classified errors *)

Definition classes : list sentinel := Canceled :: DeadlineExceeded :: domain_sentinels.

Definition classified (e : gerror) : Prop :=
  exists s, s ∈ classes /\ forall t, Is e t = bool_decide (s = t).

Definition classified_result {A} (r : result A) : Prop := forall e, r = Err e -> classified e.

Lemma classified_sentinel s : s ∈ classes -> classified (ESentinel s).
Proof. intros Hs. exists s. split; [done|]. intros t. by rewrite Is_sentinel. Qed.

Lemma classified_sentinelf msg s : s ∈ classes -> classified (sentinelf msg s).
Proof. intros Hs. exists s. split; [done|]. intros t. by rewrite Is_sentinelf. Qed.

Lemma classified_wrapf msg e : classified e -> classified (wrapf msg e).
Proof. intros (s & Hs & He). exists s. split; [done|]. intros t. by rewrite Is_wrapf. Qed.

Lemma classified_classifyError c op e : classified (classifyError c op e).
Proof.
  exists (error_class e). split.
  - unfold error_class, classes. rewrite !elem_of_cons. pose proof (classifyErrorKind_domain e).
    destruct (Is e Canceled); [by left|]. destruct (Is e DeadlineExceeded); [by right; left|auto].
  - intros t. rewrite classifyError_Is. by apply bool_decide_ext.
Qed.

Lemma classified_ok {A} (a : A) : classified_result (Ok a).
Proof. done. Qed.

Lemma classified_err {A} e : classified e -> classified_result (Err e : result A).
Proof. by intros He e' [= <-]. Qed.

(** ** Results of a run, whatever its events *)

Definition returns {E L A} (P : A -> Prop) (m : M E L A) : Prop :=
  forall w a w', m w = Some (a, w') -> P a.

Section Returns.
Context {E L : Type}.

Lemma returns_ret {A} (P : A -> Prop) a : P a -> returns P (ret a : M E L A).
Proof. by intros HP w b w' [= <- _]. Qed.

Lemma returns_diverge {A} (P : A -> Prop) : returns P (diverge : M E L A).
Proof. by intros w a w'. Qed.

Lemma returns_bind {A B} (P' : A -> Prop) (P : B -> Prop) (m : M E L A) (k : A -> M E L B) :
  returns P' m -> (forall a, P' a -> returns P (k a)) -> returns P (bind m k).
Proof.
  intros Hm Hk w b w'. unfold bind. destruct (m w) as [[a w1]|] eqn:Em; [|done].
  apply Hk. by eapply Hm.
Qed.

Lemma returns_bind_any {A B} (P : B -> Prop) (m : M E L A) (k : A -> M E L B) :
  (forall a, returns P (k a)) -> returns P (bind m k).
Proof. intros Hk. by apply (returns_bind (fun _ => True)). Qed.

Lemma returns_try {A B} (m : M E L (result A)) (k : A -> M E L (result B)) :
  returns classified_result m -> (forall a, returns classified_result (k a)) ->
  returns classified_result (try m k).
Proof.
  intros Hm Hk. apply (returns_bind classified_result); [done|]. intros [a|e] Hr; [done|].
  apply returns_ret, classified_err. by apply Hr.
Qed.

Lemma returns_with_timeout {A} (P : A -> Prop) ctx d (k : GoContext -> M E L A) :
  (forall ctx, returns P (k ctx)) -> returns P (with_timeout ctx d k).
Proof. intros Hk w a w' Hw. exact (Hk _ w a w' Hw). Qed.

Lemma returns_weaken {A} (P P' : A -> Prop) (m : M E L A) :
  returns P m -> (forall a, P a -> P' a) -> returns P' m.
Proof. intros Hm HP w a w' Hw. apply HP. by eapply Hm. Qed.
End Returns.

(** ** The operations *)

Section Contract.
Context {E : Type} `{CloudSDK E} `{CloudURLs}.
Variable c : Client.

Abbreviation well m := (returns classified_result m).

Lemma well_check_ctx {A} ctx op (k : M E Event (result A)) : well k -> well (check_ctx c ctx op k).
Proof.
  intros Hk. apply returns_bind_any. intros [e|]; [|done].
  apply returns_ret, classified_err, classified_classifyError.
Qed.

Lemma well_or_cause {A} ctx op cause (r : result A) :
  classified cause -> well (or_cause c ctx op cause r : M E Event _).
Proof.
  intros Hc. destruct r; simpl; [by apply returns_ret|].
  apply well_check_ctx. by apply returns_ret, classified_err.
Qed.

Lemma well_or_classified {A B} op (m : M E Event (result A)) (k : A -> M E Event (result B)) :
  (forall a, well (k a)) -> well (or_classified c op m k).
Proof.
  intros Hk. apply returns_bind_any. intros [a|e]; [done|].
  apply returns_ret, classified_err, classified_classifyError.
Qed.

Lemma domain_class s : s ∈ domain_sentinels -> s ∈ classes.
Proof. intros Hs. by do 2 apply list_elem_of_further. Qed.

(** Walks an operation down to the errors it makes. *)
Ltac well_step :=
  lazymatch goal with
  | |- returns _ (ret (Ok _)) => by apply returns_ret
  | |- returns _ (ret (Err _)) => apply returns_ret, classified_err
  | |- returns _ (check_ctx _ _ _ _) => apply well_check_ctx
  | |- returns _ (or_cause _ _ _ _ _) => apply well_or_cause
  | |- returns _ (or_classified _ _ _ _) => apply well_or_classified; intros ?
  | |- returns _ (with_timeout _ _ _) => apply returns_with_timeout; intros ?
  | |- returns _ (match ?x with _ => _ end) => destruct x
  | |- returns _ (bind _ _) => apply returns_bind_any; intros ?
  | |- classified (classifyError _ _ _) => apply classified_classifyError
  | |- classified (sentinelf _ ?s) => apply classified_sentinelf, domain_class;
      apply (bool_decide_unpack _); vm_compute; exact I
  end.

Lemma well_GetVolume ctx id : well (GetVolume c ctx id).
Proof. unfold GetVolume. repeat well_step. Qed.

Lemma well_listVolumePage ctx opts : well (listVolumePage c ctx opts).
Proof. unfold listVolumePage. repeat well_step. Qed.

Lemma well_ListVolumes ctx opts : well (ListVolumes c ctx opts).
Proof.
  unfold ListVolumes. repeat well_step; [apply well_listVolumePage|].
  generalize (S volumeListMaxPages), (@nil Volume). intros n. induction n as [|n IH]; intros res; simpl.
  { repeat well_step. }
  apply returns_try; [apply well_listVolumePage|]. intros page. by repeat well_step.
Qed.

Lemma well_DiscoverVolume ctx opts :
  returns (fun r => classified_result r
    /\ forall v, r = Ok v -> vol_Name v = dvo_Name opts /\ isAdoptable v opts = true)
    (DiscoverVolume c ctx opts).
Proof.
  assert (forall cands, classified_result (choose_volume cands opts) /\
    forall v, choose_volume cands opts = Ok v -> vol_Name v = dvo_Name opts /\ isAdoptable v opts = true)
    as Hchoose.
  { intros cands. split.
    - unfold choose_volume. case_match; [|case_match]; try apply classified_ok;
        apply classified_err; well_step.
    - intros v Hv. pose proof (choose_volume_chosen cands opts) as Hc. rewrite Hv in Hc.
      by inversion Hc. }
  unfold DiscoverVolume. apply returns_with_timeout. intros ctx'. case_match.
  { apply returns_ret. split; [|done]. apply classified_err. well_step. }
  apply (returns_bind classified_result); [apply well_ListVolumes|].
  intros [cands|e] Hr; apply returns_ret; [apply Hchoose|]. split; [|done]. apply classified_err. by apply Hr.
Qed.

Lemma well_CreateVolume ctx opts : well (CreateVolume c ctx opts).
Proof. unfold CreateVolume. repeat well_step. apply well_GetVolume. Qed.

Lemma well_absence_loop n ctx id tk obs lt :
  (forall e, lt = Some e -> classified e) -> n <> 0%nat \/ obs = true \/ is_Some lt ->
  well (absence_loop n c ctx id tk obs lt).
Proof.
  revert tk obs lt. induction n as [|n IH]; intros tk obs lt Hlt Hn; cbn [absence_loop].
  { apply returns_ret, classified_err. unfold absence_exhausted.
    destruct obs; [well_step|]. destruct lt as [e|]; [by apply classified_wrapf, Hlt|].
    destruct Hn as [?|[?|[? ?]]]; done. }
  apply (returns_bind classified_result); [apply well_GetVolume|]. intros r Hr.
  assert (forall obs lt, (forall e, lt = Some e -> classified e) -> obs = true \/ is_Some lt ->
    well (if (n =? 0)%nat then ret (Err (absence_exhausted obs lt)) else
      bind (select_done_tick ctx tk) (fun s => match s with
        | SelDone => check_ctx c ctx "delete volume: wait for absence" diverge
        | SelTick tk => absence_loop n c ctx id tk obs lt end))) as Hcont.
  { intros obs' lt' Hlt' Ho. destruct (Nat.eqb_spec n 0) as [->|].
    - apply (IH tk obs' lt' Hlt'). by right.
    - apply returns_bind_any. intros [|tk']; [|apply IH; auto].
      apply well_check_ctx, returns_diverge. }
  unfold read_absence. destruct r as [v|err]; [apply Hcont; auto|].
  assert (classified err) as Herr by (by apply Hr).
  destruct (Is err ErrNotFound); [by repeat well_step|].
  destruct (context_error err); [by repeat well_step|].
  destruct (negb (transient err)); [by repeat well_step|].
  apply Hcont; [by intros e [= <-]|by right].
Qed.

Lemma well_DeleteVolume ctx id : well (DeleteVolume c ctx id).
Proof.
  assert (forall ctx, well (waitForVolumeAbsence c ctx id)) as Hwait.
  { intros ctx'. apply returns_bind_any. intros tk. apply well_absence_loop; [done|by left]. }
  unfold DeleteVolume. apply returns_with_timeout. intros ctx'. apply well_check_ctx.
  case_match; [repeat well_step|]. apply returns_try; [apply well_GetVolume|]. intros vol.
  repeat well_step; apply Hwait.
Qed.

Lemma well_validate volumeID serverID e :
  validateAttachmentInput volumeID serverID = Some e -> classified e.
Proof.
  unfold validateAttachmentInput. intros Hv. case_match; simplify_eq.
  apply classified_sentinel, domain_class. apply (bool_decide_unpack _). vm_compute. exact I.
Qed.

Lemma well_AttachVolume ctx v s : well (AttachVolume c ctx v s).
Proof.
  unfold AttachVolume, finishAttachAfterEffectError.
  destruct (validateAttachmentInput v s) eqn:Ev; [|by repeat well_step].
  apply returns_ret, classified_err, classified_wrapf. by eapply well_validate.
Qed.

Lemma well_DetachVolume ctx v s : well (DetachVolume c ctx v s).
Proof.
  unfold DetachVolume, finishDetachAfterEffectError.
  destruct (validateAttachmentInput v s) eqn:Ev; [|by repeat well_step].
  apply returns_ret, classified_err, classified_wrapf. by eapply well_validate.
Qed.
End Contract.
