(* ===== verification/AsyncCloud.v ===== *)
(** * A cloud that works asynchronously

    The cloud behind the SDK as its documentation promises it: requests that change
    something are accepted and carried out later, in any order, within a delay; jobs and
    listings tell what has been carried out so far. The laws are the class [AsyncCloud].
    On such a cloud the operations of the EVS client achieve what they are called for. *)

From S2P Require Import Prelude GoStrings GoErrors GoPath GoURL Runtime EvsClient EvsTransport EvsSDK.
From S2P Require Import EvsVolume EvsAttachment.

Local Open Scope stdpp_scope.
Local Open Scope go_scope.
Local Open Scope Z_scope.

(** ** The state *)

(** What an accepted request will do. *)
Inductive effect :=
| Provisions (v : v3Volume)
| Erases (id : string)
| Plugs (volume server device : string)
| Unplugs (volume server : string).

(** The volume it is about. *)
Definition about (ef : effect) : string :=
  match ef with
  | Provisions v => v3_ID v
  | Erases id => id
  | Plugs volume _ _ => volume
  | Unplugs volume _ => volume
  end.

(** The volumes by identifier, the devices by volume and server, the jobs that are done
    with their volume, and the accepted work by job, with the instant it is done by. *)
Record CloudState := mkCloud {
  volumes : gmap string v3Volume;
  plugged : gmap (string * string) string;
  finished : gmap string string;
  work : gmap string (Z * effect) }.

Definition apply (ef : effect) (s : CloudState) : CloudState :=
  match ef with
  | Provisions v => mkCloud (<[v3_ID v := v]> (volumes s)) (plugged s) (finished s) (work s)
  | Erases id => mkCloud (delete id (volumes s)) (plugged s) (finished s) (work s)
  | Plugs volume server device =>
      mkCloud (volumes s) (<[(volume, server) := device]> (plugged s)) (finished s) (work s)
  | Unplugs volume server =>
      mkCloud (volumes s) (delete (volume, server) (plugged s)) (finished s) (work s)
  end.

(** A piece of work is carried out. *)
Inductive finish : CloudState -> CloudState -> Prop :=
| finish_job s job due ef :
    work s !! job = Some (due, ef) ->
    finish s (let s' := apply ef s in
      mkCloud (volumes s') (plugged s') (<[job := about ef]> (finished s)) (delete job (work s))).

(** By the instant [t], everything due is done. *)
Definition passes (t : Z) (s s' : CloudState) : Prop :=
  rtc finish s s' /\ forall job due ef, work s' !! job = Some (due, ef) -> t < due.

(** A request is accepted as a new job. *)
Definition starts (last : Z) (job : string) (ef : effect) (s s' : CloudState) : Prop :=
  work s !! job = None /\ finished s !! job = None /\ exists due, due <= last /\
  s' = mkCloud (volumes s) (plugged s) (finished s) (<[job := (due, ef)]> (work s)).

(** Nothing is under way for the volume. *)
Definition quiet (id : string) (s : CloudState) : Prop :=
  forall job due ef, work s !! job = Some (due, ef) -> about ef <> id.

Definition unplugged (id : string) (s : CloudState) : Prop :=
  forall server, plugged s !! (id, server) = None.

(** ** The answers *)

(** What stays the same of a volume whatever its status. *)
Definition same_volume (v v' : v3Volume) : Prop :=
  v3_ID v' = v3_ID v /\ v3_Name v' = v3_Name v /\ v3_Size v' = v3_Size v
  /\ v3_AvailabilityZone v' = v3_AvailabilityZone v /\ v3_VolumeType v' = v3_VolumeType v
  /\ v3_Tags v' = v3_Tags v.

(** A volume made for a creation request. *)
Definition made_for (o : v3CreateOpts) (v : v3Volume) : Prop :=
  v3_Name v = v3o_Name o /\ v3_Size v = v3o_Size o
  /\ v3_AvailabilityZone v = v3o_AvailabilityZone o /\ v3_VolumeType v = v3o_VolumeType o
  /\ v3_Tags v = v3o_Tags o.

(** The device names of the virtio disks of a server: /dev/vda, /dev/vdb and so on. *)
Definition device_name (device : string) : Prop :=
  exists l : ascii, (97 <= N_of_ascii l <= 122)%N /\ device = "/dev/vd" +:+ String l "".

Definition job_answer (job : string) (r : result JobStatus) (s : CloudState) : Prop :=
  match finished s !! job with
  | Some id => exists js, r = Ok js /\ js_Status js = "SUCCESS" /\ js_VolumeID js = id
  | None => is_Some (work s !! job) ->
      exists js, r = Ok js /\ js_Status js <> "SUCCESS" /\ js_Status js <> "FAIL"
  end.

(** A request that is answered when everything due at [t] is done, and the state it leaves;
    an accepted one is carried out by [last]. *)
Definition cloud_step (t last : Z) (s : CloudState) (c : Call) (s' : CloudState) : Prop :=
  exists s1, passes t s s1 /\
  match c with
  | CallCreate o r => exists job v, r = mkCreateResult None (Ok (mkJobResponse job))
      /\ job <> "" /\ v3_ID v <> "" /\ TrimSpace (v3_ID v) = v3_ID v /\ made_for o v
      /\ volumes s1 !! v3_ID v = None /\ unplugged (v3_ID v) s1 /\ quiet (v3_ID v) s1
      /\ starts last job (Provisions v) s1 s'
  | CallGet id r => s' = s1 /\
      match volumes s1 !! id with
      | Some v => exists v', r = Ok v' /\ same_volume v v'
          /\ (v3_Status v' = volumeStatusDeleting -> ~ quiet id s1)
          /\ v3_Status v' <> volumeStatusErrorDeleting
      | None => exists msg, r = Err (ESDK (ErrDefault 404) msg)
      end
  | CallDelete id r => is_Some (volumes s1 !! id) -> quiet id s1 ->
      r = None /\ exists job, starts last job (Erases id) s1 s'
  | CallList o r => s' = s1 /\
      ((forall id v, volumes s1 !! id = Some v -> Contains (v3_Name v) (v2l_Name o) = false) ->
       r = Ok [])
  | CallJob job r | CallServerJob job r => s' = s1 /\ job_answer job r s1
  | CallGetAttachments server r => s' = s1 /\ exists l, r = Ok l /\
      forall d, d ∈ default [] l <->
        da_ServerID d = server /\ plugged s1 !! (da_VolumeID d, server) = Some (da_Device d)
  | CallAttach o r =>
      is_Some (volumes s1 !! dc_VolumeID o) -> unplugged (dc_VolumeID o) s1 ->
      quiet (dc_VolumeID o) s1 ->
      exists job device, r = Ok (Some (mkJobResponse job)) /\ blank job = false
        /\ device_name device /\ starts last job (Plugs (dc_VolumeID o) (dc_ServerID o) device) s1 s'
  | CallDetach server volume _ r =>
      is_Some (plugged s1 !! (volume, server)) -> quiet volume s1 ->
      exists job, r = Ok (Some (mkJobResponse job)) /\ blank job = false
        /\ starts last job (Unplugs volume server) s1 s'
  end.

(** ** The laws *)

(** Requests through the client are sent under a context that is open at [t]. *)
Definition live (sc : option ServiceClient) (t : Z) : Prop :=
  exists c p ctx next, sc = Some c /\ sc_provider c = Some p
    /\ Transport p = Some (contextTransport (Some ctx) next) /\ ctx_err_at ctx t = None.

Section Laws.
Context {E : Type} (cloud_of : E -> CloudState) (latency delay : Z).

(** An operation whose requests, sent under a context that stays open, are answered within
    the latency as [cloud_step] says. *)
Definition lawful {A} (sc : option ServiceClient) (ev : A -> Call) (f : prim E A) : Prop :=
  forall t e, live sc (t + latency) ->
    Z.of_N (f t e).1.1 <= latency
    /\ cloud_step t (t + delay) (cloud_of e) (ev (f t e).1.2) (cloud_of (f t e).2).
End Laws.

Class AsyncCloud (E : Type) `{CloudSDK E} := {
  cloud_of : E -> CloudState;
  latency : Z;
  delay : Z;
  law_latency : 0 <= latency;
  law_delay : 0 <= delay;
  law_Create sc o : lawful cloud_of latency delay sc (CallCreate o) (v3_Create sc o);
  law_Get sc id : lawful cloud_of latency delay sc (CallGet id) (v3_Get sc id);
  law_Delete sc id : lawful cloud_of latency delay sc (CallDelete id) (v3_Delete sc id);
  law_List sc o : lawful cloud_of latency delay sc (CallList o) (v2_List sc o);
  law_Job sc job : lawful cloud_of latency delay (Some sc) (CallJob job) (evs_GetJob sc job);
  law_GetAttachments sc server : lawful cloud_of latency delay sc (CallGetAttachments server)
    (disk_GetAttachments sc server);
  law_Attach sc o : lawful cloud_of latency delay sc (CallAttach o) (disk_Attach sc o);
  law_Detach sc server volume flag : lawful cloud_of latency delay sc
    (CallDetach server volume flag) (disk_Detach sc server volume flag);
  law_ServerJob sc job : lawful cloud_of latency delay sc (CallServerJob job) (ecs_GetJob sc job) }.

(** ** Time

    How long an operation may take, and until when a wait at [t] for work that is done by
    [last] may last. *)
Definition patience {E} `{AsyncCloud E} : Z := delay + 4 * latency + Second.

Definition waited {E} `{AsyncCloud E} (t last : Z) : Z :=
  Z.max t (last + latency + Second) + latency.

(** A context that stays open long enough. *)
Ltac in_time Hl :=
  eapply lasts_before; [|exact Hl]; unfold waited, patience, Second, Millisecond in *; lia.

(** ** A volume's part of the state *)

(** Two states say the same of a volume. *)
Definition agree (id : string) (s s' : CloudState) : Prop :=
  volumes s !! id = volumes s' !! id
  /\ forall server, plugged s !! (id, server) = plugged s' !! (id, server).

#[export] Instance agree_equivalence id : Equivalence (agree id).
Proof.
  split.
  - by intros s.
  - intros s s' [Hv Hp]. by split.
  - intros s1 s2 s3 [Hv Hp] [Hv' Hp']. split; [congruence|]. intros. by rewrite Hp.
Qed.

Lemma agree_unplugged id s s' : agree id s s' -> unplugged id s -> unplugged id s'.
Proof. intros [_ Hp] Hu server. by rewrite <-Hp. Qed.

(** Work on another volume changes nothing of this one. *)
Lemma apply_far ef id s : about ef <> id -> agree id (apply ef s) s.
Proof.
  intros Hid. destruct ef; simpl in Hid; (split; simpl; [|intros other]);
    rewrite ?lookup_insert_ne, ?lookup_delete_ne by congruence; done.
Qed.

#[export] Instance apply_agree id ef : Proper (agree id ==> agree id) (apply ef).
Proof.
  intros s s' [Hv Hp]. destruct ef as [v|i|i sv dev|i sv]; split; simpl; try done; try intros other.
  - destruct (decide (v3_ID v = id)) as [->|]; [by rewrite !lookup_insert_eq|].
    by rewrite !lookup_insert_ne.
  - destruct (decide (i = id)) as [->|]; [by rewrite !lookup_delete_eq|].
    by rewrite !lookup_delete_ne.
  - destruct (decide ((i, sv) = (id, other))) as [->|]; [by rewrite !lookup_insert_eq|].
    by rewrite !lookup_insert_ne.
  - destruct (decide ((i, sv) = (id, other))) as [->|]; [by rewrite !lookup_delete_eq|].
    by rewrite !lookup_delete_ne.
Qed.

Lemma finish_quiet id s s' : finish s s' -> quiet id s -> quiet id s' /\ agree id s s'.
Proof.
  intros [s0 job due ef Hjob] Hq. split.
  - intros job' due' ef' Hjob'. simpl in Hjob'. apply lookup_delete_Some in Hjob' as [_ Hjob'].
    by eapply Hq.
  - symmetry. destruct (apply_far ef id s0 (Hq _ _ _ Hjob)) as [Hv Hp]. by split.
Qed.

Lemma passes_quiet id t s s' : passes t s s' -> quiet id s -> quiet id s' /\ agree id s s'.
Proof.
  intros [Hs _]. induction Hs as [s|s s1 s' Hf _ IH]; intros Hq; [by split|].
  destruct (finish_quiet id _ _ Hf Hq) as [Hq1 Ha]. destruct (IH Hq1) as [? Ha'].
  split; [done|by etrans].
Qed.

(** An accepted request of the volume: still to be carried out, or carried out. [s0] is the
    state it was accepted in. *)
Inductive awaits (last : Z) (job : string) (ef : effect) (s0 : CloudState) : CloudState -> Prop :=
| awaits_pending s due :
    due <= last -> work s !! job = Some (due, ef) -> finished s !! job = None ->
    (forall job' due' ef', job' <> job -> work s !! job' = Some (due', ef') -> about ef' <> about ef) ->
    agree (about ef) s0 s ->
    awaits last job ef s0 s
| awaits_done s :
    finished s !! job = Some (about ef) -> work s !! job = None -> quiet (about ef) s ->
    agree (about ef) (apply ef s0) s ->
    awaits last job ef s0 s.

(** It has been carried out. *)
Definition achieved (ef : effect) (s0 s : CloudState) : Prop :=
  quiet (about ef) s /\ agree (about ef) (apply ef s0) s.

Lemma finish_awaits last job ef s0 s s' :
  finish s s' -> awaits last job ef s0 s -> awaits last job ef s0 s'.
Proof.
  intros [s1 job1 due1 ef1 Hjob1] Haw.
  destruct Haw as [s1 due Hdue Hjob Hf Hothers Ha|s1 Hf Hjob Hq Ha].
  - destruct (decide (job1 = job)) as [->|Hne].
    + rewrite Hjob in Hjob1. injection Hjob1 as <- <-. apply awaits_done; simpl.
      * by rewrite lookup_insert_eq.
      * by rewrite lookup_delete_eq.
      * intros job' due' ef' Hw. simpl in Hw. apply lookup_delete_Some in Hw as [Hne Hw]. by eapply Hothers.
      * rewrite (apply_agree _ ef _ _ Ha). by destruct ef.
    + apply awaits_pending with due; simpl; [done| | | |].
      * by rewrite lookup_delete_ne.
      * by rewrite lookup_insert_ne.
      * intros job' due' ef' Hne' Hw. apply lookup_delete_Some in Hw as [_ Hw]. by eapply Hothers.
      * rewrite Ha. symmetry.
        destruct (apply_far ef1 (about ef) s1 (Hothers _ _ _ Hne Hjob1)) as [Hv Hp]. by split.
  - assert (job1 <> job) as Hne by congruence. apply awaits_done; simpl.
    + by rewrite lookup_insert_ne.
    + by rewrite lookup_delete_ne.
    + intros job' due' ef' Hw. simpl in Hw. apply lookup_delete_Some in Hw as [_ Hw]. by eapply Hq.
    + rewrite Ha. symmetry. destruct (apply_far ef1 (about ef) s1 (Hq _ _ _ Hjob1)) as [Hv Hp]. by split.
Qed.

(** What a look at the state finds: the request still in the queue, before its last
    instant, or its effect. *)
Lemma passes_awaits last job ef s0 t s s' :
  passes t s s' -> awaits last job ef s0 s ->
  awaits last job ef s0 s' /\
  ((t < last /\ finished s' !! job = None /\ is_Some (work s' !! job) /\ agree (about ef) s0 s')
   \/ (finished s' !! job = Some (about ef) /\ achieved ef s0 s')).
Proof.
  intros [Hs Hdue] Haw. assert (awaits last job ef s0 s') as Haw'.
  { clear Hdue. induction Hs as [|s s1 s' Hf _ IH]; [done|]. by apply IH, (finish_awaits _ _ _ _ _ _ Hf). }
  split; [done|]. destruct Haw' as [s' due Hd Hjob Hf _ Ha|s' Hf _ Hq Ha].
  - left. specialize (Hdue _ _ _ Hjob). split_and!; [lia|done|by eexists|done].
  - right. by split.
Qed.

Lemma starts_awaits last job ef s s' :
  starts last job ef s s' -> quiet (about ef) s -> awaits last job ef s s'.
Proof.
  intros (Hw & Hf & due & Hdue & ->) Hq. apply awaits_pending with due; simpl; [done| |done| |].
  - by rewrite lookup_insert_eq.
  - intros job' due' ef' Hne Hw'. rewrite lookup_insert_ne in Hw' by done. by eapply Hq.
  - by split.
Qed.

(** ** Requests on such a cloud *)

(** The client has a provider for each of its services, and the job endpoint is known. *)
Definition reachable `{CloudURLs} (c : Client) : Prop :=
  (exists sc ep, v3Client c = Some sc /\ is_Some (sc_provider sc)
    /\ jobStatusEndpoint (Endpoint sc) = Ok ep)
  /\ (exists sc, v2Client c = Some sc /\ is_Some (sc_provider sc))
  /\ (exists sc, ecsClient c = Some sc /\ is_Some (sc_provider sc)).

Lemma live_scoped ctx sc t :
  is_Some (sc_provider sc) -> lasts ctx t -> live (withRequestContext ctx (Some sc)) t.
Proof.
  intros [p Hp] Hl. unfold live, withRequestContext. rewrite Hp.
  eexists _, _, ctx, _. split_and!; [done|done|done|by apply lasts_open].
Qed.

Section Requests.
Context {E : Type} `{AsyncCloud E} `{CloudURLs}.
Abbreviation view w := (cloud_of (env w)).

Lemma wp_request {A} sc (ev : A -> Call) (f : prim E A) (Q : A -> list Event -> World E Event -> Prop) w :
  lawful cloud_of latency delay sc ev f -> live sc (clock w + latency) ->
  (forall r w', clock w <= clock w' <= clock w + latency ->
     cloud_step (clock w) (clock w + delay) (view w) (ev r) (view w') -> Q r [mkEvent sc (ev r)] w') ->
  wp (call f (fun r => mkEvent sc (ev r))) Q w.
Proof.
  intros Hlaw Hlive HQ. destruct (Hlaw (clock w) (env w) Hlive) as [Hdt Hstep].
  unfold wp, call. destruct (f (clock w) (env w)) as [[dt a] e']. simpl in *.
  eexists a, _, [mkEvent sc (ev a)]. split_and!; [done|done|simpl; lia|]. apply HQ; [simpl; lia|done].
Qed.

Variable c : Client.
Hypothesis Hreach : reachable c.

Lemma live_v3 ctx t : lasts ctx t -> live (v3 c ctx) t.
Proof. destruct Hreach as ((sc & ep & Hc & Hp & _) & _). unfold v3. rewrite Hc. by apply live_scoped. Qed.

Lemma live_v2 ctx t : lasts ctx t -> live (v2 c ctx) t.
Proof. destruct Hreach as (_ & (sc & Hc & Hp) & _). unfold v2. rewrite Hc. by apply live_scoped. Qed.

Lemma live_ecs ctx t : lasts ctx t -> live (ecs c ctx) t.
Proof. destruct Hreach as (_ & _ & sc & Hc & Hp). unfold ecs. rewrite Hc. by apply live_scoped. Qed.

(** A check of an open context passes. *)
Lemma wp_open {A} ctx t what (k : M E Event (result A)) Q w :
  lasts ctx t -> clock w <= t -> wp k Q w -> wp (check_ctx c ctx what k) Q w.
Proof.
  intros Hl Ht Hk. apply wp_check_ctx; [|done]. intros e He.
  by rewrite (lasts_open ctx (clock w)) in He by by eapply lasts_before.
Qed.

(** *** Reading a volume *)

Definition read_of (s : CloudState) (id : string) (r : result Volume) : Prop :=
  match volumes s !! id with
  | Some v => exists v', r = Ok (mapV3VolumeToDomain v') /\ same_volume v v'
      /\ (v3_Status v' = volumeStatusDeleting -> ~ quiet id s)
      /\ v3_Status v' <> volumeStatusErrorDeleting
  | None => exists e, r = Err e /\ Is e ErrNotFound = true
  end.

Lemma wp_read ctx id w :
  blank id = false -> latency < maxOperationTimeout -> lasts ctx (clock w + latency) ->
  wp (GetVolume c ctx id) (fun r _ w' => clock w' <= clock w + latency
    /\ passes (clock w) (view w) (view w') /\ read_of (view w') id r) w.
Proof.
  intros Hid Hlat Hl. pose proof law_latency as Hpos. unfold GetVolume. wp_step.
  set (ctx' := WithDeadline _ _). assert (lasts ctx' (clock w + latency)) as Hl'.
  { apply lasts_WithDeadline; [done|lia]. }
  eapply wp_open; [done|lia|]. rewrite Hid. wp_step.
  apply wp_request; [apply law_Get|by apply live_v3|]. intros r w1 Hc1 (s1 & Hs1 & Heq & Hr).
  rewrite <-Heq in *. destruct (volumes (view w1) !! id) as [v|] eqn:Ev.
  - destruct Hr as (v' & -> & Hv). wp_step. split_and!; [lia|done|]. unfold read_of. rewrite Ev.
    by exists v'.
  - destruct Hr as (msg & ->). wp_step. split_and!; [lia|done|]. unfold read_of. rewrite Ev.
    eexists. split; [done|]. by rewrite classifyError_Is.
Qed.

(** *** Waiting for a job *)

Lemma job_answered last job ef s0 t s s1 r :
  passes t s s1 -> awaits last job ef s0 s -> job_answer job r s1 ->
  exists js, r = Ok js /\
    ((awaits last job ef s0 s1 /\ t < last /\ js_Status js <> "SUCCESS" /\ js_Status js <> "FAIL")
     \/ (achieved ef s0 s1 /\ js_Status js = "SUCCESS" /\ js_VolumeID js = about ef)).
Proof.
  intros Hs Haw Hr. destruct (passes_awaits _ _ _ _ _ _ _ Hs Haw) as [Haw1 Hcase].
  unfold job_answer in Hr. destruct Hcase as [(Ht & Hf & Hw & _)|[Hf Hach]]; rewrite Hf in Hr.
  - destruct (Hr Hw) as (js & -> & Hst & Hn). exists js. auto 10.
  - destruct Hr as (js & -> & Hst & Hid). exists js. auto 10.
Qed.

Lemma wp_job_turn_async last job ef s0 ctx sc w :
  TrimSpace (about ef) = about ef -> about ef <> "" ->
  awaits last job ef s0 (view w) -> lasts ctx (clock w + latency) -> live (Some sc) (clock w + latency) ->
  wp (job_turn ctx sc job) (fun o _ w' => clock w' <= clock w + latency /\
    match o with
    | Some r => r = Ok (about ef) /\ achieved ef s0 (view w')
    | None => awaits last job ef s0 (view w') /\ clock w < last
    end) w.
Proof.
  intros Htrim Hne Haw Hl Hlive. pose proof law_latency as Hpos. unfold job_turn. do 2 wp_step.
  rewrite lasts_open by (eapply lasts_before; [|exact Hl]; lia).
  wp_step. apply wp_request; [apply law_Job|done|]. intros r w1 Hc1 (s1 & Hs1 & Heq & Hr).
  rewrite <-Heq in *.
  destruct (job_answered _ _ _ _ _ _ _ _ Hs1 Haw Hr) as (js & -> & [(? & ? & ? & ?)|(? & ? & Hid)]).
  - rewrite !decide_False by done. wp_step. by split_and!; [lia|..].
  - rewrite decide_True by done. rewrite Hid, Htrim, decide_False by done. wp_step. by split_and!; [lia|..].
Qed.

Lemma wp_server_job_turn_async last job ef s0 ctx sc w :
  awaits last job ef s0 (view w) -> lasts ctx (clock w + latency) -> live sc (clock w + latency) ->
  wp (server_job_turn ctx sc job) (fun o _ w' => clock w' <= clock w + latency /\
    match o with
    | Some r => r = Ok tt /\ achieved ef s0 (view w')
    | None => awaits last job ef s0 (view w') /\ clock w < last
    end) w.
Proof.
  intros Haw Hl Hlive. pose proof law_latency as Hpos. unfold server_job_turn. do 2 wp_step.
  rewrite lasts_open by (eapply lasts_before; [|exact Hl]; lia).
  wp_step. apply wp_request; [apply law_ServerJob|done|]. intros r w1 Hc1 (s1 & Hs1 & Heq & Hr).
  rewrite <-Heq in *.
  destruct (job_answered _ _ _ _ _ _ _ _ Hs1 Haw Hr) as (js & -> & [(? & ? & ? & ?)|(? & ? & Hid)]).
  - rewrite !decide_False by done. wp_step. by split_and!; [lia|..].
  - rewrite decide_True by done. wp_step. by split_and!; [lia|..].
Qed.

Lemma fuel_waited t last :
  last <= t + delay -> patience < maxOperationTimeout ->
  fuel_enough poll_fuel (last + latency + Second) (mkTicker t Second t).
Proof.
  unfold patience. pose proof law_latency. intros Hlast Hp.
  apply (fuel_enough_new _ _ _ _ 600); [done| |done|done].
  unfold maxOperationTimeout, Minute, Second, Millisecond in *. lia.
Qed.

Lemma wp_wait_job last job ef s0 ctx w :
  TrimSpace (about ef) = about ef -> about ef <> "" -> patience < maxOperationTimeout ->
  last <= clock w + delay -> awaits last job ef s0 (view w) -> lasts ctx (waited (clock w) last) ->
  wp (waitForJobSuccess c ctx job) (fun r _ w' => clock w' <= waited (clock w) last
    /\ r = Ok (about ef) /\ achieved ef s0 (view w')) w.
Proof.
  intros Htrim Hne Hp Hlast Haw Hl. unfold waitForJobSuccess.
  destruct Hreach as ((sc & ep & Hc & [p Hsp] & Hep) & _). unfold v3. rewrite Hc.
  unfold withRequestContext. rewrite Hsp. cbn [deref Endpoint sc_provider]. rewrite Hep. do 2 wp_step.
  eapply wp_mono; [apply (wp_poll_settles _ _ _ _ (fun e => awaits last job ef s0 (cloud_of e))
    (fun r e => r = Ok (about ef) /\ achieved ef s0 (cloud_of e)) latency last (last + latency + Second));
    [apply law_latency|done|simpl; lia|done|by apply fuel_waited| |done|done]|].
  - intros w1 Haw1 Hl1. apply wp_job_turn_async; try done. eexists _, _, _, _.
    split_and!; [done|done|done|by apply lasts_open].
  - intros r evs w1 _ [HQ Hc1]. by split.
Qed.

Lemma wp_wait_server_job last job ef s0 ctx w :
  patience < maxOperationTimeout ->
  last <= clock w + delay -> awaits last job ef s0 (view w) -> lasts ctx (waited (clock w) last) ->
  wp (waitForAttachmentJob c ctx job) (fun r _ w' => clock w' <= waited (clock w) last
    /\ r = Ok tt /\ achieved ef s0 (view w')) w.
Proof.
  intros Hp Hlast Haw Hl. unfold waitForAttachmentJob. do 2 wp_step.
  eapply wp_mono; [apply (wp_poll_settles _ _ _ _ (fun e => awaits last job ef s0 (cloud_of e))
    (fun r e => r = Ok tt /\ achieved ef s0 (cloud_of e)) latency last (last + latency + Second));
    [apply law_latency|done|simpl; lia|done|by apply fuel_waited| |done|done]|].
  - intros w1 Haw1 Hl1. apply wp_server_job_turn_async; [done|done|by apply live_ecs].
  - intros r evs w1 _ [HQ Hc1]. by split.
Qed.

(** *** Observing an attachment *)

Definition attachment_of (s : CloudState) (volume server : string) : option Attachment :=
  match plugged s !! (volume, server) with
  | Some device => Some (mkAttachment volume server (TrimSpace device))
  | None => None
  end.

Lemma observe_exact s volume server l :
  (forall d, d ∈ default [] l <->
     da_ServerID d = server /\ plugged s !! (da_VolumeID d, server) = Some (da_Device d)) ->
  observe_listing volume server l = attachment_of s volume server.
Proof.
  intros Hl. assert (observe_listing volume server l = find_attachment volume server (default [] l)) as ->
    by by destruct l.
  unfold find_attachment, attachment_of. destruct (find_first _ _) as [d|] eqn:Ef.
  - apply find_first_elem in Ef as (Hd & [Hv Hs]%andb_true_iff).
    apply bool_decide_eq_true in Hv as <-, Hs as <-. apply Hl in Hd as [_ Hd]. by rewrite Hd.
  - rewrite find_first_None, List.Forall_forall in Ef.
    destruct (plugged s !! (volume, server)) as [device|] eqn:Hd; [|done].
    assert (mkDiskAttachment volume server device ∈ default [] l) as Hin by by apply Hl.
    apply list_elem_of_In, Ef in Hin. simpl in Hin. by rewrite !bool_decide_true in Hin.
Qed.

Lemma wp_observe_async volume server ctx w :
  lasts ctx (clock w + latency) ->
  wp (observeAttachment ctx (ecs c ctx) volume server) (fun r _ w' => clock w' <= clock w + latency
    /\ passes (clock w) (view w) (view w') /\ r = Ok (attachment_of (view w') volume server)) w.
Proof.
  intros Hl. pose proof law_latency as Hpos. unfold observeAttachment. do 2 wp_step.
  rewrite lasts_open by (eapply lasts_before; [|exact Hl]; lia). wp_step.
  apply wp_request; [apply law_GetAttachments|by apply live_ecs|].
  intros r w1 Hc1 (s1 & Hs1 & Heq & l & -> & Hlist). rewrite <-Heq in *. wp_step.
  split_and!; [lia|done|]. f_equal. by apply observe_exact.
Qed.

(** A wait for a state that is reached already takes one look. *)
Lemma wp_wait_state settled ef s0 volume server ctx w :
  about ef = volume -> achieved ef s0 (view w) ->
  settled (attachment_of (apply ef s0) volume server) = true -> lasts ctx (clock w + latency) ->
  wp (waitForAttachmentState c ctx volume server settled) (fun r _ w' =>
    clock w' <= clock w + latency /\ achieved ef s0 (view w')
    /\ r = Ok (attachment_of (apply ef s0) volume server)) w.
Proof.
  intros <- Hach Hset Hl. pose proof law_latency as Hpos. unfold waitForAttachmentState. do 2 wp_step.
  change poll_fuel with (S (Nat.pred poll_fuel)). cbn [poll_loop]. wp_step. unfold state_turn. wp_step.
  eapply wp_mono; [by apply wp_observe_async|]. intros r evs w1 Hc1 (Hc & Hp & ->).
  destruct Hach as [Hq Ha]. destruct (passes_quiet _ _ _ _ Hp Hq) as [Hq1 Ha1].
  assert (attachment_of (view w1) (about ef) server = attachment_of (apply ef s0) (about ef) server) as ->.
  { unfold attachment_of. destruct Ha as [_ Ha], Ha1 as [_ Ha1]. by rewrite Ha, <-Ha1. }
  rewrite Hset. do 2 wp_step. split_and!; [done|split; [done|by etrans]|done].
Qed.

(** ** What the operations achieve *)

Lemma device_name_trim device : device_name device -> TrimSpace device = device.
Proof.
  intros (l & Hl & ->). destruct l as [[][][][][][][][]]; cbn in Hl; try lia; by vm_compute.
Qed.

(** The state a request is accepted in differs from the one the operation began in by work
    on other volumes. *)
Lemma achieved_from ef s s0 s' :
  agree (about ef) s s0 -> achieved ef s0 s' -> achieved ef s s'.
Proof. intros Ha [Hq Ha']. split; [done|]. rewrite <-Ha'. by apply apply_agree. Qed.

(** The two waits after an accepted attach or detach. *)
Lemma wp_carried_out {B} last job ef s0 settled server ctx operation
    (k : option Attachment -> M E Event (result B)) Q w :
  let seen := attachment_of (apply ef s0) (about ef) server in
  patience < maxOperationTimeout -> last <= clock w + delay -> awaits last job ef s0 (view w) ->
  settled seen = true -> lasts ctx (waited (clock w) last + latency) ->
  (forall evs w', clock w' <= waited (clock w) last + latency -> achieved ef s0 (view w') ->
     wp (k seen) (fun r evs' w'' => Q r (evs ++ evs') w'') w') ->
  wp (or_classified c operation (waitForAttachmentJob c ctx job) (fun _ =>
      or_classified c operation (waitForAttachmentState c ctx (about ef) server settled) k)) Q w.
Proof.
  intros seen Hp Hlast Haw Hset Hl HQ. pose proof law_latency as Hpos. unfold or_classified. wp_step.
  eapply wp_mono; [apply (wp_wait_server_job last job ef s0); try done; in_time Hl|].
  intros r evs w1 Hc1 (Hc1' & -> & Hach). wp_step.
  eapply wp_mono; [apply (wp_wait_state _ ef s0 (about ef) server); try done; in_time Hl|].
  intros r evs' w2 Hc2 (Hc2' & Hach' & ->). eapply wp_mono; [apply HQ; [lia|done]|].
  intros r evs2 w3 _ Hr. cbv beta in Hr |- *. by rewrite app_assoc.
Qed.

Lemma wp_Attach_async ctx volume server w :
  blank volume = false -> blank server = false -> patience < maxOperationTimeout ->
  is_Some (volumes (view w) !! volume) -> unplugged volume (view w) -> quiet volume (view w) ->
  lasts ctx (clock w + patience) ->
  wp (AttachVolume c ctx volume server) (fun r _ w' => clock w' <= clock w + patience /\
    exists device, device_name device /\ r = Ok (Some (mkAttachment volume server device))
      /\ achieved (Plugs volume server device) (view w) (view w')) w.
Proof.
  intros Hv Hs Hp Hvol Hun Hq Hl. pose proof law_latency as Hpos. pose proof law_delay as Hdel.
  unfold AttachVolume, validateAttachmentInput. rewrite Hv, Hs. cbn [orb]. wp_step.
  set (ctx' := WithDeadline _ _). assert (lasts ctx' (clock w + patience)) as Hl'.
  { apply lasts_WithDeadline; [done|lia]. }
  unfold or_classified at 1. wp_step. eapply wp_mono; [apply wp_observe_async; in_time Hl'|].
  intros r evs w1 Hc1 (Hc1' & Hp1 & ->). destruct (passes_quiet _ _ _ _ Hp1 Hq) as [Hq1 Ha1].
  assert (attachment_of (view w1) volume server = None) as ->.
  { unfold attachment_of. by rewrite (agree_unplugged _ _ _ Ha1 Hun). }
  cbn [attachedWithDevice detached negb]. wp_step.
  apply wp_request; [apply law_Attach|apply live_ecs; in_time Hl'|]. intros r w2 Hc2 (s2 & Hp2 & Hr).
  destruct (passes_quiet _ _ _ _ Hp2 Hq1) as [Hq2 Ha2].
  assert (agree volume (view w) s2) as Ha by by etrans.
  destruct Hr as (job & device & -> & Hjob & Hdev & Hstart);
    [by simpl; rewrite <-(proj1 Ha)|by eapply agree_unplugged|done|].
  unfold job_of. cbn [JobID]. rewrite Hjob. set (ef := Plugs volume server device).
  assert (attachment_of (apply ef s2) volume server = Some (mkAttachment volume server device)) as Hat.
  { unfold attachment_of. simpl. by rewrite lookup_insert_eq, device_name_trim. }
  apply (wp_carried_out (clock w1 + delay) job ef s2); [done|lia|by apply starts_awaits| |in_time Hl'|].
  - change (about ef) with volume. rewrite Hat. by destruct Hdev as (l & _ & ->).
  - change (about ef) with volume. rewrite Hat. intros evs' w3 Hc3 Hach. wp_step.
    split; [unfold waited, patience, Second, Millisecond in *; lia|].
    exists device. split_and!; [done..|]. by apply (achieved_from ef _ s2).
Qed.

Lemma wp_Detach_async ctx volume server w :
  blank volume = false -> blank server = false -> patience < maxOperationTimeout ->
  is_Some (plugged (view w) !! (volume, server)) -> quiet volume (view w) ->
  lasts ctx (clock w + patience) ->
  wp (DetachVolume c ctx volume server) (fun r _ w' => clock w' <= clock w + patience /\
    r = Ok tt /\ achieved (Unplugs volume server) (view w) (view w')) w.
Proof.
  intros Hv Hs Hp [device Hdev] Hq Hl. pose proof law_latency as Hpos. pose proof law_delay as Hdel.
  unfold DetachVolume, validateAttachmentInput. rewrite Hv, Hs. cbn [orb]. wp_step.
  set (ctx' := WithDeadline _ _). assert (lasts ctx' (clock w + patience)) as Hl'.
  { apply lasts_WithDeadline; [done|lia]. }
  unfold or_classified at 1. wp_step. eapply wp_mono; [apply wp_observe_async; in_time Hl'|].
  intros r evs w1 Hc1 (Hc1' & Hp1 & ->). destruct (passes_quiet _ _ _ _ Hp1 Hq) as [Hq1 Ha1].
  unfold attachment_of at 1. rewrite <-(proj2 Ha1), Hdev. cbn [detached]. wp_step.
  apply wp_request; [apply law_Detach|apply live_ecs; in_time Hl'|]. intros r w2 Hc2 (s2 & Hp2 & Hr).
  destruct (passes_quiet _ _ _ _ Hp2 Hq1) as [Hq2 Ha2].
  assert (agree volume (view w) s2) as Ha by by etrans.
  destruct Hr as (job & -> & Hjob & Hstart); [rewrite <-(proj2 Ha); by eexists|done|].
  unfold job_of. cbn [JobID]. rewrite Hjob. set (ef := Unplugs volume server).
  assert (attachment_of (apply ef s2) volume server = None) as Hat.
  { unfold attachment_of. simpl. by rewrite lookup_delete_eq. }
  apply (wp_carried_out (clock w1 + delay) job ef s2); [done|lia|by apply starts_awaits| |in_time Hl'|].
  - change (about ef) with volume. by rewrite Hat.
  - intros evs' w3 Hc3 Hach. wp_step.
    split; [unfold waited, patience, Second, Millisecond in *; lia|]. split; [done|]. by apply (achieved_from ef _ s2).
Qed.

(** Polling for absence: every attempt is a tick after the one before, so that the last one
    the ticker allows comes after the erasure. *)
Lemma wp_absence_async n id last job s0 ctx tk seen err w :
  let ef := Erases id in
  blank id = false -> latency < maxOperationTimeout -> is_Some (volumes s0 !! id) ->
  t_period tk = Second -> t_last tk <= clock w -> (0 < n)%nat ->
  last <= t_start tk + (ticks tk (t_last tk) + Z.of_nat n - 1) * Second ->
  awaits last job ef s0 (view w) -> lasts ctx (waited (clock w) last) ->
  wp (absence_loop n c ctx id tk seen err) (fun r _ w' => clock w' <= waited (clock w) last
    /\ r = Ok tt /\ achieved ef s0 (view w')) w.
Proof.
  intros ef Hid Hlat [v0 Hv0] Hper. pose proof law_latency as Hpos. assert (0 < Second) as Hsec by done.
  revert tk seen err w Hper. induction n as [|n IH]; intros tk seen err w Hper Htl Hn Hcover Haw Hl; [lia|].
  cbn [absence_loop]. wp_step. eapply wp_mono; [apply wp_read; [done|done|in_time Hl]|].
  intros r evs w1 Hc1 (Hc1' & Hp1 & Hr). destruct (passes_awaits _ _ _ _ _ _ _ Hp1 Haw) as [Haw1 Hcase].
  unfold read_of in Hr. destruct Hcase as [(Ht & _ & _ & Ha)|[_ Hach]].
  - assert (volumes (view w1) !! id = Some v0) as Hv1 by (destruct Ha as [Ha _]; change (about ef) with id in Ha; congruence).
    rewrite Hv1 in Hr. destruct Hr as (v' & -> & _).
    cbn [read_absence]. assert (t_start tk + ticks tk (t_last tk) * Second <= t_last tk) as Hfloor.
    { unfold ticks. rewrite Hper. pose proof (Z.mul_div_le (t_last tk - t_start tk) Second eq_refl). lia. }
    destruct (Nat.eqb_spec n 0) as [->|Hn0]; [lia|].
    pose proof (next_tick_le tk ltac:(by rewrite Hper)) as Hnext. rewrite Hper in Hnext.
    wp_step. apply wp_select_tick; [in_time Hl|]. set (tk' := fired tk (clock w1)). set (w2 := mkWorld _ _ _).
    assert (ticks tk (t_last tk) + 1 <= ticks tk (t_last tk')) as Hadv.
    { rewrite <-ticks_next by (by rewrite Hper). apply ticks_mono; [by rewrite Hper|simpl; lia]. }
    eapply wp_mono; [apply (IH tk' _ _ w2); [done|simpl; lia|lia| |done|]|].
    + change (ticks tk' (t_last tk')) with (ticks tk (t_last tk')). change (t_start tk') with (t_start tk).
      unfold Second, Millisecond in *. lia.
    + eapply lasts_before; [|exact Hl]. unfold waited. cbn [clock w2]. lia.
    + intros r evs2 w3 _ [Hc3 HQ]. split; [|done]. unfold waited in *. cbn [clock w2] in Hc3. lia.
  - assert (volumes (view w1) !! id = None) as Hv1.
    { destruct Hach as [_ [Ha _]]. change (about ef) with id in Ha. rewrite <-Ha. apply lookup_delete_eq. }
    rewrite Hv1 in Hr.
    destruct Hr as (e & -> & He). unfold read_absence. rewrite He. wp_step.
    split; [unfold waited; lia|done].
Qed.

Lemma wp_Delete_async ctx id v w :
  blank id = false -> patience < maxOperationTimeout -> delay <= 59 * Second ->
  volumes (view w) !! id = Some v -> v3_Tags v !! OwnershipTagKey = Some OwnershipTagValue ->
  quiet id (view w) -> lasts ctx (clock w + patience) ->
  wp (EvsVolume.DeleteVolume c ctx id) (fun r _ w' => clock w' <= clock w + patience /\
    r = Ok tt /\ achieved (Erases id) (view w) (view w')) w.
Proof.
  intros Hid Hp Hdel Hv Htag Hq Hl. pose proof law_latency as Hpos. pose proof law_delay as Hpos'.
  unfold EvsVolume.DeleteVolume. wp_step. set (ctx' := WithDeadline _ _).
  assert (lasts ctx' (clock w + patience)) as Hl' by (apply lasts_WithDeadline; [done|lia]).
  assert (latency < maxOperationTimeout) as Hlat by (unfold patience, Second, Millisecond in *; lia).
  eapply wp_open; [done|unfold patience, Second, Millisecond in *; lia|]. rewrite Hid. wp_step.
  eapply wp_mono; [apply wp_read; [done|done|in_time Hl']|]. intros r evs w1 Hc1 (Hc1' & Hp1 & Hr).
  destruct (passes_quiet _ _ _ _ Hp1 Hq) as [Hq1 Ha1].
  unfold read_of in Hr. rewrite <-(proj1 Ha1), Hv in Hr.
  destruct Hr as (v' & -> & (_ & _ & _ & _ & _ & Htags) & Hdeleting & Herror).
  assert (owned (mapV3VolumeToDomain v') = true) as ->.
  { unfold owned, tag. simpl. by rewrite Htags, Htag, bool_decide_true. }
  cbn [negb]. rewrite decide_False by done. rewrite decide_False by (intros Hs; by apply Hdeleting).
  wp_step. apply wp_request; [apply law_Delete|apply live_v3; in_time Hl'|].
  intros r w2 Hc2 (s2 & Hp2 & Hr). destruct (passes_quiet _ _ _ _ Hp2 Hq1) as [Hq2 Ha2].
  assert (agree id (view w) s2) as Ha by by etrans.
  destruct Hr as (-> & job & Hstart); [rewrite <-(proj1 Ha); by eexists|done|].
  unfold waitForVolumeAbsence. do 2 wp_step.
  eapply wp_mono; [apply (wp_absence_async _ id (clock w1 + delay) job s2); try done|].
  - rewrite <-(proj1 Ha). by eexists.
  - unfold volumeAbsenceMaxAttempts. lia.
  - simpl t_start. simpl t_last. unfold ticks. simpl t_start. rewrite Z.sub_diag. simpl t_period.
    rewrite Z.div_0_l by done. unfold volumeAbsenceMaxAttempts. lia.
  - by apply starts_awaits.
  - in_time Hl'.
  - intros r evs3 w3 _ (Hc3 & -> & Hach).
    split; [unfold waited, patience, Second, Millisecond in *; lia|]. split; [done|].
    by apply (achieved_from _ _ s2).
Qed.

Lemma wp_Create_async ctx opts w :
  blank (cvo_AvailabilityZone opts) = false -> blank (cvo_VolumeType opts) = false ->
  0 < cvo_Size opts -> patience < maxOperationTimeout -> lasts ctx (clock w + patience) ->
  wp (EvsVolume.CreateVolume c ctx opts) (fun r _ w' => clock w' <= clock w + patience /\
    exists v v' s, r = Ok (mapV3VolumeToDomain v') /\ same_volume v v' /\ made_for (v3_create_opts opts) v
      /\ v3_ID v <> "" /\ TrimSpace (v3_ID v) = v3_ID v /\ volumes s !! v3_ID v = None
      /\ unplugged (v3_ID v) s /\ passes (clock w) (view w) s /\ achieved (Provisions v) s (view w')) w.
Proof.
  intros Hz Ht Hsize Hp Hl. pose proof law_latency as Hpos. pose proof law_delay as Hpos'.
  unfold EvsVolume.CreateVolume. wp_step. set (ctx' := WithDeadline _ _).
  assert (lasts ctx' (clock w + patience)) as Hl' by (apply lasts_WithDeadline; [done|lia]).
  assert (latency < maxOperationTimeout) as Hlat by (unfold patience, Second, Millisecond in *; lia).
  eapply wp_open; [done|unfold patience, Second, Millisecond in *; lia|]. rewrite Hz, Ht.
  destruct (Z.leb_spec (cvo_Size opts) 0); [lia|]. wp_step.
  apply wp_request; [apply law_Create|apply live_v3; in_time Hl'|]. intros r w1 Hc1 (s1 & Hp1 & Hr).
  destruct Hr as (job & v & -> & Hjob & Hne & Htrim & Hmade & Hnew & Hun & Hq & Hstart).
  cbn [cr_Err ExtractJobResponse JobID]. rewrite decide_False by done. wp_step.
  eapply wp_mono; [apply (wp_wait_job (clock w + delay) job (Provisions v) s1);
    [done|done|done|lia|by apply starts_awaits|in_time Hl']|].
  intros r evs w2 Hc2 (Hc2' & -> & Hach). simpl about.
  eapply wp_mono; [apply wp_read; [|done|in_time Hl']|].
  { unfold blank. by rewrite Htrim, bool_decide_false. }
  intros r evs3 w3 Hc3 (Hc3' & Hp3 & Hr). destruct Hach as [Hq2 Ha2].
  destruct (passes_quiet _ _ _ _ Hp3 Hq2) as [Hq3 Ha3]. unfold read_of in Hr.
  destruct Ha2 as [Hv2 Hp2], Ha3 as [Hv3 Hp3']. simpl in Hv2, Hv3. rewrite lookup_insert_eq in Hv2.
  rewrite <-Hv3, <-Hv2 in Hr. destruct Hr as (v' & -> & Hsame & _).
  split; [unfold waited, patience, Second, Millisecond in *; lia|].
  exists v, v', s1. split_and!; try done. split; [done|]. split; simpl.
  - by rewrite lookup_insert_eq, Hv2, Hv3.
  - intros server. by rewrite <-Hp3', <-Hp2.
Qed.
End Requests.
