(* ===== verification/CloudBench.v ===== *)
(** * An asynchronous cloud at work

    An executable cloud with the laws of [AsyncCloud]: it keeps at most one job in its queue,
    which is done when its time has come, or when the next one arrives. *)

From S2P Require Import Prelude GoStrings GoErrors GoPath GoURL Runtime EvsClient EvsTransport EvsSDK.
From S2P Require Import EvsVolume EvsAttachment AsyncCloud.

Local Open Scope stdpp_scope.
Local Open Scope go_scope.
Local Open Scope Z_scope.

(** ** Its state *)

Record Bench := mkBench {
  b_volumes : gmap string v3Volume;
  b_plugged : gmap (string * string) string;
  b_finished : gmap string string;
  b_job : option (string * Z * effect) }.

Definition bench_cloud (b : Bench) : CloudState :=
  mkCloud (b_volumes b) (b_plugged b) (b_finished b)
    (match b_job b with Some (job, due, ef) => {[ job := (due, ef) ]} | None => ∅ end).

Definition flush (b : Bench) : Bench :=
  match b_job b with
  | Some (job, _, ef) =>
      let s := apply ef (bench_cloud b) in
      mkBench (volumes s) (plugged s) (<[job := about ef]> (b_finished b)) None
  | None => b
  end.

Definition settle (t : Z) (b : Bench) : Bench :=
  match b_job b with
  | Some (_, due, _) => if due <=? t then flush b else b
  | None => b
  end.

(** A key that is longer than all those of a map. *)
Fixpoint vs (n : nat) : string := match n with O => "v" | S n => String "v" (vs n) end.
Definition lengths (l : list string) : nat := fold_right (fun k n => (String.length k + n)%nat) O l.
Definition fresh_key (keys : list string) : string := vs (lengths keys).

Definition bench_delay : Z := 5 * Second.

Definition accept (ef : effect) (job : string) (t : Z) (b : Bench) : Bench :=
  let b := flush b in
  mkBench (b_volumes b) (b_plugged b) (b_finished b) (Some (job, t + bench_delay, ef)).

Definition next_job (b : Bench) : string := fresh_key (map fst (map_to_list (b_finished (flush b)))).

Definition next_id (b : Bench) : string :=
  fresh_key (map fst (map_to_list (b_volumes (flush b)))
    ++ map (fun kv => kv.1.1) (map_to_list (b_plugged (flush b)))).

Definition new_volume (id : string) (o : v3CreateOpts) : v3Volume :=
  mkV3Volume id (v3o_Name o) volumeStatusAvailable (v3o_Size o) (v3o_AvailabilityZone o)
    (v3o_VolumeType o) ∅ (v3o_Tags o) (v3o_Multiattach o) [].

Definition shown (v : v3Volume) : v3Volume :=
  mkV3Volume (v3_ID v) (v3_Name v) volumeStatusAvailable (v3_Size v) (v3_AvailabilityZone v)
    (v3_VolumeType v) (v3_Metadata v) (v3_Tags v) (v3_Multiattach v) [].

Definition job_status (job : string) (b : Bench) : result JobStatus :=
  Ok match b_finished b !! job with
     | Some id => mkJobStatus "SUCCESS" id "" ""
     | None => mkJobStatus "RUNNING" "" "" ""
     end.

Definition bench_latency : N := 100000000.


(** The elapsed time, the answer and the next state of a question and of a request. *)
Definition looked {A} (f : Bench -> A) : prim Bench A := fun t b =>
  (bench_latency, f (settle t b), settle t b).

Definition accepted {A} (ef : Bench -> effect) (f : string -> A) : prim Bench A := fun t b =>
  (bench_latency, f (next_job b), accept (ef b) (next_job b) t b).

Definition listed_on (server : string) (b : Bench) : list diskAttachment :=
  omap (fun kv => if decide (kv.1.2 = server) then Some (mkDiskAttachment kv.1.1 server kv.2) else None)
    (map_to_list (b_plugged b)).

Definition none_named (name : string) (b : Bench) : bool :=
  forallb (fun kv => negb (Contains (v3_Name kv.2) name)) (map_to_list (b_volumes b)).

#[export] Instance bench_sdk : CloudSDK Bench := {|
  v3_Create _ o := accepted (fun b => Provisions (new_volume (next_id b) o))
    (fun job => mkCreateResult None (Ok (mkJobResponse job)));
  v3_Get _ id := looked (fun b => match b_volumes b !! id with
    | Some v => Ok (shown v)
    | None => Err (ESDK (ErrDefault 404) "no such volume") end);
  v3_Delete _ id := accepted (fun _ => Erases id) (fun _ => None);
  v2_List _ o := looked (fun b => if none_named (v2l_Name o) b then Ok [] else Err (ENew "not listed"));
  evs_GetJob _ job := looked (job_status job);
  disk_GetAttachments _ server := looked (fun b => Ok (Some (listed_on server b)));
  disk_Attach _ o := accepted (fun _ => Plugs (dc_VolumeID o) (dc_ServerID o) "/dev/vdb")
    (fun job => Ok (Some (mkJobResponse job)));
  disk_Detach _ server volume _ := accepted (fun _ => Unplugs volume server)
    (fun job => Ok (Some (mkJobResponse job)));
  ecs_GetJob _ job := looked (job_status job);
  cloud_scheduler := fun b => (true, b) |}.

(** ** Its keys *)

Lemma vs_snoc n : vs n +:+ "v" = String "v" (vs n).
Proof. induction n as [|n IH]; [done|]. simpl. by rewrite IH. Qed.

Lemma vs_rev n : String.rev (vs n) = vs n.
Proof. induction n as [|n IH]; [done|]. simpl vs. by rewrite string_rev_cons, IH, vs_snoc. Qed.

Lemma vs_trim n : TrimSpace (vs n) = vs n.
Proof.
  unfold TrimSpace. rewrite (trim_left_fixed _ _ _ (vs n)) by (by destruct n as [|[|[|n]]]).
  rewrite vs_rev, (trim_left_fixed _ _ _ (vs n)) by (by destruct n as [|[|[|n]]]). apply vs_rev.
Qed.

Lemma vs_blank n : blank (vs n) = false.
Proof. unfold blank. rewrite vs_trim. by destruct n. Qed.

Lemma vs_length n : String.length (vs n) = S n.
Proof. induction n as [|n IH]; [done|]. simpl. by rewrite IH. Qed.

Lemma lengths_elem k l : k ∈ l -> (String.length k <= lengths l)%nat.
Proof. induction 1 as [|k x l _ IH]; simpl; lia. Qed.

Lemma fresh_key_spec keys : fresh_key keys ∉ keys.
Proof.
  intros Hin%lengths_elem. unfold fresh_key in Hin. rewrite vs_length in Hin. lia.
Qed.

Lemma key_elem {K A} `{Countable K} (m : gmap K A) k a : m !! k = Some a -> k ∈ map fst (map_to_list m).
Proof. intros Hm. apply list_elem_of_fmap. exists (k, a). split; [done|by apply elem_of_map_to_list]. Qed.

Lemma next_job_fresh b : b_finished (flush b) !! next_job b = None.
Proof. apply eq_None_not_Some. intros [a Ha]. by apply key_elem, fresh_key_spec in Ha. Qed.

Lemma next_id_fresh b : b_volumes (flush b) !! next_id b = None /\ unplugged (next_id b) (bench_cloud (flush b)).
Proof.
  pose proof (fresh_key_spec (map fst (map_to_list (b_volumes (flush b)))
    ++ map (fun kv => kv.1.1) (map_to_list (b_plugged (flush b))))) as Hf.
  rewrite not_elem_of_app in Hf. destruct Hf as [Hv Hp]. split.
  - apply eq_None_not_Some. intros [v Hl]. by apply Hv, (key_elem _ _ v).
  - intros server. apply eq_None_not_Some. intros [device Hl]. apply Hp, list_elem_of_fmap.
    exists ((next_id b, server), device). split; [done|by apply elem_of_map_to_list].
Qed.

(** ** Its laws *)

Lemma flush_passes t b : passes t (bench_cloud b) (bench_cloud (flush b)) /\ work (bench_cloud (flush b)) = ∅.
Proof.
  unfold flush. destruct (b_job b) as [[[job due] ef]|] eqn:Hj.
  - assert (finish (bench_cloud b) (bench_cloud (mkBench (volumes (apply ef (bench_cloud b)))
      (plugged (apply ef (bench_cloud b))) (<[job := about ef]> (b_finished b)) None))) as Hf.
    { pose proof (finish_job (bench_cloud b) job due ef) as Hf. simpl in Hf. rewrite Hj in Hf.
      rewrite delete_singleton_eq in Hf. apply Hf. by rewrite lookup_singleton_eq. }
    split; [|done]. split; [by apply rtc_once|]. done.
  - split; [|simpl; by rewrite Hj]. split; [done|]. simpl. by rewrite Hj.
Qed.

Lemma settle_passes t b : passes t (bench_cloud b) (bench_cloud (settle t b)).
Proof.
  unfold settle. destruct (b_job b) as [[[job due] ef]|] eqn:Hj.
  - destruct (Z.leb_spec due t); [apply flush_passes|]. split; [done|]. simpl. rewrite Hj.
    intros job' due' ef' [_ Heq]%lookup_singleton_Some. injection Heq as -> ->. lia.
  - split; [done|]. simpl. by rewrite Hj.
Qed.

Lemma accept_starts t b ef :
  starts (t + bench_delay) (next_job b) ef (bench_cloud (flush b)) (bench_cloud (accept ef (next_job b) t b)).
Proof.
  pose proof (proj2 (flush_passes t b)) as Hw. unfold starts. rewrite Hw.
  split_and!; [done|apply next_job_fresh|]. exists (t + bench_delay). split; [done|].
  by rewrite insert_empty.
Qed.

Lemma flush_quiet b id : quiet id (bench_cloud (flush b)).
Proof. intros job due ef Hj. by rewrite (proj2 (flush_passes 0 b)) in Hj. Qed.

Lemma accepted_lawful {A} sc (ev : A -> Call) ef f :
  (forall t b s', starts (t + bench_delay) (next_job b) (ef b) (bench_cloud (flush b)) s' ->
     passes t (bench_cloud b) (bench_cloud (flush b)) ->
     cloud_step t (t + bench_delay) (bench_cloud b) (ev (f (next_job b))) s') ->
  lawful bench_cloud (Z.of_N bench_latency) bench_delay sc ev (accepted ef f).
Proof. intros Hstep t b _. split; [done|]. apply Hstep; [apply accept_starts|apply flush_passes]. Qed.

Lemma looked_lawful {A} sc (ev : A -> Call) f :
  (forall t b, cloud_step t (t + bench_delay) (bench_cloud b) (ev (f (settle t b))) (bench_cloud (settle t b))) ->
  lawful bench_cloud (Z.of_N bench_latency) bench_delay sc ev (looked f).
Proof. intros Hstep t b _. split; [done|]. apply Hstep. Qed.

Lemma listed_on_exact server b d :
  d ∈ listed_on server b <->
  da_ServerID d = server /\ b_plugged b !! (da_VolumeID d, server) = Some (da_Device d).
Proof.
  unfold listed_on. rewrite list_elem_of_omap. split.
  - intros ([[volume server'] device] & Hin%elem_of_map_to_list & Hd). simpl in Hd. case_decide; [|done].
    by simplify_eq/=.
  - intros [Hs Hd]. exists ((da_VolumeID d, server), da_Device d).
    split; [by apply elem_of_map_to_list|]. simpl. rewrite decide_True by done. destruct d; by simplify_eq/=.
Qed.

Lemma none_named_true name b :
  (forall id v, b_volumes b !! id = Some v -> Contains (v3_Name v) name = false) -> none_named name b = true.
Proof.
  intros Hv. apply forallb_forall. intros [id v] Hin%list_elem_of_In%elem_of_map_to_list. simpl.
  by rewrite (Hv id v Hin).
Qed.

Lemma job_status_answer job b : job_answer job (job_status job b) (bench_cloud b).
Proof. unfold job_answer, job_status. simpl. destruct (b_finished b !! job); eauto. Qed.

Lemma vs_ne n : vs n <> "".
Proof. by destruct n. Qed.

Ltac settled t b :=
  exists (bench_cloud (settle t b)); split; [apply settle_passes|split; [reflexivity|]].

Ltac flushed b Hs Hp :=
  exists (bench_cloud (flush b)); split; [exact Hp|]; intros; eexists.

#[export] Instance bench_async : AsyncCloud Bench.
Proof.
  refine {| cloud_of := bench_cloud; latency := Z.of_N bench_latency; delay := bench_delay |};
    [done|done|intros sc; intros..].
  - apply accepted_lawful. intros t b s' Hs Hp. exists (bench_cloud (flush b)). split; [done|].
    destruct (next_id_fresh b) as [Hv Hu]. exists (next_job b), (new_volume (next_id b) o).
    split_and!; [done|apply vs_ne|apply vs_ne| | | |exact Hu| |exact Hs].
    + apply vs_trim.
    + done.
    + done.
    + apply flush_quiet.
  - apply looked_lawful. intros t b. settled t b. simpl. destruct (b_volumes (settle t b) !! id) as [v|]; eauto.
    exists (shown v). by split_and!.
  - apply accepted_lawful. intros t b s' Hs Hp. flushed b Hs Hp; [done|by eexists].
  - apply looked_lawful. intros t b. settled t b. intros Hv. by rewrite none_named_true.
  - apply looked_lawful. intros t b. settled t b. apply job_status_answer.
  - apply looked_lawful. intros t b. settled t b. eexists. split; [done|]. apply listed_on_exact.
  - apply accepted_lawful. intros t b s' Hs Hp. flushed b Hs Hp. eexists.
    split_and!; [done|apply vs_blank| |exact Hs]. by exists "b"%char.
  - apply accepted_lawful. intros t b s' Hs Hp. flushed b Hs Hp. split_and!; [done|apply vs_blank|exact Hs].
  - apply looked_lawful. intros t b. settled t b. apply job_status_answer.
Defined.
