(* ===== verification/Mount.v ===== *)
(** * Host mounts (internal/mount/mount.go)

    Device discovery, formatting, mounting and unmounting through host commands. The
    kernel, the mount table and the commands are the class [Host]; every call to them
    leaves an event. *)

From S2P Require Import Prelude GoStrings GoErrors Runtime GoPath.

Local Open Scope stdpp_scope.
Local Open Scope go_scope.

(** ** Errors and constants *)

Definition ErrInvalidInput : sentinel := Sentinel "mount.ErrInvalidInput" "invalid input".
Definition ErrDeviceNotFound : sentinel := Sentinel "mount.ErrDeviceNotFound" "device not found".
Definition ErrDeviceIdentityUnverified : sentinel :=
  Sentinel "mount.ErrDeviceIdentityUnverified" "device identity not verified".
Definition ErrUnsupportedFilesystem : sentinel :=
  Sentinel "mount.ErrUnsupportedFilesystem" "unsupported filesystem type".
Definition ErrMountFailed : sentinel := Sentinel "mount.ErrMountFailed" "mount operation failed".
Definition ErrUnmountFailed : sentinel :=
  Sentinel "mount.ErrUnmountFailed" "unmount operation failed".
Definition ErrFilesystemMismatch : sentinel :=
  Sentinel "mount.ErrFilesystemMismatch" "filesystem type mismatch".
Definition ErrFilesystemFormatFailed : sentinel :=
  Sentinel "mount.ErrFilesystemFormatFailed" "filesystem format failed".
Definition ErrFilesystemDetectionFailed : sentinel :=
  Sentinel "mount.ErrFilesystemDetectionFailed" "filesystem detection failed".

Definition DefaultFilesystemType : string := "ext4".
Definition blkidNoFilesystem : Z := 2.
Definition virtioSerialMaxLen : nat := 20.
Definition mountPathPerm : Z := 488. (* 0o750 *)
Definition fsckErrorsUncorrected : Z := 4.
Definition umountNotMounted : string := "not mounted".
Definition bindRollbackTimeout : Z := 30 * Second.

Definition statfsReadOnly : Z := 1.
Definition statfsNoSUID : Z := 2.
Definition statfsNoDev : Z := 4.
Definition statfsNoExec : Z := 8.
Definition statfsNoATime : Z := 1024.
Definition statfsNoDirATime : Z := 2048.
Definition statfsRelATime : Z := 4096.
Definition statfsNoSymFollow : Z := 8192.

Definition bindRemountOptions : list (Z * string) :=
  [(statfsReadOnly, "ro"); (statfsNoSUID, "nosuid"); (statfsNoDev, "nodev");
   (statfsNoExec, "noexec"); (statfsNoATime, "noatime"); (statfsNoDirATime, "nodiratime");
   (statfsRelATime, "relatime"); (statfsNoSymFollow, "nosymfollow")].

Definition IsSupportedFilesystemType (fsType : string) : bool :=
  bool_decide (ToLower fsType = "ext4") || bool_decide (ToLower fsType = "xfs").

(** ** The host *)

Record Cmd := mkCmd {
  cmd_ctx : GoContext; cmd_name : string; cmd_args : list string; cmd_env : list string }.

(** The calls of packages os, path/filepath, syscall, k8s.io/utils/exec and
    k8s.io/mount-utils the driver makes on a node. A nil error is [None]. *)
Class Host (E : Type) := {
  os_Environ : list string;
  os_Stat : string -> prim E (option gerror);
  os_MkdirAll : string -> Z -> prim E (option gerror);
  os_OpenFile : string -> Z -> prim E (option gerror);
  file_Close : string -> prim E (option gerror);
  os_Remove : string -> prim E (option gerror);
  filepath_EvalSymlinks : string -> prim E (result string);
  exec_CombinedOutput : Cmd -> prim E (string * option gerror);
  table_IsMountPoint : string -> prim E (result bool);
  GetDeviceNameFromMount : string -> prim E (result string);
  IsCorruptedMnt : gerror -> bool;
  sys_statfs : string -> prim E (result Z) }.

Inductive HostCall :=
| HStat (path : string) (err : option gerror)
| HMkdirAll (path : string) (perm : Z) (err : option gerror)
| HOpenFile (path : string) (perm : Z) (err : option gerror)
| HClose (path : string) (err : option gerror)
| HRemove (path : string) (err : option gerror)
| HEvalSymlinks (path : string) (r : result string)
| HRun (cmd : Cmd) (out : string) (err : option gerror)
| HIsMountPoint (target : string) (r : result bool)
| HDeviceName (target : string) (r : result string)
| HStatfs (source : string) (r : result Z).

(** LinuxMounter; its other fields (the mount table, the command runner and statfs) are
    operations of [Host]. *)
Record LinuxMounter := mkLinuxMounter { devDir : string; diskByIDDir : string }.

Definition MounterOption : Type := LinuxMounter -> LinuxMounter.

Definition WithDiskByIDDir (dir : string) : MounterOption := fun m => mkLinuxMounter (devDir m) dir.
Definition WithDevDir (dir : string) : MounterOption := fun m => mkLinuxMounter dir (diskByIDDir m).

Definition NewLinuxMounter (opts : list MounterOption) : LinuxMounter :=
  fold_left (fun m opt => opt m) opts (mkLinuxMounter "/dev" "/dev/disk/by-id").

Section Mounter.
Context {E : Type} `{Host E}.
Variable m : LinuxMounter.
Abbreviation op A := (M E HostCall (result A)).

Definition stat (path : string) : M E HostCall (option gerror) :=
  call (os_Stat path) (HStat path).
Definition mkdir_all (path : string) (perm : Z) : M E HostCall (option gerror) :=
  call (os_MkdirAll path perm) (HMkdirAll path perm).

(** command(...).CombinedOutput(). *)
Definition command (ctx : GoContext) (name : string) (args : list string) : Cmd :=
  mkCmd ctx name args (os_Environ ++ ["LC_ALL=C"]).
Definition run (cmd : Cmd) : M E HostCall (string * option gerror) :=
  call (exec_CombinedOutput cmd) (fun r => HRun cmd r.1 r.2).

(** [if err := ctx.Err(); err != nil { return fmt.Errorf("<msg>: %w", err) }]. *)
Definition guard_ctx {A} (ctx : GoContext) (msg : string) (k : op A) : op A :=
  let! e := ctx_err ctx in
  match e with
  | Some e => ret (Err (wrapf (msg +:+ ": ") e))
  | None => k
  end.

Definition resolveSymlink (path : string) : M E HostCall string :=
  let! r := call (filepath_EvalSymlinks path) (HEvalSymlinks path) in
  ret (match r with Ok resolved => resolved | Err _ => path end).

(** ** Discovery *)

Definition holdsDevice (path : string) : bool :=
  if negb (IsAbs path) then false else
  match Rel (devDir m) (Clean path) with
  | Err _ => false
  | Ok rel =>
      negb (bool_decide (rel = ".")) && negb (bool_decide (rel = "..")) && negb (HasPrefix rel "../")
  end.

Definition serials (volumeID : string) : list string :=
  volumeID :: if (virtioSerialMaxLen <? String.length volumeID)%nat
              then [string_take virtioSerialMaxLen volumeID] else [].

(** The link names of both loops, in their order. *)
Definition link_names (volumeID : string) : list string :=
  flat_map (fun serial => [serial; "virtio-" +:+ serial; "nvme-" +:+ serial; "scsi-" +:+ serial])
    (serials volumeID).

Fixpoint existing_links (names : list string) : M E HostCall (list string) :=
  match names with
  | [] => ret []
  | name :: names =>
      let link := path_Join (diskByIDDir m) name in
      let! err := stat link in
      let! links := existing_links names in
      ret (match err with None => link :: links | Some _ => links end)
  end.

Definition serialLinks (volumeID : string) : M E HostCall (list string) :=
  existing_links (link_names volumeID).

(** The loop that stops at the first link that resolves elsewhere. *)
Fixpoint first_mismatch (published : string) (links : list string) :
    M E HostCall (option string) :=
  match links with
  | [] => ret None
  | link :: links =>
      let! resolved := resolveSymlink link in
      if negb (bool_decide (resolved = published)) then ret (Some link)
      else first_mismatch published links
  end.

Definition DiscoverDevice (ctx : GoContext) (volumeID publishedDevicePath : string) : op string :=
  if decide (volumeID = "") then ret (Err (failf ErrInvalidInput "volume identifier is empty")) else
  if decide (publishedDevicePath = "")
  then ret (Err (failf ErrInvalidInput "published device path is empty")) else
  guard_ctx ctx ("discover device for volume " +:+ volumeID) (
  if negb (holdsDevice publishedDevicePath) then
    ret (Err (failf ErrInvalidInput ("published device path " +:+ publishedDevicePath
                +:+ " is not a device in " +:+ devDir m))) else
  let! err := stat publishedDevicePath in
  match err with
  | Some _ =>
      ret (Err (failf ErrDeviceNotFound ("published device path " +:+ publishedDevicePath
                  +:+ " is not present on this node")))
  | None =>
      let! published := resolveSymlink publishedDevicePath in
      let! links := serialLinks volumeID in
      if (length links =? 0)%nat then
        ret (Err (failf ErrDeviceNotFound ("no " +:+ diskByIDDir m
                    +:+ " link identifies volume " +:+ volumeID))) else
      let! bad := first_mismatch published links in
      match bad with
      | Some link =>
          ret (Err (failf ErrDeviceIdentityUnverified (link +:+ " and published device path "
                      +:+ publishedDevicePath +:+ " name different devices")))
      | None => ret (Ok published)
      end
  end).

(** ** Mount points *)

Definition IsMountPoint (ctx : GoContext) (target : string) : op bool :=
  if decide (target = "") then ret (Err (failf ErrInvalidInput "target path is empty")) else
  guard_ctx ctx ("check mount point " +:+ target) (
  let! r := call (table_IsMountPoint target) (HIsMountPoint target) in
  match r with
  | Err err =>
      if Is err ErrNotExist then ret (Ok false) else
      if IsCorruptedMnt err then ret (Ok true) else
      ret (Err (wrapf ("failed to check mount point " +:+ target +:+ ": ") err))
  | Ok mounted => ret (Ok mounted)
  end).

Definition GetMountSource (ctx : GoContext) (target : string) : op string :=
  if decide (target = "") then ret (Err (failf ErrInvalidInput "target path is empty")) else
  guard_ctx ctx ("get mount source for " +:+ target) (
  let! r := call (GetDeviceNameFromMount target) (HDeviceName target) in
  match r with
  | Err err => ret (Err (wrapf ("failed to get device name for " +:+ target +:+ ": ") err))
  | Ok devName =>
      if decide (devName = "")
      then ret (Err (ENew ("mount source not found for target " +:+ target)))
      else ret (Ok devName)
  end).

(** ** Commands *)

Definition mount_args (source target fsType : string) (options : list string) : list string :=
  (if decide (fsType = "") then [] else ["-t"; fsType])
  ++ (if (0 <? length options)%nat then ["-o"; Join options ","] else [])
  ++ [source; target].

Definition runMount (ctx : GoContext) (source target fsType : string) (options : list string) :
    op unit :=
  let! r := run (command ctx "mount" (mount_args source target fsType options)) in
  let '(out, err) := r in
  match err with
  | None => ret (Ok tt)
  | Some err =>
      guard_ctx ctx ("mount " +:+ source +:+ " at " +:+ target) (
      ret (Err (failf ErrMountFailed ("failed to mount " +:+ source +:+ " at " +:+ target +:+ ": "
                  +:+ Error err +:+ ": " +:+ TrimSpace out))))
  end.

Definition Unmount (ctx : GoContext) (target : string) : op unit :=
  if decide (target = "") then ret (Err (failf ErrInvalidInput "target path is required")) else
  guard_ctx ctx ("unmount " +:+ target) (
  try! mounted := IsMountPoint ctx target in
  if negb mounted then ret (Ok tt) else
  let! r := run (command ctx "umount" [target]) in
  let '(out, err) := r in
  match err with
  | None => ret (Ok tt)
  | Some err =>
      guard_ctx ctx ("unmount " +:+ target) (
      if Contains (ToLower out) umountNotMounted then ret (Ok tt) else
      ret (Err (failf ErrUnmountFailed ("failed to unmount " +:+ target +:+ ": "
                  +:+ Error err +:+ ": " +:+ TrimSpace out))))
  end).

(** ** Filesystems *)

Definition GetFilesystemType (ctx : GoContext) (source : string) : op string :=
  if decide (source = "") then ret (Err (failf ErrInvalidInput "source path is empty")) else
  let! r := run (command ctx "blkid" ["-o"; "value"; "-s"; "TYPE"; source]) in
  let '(out, blkidErr) := r in
  match blkidErr with
  | None => ret (Ok (TrimSpace out))
  | Some blkidErr =>
      if bool_decide (as_exit_status blkidErr = Some blkidNoFilesystem) then ret (Ok "") else
      guard_ctx ctx ("detect filesystem on " +:+ source) (
      let! r := run (command ctx "lsblk" ["-no"; "FSTYPE"; source]) in
      let '(lsblkOut, lsblkErr) := r in
      match lsblkErr with
      | None => ret (Ok (TrimSpace lsblkOut))
      | Some lsblkErr =>
          guard_ctx ctx ("detect filesystem on " +:+ source) (
          ret (Err (failf ErrFilesystemDetectionFailed ("blkid on " +:+ source +:+ " failed ("
                      +:+ Error blkidErr +:+ ") and the lsblk fallback failed ("
                      +:+ Error lsblkErr +:+ ")"))))
      end)
  end.

Definition mkfs_args (source fsType : string) : option (list string) :=
  if decide (fsType = "ext4") then Some ["-F"; "-m0"; source] else
  if decide (fsType = "xfs") then Some ["-f"; source] else None.

Definition format (ctx : GoContext) (source fsType : string) : op unit :=
  match mkfs_args source fsType with
  | None =>
      ret (Err (failf ErrUnsupportedFilesystem (fsType +:+ " (supported: ext4, xfs)")))
  | Some args =>
      let! r := run (command ctx ("mkfs." +:+ fsType) args) in
      let '(out, err) := r in
      match err with
      | None => ret (Ok tt)
      | Some err =>
          guard_ctx ctx ("format " +:+ source +:+ " as " +:+ fsType) (
          ret (Err (failf ErrFilesystemFormatFailed ("failed to format " +:+ source +:+ " as "
                      +:+ fsType +:+ ": " +:+ Error err +:+ ": " +:+ TrimSpace out))))
      end
  end.

Definition checkFilesystem (ctx : GoContext) (source : string) : op unit :=
  let! r := run (command ctx "fsck" ["-a"; source]) in
  let '(out, err) := r in
  match err with
  | None => ret (Ok tt)
  | Some err =>
      guard_ctx ctx ("check filesystem on " +:+ source) (
      if bool_decide (as_exit_status err = Some fsckErrorsUncorrected) then
        ret (Err (failf ErrMountFailed ("fsck found errors on " +:+ source
                    +:+ " it could not correct: " +:+ TrimSpace out)))
      else ret (Ok tt))
  end.

(** ** Mounting *)

Definition bindFlavor (options : list string) : string :=
  default "" (find_first (fun o => bool_decide (o = "bind") || bool_decide (o = "rbind")) options).

Definition contains (l : list string) (x : string) : bool := bool_decide (x ∈ l).

(** The flags loop of sourceMountOptions. *)
Definition flag_options (flags : Z) : list string :=
  map snd (List.filter (fun p => (Z.land flags p.1 =? p.1)%Z) bindRemountOptions).

Definition sourceMountOptions (source : string) : op (list string) :=
  let! r := call (sys_statfs source) (HStatfs source) in
  ret (match r with Ok flags => Ok (flag_options flags) | Err err => Err err end).

(** One turn of the loop of remountBind over the source's and the caller's options. *)
Definition remount_step (sourceReadOnly : bool) (remountOptions : list string) (option : string) :
    list string :=
  if decide (option = "bind" \/ option = "rbind" \/ option = "remount") then remountOptions else
  if bool_decide (option = "rw") && sourceReadOnly then remountOptions else
  if negb (contains remountOptions option) then remountOptions ++ [option] else remountOptions.

Definition remount_options (sourceOptions options : list string) : list string :=
  fold_left (remount_step (contains sourceOptions "ro")) (sourceOptions ++ options)
    ["bind"; "remount"].

Definition remountBind (ctx : GoContext) (source target fsType : string) (options : list string) :
    op unit :=
  let! r := sourceMountOptions source in
  match r with
  | Err err =>
      ret (Err (failf ErrMountFailed ("failed to read the mount flags of " +:+ source +:+ ": "
                  +:+ Error err)))
  | Ok sourceOptions => runMount ctx source target fsType (remount_options sourceOptions options)
  end.

Definition rollBackBind (ctx : GoContext) (target : string) : M E HostCall unit :=
  with_timeout (WithoutCancel ctx) bindRollbackTimeout (fun ctx =>
  let! _ := Unmount ctx target in
  ret tt).

Definition bindMount (ctx : GoContext) (source target fsType flavor : string)
    (options : list string) : op unit :=
  let bindOptions := flavor :: (if contains options "_netdev" then ["_netdev"] else []) in
  try! _ := runMount ctx source target fsType bindOptions in
  let! r := remountBind ctx source target fsType options in
  match r with
  | Err err =>
      let! _ := rollBackBind ctx target in
      ret (Err err)
  | Ok _ => ret (Ok tt)
  end.

Definition mount (ctx : GoContext) (source target fsType : string) (options : list string) :
    op unit :=
  let flavor := bindFlavor options in
  if negb (bool_decide (flavor = "")) then bindMount ctx source target fsType flavor options
  else runMount ctx source target fsType options.

Definition Mount (ctx : GoContext) (source target fsType : string) (options : list string) :
    op unit :=
  if decide (source = "") then ret (Err (failf ErrInvalidInput "source path is required")) else
  if decide (target = "") then ret (Err (failf ErrInvalidInput "target path is required")) else
  guard_ctx ctx ("mount " +:+ source +:+ " at " +:+ target) (
  try! mounted := IsMountPoint ctx target in
  if mounted then
    (if negb (bool_decide (bindFlavor options = ""))
     then remountBind ctx source target fsType options else ret (Ok tt))
  else mount ctx source target fsType options).

(** The directory step of FormatAndMount. *)
Definition ensure_directory (target : string) : op unit :=
  let! err := stat target in
  match err with
  | None => ret (Ok tt)
  | Some err =>
      if IsNotExist err then
        let! err := mkdir_all target mountPathPerm in
        ret (match err with
             | None => Ok tt
             | Some err =>
                 Err (wrapf ("failed to create target directory " +:+ target +:+ ": ") err)
             end)
      else ret (Err (wrapf ("failed to stat target path " +:+ target +:+ ": ") err))
  end.

(** Formatting a blank device or checking a formatted one. *)
Definition prepare_filesystem (ctx : GoContext) (source existingFSType fsType : string)
    (readOnly : bool) : op unit :=
  if decide (existingFSType = "") then
    if readOnly
    then ret (Err (failf ErrMountFailed ("cannot mount unformatted device " +:+ source
                     +:+ " read-only")))
    else format ctx source fsType
  else if negb readOnly then checkFilesystem ctx source else ret (Ok tt).

Definition FormatAndMount (ctx : GoContext) (source target fsType : string)
    (options : list string) : op unit :=
  if decide (source = "") then ret (Err (failf ErrInvalidInput "source path is required")) else
  if decide (target = "") then ret (Err (failf ErrInvalidInput "target path is required")) else
  guard_ctx ctx ("format and mount " +:+ source +:+ " at " +:+ target) (
  let fsType := ToLower (if decide (fsType = "") then DefaultFilesystemType else fsType) in
  if negb (IsSupportedFilesystemType fsType)
  then ret (Err (failf ErrUnsupportedFilesystem (fsType +:+ " (supported: ext4, xfs)"))) else
  try! _ := ensure_directory target in
  try! mounted := IsMountPoint ctx target in
  if mounted then ret (Ok tt) else
  let! r := GetFilesystemType ctx source in
  match r with
  | Err err => ret (Err (wrapf ("failed to detect filesystem on " +:+ source +:+ ": ") err))
  | Ok existingFSType =>
      if negb (bool_decide (existingFSType = "")) && negb (bool_decide (existingFSType = fsType))
      then ret (Err (failf ErrFilesystemMismatch ("device " +:+ source +:+ " is formatted as "
                       +:+ existingFSType +:+ ", requested " +:+ fsType)))
      else
        let readOnly := contains options "ro" in
        try! _ := prepare_filesystem ctx source existingFSType fsType readOnly in
        mount ctx source target fsType (options ++ ["defaults"])
  end).
End Mounter.

(** ** The device directory *)

Lemma strip_common_spec base targ b t :
  strip_common base targ = (b, t) ->
  exists pre, base = pre ++ b /\ targ = pre ++ t
    /\ match b, t with x :: _, y :: _ => x <> y | _, _ => True end.
Proof.
  revert targ. induction base as [|x base IH]; intros [|y targ]; simpl; intros Hs; simplify_eq;
    [by exists []..|].
  destruct (decide (x = y)) as [->|]; simplify_eq; [|by exists []].
  destruct (IH targ Hs) as (pre & -> & -> & ?). by exists (y :: pre).
Qed.

Lemma abs_names path x : IsAbs path = true -> x ∈ elems path ->
  x <> "." /\ x <> ".." /\ contains_byte slash x = false.
Proof.
  intros Ha Hx. destruct (elems_kept path) as (kept & Hk & Hel). rewrite Ha in Hk. rewrite Hel in Hx.
  rewrite list_elem_of_In, <-in_rev, <-list_elem_of_In in Hx. clear Hel. induction Hk; [|..|done].
  - by apply elem_of_nil in Hx.
  - apply elem_of_cons in Hx as [->|Hx]; auto.
Qed.

Lemma Join_names t (Hne : t <> []) :
  Forall (fun x => x <> "." /\ x <> ".." /\ contains_byte slash x = false) t ->
  Join t "/" <> "." /\ Join t "/" <> ".." /\ HasPrefix (Join t "/") "../" = false.
Proof.
  intros Ht. assert (split_on slash (Join t "/") = t) as Hs.
  { apply split_on_Join; [done|]. eapply Forall_impl; [|exact Ht]. simpl. tauto. }
  destruct t as [|x t]; [done|]. apply Forall_cons_iff in Ht as [(H1 & H2 & _) _].
  split_and!.
  - intros Hj. rewrite Hj in Hs. by injection Hs as <-.
  - intros Hj. rewrite Hj in Hs. by injection Hs as <-.
  - destruct (HasPrefix _ _) eqn:Hp; [|done]. apply HasPrefix_spec in Hp as [u Hp].
    rewrite Hp in Hs. change ("../" +:+ u) with (".." +:+ String slash u) in Hs.
    rewrite split_on_app in Hs by done. by injection Hs as <-.
Qed.

Lemma climbs l : Join (".." :: l) "/" = ".." \/ HasPrefix (Join (".." :: l) "/") "../" = true.
Proof. destruct l as [|y l]; [by left|right]. apply HasPrefix_spec. by eexists. Qed.

Lemma holdsDevice_spec m path :
  holdsDevice m path = true <->
  IsAbs (devDir m) = true /\ IsAbs path = true
  /\ exists rest, rest <> [] /\ elems path = elems (devDir m) ++ rest.
Proof.
  unfold holdsDevice, Rel. destruct (IsAbs path) eqn:Ep; simpl negb; cbn beta iota; [|intuition congruence].
  destruct (IsAbs (devDir m)) eqn:Ed; simpl negb; cbn beta iota; [|intuition congruence].
  destruct (Clean_facts path) as (Hc1 & _ & Hc3). destruct (Clean_facts (devDir m)) as (_ & _ & Hd3).
  rewrite Hc1, Hc3. destruct (decide (Clean path = Clean (devDir m))) as [Heq|Heq].
  { simpl. split; [done|]. intros (_ & _ & rest & Hne & Hrest).
    assert (elems path = elems (devDir m)) as Hel by congruence. rewrite Hel in Hrest.
    rewrite <-(app_nil_r (elems (devDir m))) in Hrest at 1. by apply app_inv_head in Hrest. }
  assert (elems path <> elems (devDir m)) as Hnel.
  { intros Hel. apply Heq. unfold Clean. by rewrite Ep, Ed, Hel. }
  destruct (strip_common _ _) as [b t] eqn:Es. apply strip_common_spec in Es as (pre & Hb & Ht & Hhd).
  destruct b as [|x b].
  - rewrite app_nil_r in Hb. subst pre. assert (t <> []) as Hne.
    { intros ->. by rewrite app_nil_r in Ht. }
    assert (Forall (fun x => x <> "." /\ x <> ".." /\ contains_byte slash x = false) t) as Hnames.
    { apply list.Forall_forall. intros x Hx. apply (abs_names path); [done|]. rewrite Ht. in_list. }
    destruct (Join_names t Hne Hnames) as (H1 & H2 & H3). simpl.
    rewrite !bool_decide_false, H3 by done. split; [|done]. eauto.
  - change (map (fun _ => "..") (x :: b) ++ t) with (".." :: map (fun _ => "..") b ++ t). split.
    + intros Hr. exfalso. rewrite !andb_true_iff, !negb_true_iff, !bool_decide_eq_false in Hr.
      destruct (climbs (map (fun _ => "..") b ++ t)) as [Hup|Hup]; [tauto|]. rewrite Hup in Hr. by destruct Hr.
    + intros (_ & _ & rest & Hne & Hrest). exfalso. rewrite Hb, Ht, <-app_assoc in Hrest.
      apply app_inv_head in Hrest. subst t. by destruct Hhd.
Qed.

(** holdsDevice accepts exactly the absolute paths that, once cleaned, lie strictly below
    the device directory; no path climbs out of it. *)
Theorem holdsDevice_below m path :
  holdsDevice m path = true <->
  IsAbs (devDir m) = true /\ IsAbs path = true
  /\ exists rest, rest <> [] /\ elems path = elems (devDir m) ++ rest.
Proof. apply holdsDevice_spec. Qed.
