(* ===== verification/MountSpec.v ===== *)
(** * What the host mounter guarantees

    Rules for the operations of [Mount], the reference description of the remount
    options, and the properties. *)

From S2P Require Import Prelude GoStrings GoErrors Runtime GoPath Mount.

Local Open Scope stdpp_scope.
Local Open Scope go_scope.

(** ** Reading events *)

(** What a mount table answer means. *)
Definition reads_mounted `{Host E} (r : result bool) : result bool :=
  match r with
  | Ok b => Ok b
  | Err e => if Is e ErrNotExist then Ok false else if IsCorruptedMnt e then Ok true else Err e
  end.

(** ** The options of a mount command *)

(** The options mount(8) reads from its -o argument: the words between the commas. (The
    utility also lets a quoted value hold commas; such values are split here.) *)
Definition read_options (options : list string) : list string :=
  match options with [] => [] | _ => split_on ","%char (Join options ",") end.

Lemma read_options_words options : read_options options = concat (map (split_on ","%char) options).
Proof. destruct options; [done|]. by apply split_on_Join_words. Qed.

Lemma read_options_app options options' :
  read_options (options ++ options') = read_options options ++ read_options options'.
Proof. by rewrite !read_options_words, map_app, concat_app. Qed.

Lemma read_options_plain options :
  Forall (fun o => contains_byte ","%char o = false) options -> read_options options = options.
Proof.
  intros Ho. rewrite read_options_words. induction Ho as [|o options Ho _ IH]; [done|].
  simpl. by rewrite split_on_whole, IH.
Qed.

Lemma elem_of_read_options o options :
  contains_byte ","%char o = false -> o ∈ options -> o ∈ read_options options.
Proof.
  intros Ho Hin. rewrite read_options_words, list_elem_of_In. apply in_concat. exists [o].
  split; [|by left]. apply in_map_iff. exists o. split; [by apply split_on_whole|by apply list_elem_of_In].
Qed.

(** The access that the last of the options to set it asks for; mount(8) applies that one. *)
Definition sets_access (o : string) : bool := bool_decide (o = "ro") || bool_decide (o = "rw").

Definition last_access (options : list string) : option string := find_first sets_access (rev options).

Lemma sets_access_true o : sets_access o = true <-> o = "ro" \/ o = "rw".
Proof. unfold sets_access. by rewrite orb_true_iff, !bool_decide_eq_true. Qed.

Lemma find_first_or {A} (p : A -> bool) l l' :
  find_first p (l ++ l') = match find_first p l with Some x => Some x | None => find_first p l' end.
Proof. induction l as [|y l IH]; simpl; [done|]. by destruct (p y). Qed.

Lemma last_access_app l l' :
  last_access (l ++ l') = match last_access l' with Some x => Some x | None => last_access l end.
Proof. unfold last_access. by rewrite rev_app_distr, find_first_or. Qed.

Lemma last_access_Some l o : last_access l = Some o -> o ∈ l /\ (o = "ro" \/ o = "rw").
Proof.
  unfold last_access. intros [Ho Hs]%find_first_elem. split; [|by apply sets_access_true].
  by rewrite list_elem_of_In, in_rev, <-list_elem_of_In.
Qed.

Lemma last_access_None l : last_access l = None <-> ("ro" ∉ l) /\ ("rw" ∉ l).
Proof.
  unfold last_access. rewrite find_first_None, list.Forall_forall. setoid_rewrite list_elem_of_In.
  setoid_rewrite <-in_rev. setoid_rewrite <-list_elem_of_In. split.
  - intros Hl. split; intros Hin; by apply Hl in Hin.
  - intros [Hro Hrw] x Hx. apply not_true_is_false. by intros [->| ->]%sets_access_true.
Qed.

(** The only access a list asks for is the last. *)
Lemma last_access_ro l : "ro" ∈ l -> "rw" ∉ l -> last_access l = Some "ro".
Proof.
  intros Hro Hrw. destruct (last_access l) as [o|] eqn:El.
  - by apply last_access_Some in El as [Ho [->| ->]].
  - by apply last_access_None in El as [? _].
Qed.

Lemma last_access_rw l : "rw" ∈ l -> "ro" ∉ l -> last_access l = Some "rw".
Proof.
  intros Hrw Hro. destruct (last_access l) as [o|] eqn:El.
  - by apply last_access_Some in El as [Ho [->| ->]].
  - by apply last_access_None in El as [_ ?].
Qed.

(** Options without an access may be dropped. *)
Lemma last_access_filter p l :
  (forall o, o ∈ l -> p o = false -> last_access (split_on ","%char o) = None) ->
  last_access (read_options (List.filter p l)) = last_access (read_options l).
Proof.
  rewrite !read_options_words. induction l as [|o l IH]; intros Hp; [done|]. simpl.
  assert (last_access (concat (map (split_on ","%char) (List.filter p l)))
    = last_access (concat (map (split_on ","%char) l))) as IH'.
  { apply IH. intros o' Ho'. apply Hp. by right. }
  destruct (p o) eqn:Eo; simpl; rewrite !last_access_app, IH'; [done|].
  rewrite Hp by (done || apply list_elem_of_here). by case_match.
Qed.

(** ** Events of interest *)

(** A command that writes a filesystem. *)
Definition formats (ev : HostCall) : bool :=
  match ev with HRun cmd _ _ => HasPrefix (cmd_name cmd) "mkfs." | _ => false end.

Abbreviation harmless evs := (Forall (fun ev => formats ev = false) evs).

Definition blkid_args (source : string) : list string := ["-o"; "value"; "-s"; "TYPE"; source].
Definition lsblk_args (source : string) : list string := ["-no"; "FSTYPE"; source].

(** The event shows that [source] holds the filesystem [t], or none when [t] is empty. *)
Definition shows (source t : string) (ev : HostCall) : Prop :=
  exists cmd out err, ev = HRun cmd out err /\
    ((err = None /\ t = TrimSpace out
      /\ (cmd_name cmd = "blkid" /\ cmd_args cmd = blkid_args source
          \/ cmd_name cmd = "lsblk" /\ cmd_args cmd = lsblk_args source))
     \/ (exists e, err = Some e /\ t = "" /\ as_exit_status e = Some blkidNoFilesystem
         /\ cmd_name cmd = "blkid" /\ cmd_args cmd = blkid_args source)).

(** The mount command of a step. *)
Definition mount_cmd `{Host E} (ctx : GoContext) (source target fsType : string)
    (options : list string) : Cmd := command ctx "mount" (mount_args source target fsType options).

(** A successful mount command. *)
Definition mounts (source target fsType : string) (ev : HostCall) : Prop :=
  exists cmd out options, ev = HRun cmd out None /\ cmd_name cmd = "mount"
    /\ cmd_args cmd = mount_args source target fsType options.

(** ** Rules *)

Section Rules.
Context {E : Type} `{Host E}.
Abbreviation post A := (A -> list HostCall -> World E HostCall -> Prop).

Lemma wp_guard_ctx {A} ctx msg (k : M E HostCall (result A)) (Q : post (result A)) w :
  (forall e, ctx_err_at ctx (clock w) = Some e -> Q (Err (wrapf (msg +:+ ": ") e)) [] w) ->
  (ctx_err_at ctx (clock w) = None -> wp k Q w) ->
  wp (guard_ctx ctx msg k) Q w.
Proof.
  intros He Hk. unfold guard_ctx. do 2 wp_step. destruct (ctx_err_at _ _) eqn:E1.
  - wp_step. by apply He.
  - by apply Hk.
Qed.

Lemma wp_run cmd (Q : post (string * option gerror)) w :
  (forall out err w', (clock w <= clock w')%Z -> Q (out, err) [HRun cmd out err] w') ->
  wp (run cmd) Q w.
Proof. intros HQ. apply wp_call. intros [out err] w' Hw'. by apply HQ. Qed.

Lemma wp_runMount ctx source target fsType options (Q : post (result unit)) w :
  (forall r out err w', (clock w <= clock w')%Z -> (r = Ok tt <-> err = None) ->
     Q r [HRun (mount_cmd ctx source target fsType options) out err] w') ->
  wp (runMount ctx source target fsType options) Q w.
Proof.
  intros HQ. unfold runMount. wp_step. apply wp_run. intros out [err|] w' Hw'.
  - apply wp_guard_ctx; intros; [|wp_step]; by apply HQ.
  - wp_step. by apply HQ.
Qed.

(** A lookup of the mount table either did not happen, or is the one event. *)
Lemma wp_IsMountPoint ctx target (Q : post (result bool)) w :
  (forall e, target = "" \/ is_Some (ctx_err_at ctx (clock w)) -> Q (Err e) [] w) ->
  (forall a r w', target <> "" -> (clock w <= clock w')%Z ->
     (forall b, r = Ok b <-> reads_mounted a = Ok b) -> Q r [HIsMountPoint target a] w') ->
  wp (IsMountPoint ctx target) Q w.
Proof.
  intros He Ha. unfold IsMountPoint. destruct (decide (target = "")); [wp_step; auto|].
  apply wp_guard_ctx; [intros e Hc; apply He; rewrite Hc; eauto|]. intros _. wp_step. apply wp_call.
  intros [b|e] w' Hw'; [wp_step; by apply Ha|].
  destruct (Is e ErrNotExist) eqn:E1; [|destruct (IsCorruptedMnt e) eqn:E2]; wp_step;
    apply Ha; try done; intros b; simpl; by rewrite E1, ?E2.
Qed.

(** Unmounting: nothing happens on a path that is not mounted, and success means that it
    is not, that umount succeeded, or that it found nothing mounted. *)
Definition umounts (target : string) (ev : HostCall) : Prop :=
  exists cmd out err, ev = HRun cmd out err /\ cmd_name cmd = "umount" /\ cmd_args cmd = [target].

Definition unmount_spec (ctx : GoContext) (target : string) (live : bool) (r : result unit)
    (evs : list HostCall) : Prop :=
  (evs = [] /\ r <> Ok tt /\ live = false)
  \/ (exists a, target <> "" /\ (evs = [HIsMountPoint target a] /\ reads_mounted a <> Ok true
        /\ (r = Ok tt <-> reads_mounted a = Ok false)))
  \/ (exists a cmd out err, evs = [HIsMountPoint target a; HRun cmd out err]
        /\ reads_mounted a = Ok true /\ cmd = command ctx "umount" [target]
        /\ (r = Ok tt -> err = None \/ Contains (ToLower out) umountNotMounted = true)
        /\ (err = None -> r = Ok tt)).

Definition live_at (ctx : GoContext) (t : Z) : bool :=
  match ctx_err_at ctx t with Some _ => false | None => true end.

Lemma wp_Unmount ctx target w :
  wp (Unmount ctx target) (fun r evs _ =>
    unmount_spec ctx target (live_at ctx (clock w) && negb (bool_decide (target = ""))) r evs) w.
Proof.
  unfold Unmount, live_at. destruct (decide (target = "")) as [->|Ht].
  { wp_step. left. by rewrite andb_false_r. }
  apply wp_guard_ctx; [intros e Hc; left; by rewrite Hc|]. intros Hc. wp_step.
  apply wp_IsMountPoint; [intros e [?|[? Hs]]; congruence|].
  intros a r w1 _ Hw1 Hr. destruct r as [b|e].
  2: { right; left. exists a. split; [done|]. split; [done|].
       split; [|split; [done|]]; intros Ha; by apply Hr in Ha. }
  assert (reads_mounted a = Ok b) as Ha by (by apply Hr). destruct b; simpl.
  - wp_step. apply wp_run. intros out [err|] w2 _.
    + apply wp_guard_ctx.
      * intros e _. right; right. by exists a, (command ctx "umount" [target]), out, (Some err).
      * intros _. destruct (Contains _ _) eqn:Ec; wp_step; right; right;
          exists a, (command ctx "umount" [target]), out, (Some err); split_and!; auto; done.
    + wp_step. right; right. exists a, (command ctx "umount" [target]), out, None. split_and!; auto.
  - wp_step. right; left. exists a. split_and!; [done|done|by rewrite Ha|by rewrite Ha].
Qed.

(** *** Binds *)

Definition remount_spec (ctx : GoContext) (source target fsType : string) (options : list string)
    (r : result unit) (evs : list HostCall) : Prop :=
  (exists e, evs = [HStatfs source (Err e)] /\ r <> Ok tt)
  \/ (exists flags out err,
        evs = [HStatfs source (Ok flags);
               HRun (mount_cmd ctx source target fsType
                       (remount_options (flag_options flags) options)) out err]
        /\ (r = Ok tt <-> err = None)).

Lemma wp_remountBind ctx source target fsType options w :
  wp (remountBind ctx source target fsType options)
    (fun r evs w' => remount_spec ctx source target fsType options r evs
       /\ (clock w <= clock w')%Z) w.
Proof.
  unfold remountBind, sourceMountOptions. do 2 wp_step. apply wp_call. intros [flags|e] w1 Hw1; wp_step.
  - apply wp_runMount. intros r out err w2 Hw2 Hr. split; [|lia]. right. by exists flags, out, err.
  - wp_step. split; [|done]. left. by exists e.
Qed.

(** The rollback: a fresh context, so that the mount table is always consulted. *)
Definition rollback_spec (target : string) (evs : list HostCall) : Prop :=
  target = "" \/ exists d, (exists a, evs = [HIsMountPoint target a] /\ reads_mounted a <> Ok true)
    \/ (exists a out err, evs = [HIsMountPoint target a;
                                HRun (command (mkContext (Some d) None) "umount" [target]) out err]).

Lemma wp_rollBackBind ctx target w :
  wp (rollBackBind ctx target) (fun _ evs _ => rollback_spec target evs) w.
Proof.
  unfold rollBackBind, WithoutCancel. do 2 wp_step.
  set (d := (clock w + bindRollbackTimeout)%Z). eapply wp_mono; [apply wp_Unmount|].
  intros r evs w1 _ Hu. wp_step. unfold rollback_spec.
  destruct (decide (target = "")) as [|Ht]; [by left|right]. exists d.
  destruct Hu as [(_ & _ & Hlive)|[(a & _ & -> & Ha & _)|(a & cmd & out & err & -> & _ & -> & _)]].
  - exfalso. rewrite bool_decide_false, andb_true_r in Hlive by done. revert Hlive.
    unfold live_at, ctx_err_at, done_at, cancel_first. simpl.
    destruct (Z.leb_spec d (clock w)) as [Hd|]; [|done]. unfold d, bindRollbackTimeout, Second, Millisecond in Hd. lia.
  - left. by exists a.
  - right. by exists a, out, err.
Qed.

Definition bind_options (flavor : string) (options : list string) : list string :=
  flavor :: (if contains options "_netdev" then ["_netdev"] else []).

Definition bind_spec (ctx : GoContext) (source target fsType flavor : string)
    (options : list string) (r : result unit) (evs : list HostCall) : Prop :=
  exists out err rest,
    evs = HRun (mount_cmd ctx source target fsType (bind_options flavor options)) out err :: rest
    /\ (err <> None -> rest = [] /\ r <> Ok tt)
    /\ (err = None -> exists r' rem roll, rest = rem ++ roll
         /\ remount_spec ctx source target fsType options r' rem
         /\ (r' = Ok tt -> r = Ok tt /\ roll = [])
         /\ (r' <> Ok tt -> r = r' /\ rollback_spec target roll)).

Lemma wp_bindMount ctx source target fsType flavor options w :
  wp (bindMount ctx source target fsType flavor options)
    (fun r evs _ => bind_spec ctx source target fsType flavor options r evs) w.
Proof.
  unfold bindMount. wp_step. apply wp_runMount. intros r out err w1 Hw1 Hr. destruct r as [[]|e].
  2: { exists out, err, []. split; [done|]. split; [done|]. intros Herr%Hr. done. }
  assert (err = None) as -> by (by apply Hr). wp_step. eapply wp_mono; [apply wp_remountBind|].
  intros r rem w2 _ [Hrem _]. destruct r as [[]|e].
  - wp_step. exists out, None, rem. split; [done|]. split; [done|]. intros _.
    exists (Ok tt), rem, []. by rewrite app_nil_r.
  - wp_step. eapply wp_mono; [apply wp_rollBackBind|]. intros [] roll w3 _ Hroll. wp_step.
    exists out, None, (rem ++ roll). split; [done|]. split; [done|]. intros _.
    by exists (Err e), rem, roll.
Qed.

Lemma harmless_remount ctx source target fsType options r evs :
  remount_spec ctx source target fsType options r evs -> harmless evs.
Proof. intros [(e & -> & _)|(flags & out & err & -> & _)]; by repeat constructor. Qed.

Lemma harmless_rollback target evs : rollback_spec target evs -> target <> "" -> harmless evs.
Proof.
  intros [?|(d & [(a & -> & _)|(a & out & err & ->)])] ?; [done|..]; by repeat constructor.
Qed.

Lemma remount_ok ctx source target fsType options evs :
  remount_spec ctx source target fsType options (Ok tt) evs ->
  exists pre ev, evs = pre ++ [ev] /\ mounts source target fsType ev.
Proof.
  intros [(e & _ & ?)|(flags & out & err & -> & Hr)]; [done|]. assert (err = None) as -> by (by apply Hr).
  exists [HStatfs source (Ok flags)]. eexists. split; [done|]. by do 3 eexists.
Qed.

(** Mounting, by either path. *)
Lemma wp_mount ctx source target fsType options w :
  target <> "" ->
  wp (mount ctx source target fsType options) (fun r evs _ => harmless evs /\
    (r = Ok tt -> exists pre ev, evs = pre ++ [ev] /\ mounts source target fsType ev)) w.
Proof.
  intros Ht. unfold mount. destruct (negb _).
  - eapply wp_mono; [apply wp_bindMount|]. intros r evs w1 _ (out & err & rest & -> & Hf & Hs).
    destruct err as [e|].
    { destruct (Hf ltac:(done)) as [-> Hr]. split; [by repeat constructor|done]. }
    destruct (Hs eq_refl) as (r' & rem & roll & -> & Hrem & Hok & Herr).
    pose proof (harmless_remount _ _ _ _ _ _ _ Hrem). destruct r' as [[]|e'].
    + destruct (Hok eq_refl) as [-> ->]. rewrite app_nil_r. split; [by constructor|]. intros _.
      apply remount_ok in Hrem as (pre & ev & -> & Hev). by eexists (_ :: pre), ev.
    + destruct (Herr ltac:(done)) as [-> Hroll]. split; [|done]. constructor; [done|].
      apply Forall_app. split; [done|by apply (harmless_rollback target)].
  - apply wp_runMount. intros r out err w1 _ Hr. split; [by repeat constructor|].
    intros ->. assert (err = None) as -> by (by apply Hr). exists []. eexists. split; [done|]. by do 3 eexists.
Qed.

(** Mount with bind options: a target that is mounted already is remounted only. *)
Definition bound_spec (ctx : GoContext) (source target fsType : string) (options : list string)
    (r : result unit) (evs : list HostCall) : Prop :=
  (r <> Ok tt /\ (evs = [] \/ exists a, evs = [HIsMountPoint target a]))
  \/ exists a rest, evs = HIsMountPoint target a :: rest /\
       ((reads_mounted a = Ok true /\ remount_spec ctx source target fsType options r rest)
        \/ (reads_mounted a = Ok false
            /\ bind_spec ctx source target fsType (bindFlavor options) options r rest)).

Lemma wp_Mount_bind ctx source target fsType options w :
  bindFlavor options <> "" ->
  wp (Mount ctx source target fsType options)
    (fun r evs _ => bound_spec ctx source target fsType options r evs) w.
Proof.
  intros Hf. unfold Mount, mount. rewrite (bool_decide_false _ Hf). cbn [negb].
  assert (forall e, bound_spec ctx source target fsType options (Err e) []) as Hnone by (left; auto).
  destruct (decide (source = "")); [wp_step; apply Hnone|].
  destruct (decide (target = "")); [wp_step; apply Hnone|].
  apply wp_guard_ctx; [auto|]. intros _. wp_step.
  apply wp_IsMountPoint; [intros; apply Hnone|]. intros a r w1 _ _ Ha.
  destruct r as [[]|e]; [| |left; split; [done|right; by exists a]].
  - eapply wp_mono; [apply wp_remountBind|]. intros r rest w2 _ [Hr _]. right. exists a, rest.
    split; [done|]. left. split; [by apply Ha|done].
  - eapply wp_mono; [apply wp_bindMount|]. intros r rest w2 _ Hr. right. exists a, rest.
    split; [done|]. right. split; [by apply Ha|done].
Qed.

(** *** Detecting and preparing a filesystem *)

Definition detect_spec (source : string) (r : result string) (evs : list HostCall) : Prop :=
  harmless evs /\ (forall t, r = Ok t -> exists pre ev, evs = pre ++ [ev] /\ shows source t ev).

Lemma wp_GetFilesystemType ctx source w :
  wp (GetFilesystemType ctx source) (fun r evs _ => detect_spec source r evs) w.
Proof.
  unfold GetFilesystemType. destruct (decide (source = "")); [by wp_step|].
  wp_step. apply wp_run. intros out err w1 _.
  set (cmd := command ctx "blkid" _). destruct err as [e|]; cbn beta iota zeta.
  2: { wp_step. split; [by repeat constructor|]. intros t [= <-]. exists [], (HRun cmd out None).
       split; [done|]. exists cmd, out, None. split; [done|]. left. auto. }
  case_bool_decide as Hx.
  { wp_step. split; [by repeat constructor|]. intros t [= <-]. exists [], (HRun cmd out (Some e)).
    split; [done|]. exists cmd, out, (Some e). split; [done|]. right. by exists e. }
  apply wp_guard_ctx; [intros; split; [by repeat constructor|done]|]. intros _.
  wp_step. apply wp_run. intros out2 [e2|] w2 _; cbn beta iota zeta.
  - apply wp_guard_ctx; intros; [|wp_step]; (split; [by repeat constructor|done]).
  - wp_step. split; [by repeat constructor|]. intros t [= <-].
    exists [HRun cmd out (Some e)]. eexists. split; [done|].
    do 3 eexists. split; [done|]. left. auto.
Qed.

(** The one mkfs command formatting may run. *)
Definition mkfs_run (source fsType : string) (ev : HostCall) : Prop :=
  exists cmd out err args, ev = HRun cmd out err /\ cmd_name cmd = "mkfs." +:+ fsType
    /\ mkfs_args source fsType = Some args /\ cmd_args cmd = args.

Definition prepare_spec (source existing fsType : string) (readOnly : bool) (r : result unit)
    (evs : list HostCall) : Prop :=
  (length evs <= 1)%nat /\ (existing <> "" \/ readOnly = true -> harmless evs)
  /\ Forall (fun ev => formats ev = true -> mkfs_run source fsType ev) evs
  /\ (existing = "" -> r = Ok tt -> exists ev, evs = [ev] /\ mkfs_run source fsType ev).

Lemma wp_prepare ctx source existing fsType readOnly w :
  wp (prepare_filesystem ctx source existing fsType readOnly)
    (fun r evs _ => prepare_spec source existing fsType readOnly r evs) w.
Proof.
  assert (forall r, r <> Ok tt \/ existing <> "" ->
    prepare_spec source existing fsType readOnly r []) as Hnone.
  { intros r Hr. split_and!; [simpl; lia|done|done|]. by destruct Hr. }
  unfold prepare_filesystem. destruct (decide (existing = "")) as [->|Hex].
  - destruct readOnly; [wp_step; apply Hnone; by left|]. unfold format.
    destruct (mkfs_args source fsType) as [args|] eqn:Ea; [|wp_step; apply Hnone; by left].
    wp_step. apply wp_run. intros out err w1 _.
    set (cmd := command ctx _ args).
    assert (forall r, prepare_spec source "" fsType false r [HRun cmd out err]) as Hone.
    { assert (mkfs_run source fsType (HRun cmd out err)) as Hm by (by exists cmd, out, err, args).
      intros r. split_and!; [done|by intros [|]|by repeat constructor|by eexists]. }
    destruct err; [|wp_step; apply Hone]. apply wp_guard_ctx; intros; [|wp_step]; apply Hone.
  - destruct readOnly; simpl; [wp_step; apply Hnone; by right|]. unfold checkFilesystem.
    wp_step. apply wp_run. intros out err w1 _.
    assert (forall r, prepare_spec source existing fsType false r
      [HRun (command ctx "fsck" ["-a"; source]) out err]) as Hone.
    { intros r. split_and!; [done|by repeat constructor|by repeat constructor|done]. }
    destruct err; [|wp_step; apply Hone].
    apply wp_guard_ctx; [intros; apply Hone|]. intros _. case_bool_decide; wp_step; apply Hone.
Qed.

(** *** Formatting and mounting *)

Lemma wp_ensure_directory target w :
  wp (ensure_directory target) (fun r evs w' => harmless evs) w.
Proof.
  unfold ensure_directory, stat, mkdir_all. wp_step. apply wp_call. intros [e|] w1 _.
  - destruct (IsNotExist e); [|wp_step; by repeat constructor].
    wp_step. apply wp_call. intros [e2|] w2 _; wp_step; by repeat constructor.
  - wp_step. by repeat constructor.
Qed.

(** What a run of FormatAndMount did, by how far it went. *)
Inductive format_outcome (source target fsType : string) (options : list string) :
    result unit -> list HostCall -> Prop :=
| fm_refused e evs : harmless evs -> format_outcome source target fsType options (Err e) evs
| fm_mounted evs a : harmless evs -> reads_mounted a = Ok true ->
    format_outcome source target fsType options (Ok tt) (evs ++ [HIsMountPoint target a])
| fm_prepared e evs0 a evs1 existing evs2 :
    harmless evs0 -> reads_mounted a = Ok false -> detect_spec source (Ok existing) evs1 ->
    existing = "" \/ existing = fsType ->
    prepare_spec source existing fsType (contains options "ro") (Err e) evs2 ->
    format_outcome source target fsType options (Err e)
      (evs0 ++ HIsMountPoint target a :: evs1 ++ evs2)
| fm_mount r evs0 a evs1 existing evs2 evs3 :
    harmless evs0 -> reads_mounted a = Ok false -> detect_spec source (Ok existing) evs1 ->
    existing = "" \/ existing = fsType ->
    prepare_spec source existing fsType (contains options "ro") (Ok tt) evs2 ->
    harmless evs3 ->
    (r = Ok tt -> exists pre ev, evs3 = pre ++ [ev] /\ mounts source target fsType ev) ->
    format_outcome source target fsType options r
      (evs0 ++ HIsMountPoint target a :: evs1 ++ evs2 ++ evs3).

Definition effective_type (fsType : string) : string :=
  ToLower (if decide (fsType = "") then DefaultFilesystemType else fsType).

Lemma wp_FormatAndMount ctx source target fsType options w :
  wp (FormatAndMount ctx source target fsType options)
    (fun r evs _ => format_outcome source target (effective_type fsType) options r evs) w.
Proof.
  unfold FormatAndMount. fold (effective_type fsType).
  destruct (decide (source = "")); [wp_step; by constructor|].
  destruct (decide (target = "")) as [|Ht]; [wp_step; by constructor|].
  apply wp_guard_ctx; [by constructor|]. intros _. cbv zeta. fold (effective_type fsType).
  set (fs := effective_type fsType). destruct (negb (IsSupportedFilesystemType fs)); [wp_step; by constructor|].
  wp_step. eapply wp_mono; [apply wp_ensure_directory|]. intros [[]|e] evs0 w1 _ Hevs0; [|by constructor].
  wp_step. apply wp_IsMountPoint; [intros; apply fm_refused; by rewrite app_nil_r|].
  intros a r w2 _ _ Ha. destruct r as [b|e].
  2: { apply fm_refused. apply Forall_app. split; [done|by repeat constructor]. }
  assert (reads_mounted a = Ok b) as Hb by (by apply Ha).
  destruct b; [wp_step; by apply fm_mounted|].
  wp_step. eapply wp_mono; [apply wp_GetFilesystemType|]. intros r evs1 w3 _ Hdet.
  destruct r as [existing|e]; cbn beta iota.
  2: { wp_step. apply fm_refused. apply Forall_app. split; [done|]. constructor; [done|apply Hdet]. }
  destruct (decide (existing = "" \/ existing = fs)) as [Hex|Hex].
  2: { rewrite !bool_decide_false by tauto. cbn [negb andb]. wp_step. apply fm_refused. apply Forall_app.
       split; [done|]. constructor; [done|apply Hdet]. }
  assert (negb (bool_decide (existing = "")) && negb (bool_decide (existing = fs)) = false) as ->.
  { destruct Hex; [by rewrite bool_decide_true|].
    rewrite (bool_decide_true (existing = fs)) by done. by rewrite andb_false_r. }
  wp_step. eapply wp_mono; [apply wp_prepare|]. intros r evs2 w4 _ Hprep. destruct r as [[]|e].
  - eapply wp_mono; [by apply wp_mount|]. intros r evs3 w5 _ [Hh Hok]. by apply (fm_mount _ _ _ _ r evs0 a evs1 existing evs2 evs3).
  - by apply (fm_prepared _ _ _ _ e evs0 a evs1 existing evs2).
Qed.
End Rules.

(** ** Properties *)

Lemma formats_unique l1 x l2 pre ev post :
  harmless l1 -> harmless l2 -> formats ev = true -> l1 ++ x :: l2 = pre ++ ev :: post ->
  pre = l1 /\ ev = x /\ post = l2.
Proof.
  intros H1 H2 Hev. revert pre. induction H1 as [|y l1 Hy H1 IH]; intros [|z pre] Heq; simplify_list_eq.
  - done.
  - apply Forall_app in H2 as [_ H2]. apply Forall_cons_iff in H2 as [H2 _]. congruence.
  - congruence.
  - by destruct (IH pre) as (-> & -> & ->).
Qed.

Lemma harmless_none evs pre ev post :
  harmless evs -> evs = pre ++ ev :: post -> formats ev = true -> False.
Proof.
  intros Hh -> Hev. apply Forall_app in Hh as [_ Hh]. apply Forall_cons_iff in Hh as [Hh _]. congruence.
Qed.

(** The formatting command of an execution, if any, is the whole preparation of a blank
    device. *)
Lemma prepare_formats source existing fsType readOnly r evs :
  prepare_spec source existing fsType readOnly r evs ->
  harmless evs \/ (existing = "" /\ readOnly = false /\ exists ev, evs = [ev] /\ mkfs_run source fsType ev).
Proof.
  intros (Hlen & Hsafe & Hall & _). destruct evs as [|ev [|]]; simpl in Hlen; [by left| |lia].
  destruct (formats ev) eqn:Ef; [right|left; by repeat constructor].
  apply Forall_cons_iff in Hall as [Hev _].
  assert (existing = "" /\ readOnly = false) as [-> ->].
  { destruct (decide (existing = "" /\ readOnly = false)) as [|Hn]; [done|exfalso].
    assert (harmless [ev]) as Hh.
    { apply Hsafe. destruct (decide (existing = "")), readOnly; tauto. }
    apply Forall_cons_iff in Hh as [Hh _]. congruence. }
  split_and!; [done..|]. exists ev. split; [done|]. by apply Hev.
Qed.

(** Formatting was justified: one mkfs on the device, for a writable mount, after the
    target was found not mounted and right after a detection that found nothing. *)
Definition format_guard `{Host E} (source target fsType : string) (options : list string)
    (evs : list HostCall) : Prop :=
  forall pre ev post, evs = pre ++ ev :: post -> formats ev = true ->
    (contains options "ro" = false) /\ mkfs_run source (effective_type fsType) ev /\ harmless post
    /\ exists pre0 ev0 a, pre = pre0 ++ [ev0] /\ shows source "" ev0
       /\ HIsMountPoint target a ∈ pre0 ++ [ev0] /\ reads_mounted a = Ok false.

Section Properties.
Context {E : Type} `{Host E}.

Lemma format_guarded source target fsType options r evs :
  format_outcome source target (effective_type fsType) options r evs ->
  format_guard source target fsType options evs.
Proof.
  intros Ho pre ev post Hevs Hev.
  assert (forall evs0 a evs1 existing evs2 evs3 r,
    harmless evs0 -> reads_mounted a = Ok false -> detect_spec source (Ok existing) evs1 ->
    prepare_spec source existing (effective_type fsType) (contains options "ro") r evs2 ->
    harmless evs3 -> evs0 ++ HIsMountPoint target a :: evs1 ++ evs2 ++ evs3 = pre ++ ev :: post ->
    (contains options "ro" = false) /\ mkfs_run source (effective_type fsType) ev /\ harmless post
      /\ exists pre0 ev0 a, pre = pre0 ++ [ev0] /\ shows source "" ev0
         /\ HIsMountPoint target a ∈ pre0 ++ [ev0] /\ reads_mounted a = Ok false) as Hmain.
  { clear Hevs Ho evs r. intros evs0 a evs1 existing evs2 evs3 r H0 Ha [H1 Hd] Hp H3 Heq.
    apply prepare_formats in Hp as [H2|(-> & Hro & x & -> & Hx)].
    { exfalso. eapply harmless_none; [|exact Heq|exact Hev]. apply Forall_app. split; [done|].
      constructor; [done|]. apply Forall_app. split; [done|]. by apply Forall_app. }
    destruct (Hd "" eq_refl) as (pre1 & ev0 & -> & Hshow).
    replace (evs0 ++ HIsMountPoint target a :: (pre1 ++ [ev0]) ++ [x] ++ evs3)
      with ((evs0 ++ HIsMountPoint target a :: pre1 ++ [ev0]) ++ x :: evs3) in Heq
      by app_eq.
    apply formats_unique in Heq as (-> & -> & ->); [|apply Forall_app; split; [done|by constructor]|done..].
    split_and!; [done..|]. exists (evs0 ++ HIsMountPoint target a :: pre1), ev0, a.
    split_and!; [by rewrite <-app_assoc|done|in_list|done]. }
  destruct Ho as [e evs Hh|evs a Hh _|e evs0 a evs1 existing evs2 H0 Ha Hd _ Hp
    |r evs0 a evs1 existing evs2 evs3 H0 Ha Hd _ Hp H3 _].
  - by destruct (harmless_none _ _ _ _ Hh Hevs Hev).
  - exfalso. eapply harmless_none; [|exact Hevs|exact Hev].
    apply Forall_app. split; [done|by repeat constructor].
  - apply (Hmain evs0 a evs1 existing evs2 [] (Err e)); try done. by rewrite app_nil_r.
  - by apply (Hmain evs0 a evs1 existing evs2 evs3 (Ok tt)).
Qed.

(** C3. FormatAndMount always returns and never destroys data: if it runs mkfs at all, it
    runs one, on its own device, for a writable mount, after the target was found not
    mounted and right after a detection that answered that the device holds nothing. *)
Theorem FormatAndMount_guarded ctx source target fsType options w :
  runs (FormatAndMount ctx source target fsType options) w (fun r evs =>
    forall pre ev post, evs = pre ++ ev :: post -> formats ev = true ->
      (contains options "ro" = false) /\ mkfs_run source (effective_type fsType) ev /\ harmless post
      /\ exists pre0 ev0 a, pre = pre0 ++ [ev0] /\ shows source "" ev0
         /\ HIsMountPoint target a ∈ pre0 ++ [ev0] /\ reads_mounted a = Ok false).
Proof.
  eapply runs_mono; [apply wp_runs, wp_FormatAndMount|]. intros r evs Ho. by eapply format_guarded.
Qed.

(** The target was mounted already, or the last command mounted the device there with the
    type, after a detection that showed the type or was followed by mkfs. *)
Definition mounted_as (source target fsType : string) (evs : list HostCall) : Prop :=
  (exists pre a, evs = pre ++ [HIsMountPoint target a] /\ reads_mounted a = Ok true)
  \/ (exists pre ev ev0 t, evs = pre ++ [ev] /\ mounts source target fsType ev
      /\ ev0 ∈ pre /\ shows source t ev0
      /\ (t = fsType \/ t = "" /\ exists ev1, ev1 ∈ pre /\ mkfs_run source fsType ev1)).

Lemma format_mounted source target fsType options evs :
  format_outcome source target fsType options (Ok tt) evs -> mounted_as source target fsType evs.
Proof.
  intros Ho.
  inversion Ho as [|evs' a Hh Ha|
    |r evs0 a evs1 existing evs2 evs3 H0 Ha Hd Hex Hp H3 Hm]; subst; [by left; exists evs', a|right].
  destruct (Hm eq_refl) as (pre & ev & -> & Hev). destruct Hd as [_ Hd].
  destruct (Hd existing eq_refl) as (pre1 & ev0 & -> & Hshow).
  exists (evs0 ++ HIsMountPoint target a :: (pre1 ++ [ev0]) ++ evs2 ++ pre), ev, ev0, existing.
  split_and!; [app_eq|done|in_list|done|].
  - destruct Hex as [-> | ->]; [right|by left]. split; [done|].
    destruct Hp as (_ & _ & _ & Hp). destruct (Hp eq_refl eq_refl) as (ev1 & -> & Hev1).
    exists ev1. split; [in_list|done].
Qed.

(** When FormatAndMount succeeds, the target was mounted already, or its last command
    mounted the device there as the requested supported type, after a detection that
    showed that type, or showed nothing and was followed by mkfs of that type. *)
Theorem FormatAndMount_mounted ctx source target fsType options w :
  runs (FormatAndMount ctx source target fsType options) w (fun r evs =>
    r = Ok tt ->
      (exists pre a, evs = pre ++ [HIsMountPoint target a] /\ reads_mounted a = Ok true)
      \/ (exists pre ev ev0 t, evs = pre ++ [ev] /\ mounts source target (effective_type fsType) ev
          /\ ev0 ∈ pre /\ shows source t ev0
          /\ (t = effective_type fsType
              \/ t = "" /\ exists ev1, ev1 ∈ pre /\ mkfs_run source (effective_type fsType) ev1))).
Proof.
  eapply runs_mono; [apply wp_runs, wp_FormatAndMount|]. intros r evs Ho ->. by eapply format_mounted.
Qed.

(** A bind whose second step fails is undone: when bindMount reports an error although
    its bind succeeded, it has gone back to the mount table and, if the target is
    mounted, run umount there, under a context the caller cannot cancel; and it keeps
    the options' error. Success means that both steps ran. *)
Theorem bindMount_rolls_back ctx source target fsType flavor options w :
  runs (bindMount ctx source target fsType flavor options) w (fun r evs =>
    exists out err rest,
      evs = HRun (mount_cmd ctx source target fsType (bind_options flavor options)) out err :: rest
      /\ (r = Ok tt -> err = None /\ exists flags out', rest = [HStatfs source (Ok flags);
            HRun (mount_cmd ctx source target fsType
              (remount_options (flag_options flags) options)) out' None])
      /\ (r <> Ok tt -> err = None -> target <> "" -> exists pre a post d,
            rest = pre ++ HIsMountPoint target a :: post
            /\ (reads_mounted a = Ok true -> exists out' err',
                post = [HRun (command (mkContext (Some d) None) "umount" [target]) out' err']))).
Proof.
  eapply runs_mono; [apply wp_runs, wp_bindMount|]. intros r evs (out & err & rest & -> & Hf & Hs).
  exists out, err, rest. split; [done|]. destruct err as [e|].
  { destruct (Hf ltac:(done)) as [-> Hr]. by split. }
  destruct (Hs eq_refl) as (r' & rem & roll & -> & Hrem & Hok & Herr). split.
  - intros ->. split; [done|]. destruct r' as [[]|e']; [|by destruct (Herr ltac:(done)) as [? _]].
    destruct (Hok eq_refl) as [_ ->]. rewrite app_nil_r.
    destruct Hrem as [(e & _ & ?)|(flags & out' & err & -> & Hr)]; [done|].
    assert (err = None) as -> by (by apply Hr). by exists flags, out'.
  - intros Hr _ Ht. destruct r' as [[]|e']; [by destruct (Hok eq_refl)|].
    destruct (Herr ltac:(done)) as [_ [?|(d & Hroll)]]; [done|].
    destruct Hroll as [(a & -> & Ha)|(a & out' & err' & ->)].
    + by exists rem, a, [], d.
    + exists rem, a, [HRun (command (mkContext (Some d) None) "umount" [target]) out' err'], d.
      split; [done|]. eauto.
Qed.

(** Unmount is idempotent and honest: it runs umount only on a target the mount table
    shows as mounted, and it succeeds exactly when the table shows it unmounted, umount
    succeeded, or umount said that nothing was mounted there. *)
Theorem Unmount_idempotent ctx target w :
  runs (Unmount ctx target) w (fun r evs =>
    (forall pre ev post, evs = pre ++ ev :: post -> umounts target ev ->
       exists a, pre = [HIsMountPoint target a] /\ reads_mounted a = Ok true /\ post = []) /\
    (forall a, evs = [HIsMountPoint target a] -> reads_mounted a = Ok false -> r = Ok tt) /\
    (r = Ok tt -> (exists a, evs = [HIsMountPoint target a] /\ reads_mounted a = Ok false)
       \/ (exists a cmd out err, evs = [HIsMountPoint target a; HRun cmd out err]
            /\ (err = None \/ Contains (ToLower out) "not mounted" = true)))).
Proof.
  eapply runs_mono; [apply wp_runs, wp_Unmount|]. intros r evs Hu.
  destruct Hu as [(-> & Hr & _)|[(a & _ & -> & Hna & Hr)|(a & cmd & out & err & -> & Ha & -> & Hok & _)]].
  - split_and!; [by intros []|done|done].
  - split_and!.
    + intros [|x [|]] ev post Heq (cmd & out & err & -> & _); simplify_list_eq.
    + intros a' [= <-]. apply Hr.
    + intros ->. left. exists a. split; [done|]. by apply Hr.
  - split_and!.
    + intros pre ev post Heq (cmd & out' & err' & -> & _). destruct pre as [|x [|y [|]]]; simplify_list_eq.
      by exists a.
    + done.
    + intros ->. right. exists a. do 3 eexists. split; [done|]. by apply Hok.
Qed.
End Properties.

(** *** Remount options *)

(** The options a remount may carry: everything asked for or inherited, except the bind
    keywords themselves and a write request on a read-only source. *)
Definition remountable (sourceOptions : list string) (option : string) : Prop :=
  option <> "bind" /\ option <> "rbind" /\ option <> "remount"
  /\ ~ (option = "rw" /\ "ro" ∈ sourceOptions).

Lemma remount_step_cases sourceOptions acc x :
  let l := "bind" :: "remount" :: acc in
  (remount_step (contains sourceOptions "ro") l x = l /\ (x ∈ acc \/ ~ remountable sourceOptions x))
  \/ (remount_step (contains sourceOptions "ro") l x = l ++ [x]
      /\ (x ∉ acc) /\ remountable sourceOptions x).
Proof.
  intros l. unfold remount_step, remountable, contains.
  destruct (decide (x = "bind" \/ x = "rbind" \/ x = "remount")) as [Hk|Hk]; [left; tauto|].
  destruct (bool_decide (x = "rw") && bool_decide ("ro" ∈ sourceOptions)) eqn:Erw.
  { to_prop. left. tauto. }
  assert (~ (x = "rw" /\ "ro" ∈ sourceOptions)) as Hrw.
  { intros [-> Hro]. by rewrite !bool_decide_true in Erw. }
  destruct (bool_decide (x ∈ l)) eqn:Ein; to_prop; simpl.
  - left. split; [done|]. unfold l in Ein. rewrite !elem_of_cons in Ein. tauto.
  - right. unfold l in Ein. rewrite !elem_of_cons in Ein. tauto.
Qed.

Lemma remount_fold sourceOptions l acc :
  NoDup ("bind" :: "remount" :: acc) -> Forall (remountable sourceOptions) acc ->
  exists rest,
    fold_left (remount_step (contains sourceOptions "ro")) l ("bind" :: "remount" :: acc)
      = "bind" :: "remount" :: acc ++ rest
    /\ NoDup ("bind" :: "remount" :: acc ++ rest) /\ sublist rest l
    /\ (forall o, o ∈ acc ++ rest <-> o ∈ acc \/ (o ∈ l /\ remountable sourceOptions o)).
Proof.
  revert acc. induction l as [|x l IH]; intros acc Hnd Hacc.
  { exists []. rewrite app_nil_r. split_and!; [done..|]. intros o. rewrite elem_of_nil. tauto. }
  simpl fold_left. destruct (remount_step_cases sourceOptions acc x) as [[-> Hx]|(-> & Hx & Hr)].
  - destruct (IH acc Hnd Hacc) as (rest & -> & Hnd' & Hsub & Hin). exists rest.
    split_and!; [done..|by apply sublist_cons|]. intros o. rewrite Hin, elem_of_cons.
    split; [tauto|]. intros [?|[[->|?] ?]]; tauto.
  - destruct (IH (acc ++ [x])) as (rest & Heq & Hnd' & Hsub & Hin).
    + change (NoDup (("bind" :: "remount" :: acc) ++ [x])). apply list.NoDup_app. split_and!; [done| |].
      * intros y Hy ->%list_elem_of_singleton. rewrite !elem_of_cons in Hy.
        destruct Hr as (? & ? & ? & _). tauto.
      * apply NoDup_singleton.
    + apply Forall_app. split; [done|by apply Forall_singleton].
    + exists (x :: rest). simpl in Heq |- *. rewrite <-app_assoc in Heq, Hnd'. simpl in Heq, Hnd'.
      split_and!; [done|done|by apply sublist_skip|].
      intros o. specialize (Hin o). rewrite !elem_of_app, !elem_of_cons, elem_of_nil in Hin.
      rewrite elem_of_app, !elem_of_cons.
      assert (o = x -> remountable sourceOptions o) as Hox by (by intros ->).
      split.
      * intros [Ha|[Hx'|Hr']]; [by left|by right; auto|].
        destruct (proj1 Hin (or_intror Hr')) as [[?|[?|[]]]|[? ?]]; auto.
      * intros [Ha|[[Hx'|Hl] HR]]; [by left|by right; left|].
        destruct (proj2 Hin (or_intror (conj Hl HR))) as [[?|[?|[]]]|?]; auto.
Qed.

Lemma flag_option_set flags f o :
  (f, o) ∈ bindRemountOptions -> Z.land flags f = f -> o ∈ flag_options flags.
Proof.
  intros Hin Hf. unfold flag_options. apply list_elem_of_In, in_map_iff. exists (f, o).
  split; [done|]. apply List.filter_In. split; [by apply list_elem_of_In|]. simpl. by apply Z.eqb_eq.
Qed.

Lemma flag_option_plain f o : (f, o) ∈ bindRemountOptions ->
  o <> "bind" /\ o <> "rbind" /\ o <> "remount" /\ o <> "rw".
Proof.
  assert (Forall (fun p : Z * string => p.2 <> "bind" /\ p.2 <> "rbind" /\ p.2 <> "remount"
    /\ p.2 <> "rw") bindRemountOptions) as Hall by (by repeat constructor).
  intros Hin. exact (proj1 (list.Forall_forall _ _) Hall (f, o) Hin).
Qed.

Lemma flag_option_access flags o : o ∈ flag_options flags ->
  contains_byte ","%char o = false /\ o <> "rw" /\ o <> "bind".
Proof.
  assert (Forall (fun p : Z * string => contains_byte ","%char p.2 = false /\ p.2 <> "rw" /\ p.2 <> "bind")
    bindRemountOptions) as Hall by (by repeat constructor).
  unfold flag_options. intros ([f o'] & Ho & Hf)%list_elem_of_In%in_map_iff. simpl in Ho. subst o'.
  apply List.filter_In in Hf as [Hf%list_elem_of_In _].
  exact (proj1 (list.Forall_forall _ _) Hall (f, o) Hf).
Qed.

(** What the loop of remountBind keeps of further options, after those it kept before. *)
Lemma remount_fold_after ro l a b :
  let fresh := List.filter (fun x => negb (contains a x)) in
  fold_left (remount_step ro) l (a ++ fresh b) = a ++ fresh (fold_left (remount_step ro) l b).
Proof.
  intros fresh. revert b. induction l as [|x l IH]; intros b; [done|]. simpl. rewrite <-IH. f_equal.
  unfold remount_step. destruct (decide _); [done|]. destruct (_ && ro); [done|].
  assert (contains (a ++ fresh b) x = contains a x || contains b x) as ->.
  { unfold fresh, contains. rewrite <-bool_decide_or. apply bool_decide_ext.
    rewrite elem_of_app, (list_elem_of_In (List.filter _ _)), List.filter_In, negb_true_iff,
      bool_decide_eq_false, <-list_elem_of_In. destruct (decide (x ∈ a)); tauto. }
  destruct (contains b x); [by rewrite orb_true_r|]. rewrite orb_false_r. cbn [negb].
  unfold fresh. rewrite List.filter_app. cbn [List.filter].
  destruct (contains a x); cbn [negb]; [by rewrite app_nil_r|by rewrite app_assoc].
Qed.

Lemma elem_of_remount_fold sourceOptions l acc x :
  x ∈ fold_left (remount_step (contains sourceOptions "ro")) l acc
  <-> x ∈ acc \/ (x ∈ l /\ remountable sourceOptions x).
Proof.
  revert acc. induction l as [|y l IH]; intros acc; simpl; [rewrite elem_of_nil; tauto|].
  rewrite IH, elem_of_cons. unfold remount_step.
  destruct (decide _) as [Hk|Hk].
  { assert (x = y -> ~ remountable sourceOptions x) by (intros -> (? & ? & ? & _); tauto). tauto. }
  destruct (bool_decide (y = "rw") && contains sourceOptions "ro") eqn:Erw.
  { unfold contains in Erw. to_prop.
    assert (x = y -> ~ remountable sourceOptions x) by (intros -> (_ & _ & _ & ?); tauto). tauto. }
  assert (x = y -> remountable sourceOptions x) as Hxy.
  { intros ->. unfold remountable. split_and!; try tauto. intros [-> Hro].
    unfold contains in Erw. by rewrite !bool_decide_true in Erw. }
  destruct (contains acc y) eqn:Ea; unfold contains in Ea; to_prop; cbn [negb].
  - assert (x = y -> x ∈ acc) by (by intros ->). tauto.
  - rewrite elem_of_app, list_elem_of_singleton. tauto.
Qed.

Lemma remount_options_shape flags options :
  exists rest,
    remount_options (flag_options flags) options = "bind" :: "remount" :: rest
    /\ NoDup ("bind" :: "remount" :: rest) /\ sublist rest (flag_options flags ++ options)
    /\ (forall o, o ∈ rest <-> (o ∈ flag_options flags ++ options) /\ remountable (flag_options flags) o).
Proof.
  destruct (remount_fold (flag_options flags) (flag_options flags ++ options) [])
    as (rest & Heq & Hnd & Hsub & Hin); [by apply (bool_decide_unpack _); vm_compute|constructor|].
  exists rest. split_and!; [exact Heq|done|done|].
  intros o. specialize (Hin o). simpl in Hin. rewrite elem_of_nil in Hin. tauto.
Qed.

(** The remount command of a bind carries every option once: first the two keywords,
    then, in order, exactly the source's flags and the caller's options that may be
    restated. So no flag of the source is lost, and a read-only source stays so. *)
Theorem remount_options_exact flags options :
  exists rest,
    remount_options (flag_options flags) options = "bind" :: "remount" :: rest
    /\ NoDup (remount_options (flag_options flags) options)
    /\ sublist rest (flag_options flags ++ options)
    /\ (forall o, o ∈ rest <-> (o ∈ flag_options flags ++ options) /\ remountable (flag_options flags) o)
    /\ (forall f o, (f, o) ∈ bindRemountOptions -> Z.land flags f = f -> o ∈ rest)
    /\ (Z.testbit flags 0 = true -> "ro" ∈ rest /\ ~ ("rw" ∈ rest)).
Proof.
  destruct (remount_options_shape flags options) as (rest & Heq & Hnd & Hsub & Hrest).
  assert (forall f o, (f, o) ∈ bindRemountOptions -> Z.land flags f = f -> o ∈ rest) as Hflags.
  { intros f o Hfo Hf. apply Hrest. split; [apply elem_of_app; left; by eapply flag_option_set|].
    apply flag_option_plain in Hfo as (? & ? & ? & ?). unfold remountable. tauto. }
  exists rest. split_and!; [done|by rewrite Heq|done|done|done|]. intros Hbit.
  assert ("ro" ∈ rest) as Hro.
  { apply (Hflags statfsReadOnly); [apply list_elem_of_here|]. unfold statfsReadOnly.
    change 1%Z with (Z.ones 1). rewrite Z.land_ones by done. change (2 ^ 1)%Z with 2%Z.
    rewrite Zmod_odd, <-Z.bit0_odd, Hbit. done. }
  split; [done|]. intros Hrw%Hrest. apply Hrest in Hro as [Hro _].
  destruct Hrw as (_ & _ & _ & _ & Hnrw). apply Hnrw. split; [done|].
  apply (flag_option_set flags statfsReadOnly); [apply list_elem_of_here|].
  unfold statfsReadOnly. change 1%Z with (Z.ones 1). rewrite Z.land_ones by done.
  change (2 ^ 1)%Z with 2%Z. by rewrite Zmod_odd, <-Z.bit0_odd, Hbit.
Qed.

(** ** Device discovery *)

(** What resolveSymlink makes of an answer. *)
Definition resolved (path : string) (a : result string) : string :=
  match a with Ok p => p | Err _ => path end.

(** The paths whose stat succeeded. *)
Definition present (evs : list HostCall) : list string :=
  omap (fun ev => match ev with HStat p None => Some p | _ => None end) evs.

(** A question about paths that changes nothing. *)
Definition lookup (ev : HostCall) : Prop :=
  match ev with HStat _ _ | HEvalSymlinks _ _ => True | _ => False end.

Definition stat_path (ev : HostCall) : string := match ev with HStat p _ => p | _ => "" end.

Section Discovery.
Context {E : Type} `{Host E}.
Variable m : LinuxMounter.

Lemma wp_existing_links names w :
  wp (existing_links m names) (fun links evs _ =>
    map stat_path evs = map (path_Join (diskByIDDir m)) names /\ links = present evs
    /\ Forall lookup evs) w.
Proof.
  revert w. induction names as [|name names IH]; intros w; simpl; [by wp_step|].
  wp_step. apply wp_call. intros err w1 _. wp_step. eapply wp_mono; [apply IH|].
  intros links evs w2 _ (Hmap & -> & Hl). wp_step. simpl. rewrite Hmap.
  split_and!; [done|by destruct err|by constructor].
Qed.

Lemma wp_first_mismatch published links w :
  wp (first_mismatch published links) (fun bad evs _ =>
    (bad = None -> Forall2 (fun link ev => exists a, ev = HEvalSymlinks link a
                            /\ resolved link a = published) links evs) /\ Forall lookup evs) w.
Proof.
  revert w. induction links as [|link links IH]; intros w; simpl; [wp_step; by constructor|].
  wp_step. unfold resolveSymlink. wp_step. apply wp_call. intros a w1 _. wp_step.
  destruct (bool_decide _) eqn:Eb; simpl; to_prop.
  - eapply wp_mono; [apply IH|]. intros bad evs w2 _ [Hbad Hl]. split; [|by constructor].
    intros Hnone. constructor; [by exists a|by apply Hbad].
  - wp_step. split; [done|by repeat constructor].
Qed.

(** The device was identified twice: the published path lies in the device directory,
    exists and resolves to it; some by-id link of the volume's serial exists, and every
    one that does resolves to the device as well. *)
Definition identified (volumeID published device : string) (evs : list HostCall) : Prop :=
  volumeID <> "" /\ holdsDevice m published = true
  /\ exists a stats evals,
       evs = HStat published None :: HEvalSymlinks published a :: stats ++ evals
       /\ resolved published a = device
       /\ map stat_path stats = map (path_Join (diskByIDDir m)) (link_names volumeID)
       /\ present stats <> []
       /\ Forall2 (fun link ev => exists a, ev = HEvalSymlinks link a
                    /\ resolved link a = device) (present stats) evals.

Lemma wp_DiscoverDevice ctx volumeID published w :
  wp (DiscoverDevice m ctx volumeID published) (fun r evs _ =>
    Forall lookup evs /\ forall device, r = Ok device -> identified volumeID published device evs) w.
Proof.
  unfold DiscoverDevice, identified.
  destruct (decide (volumeID = "")); [by wp_step|]. destruct (decide (published = "")); [by wp_step|].
  apply wp_guard_ctx; [done|]. intros _. destruct (holdsDevice m published); simpl; [|by wp_step].
  unfold stat. wp_step. apply wp_call. intros [e|] w1 _; [wp_step; by repeat constructor|].
  unfold resolveSymlink. do 2 wp_step. apply wp_call. intros a w2 _. wp_step. wp_step.
  eapply wp_mono; [apply wp_existing_links|]. intros links stats w3 _ (Hstats & -> & Hl1).
  destruct (Nat.eqb_spec (length (present stats)) 0) as [|Hne].
  { wp_step. split; [|done]. by repeat constructor. }
  wp_step. eapply wp_mono; [apply wp_first_mismatch|]. intros bad evals w4 _ [Hbad Hl2].
  assert (Forall lookup ((HStat published None :: HEvalSymlinks published a :: stats) ++ evals)) as Hl.
  { apply Forall_app. split; [by repeat constructor|done]. }
  destruct bad as [bad|]; wp_step; (split; [exact Hl|]); [done|].
  intros device [= <-]. split_and!; [done..|]. exists a, stats, evals. split_and!; [done..| |auto].
  intros Hnil. by rewrite Hnil in Hne.
Qed.

(** C20. The device DiscoverDevice reports was identified twice: the published path lies in
    the device directory, exists and resolves to it; at least one by-id link of the
    volume's serial, whole or truncated, exists; and every link that exists resolves to
    the same device. Discovery only reads the device directory and runs no command. *)
Theorem DiscoverDevice_agrees ctx volumeID published w :
  runs (DiscoverDevice m ctx volumeID published) w (fun r evs =>
    Forall lookup evs /\ forall device, r = Ok device -> identified volumeID published device evs).
Proof. apply wp_runs, wp_DiscoverDevice. Qed.
End Discovery.
