(* ===== verification/MountTest.v ===== *)
(** * The fake mount commands of the tests (internal/mount/mounttest/mounttest.go)

    The argument parser and the fake mount and umount commands, over a mount table whose
    own Mount and Unmount (mount-utils' FakeMounter) are parameters. *)

From S2P Require Import Prelude GoStrings GoErrors Runtime GoPath Mount.

Local Open Scope stdpp_scope.

Definition mountBadOption : Z := 32.

(** mountExitError. *)
Definition mountExitError (code : Z) : gerror := EExit code ("exit status " +:+ itoa code).

(** The flag loop of ParseMountArgs; [n] arguments are left before source and target. *)
Fixpoint parse_flags (n : nat) (args : list string) (fsType : string) (options : list string) :
    string * list string :=
  match n, args with
  | S n, arg :: rest =>
      if decide (arg = "-t") then
        match n with
        | S n => parse_flags n (tail rest) (hd "" rest) options
        | O => (hd "" rest, options)
        end
      else if decide (arg = "-o") then
        match n with
        | S n => parse_flags n (tail rest) fsType (split_on ","%char (hd "" rest))
        | O => (fsType, split_on ","%char (hd "" rest))
        end
      else parse_flags n rest fsType options
  | _, _ => (fsType, options)
  end.

Definition ParseMountArgs (args : list string) : string * string * string * list string :=
  let n := length args in
  if (n <? 2)%nat then ("", "", "", []) else
  let '(fsType, options) := parse_flags (n - 2) args "" [] in
  (nth (n - 2) args "", nth (n - 1) args "", fsType, options).

(** StaticStatfs: the same flags for any path, on a host that ignores the question. *)
Definition StaticStatfs {E} (flags : Z) : string -> prim E (result Z) :=
  fun _ _ e => (0%N, Ok flags, e).

Record MountPoint := mkMountPoint { mp_Path : string; mp_Opts : list string }.

Section Commands.
Variable table_Mount :
  string -> string -> string -> list string -> list MountPoint -> option gerror * list MountPoint.
Variable table_Unmount : string -> list MountPoint -> option gerror * list MountPoint.

(** The loop over the table: the first entry at [target] gets the options. *)
Fixpoint remount_entry (target : string) (options : list string) (table : list MountPoint) :
    option (list MountPoint) :=
  match table with
  | [] => None
  | p :: table =>
      if decide (mp_Path p = target) then Some (mkMountPoint target options :: table)
      else option_map (cons p) (remount_entry target options table)
  end.

Definition fake_mount (args : list string) (table : list MountPoint) :
    string * option gerror * list MountPoint :=
  if (length args <? 2)%nat
  then ("mount: bad usage", Some (mountExitError mountBadOption), table) else
  let '(source, target, fsType, options) := ParseMountArgs args in
  if contains options "remount" then
    match remount_entry target options table with
    | Some table => ("", None, table)
    | None => ("mount: " +:+ target +:+ ": mount point not mounted or bad option.",
               Some (mountExitError mountBadOption), table)
    end
  else let '(err, table) := table_Mount source target fsType options table in ("", err, table).

Definition fake_umount (args : list string) (table : list MountPoint) :
    string * option gerror * list MountPoint :=
  if (length args =? 0)%nat
  then ("umount: bad usage", Some (mountExitError mountBadOption), table) else
  let '(err, table) := table_Unmount (List.last args "") table in ("", err, table).
End Commands.

(** ** Properties *)

(** The fake commands understand what the mounter says: parsing the argument list of a
    mount command gives back its source, target, type and options, whatever they are, as
    long as no option holds a comma. *)
Theorem ParseMountArgs_mount_args source target fsType options :
  Forall (fun o => contains_byte ","%char o = false) options ->
  ParseMountArgs (mount_args source target fsType options) = (source, target, fsType, options).
Proof.
  intros Ho. unfold ParseMountArgs, mount_args.
  assert (options <> [] -> split_on ","%char (Join options ",") = options) as Hsplit
    by (intros; by apply split_on_Join).
  destruct (decide (fsType = "")) as [->|], (Nat.ltb_spec 0 (length options));
    try (destruct options; [|simpl in *; lia]); try done; cbn -[split_on Join];
    rewrite Hsplit by (intros ->; simpl in *; lia); done.
Qed.

Lemma ParseMountArgs_mount_args_witness :
  ParseMountArgs (mount_args "/dev/vdb" "/mnt" "ext4" ["ro"; "defaults"])
  = ("/dev/vdb", "/mnt", "ext4", ["ro"; "defaults"]).
Proof.
  apply ParseMountArgs_mount_args. repeat (constructor; [vm_compute; reflexivity|]). constructor.
Defined.
