(* ===== verification/Csi.v ===== *)
(** * CSI messages and what the three services share

    The request and response messages of the CSI specification with the fields the driver
    reads or writes, gRPC statuses, machine integers, and the capability check both the
    controller and the node use (internal/driver/controller.go). A nil message is [None];
    generated getters read it as the zero message. *)

From S2P Require Import Prelude GoStrings GoErrors Runtime GoPath Mount.

Local Open Scope stdpp_scope.

(** ** Machine integers *)

Definition wrap64 (z : Z) : Z := ((z + 2 ^ 63) mod 2 ^ 64 - 2 ^ 63)%Z.

Definition in_int64 (z : Z) : Prop := (- 2 ^ 63 <= z < 2 ^ 63)%Z.

Definition int64_add (a b : Z) : Z := wrap64 (a + b).
Definition int64_sub (a b : Z) : Z := wrap64 (a - b).
Definition int64_mul (a b : Z) : Z := wrap64 (a * b).

Lemma wrap64_id z : in_int64 z -> wrap64 z = z.
Proof. unfold wrap64, in_int64. intros. rewrite Z.mod_small by lia. lia. Qed.

Lemma wrap64_over z : (2 ^ 63 <= z < 2 ^ 63 + 2 ^ 64)%Z -> wrap64 z = (z - 2 ^ 64)%Z.
Proof.
  unfold wrap64. intros Hz.
  replace (z + 2 ^ 63)%Z with ((z - 2 ^ 63) + 1 * 2 ^ 64)%Z by lia.
  rewrite Z.mod_add by lia. rewrite Z.mod_small by lia. lia.
Qed.

Lemma wrap64_sub a b : wrap64 (wrap64 a - b) = wrap64 (a - b).
Proof.
  unfold wrap64. f_equal. replace ((a + 2 ^ 63) mod 2 ^ 64 - 2 ^ 63 - b + 2 ^ 63)%Z
    with ((a + 2 ^ 63) mod 2 ^ 64 - b)%Z by lia.
  rewrite Zminus_mod_idemp_l. f_equal. lia.
Qed.

(** ** Messages *)

(** VolumeCapability_AccessMode_Mode, an open protobuf enumeration. *)
Inductive AccessMode :=
| UNKNOWN | SINGLE_NODE_WRITER | SINGLE_NODE_READER_ONLY | MULTI_NODE_READER_ONLY
| MULTI_NODE_SINGLE_WRITER | MULTI_NODE_MULTI_WRITER | SINGLE_NODE_SINGLE_WRITER
| SINGLE_NODE_MULTI_WRITER | OtherMode (n : Z).

#[export] Instance AccessMode_eq_dec : EqDecision AccessMode.
Proof. solve_decision. Defined.

Definition AccessMode_String (m : AccessMode) : string :=
  match m with
  | UNKNOWN => "UNKNOWN" | SINGLE_NODE_WRITER => "SINGLE_NODE_WRITER"
  | SINGLE_NODE_READER_ONLY => "SINGLE_NODE_READER_ONLY"
  | MULTI_NODE_READER_ONLY => "MULTI_NODE_READER_ONLY"
  | MULTI_NODE_SINGLE_WRITER => "MULTI_NODE_SINGLE_WRITER"
  | MULTI_NODE_MULTI_WRITER => "MULTI_NODE_MULTI_WRITER"
  | SINGLE_NODE_SINGLE_WRITER => "SINGLE_NODE_SINGLE_WRITER"
  | SINGLE_NODE_MULTI_WRITER => "SINGLE_NODE_MULTI_WRITER"
  | OtherMode n => itoa n
  end.

(** The oneof access_type. *)
Inductive AccessType := Block | MountVolume (fs_type : string) (mount_flags : list string).

Record VolumeCapability := mkCap { cap_AccessMode : option AccessMode; cap_AccessType : option AccessType }.

(** cap.GetMount().GetFsType() and GetMountFlags(). *)
Definition GetFsType (cap : VolumeCapability) : string :=
  match cap_AccessType cap with Some (MountVolume fs _) => fs | _ => "" end.
Definition GetMountFlags (cap : VolumeCapability) : list string :=
  match cap_AccessType cap with Some (MountVolume _ flags) => flags | _ => [] end.

Record CapacityRange := mkRange { required_bytes : Z; limit_bytes : Z }.

Definition Topology : Type := gmap string string.
Record TopologyRequirement := mkTopReq { preferred : list Topology; requisite : list Topology }.

Record CreateVolumeRequest := mkCreateReq {
  cr_Name : string; cr_Caps : list (option VolumeCapability); cr_HasSource : bool;
  cr_Params : gmap string string; cr_Topology : option TopologyRequirement;
  cr_Range : option CapacityRange }.

Record csi_Volume := mkCsiVolume {
  cv_VolumeId : string; cv_CapacityBytes : Z; cv_Topology : list Topology }.

Record PublishVolumeRequest := mkPublishReq {
  cp_VolumeId : string; cp_NodeId : string; cp_Cap : option VolumeCapability;
  cp_Readonly : bool }.

Record UnpublishVolumeRequest := mkUnpublishReq { cu_VolumeId : string; cu_NodeId : string }.

Record DeleteVolumeRequest := mkDeleteReq { cd_VolumeId : string }.

Record ValidateRequest := mkValidateReq {
  va_VolumeId : string; va_Caps : list (option VolumeCapability);
  va_Context : gmap string string; va_Params : gmap string string }.

Record Confirmed := mkConfirmed {
  cf_Context : gmap string string; cf_Caps : list (option VolumeCapability);
  cf_Params : gmap string string }.

Record ValidateResponse := mkValidateResp { vr_Confirmed : option Confirmed; vr_Message : string }.

(** ** Statuses *)

(** status.Error. *)
Definition status_Error {A} (c : Code) (msg : string) : result A := Err (EStatus c msg).

(** ** Shared names *)

Definition TopologyZoneKey : string := "topology.kubernetes.io/zone".
Definition devicePathKey : string := "devicePath".

(** ** validateVolumeCapability *)

Definition validateVolumeCapability (cap : option VolumeCapability) : result unit :=
  match cap with
  | None => status_Error InvalidArgument "volume capability cannot be nil"
  | Some cap =>
      match cap_AccessMode cap with
      | None => status_Error InvalidArgument "access mode cannot be nil"
      | Some mode =>
          if negb (bool_decide (mode = SINGLE_NODE_WRITER))
             && negb (bool_decide (mode = SINGLE_NODE_READER_ONLY)) then
            status_Error InvalidArgument ("unsupported access mode " +:+ AccessMode_String mode
              +:+ ": only SINGLE_NODE_WRITER and SINGLE_NODE_READER_ONLY are supported")
          else
            let fsType := TrimSpace (GetFsType cap) in
            if negb (bool_decide (fsType = "")) && negb (IsSupportedFilesystemType fsType) then
              status_Error InvalidArgument "unsupported filesystem: only ext4 and xfs are supported"
            else Ok tt
      end
  end.

(** The loop over a list of capabilities: the first one that is rejected decides. *)
Fixpoint validate_capabilities (caps : list (option VolumeCapability)) : result unit :=
  match caps with
  | [] => Ok tt
  | vc :: caps =>
      match validateVolumeCapability vc with
      | Err e => Err e
      | Ok _ => validate_capabilities caps
      end
  end.

(** ** Handlers

    [if strings.TrimSpace(x) == "" { return InvalidArgument }] and its siblings. *)
Definition require {E L A} (ok : bool) (msg : string) (k : M E L (result A)) : M E L (result A) :=
  if ok then k else ret (status_Error InvalidArgument msg).

(** [if err := ...; err != nil { return nil, err }]. *)
Definition check {E L A B} (r : result A) (k : A -> M E L (result B)) : M E L (result B) :=
  match r with Ok a => k a | Err e => ret (Err e) end.

(** ** Facts *)

Definition supported (cap : option VolumeCapability) : Prop :=
  exists c mode, cap = Some c /\ cap_AccessMode c = Some mode
    /\ (mode = SINGLE_NODE_WRITER \/ mode = SINGLE_NODE_READER_ONLY)
    /\ (TrimSpace (GetFsType c) = "" \/ IsSupportedFilesystemType (TrimSpace (GetFsType c)) = true).

Lemma validateVolumeCapability_spec cap :
  (validateVolumeCapability cap = Ok tt /\ supported cap)
  \/ (exists msg, validateVolumeCapability cap = Err (EStatus InvalidArgument msg) /\ ~ supported cap).
Proof.
  unfold validateVolumeCapability, supported, status_Error.
  destruct cap as [c|]; [|right; eexists; split; [done|]; naive_solver].
  destruct (cap_AccessMode c) as [mode|] eqn:Em; [|right; eexists; split; [done|]; naive_solver].
  destruct (negb _ && negb _) eqn:Emode.
  { to_prop. right. eexists. split; [done|]. naive_solver. }
  destruct (negb (bool_decide (TrimSpace (GetFsType c) = "")) && _) eqn:Efs.
  { to_prop. right. eexists. split; [done|]. intros (c' & mode' & [= <-] & _ & _ & [?|?]); congruence. }
  left. split; [done|]. exists c, mode. split_and!; [done..| |].
  - apply andb_false_iff in Emode as [Emode|Emode]; to_prop; auto.
  - apply andb_false_iff in Efs as [Efs|Efs]; to_prop; auto.
Qed.

Lemma validate_capabilities_spec caps :
  (validate_capabilities caps = Ok tt /\ Forall supported caps)
  \/ (exists msg, validate_capabilities caps = Err (EStatus InvalidArgument msg)
      /\ ~ Forall supported caps).
Proof.
  induction caps as [|cap caps IH]; simpl; [by left|].
  destruct (validateVolumeCapability_spec cap) as [[-> Hs]|(msg & -> & Hs)].
  - destruct IH as [[-> Hf]|(msg & -> & Hf)]; [left; split; [done|by constructor]|right].
    exists msg. split; [done|]. intros [_ Hall]%Forall_cons_iff. by apply Hf.
  - right. exists msg. split; [done|]. intros [Hall _]%Forall_cons_iff. by apply Hs.
Qed.

(** *** Errors of a handler *)

(** An error a handler may return: a status with a code that says something. *)
Definition proper_status (e : gerror) : Prop :=
  exists c msg, e = EStatus c msg /\ c <> OK /\ c <> Unknown.

Definition proper_result {A} (r : result A) : Prop := forall e, r = Err e -> proper_status e.

Abbreviation proper m w := (wp m (fun r _ _ => proper_result r) w).

Section Rules.
Context {E L : Type}.
Abbreviation post A := (A -> list L -> World E L -> Prop).

Lemma wp_require {A} (ok : bool) msg (k : M E L (result A)) (Q : post (result A)) w :
  (ok = false -> Q (Err (EStatus InvalidArgument msg)) [] w) -> (ok = true -> wp k Q w) ->
  wp (require ok msg k) Q w.
Proof. intros Hf Ht. unfold require, status_Error. destruct ok; [auto|]. wp_step. auto. Qed.

Lemma wp_check {A B} (r : result A) (k : A -> M E L (result B)) (Q : post (result B)) w :
  (forall e, r = Err e -> Q (Err e) [] w) -> (forall a, r = Ok a -> wp (k a) Q w) ->
  wp (check r k) Q w.
Proof. intros He Hk. unfold check. destruct r; [auto|]. wp_step. auto. Qed.

Lemma proper_ok {A} (a : A) : proper_result (Ok a).
Proof. done. Qed.

Lemma proper_err {A} c msg : c <> OK -> c <> Unknown -> proper_result (status_Error c msg : result A).
Proof. intros H1 H2 e [= <-]. by exists c, msg. Qed.

Lemma proper_require {A} ok msg (k : M E L (result A)) w : proper k w -> proper (require ok msg k) w.
Proof. intros Hk. apply wp_require; [|done]. intros _. by apply proper_err. Qed.

Lemma proper_check {A B} (r : result A) (k : A -> M E L (result B)) w :
  proper_result r -> (forall a, proper (k a) w) -> proper (check r k) w.
Proof.
  intros Hr Hk. apply wp_check; [|auto]. intros e ->. intros e' [= <-]. by apply Hr.
Qed.

Lemma proper_capability cap : proper_result (validateVolumeCapability cap).
Proof.
  destruct (validateVolumeCapability_spec cap) as [[-> _]|(msg & -> & _)]; [done|].
  by apply proper_err.
Qed.
End Rules.

Create HintDb proper discriminated.
#[export] Hint Resolve proper_ok proper_err : proper.
#[export] Hint Extern 1 (_ <> _) => discriminate : proper.
