(* ===== verification/Controller.v ===== *)
(** * The controller service (internal/driver/controller.go)

    The handlers against the interface [EVSClient]; what an implementation of the
    interface promises is the class [EVSClientLaws]. *)

From S2P Require Import Prelude GoStrings GoErrors Runtime GoPath Mount Csi.
From S2P Require Import EvsClient EvsVolume EvsListing EvsAttachment.

Local Open Scope stdpp_scope.
Local Open Scope go_scope.

(** ** Constants *)

Definition paramVolumeType : string := "type".
Definition paramAvailabilityZone : string := "availability_zone".
Definition coReservedParameterPrefix : string := "csi.storage.k8s.io/".
Definition minVolumeSizeGiB : Z := 10.
Definition bytesInGiB : Z := 1024 * 1024 * 1024.
Definition devDirPrefix : string := "/dev/".

(** ** The interface *)

Class EVSClient (E L : Type) := {
  ci_CreateVolume : GoContext -> CreateVolumeOpts -> M E L (result Volume);
  ci_GetVolume : GoContext -> string -> M E L (result Volume);
  ci_DiscoverVolume : GoContext -> DiscoverVolumeOpts -> M E L (result Volume);
  ci_DeleteVolume : GoContext -> string -> M E L (result unit);
  ci_AttachVolume : GoContext -> string -> string -> M E L (result (option Attachment));
  ci_DetachVolume : GoContext -> string -> string -> M E L (result unit) }.

(** The constructor refuses nil parts. *)
Definition NewControllerService {C G Lg} (evsClient : option C) (cfg : option G)
    (logger : option Lg) : result (C * G * Lg) :=
  match evsClient, cfg, logger with
  | None, _, _ => Err (ENew "EVS client cannot be nil")
  | _, None, _ => Err (ENew "config cannot be nil")
  | _, _, None => Err (ENew "logger cannot be nil")
  | Some c, Some g, Some l => Ok (c, g, l)
  end.

(** ** Errors *)

Definition toGRPCError (op : string) (conflictCode : Code) (err : gerror) : gerror :=
  let as_code c := EStatus c (op +:+ ": " +:+ Error err) in
  if Is err ErrNotFound then as_code NotFound else
  if Is err ErrInvalidArgument then as_code InvalidArgument else
  if Is err ErrConflict then as_code conflictCode else
  if Is err ErrUnauthenticated then as_code Unauthenticated else
  if Is err ErrPermissionDenied then as_code PermissionDenied else
  if Is err ErrUnavailable then as_code Unavailable else
  if Is err Canceled then as_code CodeCanceled else
  if Is err DeadlineExceeded then as_code CodeDeadlineExceeded else
  as_code Internal.

(** ** Parameters, sizes and zones *)

Definition accepted_parameter (key : string) : bool :=
  HasPrefix key coReservedParameterPrefix || bool_decide (key = paramVolumeType)
  || bool_decide (key = paramAvailabilityZone).

(** slices.Sorted(maps.Keys(params)). *)
Definition sorted_keys (params : gmap string string) : list string :=
  merge_sort String.le (map fst (map_to_list params)).

Definition validateParameters (params : gmap string string) : result unit :=
  match find_first (fun key => negb (accepted_parameter key)) (sorted_keys params) with
  | Some key => status_Error InvalidArgument ("unsupported StorageClass parameter " +:+ quote key)
  | None => Ok tt
  end.

Definition GetRequiredBytes (r : option CapacityRange) : Z :=
  match r with Some r => required_bytes r | None => 0 end.
Definition GetLimitBytes (r : option CapacityRange) : Z :=
  match r with Some r => limit_bytes r | None => 0 end.

(** int is 64 bits wide; division truncates. *)
Definition resolveSizeGiB (capRange : option CapacityRange) : result Z :=
  let reqBytes := GetRequiredBytes capRange in
  let limitBytes := GetLimitBytes capRange in
  if (reqBytes <? 0)%Z || (limitBytes <? 0)%Z
  then status_Error InvalidArgument "capacity bytes cannot be negative" else
  if (0 <? limitBytes)%Z && (limitBytes <? reqBytes)%Z then
    status_Error InvalidArgument ("required_bytes (" +:+ itoa reqBytes
      +:+ ") exceeds limit_bytes (" +:+ itoa limitBytes +:+ ")") else
  let roundedBytes := int64_sub (int64_add reqBytes bytesInGiB) 1 in
  if (roundedBytes <? reqBytes)%Z
  then status_Error OutOfRange "required_bytes exceeds the largest expressible volume size" else
  let sizeGiB := Z.max (Z.quot roundedBytes bytesInGiB) minVolumeSizeGiB in
  if (0 <? limitBytes)%Z && (limitBytes <? int64_mul sizeGiB bytesInGiB)%Z then
    status_Error OutOfRange ("no supported volume size satisfies limit_bytes ("
      +:+ itoa limitBytes +:+ ")") else
  Ok sizeGiB.

Definition limitSizeGiB (capRange : option CapacityRange) : Z :=
  let limitBytes := GetLimitBytes capRange in
  if (limitBytes <=? 0)%Z then 0 else Z.quot limitBytes bytesInGiB.

(** [if zone, ok := segments[key]; ok && strings.TrimSpace(zone) != ""]. *)
Definition zone_of (key : string) (segments : gmap string string) : option string :=
  match segments !! key with
  | Some zone => if blank zone then None else Some (TrimSpace zone)
  | None => None
  end.

Fixpoint first_zone (tops : list Topology) : option string :=
  match tops with
  | [] => None
  | top :: tops =>
      match zone_of TopologyZoneKey top with Some z => Some z | None => first_zone tops end
  end.

Definition pickAvailabilityZone (topReq : option TopologyRequirement) (params : gmap string string) :
    string :=
  let from_topology :=
    match topReq with
    | Some t => match first_zone (preferred t) with
                | Some z => Some z
                | None => first_zone (requisite t)
                end
    | None => None
    end in
  match from_topology with
  | Some z => z
  | None => default "" (zone_of paramAvailabilityZone params)
  end.

Definition formatCreateVolumeResponse (vol : Volume) : csi_Volume :=
  mkCsiVolume (vol_ID vol) (int64_mul (vol_Size vol) bytesInGiB)
    [{[ TopologyZoneKey := vol_AvailabilityZone vol ]}].

Definition isDeviceNodePath (path : string) : bool :=
  if negb (HasPrefix path devDirPrefix) then false else
  let name := TrimPrefix path devDirPrefix in
  negb (bool_decide (name = "")) && bool_decide (Clean path = path).

(** ** Handlers

    The service's logger calls do not affect what the handlers return. *)
Inductive ControllerCapability := CREATE_DELETE_VOLUME | PUBLISH_UNPUBLISH_VOLUME.

Definition ControllerGetCapabilities : list ControllerCapability :=
  [CREATE_DELETE_VOLUME; PUBLISH_UNPUBLISH_VOLUME].

Section Handlers.
Context {E L : Type} `{EVSClient E L}.
Abbreviation op A := (M E L (result A)).

(** The publish context of the answer. *)
Definition ControllerPublishVolume (ctx : GoContext) (req : option PublishVolumeRequest) :
    op (gmap string string) :=
  match req with
  | None => ret (status_Error InvalidArgument "request cannot be nil")
  | Some req =>
  require (negb (blank (cp_VolumeId req))) "volume_id cannot be empty" (
  require (negb (blank (cp_NodeId req))) "node_id cannot be empty" (
  require (bool_decide (is_Some (cp_Cap req))) "volume_capability cannot be nil" (
  check (validateVolumeCapability (cp_Cap req)) (fun _ =>
  require (negb (cp_Readonly req)) "read-only publication is not supported by this driver" (
  let! r := ci_AttachVolume ctx (cp_VolumeId req) (cp_NodeId req) in
  match r with
  | Err err =>
      ret (Err (toGRPCError ("publish volume " +:+ quote (cp_VolumeId req) +:+ " to node "
                  +:+ quote (cp_NodeId req)) FailedPrecondition err))
  | Ok attachment =>
      match attachment with
      | Some a =>
          if isDeviceNodePath (DeviceName a)
          then ret (Ok {[ devicePathKey := DeviceName a ]})
          else ret (status_Error Internal ("volume " +:+ quote (cp_VolumeId req)
                 +:+ " was attached to node " +:+ quote (cp_NodeId req)
                 +:+ " without a usable device path"))
      | None => ret (status_Error Internal ("volume " +:+ quote (cp_VolumeId req)
                 +:+ " was attached to node " +:+ quote (cp_NodeId req)
                 +:+ " without a usable device path"))
      end
  end)))))
  end.

Definition ControllerUnpublishVolume (ctx : GoContext) (req : option UnpublishVolumeRequest) :
    op unit :=
  match req with
  | None => ret (status_Error InvalidArgument "request cannot be nil")
  | Some req =>
  require (negb (blank (cu_VolumeId req))) "volume_id cannot be empty" (
  require (negb (blank (cu_NodeId req))) "node_id cannot be empty" (
  let! r := ci_DetachVolume ctx (cu_VolumeId req) (cu_NodeId req) in
  match r with
  | Err err =>
      ret (Err (toGRPCError ("unpublish volume " +:+ quote (cu_VolumeId req) +:+ " from node "
                  +:+ quote (cu_NodeId req)) Aborted err))
  | Ok _ => ret (Ok tt)
  end))
  end.

(** The part of CreateVolume behind its validation. *)
Definition provision (ctx : GoContext) (name zone volType : string) (sizeGiB : Z)
    (capRange : option CapacityRange) : op csi_Volume :=
  let! r := ci_DiscoverVolume ctx
              (mkDiscoverVolumeOpts name zone volType sizeGiB (limitSizeGiB capRange)) in
  match r with
  | Ok existing => ret (Ok (formatCreateVolumeResponse existing))
  | Err err =>
      if negb (Is err ErrNotFound)
      then ret (Err (toGRPCError "discover existing volume" AlreadyExists err)) else
      let! r := ci_CreateVolume ctx (mkCreateVolumeOpts zone volType name "" sizeGiB false) in
      match r with
      | Err err => ret (Err (toGRPCError "create volume" AlreadyExists err))
      | Ok created => ret (Ok (formatCreateVolumeResponse created))
      end
  end.

Definition CreateVolume (ctx : GoContext) (req : option CreateVolumeRequest) : op csi_Volume :=
  match req with
  | None => ret (status_Error InvalidArgument "request cannot be nil")
  | Some req =>
  require (negb (blank (cr_Name req))) "name cannot be empty" (
  require (0 <? length (cr_Caps req))%nat "volume capabilities cannot be empty" (
  check (validate_capabilities (cr_Caps req)) (fun _ =>
  require (negb (cr_HasSource req)) "provisioning from a volume content source is not supported" (
  let params := cr_Params req in
  check (validateParameters params) (fun _ =>
  let volType := TrimSpace (default "" (params !! paramVolumeType)) in
  require (negb (bool_decide (volType = "")))
    ("StorageClass parameter " +:+ quote paramVolumeType +:+ " is required") (
  let zone := pickAvailabilityZone (cr_Topology req) params in
  require (negb (bool_decide (zone = "")))
    "availability zone is required in topology requirements or parameters" (
  check (resolveSizeGiB (cr_Range req)) (fun sizeGiB =>
  provision ctx (cr_Name req) zone volType sizeGiB (cr_Range req)))))))))
  end.

Definition DeleteVolume (ctx : GoContext) (req : option DeleteVolumeRequest) : op unit :=
  match req with
  | None => ret (status_Error InvalidArgument "request cannot be nil")
  | Some req =>
  let volumeID := cd_VolumeId req in
  require (negb (blank volumeID)) "volume_id cannot be empty" (
  let! r := ci_DeleteVolume ctx volumeID in
  match r with
  | Ok _ => ret (Ok tt)
  | Err err =>
      if Is err ErrNotFound then ret (Ok tt) else
      if Is err ErrNotOwned then
        ret (status_Error FailedPrecondition ("delete volume " +:+ quote volumeID
               +:+ ": volume has no ownership marker for this driver"))
      else ret (Err (toGRPCError ("delete volume " +:+ quote volumeID) FailedPrecondition err))
  end)
  end.

Definition ValidateVolumeCapabilities (ctx : GoContext) (req : option ValidateRequest) :
    op ValidateResponse :=
  match req with
  | None => ret (status_Error InvalidArgument "request cannot be nil")
  | Some req =>
  require (negb (blank (va_VolumeId req))) "volume_id cannot be empty" (
  require (0 <? length (va_Caps req))%nat "volume capabilities cannot be empty" (
  let! r := ci_GetVolume ctx (va_VolumeId req) in
  match r with
  | Err err =>
      if Is err ErrNotFound
      then ret (status_Error NotFound ("volume " +:+ quote (va_VolumeId req) +:+ " not found"))
      else ret (Err (toGRPCError ("get volume " +:+ quote (va_VolumeId req)) Aborted err))
  | Ok _ =>
      match validate_capabilities (va_Caps req) with
      | Err _ => ret (Ok (mkValidateResp None "unsupported volume capability or access mode"))
      | Ok _ =>
          if (0 <? size (va_Context req))%nat
          then ret (Ok (mkValidateResp None "unsupported volume context")) else
          match validateParameters (va_Params req) with
          | Err _ => ret (Ok (mkValidateResp None "unsupported volume parameter"))
          | Ok _ =>
              ret (Ok (mkValidateResp
                (Some (mkConfirmed (va_Context req) (va_Caps req) (va_Params req))) ""))
          end
      end
  end))
  end.
End Handlers.
