(* ===== verification/ControllerSpec.v ===== *)
(** * What the controller service guarantees

    The laws of the EVS client interface, the client of [EvsSDK] as an implementation of
    them, and the properties of the handlers, proved against the laws. *)

From S2P Require Import Prelude GoStrings GoErrors GoURL Runtime GoPath Mount Csi.
From S2P Require Import EvsClient EvsTransport EvsSDK EvsVolume EvsListing EvsAttachment EvsContract.
From S2P Require Import EvsBounds.
From S2P Require Import Controller.

Local Open Scope stdpp_scope.
Local Open Scope go_scope.

(** ** The laws of the interface *)

Class EVSClientLaws (E L : Type) `{EVSClient E L} := {
  law_Create ctx opts w :
    wp (ci_CreateVolume ctx opts) (fun r _ _ => classified_result r) w;
  law_Get ctx id w :
    wp (ci_GetVolume ctx id) (fun r _ _ => classified_result r) w;
  law_Discover ctx opts w :
    wp (ci_DiscoverVolume ctx opts) (fun r _ _ => classified_result r
      /\ forall v, r = Ok v -> vol_Name v = dvo_Name opts /\ isAdoptable v opts = true) w;
  law_Delete ctx id w :
    wp (ci_DeleteVolume ctx id) (fun r _ _ => classified_result r) w;
  law_Attach ctx v s w :
    wp (ci_AttachVolume ctx v s) (fun r _ _ => classified_result r
      /\ forall a, r = Ok a -> exists at_, a = Some at_ /\ VolumeID at_ = v /\ ServerID at_ = s) w;
  law_Detach ctx v s w :
    wp (ci_DetachVolume ctx v s) (fun r _ _ => classified_result r) w }.

(** ** The EVS client implements them *)

#[export] Instance evs_client {E} `{CloudSDK E} `{CloudURLs} (c : Client) : EVSClient E Event := {|
  ci_CreateVolume := EvsVolume.CreateVolume c;
  ci_GetVolume := GetVolume c;
  ci_DiscoverVolume := DiscoverVolume c;
  ci_DeleteVolume := EvsVolume.DeleteVolume c;
  ci_AttachVolume := AttachVolume c;
  ci_DetachVolume := DetachVolume c |}.

Lemma wp_returns {E L A} (m : M E L A) Q P w :
  wp m Q w -> returns P m -> wp m (fun a evs w' => Q a evs w' /\ P a) w.
Proof.
  intros (a & w' & evs & Hm & Ht & Hc & HQ) HP. exists a, w', evs. split_and!; [done..|].
  by eapply HP.
Qed.

Lemma attached_pair volumeID serverID r evs a :
  conforms (attach_protocol volumeID serverID) id Idle r evs -> r = Ok a ->
  exists at_, a = Some at_ /\ VolumeID at_ = volumeID /\ ServerID at_ = serverID.
Proof.
  intros (ph & Hs & He) ->. destruct He as (b & -> & ->).
  destruct (steps_settled _ _ _ _ Hs) as (_ & _ & l & _ & Hb & Hset); [done|].
  simpl in Hb, Hset. destruct b as [b|]; [|done]. exists b. split; [done|].
  destruct l as [l|]; simpl in Hb; [|done]. unfold find_attachment in Hb.
  destruct (find_first _ l) as [d|] eqn:Ef; [|done]. apply find_first_elem in Ef as [_ Hd].
  to_prop. by simplify_eq.
Qed.

#[export] Instance evs_client_laws {E} `{CloudSDK E} `{CloudURLs} cf v3c v2c ecsc :
  @EVSClientLaws E Event (evs_client (mkClient cf (Some v3c) v2c ecsc)).
Proof.
  set (c := mkClient _ _ _ _). split; simpl; intros.
  - eapply wp_mono; [apply wp_returns; [apply wp_CreateVolume|apply well_CreateVolume]|].
    by intros r evs w' _ [_ Hr].
  - eapply wp_mono; [apply wp_returns; [apply wp_GetVolume|apply well_GetVolume]|].
    by intros r evs w' _ [_ Hr].
  - eapply wp_mono; [apply wp_returns; [apply wp_DiscoverVolume|apply well_DiscoverVolume]|].
    by intros r evs w' _ [_ Hr].
  - eapply wp_mono; [apply wp_returns; [apply wp_DeleteVolume|apply well_DeleteVolume]|].
    by intros r evs w' _ [_ Hr].
  - eapply wp_mono; [apply wp_returns; [apply wp_AttachVolume|apply well_AttachVolume]|].
    intros r evs w' _ [[Hc _] Hr]. split; [done|]. intros a. by apply (attached_pair _ _ _ _ _ Hc).
  - eapply wp_mono; [apply wp_returns; [apply wp_DetachVolume|apply well_DetachVolume]|].
    by intros r evs w' _ [_ Hr].
Qed.

(** ** Statuses *)

(** The gRPC code of a class, given the code the operation uses for conflicts. *)
Definition grpc_code (s : sentinel) (conflict : Code) : Code :=
  if decide (s = ErrNotFound) then NotFound else
  if decide (s = ErrInvalidArgument) then InvalidArgument else
  if decide (s = ErrConflict) then conflict else
  if decide (s = ErrUnauthenticated) then Unauthenticated else
  if decide (s = ErrPermissionDenied) then PermissionDenied else
  if decide (s = ErrUnavailable) then Unavailable else
  if decide (s = Canceled) then CodeCanceled else
  if decide (s = DeadlineExceeded) then CodeDeadlineExceeded else Internal.

Lemma toGRPCError_class op conflict e s :
  (forall t, Is e t = bool_decide (s = t)) ->
  toGRPCError op conflict e = EStatus (grpc_code s conflict) (op +:+ ": " +:+ Error e).
Proof.
  intros He. unfold toGRPCError, grpc_code. rewrite !He.
  repeat (case_decide; [subst; by rewrite ?bool_decide_true, ?bool_decide_false by done|
    rewrite (bool_decide_false (s = _)) by done]). done.
Qed.

Lemma proper_toGRPCError op conflict e :
  classified e -> conflict <> OK -> conflict <> Unknown -> proper_status (toGRPCError op conflict e).
Proof.
  intros (s & _ & He) H1 H2. rewrite (toGRPCError_class _ _ _ s He). eexists _, _. split; [done|].
  unfold grpc_code. repeat case_decide; done.
Qed.

Lemma validateParameters_spec params :
  (validateParameters params = Ok tt /\ forall k, is_Some (params !! k) -> accepted_parameter k = true)
  \/ (exists k, validateParameters params
        = status_Error InvalidArgument ("unsupported StorageClass parameter " +:+ quote k)
      /\ is_Some (params !! k) /\ accepted_parameter k = false
      /\ forall k', is_Some (params !! k') -> accepted_parameter k' = false -> String.le k k').
Proof.
  unfold validateParameters.
  assert (forall k, k ∈ sorted_keys params <-> is_Some (params !! k)) as Hkeys.
  { intros k. unfold sorted_keys. rewrite merge_sort_Permutation. rewrite list_elem_of_In, in_map_iff.
    split.
    - intros ([k' v] & <- & Hin). apply list_elem_of_In, elem_of_map_to_list in Hin. by exists v.
    - intros [v Hv]. exists (k, v). split; [done|]. by apply list_elem_of_In, elem_of_map_to_list. }
  assert (StronglySorted String.le (sorted_keys params)) as Hsort
    by apply (StronglySorted_merge_sort _).
  destruct (find_first _ _) as [k|] eqn:Ef.
  - right. exists k. split; [done|]. pose proof Ef as Ef'. apply find_first_elem in Ef' as [Hin Hk].
    to_prop. split_and!; [by apply Hkeys|done|]. intros k' Hk' Hacc.
    apply find_first_Some in Ef as (l1 & l2 & Hl & _ & Hl1). rewrite Hl in Hsort.
    apply Hkeys in Hk'. rewrite Hl in Hk'. apply StronglySorted_app_1_r in Hsort.
    apply StronglySorted_cons in Hsort as [Hle _].
    apply elem_of_app in Hk' as [Hk'|[->|Hk']%elem_of_cons].
    + rewrite list.Forall_forall in Hl1. apply Hl1 in Hk'. by rewrite Hacc in Hk'.
    + done.
    + rewrite list.Forall_forall in Hle. by apply Hle.
  - left. split; [done|]. intros k Hk%Hkeys. apply find_first_None in Ef.
    rewrite list.Forall_forall in Ef. apply Ef in Hk. by to_prop.
Qed.

(** ** Sizes *)

Lemma GiB_pos : (0 < bytesInGiB)%Z.
Proof. done. Qed.

(** The least whole number of GiB, from the minimum up, that holds the bytes. *)
Definition least_size (reqBytes n : Z) : Prop :=
  (minVolumeSizeGiB <= n /\ reqBytes <= n * bytesInGiB
   /\ forall k, minVolumeSizeGiB <= k -> reqBytes <= k * bytesInGiB -> n <= k)%Z.

Lemma rounded_size reqBytes :
  (0 <= reqBytes)%Z ->
  least_size reqBytes (Z.max (Z.quot (reqBytes + bytesInGiB - 1) bytesInGiB) minVolumeSizeGiB).
Proof.
  intros Hr. pose proof GiB_pos as Hg. rewrite Z.quot_div_nonneg by lia.
  set (q := ((reqBytes + bytesInGiB - 1) / bytesInGiB)%Z).
  pose proof (Z.div_mod (reqBytes + bytesInGiB - 1) bytesInGiB ltac:(lia)) as Hdm. fold q in Hdm.
  pose proof (Z.mod_pos_bound (reqBytes + bytesInGiB - 1) bytesInGiB Hg) as Hb.
  assert (reqBytes <= q * bytesInGiB)%Z by lia.
  unfold least_size. split_and!; [lia|nia|]. intros k Hk Hle.
  assert (q <= k)%Z; [|lia]. unfold q. apply Z.lt_succ_r. apply Z.div_lt_upper_bound; [done|]. lia.
Qed.

Lemma least_size_bound reqBytes n :
  (reqBytes <= 2 ^ 63 - bytesInGiB)%Z -> least_size reqBytes n -> in_int64 (n * bytesInGiB).
Proof.
  intros Hr (Hmin & Hle & Hleast). unfold in_int64, minVolumeSizeGiB in *.
  assert (n <= 2 ^ 33 - 1)%Z.
  { apply Hleast; [done|]. unfold bytesInGiB in *. lia. }
  unfold bytesInGiB. lia.
Qed.

Lemma rounded_bytes reqBytes :
  (0 <= reqBytes < 2 ^ 63)%Z ->
  (reqBytes <= 2 ^ 63 - bytesInGiB
   /\ int64_sub (int64_add reqBytes bytesInGiB) 1 = reqBytes + bytesInGiB - 1)%Z
  \/ (2 ^ 63 - bytesInGiB < reqBytes
      /\ int64_sub (int64_add reqBytes bytesInGiB) 1 < reqBytes)%Z.
Proof.
  intros Hr. unfold int64_sub, int64_add. rewrite wrap64_sub.
  destruct (Z_le_gt_dec reqBytes (2 ^ 63 - bytesInGiB)) as [Hle|Hgt]; [left|right].
  - split; [done|]. apply wrap64_id. unfold in_int64, bytesInGiB in *. lia.
  - split; [lia|]. rewrite wrap64_over; unfold bytesInGiB in *; lia.
Qed.

(** ** Properties: sizes, zones, parameters *)

Definition range_in_int64 (r : option CapacityRange) : Prop :=
  in_int64 (GetRequiredBytes r) /\ in_int64 (GetLimitBytes r).

(** A range that no request may state: negative bytes, or more required than allowed. *)
Definition malformed (r : option CapacityRange) : Prop :=
  (GetRequiredBytes r < 0 \/ GetLimitBytes r < 0 \/ 0 < GetLimitBytes r < GetRequiredBytes r)%Z.

(** A size that EVS offers, holds the required bytes and respects the limit. *)
Definition allowed (r : option CapacityRange) (n : Z) : Prop :=
  (minVolumeSizeGiB <= n /\ GetRequiredBytes r <= n * bytesInGiB /\ in_int64 (n * bytesInGiB)
   /\ (0 < GetLimitBytes r -> n * bytesInGiB <= GetLimitBytes r))%Z.

(** What a size answer means for a range: a malformed range is refused as invalid, one
    without an allowed size as out of range, and every other answered with the least size. *)
Definition size_spec (r : option CapacityRange) (answer : result Z) : Prop :=
  match answer with
  | Ok n => ~ malformed r /\ allowed r n /\ least_size (GetRequiredBytes r) n
  | Err e => (malformed r /\ status_code e = InvalidArgument)
      \/ (~ malformed r /\ status_code e = OutOfRange /\ forall n, ~ allowed r n)
  end.

Lemma allowed_least r n k : least_size (GetRequiredBytes r) n -> allowed r k -> (n <= k)%Z.
Proof. intros (_ & _ & Hn) (Hmin & Hk & _). by apply Hn. Qed.

Lemma resolveSizeGiB_size r : range_in_int64 r -> size_spec r (resolveSizeGiB r).
Proof.
  intros [Hreq Hlim]. unfold size_spec, malformed, resolveSizeGiB.
  set (req := GetRequiredBytes r) in *. set (lim := GetLimitBytes r) in *.
  unfold in_int64 in Hreq, Hlim. pose proof GiB_pos as Hg.
  destruct (Z.ltb_spec req 0); [left; split; [lia|done]|].
  destruct (Z.ltb_spec lim 0); [left; split; [lia|done]|]. cbn [orb].
  destruct ((0 <? lim)%Z && (lim <? req)%Z) eqn:Eorder.
  { left. split; [|done]. rewrite andb_true_iff, !Z.ltb_lt in Eorder. lia. }
  rewrite andb_false_iff, !Z.ltb_ge in Eorder.
  destruct (rounded_bytes req) as [[Hfit Hround]|[Hover Hround]]; [lia| |].
  2: { apply Z.ltb_lt in Hround as ->. right. split_and!; [lia|done|]. intros n (_ & Hn & Hin & _).
       fold req in Hn. unfold in_int64, bytesInGiB in *. lia. }
  rewrite Hround. destruct (Z.ltb_spec (req + bytesInGiB - 1) req); [lia|].
  pose proof (rounded_size req ltac:(lia)) as Hleast.
  set (n := Z.max _ _) in *. pose proof (least_size_bound _ _ Hfit Hleast) as Hn.
  unfold int64_mul. rewrite wrap64_id by done.
  destruct ((0 <? lim)%Z && (lim <? n * bytesInGiB)%Z) eqn:Elim.
  - rewrite andb_true_iff, !Z.ltb_lt in Elim. right. split_and!; [lia|done|]. intros k Hk.
    pose proof (allowed_least r n k Hleast Hk). destruct Hk as (_ & _ & _ & Hk).
    fold lim in Hk. specialize (Hk ltac:(lia)). nia.
  - rewrite andb_false_iff, !Z.ltb_ge in Elim. split_and!; [lia| |done].
    destruct Hleast as (Hmin & Hle & _). split_and!; [done..|]. fold lim. lia.
Qed.

(** C17. resolveSizeGiB answers the least whole size, from the EVS minimum up, that holds the
    required bytes and respects the limit; 64-bit overflow is never mistaken for a size.
    It answers InvalidArgument exactly when the range is malformed (negative, or required
    above limit), OutOfRange exactly when the range is sound and no size satisfies it. *)
Theorem resolveSizeGiB_least r : range_in_int64 r -> size_spec r (resolveSizeGiB r).
Proof. apply resolveSizeGiB_size. Qed.

Lemma resolveSizeGiB_least_witness :
  resolveSizeGiB (Some (mkRange 10737418241 0)) = Ok 11%Z
  /\ size_spec (Some (mkRange 10737418241 0)) (resolveSizeGiB (Some (mkRange 10737418241 0))).
Proof.
  split; [vm_compute; reflexivity|]. apply resolveSizeGiB_least.
  split; unfold in_int64; simpl; lia.
Defined.

(** C23. A volume that discovery may adopt for a request fits the request: the capacity the
    controller reports for it is at least the required bytes, at most the limit, computed
    without overflow, in the requested zone; it carries the driver's tag, has the
    requested type and is in use or available. *)
Theorem adopted_volume_fits r n name zone volType vol :
  range_in_int64 r -> resolveSizeGiB r = Ok n -> (vol_Size vol < 2 ^ 33)%Z ->
  isAdoptable vol (mkDiscoverVolumeOpts name zone volType n (limitSizeGiB r)) = true ->
  let resp := formatCreateVolumeResponse vol in
  (GetRequiredBytes r <= cv_CapacityBytes resp)%Z
  /\ (0 < GetLimitBytes r -> cv_CapacityBytes resp <= GetLimitBytes r)%Z
  /\ cv_CapacityBytes resp = (vol_Size vol * bytesInGiB)%Z
  /\ cv_Topology resp = [{[ TopologyZoneKey := zone ]}]
  /\ vol_Tags vol !! OwnershipTagKey = Some OwnershipTagValue
  /\ vol_VolumeType vol = volType
  /\ (vol_Status vol = volumeStatusAvailable \/ vol_Status vol = volumeStatusInUse).
Proof.
  intros Hr Hn Hbig Ha resp. pose proof (resolveSizeGiB_size r Hr) as Hs. rewrite Hn in Hs.
  destruct Hs as (_ & (_ & _ & _ & Hlim) & Hmin & Hreq & _). pose proof GiB_pos as Hg.
  unfold isAdoptable in Ha. simpl in Ha.
  destruct (negb (owned vol)) eqn:Eown; [done|]. destruct (negb _ && negb _) eqn:Est; [done|].
  assert (vol_Status vol = volumeStatusAvailable \/ vol_Status vol = volumeStatusInUse) as Hst
    by (apply andb_false_iff in Est as [Est|Est]; to_prop; auto).
  destruct (negb (bool_decide (vol_AvailabilityZone vol = _))) eqn:Ezone; [done|].
  destruct (negb (bool_decide (vol_VolumeType vol = _))) eqn:Etype; [done|].
  destruct (Z.ltb_spec (vol_Size vol) n) as [|Hsize]; [done|]. to_prop.
  assert (cv_CapacityBytes resp = vol_Size vol * bytesInGiB)%Z as Hcap.
  { unfold resp, formatCreateVolumeResponse, int64_mul. simpl. apply wrap64_id.
    unfold in_int64, minVolumeSizeGiB, bytesInGiB in *. lia. }
  split_and!; [rewrite Hcap; nia| |done|by unfold resp, formatCreateVolumeResponse; rewrite Ezone
    |by apply owned_tag|done|exact Hst].
  intros Hpos. rewrite Hcap. specialize (Hlim Hpos). unfold limitSizeGiB in Ha.
  destruct (Z.leb_spec (GetLimitBytes r) 0); [lia|].
  assert (n <= Z.quot (GetLimitBytes r) bytesInGiB)%Z as Hq.
  { rewrite Z.quot_div_nonneg by lia. apply Z.div_le_lower_bound; lia. }
  assert (0 < Z.quot (GetLimitBytes r) bytesInGiB)%Z as Hq0 by (unfold minVolumeSizeGiB in Hmin; lia).
  apply Z.ltb_lt in Hq0. rewrite Hq0 in Ha. simpl in Ha.
  destruct (Z.ltb_spec (Z.quot (GetLimitBytes r) bytesInGiB) (vol_Size vol)) as [|Hle]; [done|].
  rewrite Z.quot_div_nonneg in Hle by lia.
  pose proof (Z.mul_div_le (GetLimitBytes r) bytesInGiB Hg). nia.
Qed.

Definition small_volume : Volume :=
  mkVolume "vol-1" "pvc-1" "available" 12 "eu-de-01" "SSD" ∅
    {[ OwnershipTagKey := OwnershipTagValue ]} false.

Definition small_range : option CapacityRange := Some (mkRange 10737418241 13958643712).

Lemma adopted_volume_fits_witness :
  let resp := formatCreateVolumeResponse small_volume in
  (10737418241 <= cv_CapacityBytes resp)%Z
  /\ (0 < 13958643712 -> cv_CapacityBytes resp <= 13958643712)%Z
  /\ cv_CapacityBytes resp = (12 * bytesInGiB)%Z
  /\ cv_Topology resp = [{[ TopologyZoneKey := "eu-de-01" ]}]
  /\ vol_Tags small_volume !! OwnershipTagKey = Some OwnershipTagValue
  /\ vol_VolumeType small_volume = "SSD"
  /\ (vol_Status small_volume = volumeStatusAvailable \/ vol_Status small_volume = volumeStatusInUse).
Proof.
  apply (adopted_volume_fits small_range 11 "pvc-1" "eu-de-01" "SSD" small_volume).
  - split; unfold in_int64; simpl; lia.
  - vm_compute. reflexivity.
  - vm_compute. reflexivity.
  - vm_compute. reflexivity.
Defined.

(** The zones a request offers, in the order of preference. *)
Definition offered_zones (topReq : option TopologyRequirement) (params : gmap string string) :
    list string :=
  omap (zone_of TopologyZoneKey)
    (match topReq with Some t => preferred t ++ requisite t | None => [] end)
  ++ match zone_of paramAvailabilityZone params with Some z => [z] | None => [] end.

Lemma first_zone_hd tops : first_zone tops = head (omap (zone_of TopologyZoneKey) tops).
Proof.
  induction tops as [|top tops IH]; simpl; [done|]. by destruct (zone_of TopologyZoneKey top).
Qed.

(** pickAvailabilityZone is the first non-blank zone offered: preferred topologies, then
    requisite ones, then the StorageClass parameter; it is trimmed, and empty exactly
    when none is offered. *)
Theorem pickAvailabilityZone_first topReq params :
  pickAvailabilityZone topReq params = hd "" (offered_zones topReq params)
  /\ (pickAvailabilityZone topReq params = "" <-> offered_zones topReq params = []).
Proof.
  assert (pickAvailabilityZone topReq params = hd "" (offered_zones topReq params)) as Heq.
  { unfold pickAvailabilityZone, offered_zones. destruct topReq as [t|].
    - rewrite !first_zone_hd, omap_app.
      destruct (omap (zone_of TopologyZoneKey) (preferred t)); [|done].
      destruct (omap (zone_of TopologyZoneKey) (requisite t)); [|done].
      by destruct (zone_of _ params).
    - by destruct (zone_of _ params). }
  split; [done|]. rewrite Heq. assert (forall key m z, zone_of key m = Some z -> z <> "") as Hz.
  { intros key m z. unfold zone_of. destruct (m !! key) as [v|]; [|done].
    destruct (blank v) eqn:Eb; [done|]. intros [= <-]. unfold blank in Eb. by to_prop. }
  assert (Forall (fun z => z <> "") (offered_zones topReq params)) as Hall.
  { unfold offered_zones. apply Forall_app. split.
    - apply list.Forall_forall. intros z Hin. apply list_elem_of_omap in Hin as (m & _ & Hm).
      by eapply Hz.
    - destruct (zone_of _ params) eqn:Ez; [|done]. apply Forall_singleton. by eapply Hz. }
  destruct (offered_zones topReq params) as [|z l]; simpl; [done|].
  apply Forall_cons_iff in Hall as [Hne _]. by split.
Qed.

(** A request's parameters are accepted exactly when every key is the volume type, the
    availability zone or reserved for the orchestrator; the rejection is an invalid
    argument that names the least offending key, whatever order the map has. *)
Theorem validateParameters_least params :
  (validateParameters params = Ok tt <-> forall k, is_Some (params !! k) -> accepted_parameter k = true)
  /\ (forall e, validateParameters params = Err e -> exists k,
        e = EStatus InvalidArgument ("unsupported StorageClass parameter " +:+ quote k)
        /\ is_Some (params !! k) /\ accepted_parameter k = false
        /\ forall k', is_Some (params !! k') -> accepted_parameter k' = false -> String.le k k').
Proof.
  destruct (validateParameters_spec params) as [[-> Hall]|(k & -> & Hk & Hacc & Hleast)].
  - by split.
  - split; [split; [done|]|].
    + intros Hall. by rewrite Hall in Hacc.
    + intros e [= <-]. by exists k.
Qed.

(** ** Properties: handlers *)

Section Handlers.
Context {E L : Type} `{EVSClientLaws E L}.

(** The calls of the controller service. *)
Inductive rpc :=
| RpcCreate (req : option CreateVolumeRequest)
| RpcDelete (req : option DeleteVolumeRequest)
| RpcPublish (req : option PublishVolumeRequest)
| RpcUnpublish (req : option UnpublishVolumeRequest)
| RpcValidate (req : option ValidateRequest).

Definition failure {A} (m : M E L (result A)) : M E L (option gerror) :=
  bind m (fun r => ret (err_of r)).

Definition serve (ctx : GoContext) (call : rpc) : M E L (option gerror) :=
  match call with
  | RpcCreate req => failure (CreateVolume ctx req)
  | RpcDelete req => failure (DeleteVolume ctx req)
  | RpcPublish req => failure (ControllerPublishVolume ctx req)
  | RpcUnpublish req => failure (ControllerUnpublishVolume ctx req)
  | RpcValidate req => failure (ValidateVolumeCapabilities ctx req)
  end.

Lemma proper_grpc {A} op c e :
  classified e -> c <> OK -> c <> Unknown -> proper_result (Err (toGRPCError op c e) : result A).
Proof. intros He H1 H2 e' [= <-]. by apply proper_toGRPCError. Qed.

#[local] Hint Resolve proper_grpc : proper.

Lemma proper_capabilities caps : proper_result (validate_capabilities caps).
Proof.
  destruct (validate_capabilities_spec caps) as [[-> _]|(msg & -> & _)]; [done|].
  by apply proper_err.
Qed.

Lemma proper_parameters params : proper_result (validateParameters params).
Proof.
  destruct (validateParameters_spec params) as [[-> _]|(k & -> & _)]; [done|]. by apply proper_err.
Qed.

Lemma proper_size r : proper_result (resolveSizeGiB r).
Proof. unfold resolveSizeGiB. repeat case_match; auto with proper. Qed.

Lemma proper_CreateVolume ctx req w : proper (CreateVolume ctx req) w.
Proof.
  unfold CreateVolume. destruct req as [req|]; [|wp_step; by apply proper_err].
  do 2 apply proper_require. apply proper_check; [apply proper_capabilities|intros _].
  apply proper_require, proper_check; [apply proper_parameters|intros _].
  do 2 apply proper_require. apply proper_check; [apply proper_size|intros size].
  unfold provision. wp_step. eapply wp_mono; [apply law_Discover|].
  intros [v|e] evs w1 _ [Hr _]; [by wp_step|]. destruct (negb (Is e ErrNotFound)).
  { wp_step. apply proper_grpc; [by apply Hr|done..]. }
  wp_step. eapply wp_mono; [apply law_Create|]. clear Hr e.
  intros [v|e] evs' w2 _ Hr; wp_step; [done|]. apply proper_grpc; [by apply Hr|done..].
Qed.

Lemma proper_DeleteVolume ctx req w : proper (DeleteVolume ctx req) w.
Proof.
  unfold DeleteVolume. destruct req as [req|]; [|wp_step; by apply proper_err].
  apply proper_require. wp_step. eapply wp_mono; [apply law_Delete|].
  intros [v|e] evs w1 _ Hr; [by wp_step|].
  destruct (Is e ErrNotFound); [by wp_step|]. destruct (Is e ErrNotOwned); wp_step.
  - by apply proper_err.
  - apply proper_grpc; [by apply Hr|done..].
Qed.

Lemma proper_Publish ctx req w : proper (ControllerPublishVolume ctx req) w.
Proof.
  unfold ControllerPublishVolume. destruct req as [req|]; [|wp_step; by apply proper_err].
  do 3 apply proper_require. apply proper_check; [apply proper_capability|intros _].
  apply proper_require. wp_step. eapply wp_mono; [apply law_Attach|].
  intros [[a|]|e] evs w1 _ [Hr _].
  - destruct (isDeviceNodePath _); wp_step; [done|by apply proper_err].
  - wp_step. by apply proper_err.
  - wp_step. apply proper_grpc; [by apply Hr|done..].
Qed.

Lemma proper_Unpublish ctx req w : proper (ControllerUnpublishVolume ctx req) w.
Proof.
  unfold ControllerUnpublishVolume. destruct req as [req|]; [|wp_step; by apply proper_err].
  do 2 apply proper_require. wp_step. eapply wp_mono; [apply law_Detach|].
  intros [v|e] evs w1 _ Hr; wp_step; [done|]. apply proper_grpc; [by apply Hr|done..].
Qed.

Lemma proper_Validate ctx req w : proper (ValidateVolumeCapabilities ctx req) w.
Proof.
  unfold ValidateVolumeCapabilities. destruct req as [req|]; [|wp_step; by apply proper_err].
  do 2 apply proper_require. wp_step. eapply wp_mono; [apply law_Get|].
  intros [v|e] evs w1 _ Hr.
  - destruct (validate_capabilities _); [|by wp_step]. case_match; [by wp_step|].
    destruct (validateParameters _); by wp_step.
  - destruct (Is e ErrNotFound); wp_step; [by apply proper_err|].
    apply proper_grpc; [by apply Hr|done..].
Qed.
End Handlers.

(** C26. Against any client that keeps the laws, every controller call returns, and an error
    it returns is a gRPC status with a definite code, never OK or Unknown. *)
Theorem serve_proper {E L} `{EVSClientLaws E L} ctx call (w : World E L) :
  runs (serve ctx call) w (fun o _ => forall e, o = Some e -> proper_status e).
Proof.
  apply wp_runs. destruct call; apply wp_bind;
    (eapply wp_mono; [first [apply proper_CreateVolume|apply proper_DeleteVolume|apply proper_Publish
      |apply proper_Unpublish|apply proper_Validate]|]);
    intros [r|e] evs w1 _ Hr; wp_step; try done; intros e' [= <-]; by apply Hr.
Qed.

Lemma serve_proper_witness :
  let cloud := stock_cloud [] in let urls := plain_urls in let sc := mkService None "" "" in
  let client := evs_client (mkClient (mkConfig "" "" "" "" "" "") (Some sc) None None) in
  runs (serve Background (RpcDelete (Some (mkDeleteReq "vol-1")))) (mkWorld 0 tt [])
    (fun o _ => forall e, o = Some e -> proper_status e).
Proof.
  intros cloud urls sc client. apply (@serve_proper unit Event client).
  exact (@evs_client_laws unit cloud urls _ sc None None).
Defined.
