(* ===== verification/ControllerCloud.v ===== *)
(** * The controller service over the EVS client

    The handlers of [Controller] run on the client of [EvsSDK]: what a CSI call makes the
    cloud do, request by request. *)

From S2P Require Import Prelude GoStrings GoErrors GoURL Runtime GoPath Mount Csi.
From S2P Require Import EvsClient EvsTransport EvsSDK EvsVolume EvsListing EvsAttachment EvsContract.
From S2P Require Import EvsBounds Controller ControllerSpec.

Local Open Scope stdpp_scope.
Local Open Scope go_scope.

(** ** Device paths *)

Lemma device_path_elems p :
  isDeviceNodePath p = true ->
  IsAbs p = true /\ Clean p = p /\ exists rest, rest <> [] /\ elems p = "dev" :: rest.
Proof.
  unfold isDeviceNodePath. destruct (HasPrefix p devDirPrefix) eqn:Hp; [|done]. simpl negb. cbn iota.
  intros Hd. to_prop. apply HasPrefix_spec in Hp as [t ->].
  assert (IsAbs (devDirPrefix +:+ t) = true) as Habs by done.
  split_and!; [done|done|]. exists (split_on slash t). split; [apply split_on_ne|].
  set (p := devDirPrefix +:+ t) in *.
  assert (split_on slash p = "" :: "dev" :: split_on slash t) as Hs.
  { unfold p, devDirPrefix. change ("/dev/" +:+ t) with ("" +:+ String slash ("dev" +:+ String slash t)).
    by rewrite !split_on_app by done. }
  assert (Clean p = "/" +:+ Join (elems p) "/") as Hc by (unfold Clean; by rewrite Habs).
  destruct (elems p) as [|x l] eqn:Ee.
  { exfalso. destruct_and?. assert (p = "/") as Hp' by (transitivity (Clean p); [done|exact Hc]). done. }
  assert (split_on slash (Clean p) = "" :: elems p) as Hs'.
  { rewrite Hc, Ee. change ("/" +:+ Join (x :: l) "/") with ("" +:+ String slash (Join (x :: l) "/")).
    rewrite split_on_app by done. f_equal. apply split_on_Join; [done|].
    apply list.Forall_forall. intros y Hy. apply (abs_names p); [done|]. by rewrite Ee. }
  destruct_and?. rewrite <-Ee. congruence.
Qed.

(** Elements below the device directory are what the default mounter accepts. *)
Lemma device_holds p :
  isDeviceNodePath p = true -> Clean p = p /\ holdsDevice (NewLinuxMounter []) p = true.
Proof.
  intros (Habs & Hc & rest & Hne & He)%device_path_elems. split; [done|].
  apply holdsDevice_spec. split_and!; [done|done|]. exists rest. by rewrite He.
Qed.

(** ** Adoption and creation *)

Section Cloud.
Context {E : Type} `{CloudSDK E} `{CloudURLs}.

(** An answer of the cloud that means "not found". *)
Definition absent_answer (err : gerror) : Prop :=
  context_error err = false /\ classifyErrorKind err = ErrNotFound.

(** The last request of [evs] was a listing the cloud answered with "not found". *)
Definition listing_not_found (evs : list Event) : Prop :=
  exists evs0 sc o err, evs = evs0 ++ [mkEvent sc (CallList o (Err err))]
    /\ absent_answer err.

Definition not_found_spec {A} (r : result A) (evs : list Event) : Prop :=
  forall e, r = Err e -> Is e ErrNotFound = true -> listing_not_found evs.

Lemma classify_not_found c op e :
  Is (classifyError c op e) ErrNotFound = true -> absent_answer e.
Proof.
  unfold absent_answer. rewrite classifyError_Is. unfold context_error, error_class.
  destruct (Is e Canceled) eqn:E1; [done|]. destruct (Is e DeadlineExceeded) eqn:E2; [done|].
  intros Hk%bool_decide_eq_true. done.
Qed.

Lemma wp_page_not_found c ctx opts w :
  wp (listVolumePage c ctx opts) (fun r evs _ => not_found_spec r evs) w.
Proof.
  unfold listVolumePage. apply wp_check_ctx.
  - intros e He e' [= <-] [Hc _]%classify_not_found.
    by rewrite (context_cause_error e) in Hc by (by eapply ctx_err_at_cause).
  - intros _. wp_step. sdk_step. intros [l|err] w' _; wp_step; [done|].
    intros e [= <-] Hn%classify_not_found. by eexists [], _, _, err.
Qed.

Lemma wp_pages_not_found n c ctx opts res w :
  wp (list_pages n c ctx opts res) (fun r evs _ => not_found_spec r evs) w.
Proof.
  revert res w. induction n as [|n IH]; intros res w; cbn [list_pages].
  { wp_step. intros e [= <-]. by rewrite Is_sentinelf. }
  wp_step. eapply wp_mono; [apply wp_page_not_found|]. intros [page|e] evs w1 _ Hr; [|exact Hr].
  destruct (length page =? 0)%nat; [by wp_step|].
  eapply wp_mono; [apply IH|]. intros r evs' w2 _ Hr' e He Hn.
  destruct (Hr' e He Hn) as (evs0 & sc & o & err & -> & Hk).
  exists (evs ++ evs0), sc, o, err. by rewrite app_assoc.
Qed.

Lemma choose_volume_absent cands opts e :
  choose_volume cands opts = Err e -> Is e ErrNotFound = true ->
  forall v, v ∈ cands -> vol_Name v <> dvo_Name opts.
Proof.
  unfold choose_volume. fold (named opts). pose proof (elem_of_named cands opts) as Hl.
  destruct (Nat.eqb_spec (length (List.filter (named opts) cands)) 0) as [El|El].
  - intros _ _ v Hv Hn. apply length_zero_iff_nil in El. specialize (Hl v). rewrite El in Hl.
    by apply (not_elem_of_nil v), Hl.
  - destruct (find_first _ _); [done|]. intros [= <-]. by rewrite Is_sentinelf.
Qed.

(** Discovery that finds nothing either listed everything or was told so by the cloud. *)
Lemma wp_discover_absent c ctx opts w :
  wp (DiscoverVolume c ctx opts) (fun r evs _ =>
    forall e, r = Err e -> Is e ErrNotFound = true ->
      listing_not_found evs \/
      exists cands, listed (by_name (dvo_Name opts)) evs cands
        /\ forall v, v ∈ cands -> vol_Name v <> dvo_Name opts) w.
Proof.
  unfold DiscoverVolume. wp_step. destruct (blank (dvo_Name opts)).
  { wp_step. intros e [= <-]. by rewrite Is_sentinelf. }
  wp_step. set (ctx' := WithDeadline ctx _).
  assert (wp (ListVolumes c ctx' (by_name (dvo_Name opts)))
    (fun r evs _ => not_found_spec r evs) w) as Hn.
  { unfold ListVolumes. wp_step. case_match; [apply wp_page_not_found|apply wp_pages_not_found]. }
  eapply wp_mono; [exact (wp_and _ _ _ _ (wp_ListVolumes _ _ (by_name (dvo_Name opts)) _
    ltac:(done) ltac:(done)) Hn)|].
  clear Hn. intros [cands|e'] evs w1 _ [[[_ Hs] _] Hn]; [wp_step|];
    intros e He Hf; [right|left; injection He as ->; by apply (Hn e)].
  exists cands. split; [exact Hs|]. by apply (choose_volume_absent _ _ e).
Qed.

(** ** Properties *)

Lemma lists_no_create evs pre ev post o res :
  Forall is_list evs -> ev_call ev = CallCreate o res -> evs <> pre ++ ev :: post.
Proof.
  intros Hl Hev ->. apply Forall_app in Hl as [_ Hl]. apply Forall_cons_iff in Hl as [(o' & r & Hr) _].
  by rewrite Hr in Hev.
Qed.

(** After listings only, a creation is the first request of the rest. *)
Lemma create_after_lists cf v3c v2c ecsc opts r lists evs pre ev post o res :
  Forall is_list lists -> create_outcome (mkClient cf (Some v3c) v2c ecsc) opts r evs ->
  lists ++ evs = pre ++ ev :: post -> ev_call ev = CallCreate o res ->
  pre = lists /\ o = v3_create_opts opts.
Proof.
  intros Hl Ho Heq Hev. apply app_eq_app in Heq as (mid & [[-> Heq]|[-> Heq]]).
  - destruct mid as [|x mid]; simpl in Heq.
    + destruct (create_first _ _ _ _ _ _ _ [] ev post o res Ho) as [_ ->]; [done..|].
      by rewrite app_nil_r.
    + exfalso. injection Heq as -> ->. by apply (lists_no_create _ pre x mid o res Hl Hev).
  - destruct (create_first _ _ _ _ _ _ _ mid ev post o res Ho) as [-> ->]; [done..|].
    by rewrite app_nil_r.
Qed.

Lemma create_success cf v3c v2c ecsc opts v evs :
  create_outcome (mkClient cf (Some v3c) v2c ecsc) opts (Ok v) evs ->
  exists sc res post, cr_Err res = None
    /\ evs = mkEvent sc (CallCreate (v3_create_opts opts) res) :: post.
Proof. inversion 1; subst. by eexists _, _, _. Qed.

Lemma deletion_gone c id r evs :
  delete_outcome c id r evs -> r = Ok tt \/ (exists e, r = Err e /\ Is e ErrNotFound = true) ->
  exists pre sc err, absent_answer err
    /\ (evs = pre ++ [mkEvent sc (CallGet id (Err err))]
        \/ evs = pre ++ [mkEvent sc (CallDelete id (Some err))]).
Proof.
  assert (forall r polls hd, absence_spec id volumeAbsenceMaxAttempts r polls ->
    r = Ok tt \/ (exists e, r = Err e /\ Is e ErrNotFound = true) ->
    exists pre sc err, absent_answer err /\ hd ++ polls = pre ++ [mkEvent sc (CallGet id (Err err))])
    as Hpoll.
  { intros r' polls hd (_ & _ & Hok & Herr) [->|(e & -> & He)]; [|by rewrite Herr in He].
    destruct (Hok eq_refl) as (evs0 & sc & a & -> & err & -> & Ha).
    exists (hd ++ evs0), sc, err. by rewrite app_assoc. }
  intros Ho Hr. destruct Ho as [e He|sc err|sc v e _ He _|sc v r polls _ _ Hp|sc v sc' err _|sc v sc' r polls _ Hp].
  - destruct Hr as [|(e' & [= <-] & He')]; congruence.
  - destruct Hr as [|(e' & [= <-] & Hn%classify_not_found)]; [done|]. exists [], sc, err. auto.
  - destruct Hr as [|(e' & [= <-] & He')]; congruence.
  - destruct (Hpoll r polls [mkEvent sc (CallGet id (Ok v))] Hp Hr) as (pre & sc' & err & Ha & Heq).
    exists pre, sc', err. auto.
  - destruct Hr as [|(e' & [= <-] & Hn%classify_not_found)]; [done|].
    exists [mkEvent sc (CallGet id (Ok v))], sc', err. auto.
  - destruct (Hpoll r polls [mkEvent sc (CallGet id (Ok v)); mkEvent sc' (CallDelete id None)] Hp Hr)
      as (pre & sc0 & err & Ha & Heq). exists pre, sc0, err. auto.
Qed.
End Cloud.

(** What a valid request asks for. *)
Definition requested_type (rq : CreateVolumeRequest) : string :=
  TrimSpace (default "" (cr_Params rq !! paramVolumeType)).
Definition requested_zone (rq : CreateVolumeRequest) : string :=
  pickAvailabilityZone (cr_Topology rq) (cr_Params rq).

Section Validation.
Context {E L : Type} `{EVSClient E L}.

Lemma wp_CreateVolume_request ctx req (Q : result csi_Volume -> list L -> World E L -> Prop) w :
  (forall e, Q (Err e) [] w) ->
  (forall rq size, req = Some rq -> blank (cr_Name rq) = false ->
    validate_capabilities (cr_Caps rq) = Ok tt -> validateParameters (cr_Params rq) = Ok tt ->
    cr_HasSource rq = false -> requested_type rq <> "" -> requested_zone rq <> "" ->
    resolveSizeGiB (cr_Range rq) = Ok size ->
    wp (provision ctx (cr_Name rq) (requested_zone rq) (requested_type rq) size (cr_Range rq)) Q w) ->
  wp (Controller.CreateVolume ctx req) Q w.
Proof.
  intros He Hk. unfold Controller.CreateVolume. destruct req as [rq|]; [|wp_step; apply He].
  apply wp_require; [auto|intros Hname]. apply wp_require; [auto|intros _].
  apply wp_check; [auto|intros [] Hcaps]. apply wp_require; [auto|intros Hsrc].
  apply wp_check; [auto|intros [] Hparams]. apply wp_require; [auto|intros Htype].
  apply wp_require; [auto|intros Hzone]. apply wp_check; [auto|intros size Hsize].
  to_prop. by apply Hk.
Qed.
End Validation.

Section Controller.
Context {E : Type} `{CloudSDK E} `{CloudURLs}.
Variables (cf : Config) (v3c : ServiceClient) (v2c ecsc : option ServiceClient).

#[local] Instance controller_client : EVSClient E Event := evs_client (mkClient cf (Some v3c) v2c ecsc).

(** The creation request a valid CSI request stands for. *)
Definition requested_create (rq : CreateVolumeRequest) (size : Z) : v3CreateOpts :=
  mkV3CreateOpts (requested_zone rq) (requested_type rq) (cr_Name rq) "" size false
    {[ OwnershipTagKey := OwnershipTagValue ]}.

Definition requested_discovery (rq : CreateVolumeRequest) (size : Z) : DiscoverVolumeOpts :=
  mkDiscoverVolumeOpts (cr_Name rq) (requested_zone rq) (requested_type rq) size
    (limitSizeGiB (cr_Range rq)).

(** No volume of the name was there to adopt. *)
Definition nothing_to_adopt (name : string) (evs : list Event) : Prop :=
  listing_not_found evs \/
  exists cands, listed (by_name name) evs cands /\ forall v, v ∈ cands -> vol_Name v <> name.

Lemma wp_controller_CreateVolume ctx req w :
  wp (Controller.CreateVolume ctx req) (fun r evs _ =>
    (forall pre ev post o res, evs = pre ++ ev :: post -> ev_call ev = CallCreate o res ->
      exists rq size, req = Some rq /\ resolveSizeGiB (cr_Range rq) = Ok size
        /\ o = requested_create rq size /\ Forall is_list pre
        /\ nothing_to_adopt (cr_Name rq) pre) /\
    (forall cv, r = Ok cv -> exists rq size v, req = Some rq
      /\ resolveSizeGiB (cr_Range rq) = Ok size /\ cv = formatCreateVolumeResponse v
      /\ (Forall is_list evs /\ vol_Name v = cr_Name rq
            /\ isAdoptable v (requested_discovery rq size) = true
          \/ exists pre sc res post, cr_Err res = None /\
            evs = pre ++ mkEvent sc (CallCreate (requested_create rq size) res) :: post))) w.
Proof.
  apply wp_CreateVolume_request.
  { intros e. split; [by intros []|done]. }
  intros rq size -> _ _ _ _ _ _ Hsize. unfold provision. fold (requested_discovery rq size). wp_step.
  eapply wp_mono; [apply wp_returns; [apply wp_and; [apply wp_DiscoverVolume|apply wp_discover_absent]
    |apply well_DiscoverVolume]|].
  intros [v|err] evs w1 _ [[[Hlist _] Habs] [_ Hok]]; [|destruct (Is err ErrNotFound) eqn:Enf; cbn [negb]].
  - wp_step. split; [intros; by edestruct lists_no_create|].
    intros cv [= <-]. destruct (Hok v eq_refl). exists rq, size, v. auto 10.
  - wp_step. eapply wp_mono; [apply wp_CreateVolume|]. intros r evs' w2 _ [Ho _].
    set (copts := mkCreateVolumeOpts _ _ _ _ _ _) in Ho.
    assert (forall pre ev post o res, evs ++ evs' = pre ++ ev :: post ->
      ev_call ev = CallCreate o res -> exists rq' size', Some rq = Some rq'
      /\ resolveSizeGiB (cr_Range rq') = Ok size' /\ o = requested_create rq' size'
      /\ Forall is_list pre /\ nothing_to_adopt (cr_Name rq') pre) as Hone.
    { intros pre ev post o res Heq Hev. exists rq, size.
      destruct (create_after_lists _ _ _ _ _ _ _ _ _ _ _ _ _ Hlist Ho Heq Hev) as [-> ->].
      split_and!; [done..|]. by apply (Habs err). }
    destruct r as [v|e]; wp_step; split; try done. intros cv [= <-]. exists rq, size, v.
    destruct (create_success _ _ _ _ _ _ _ Ho) as (sc & res & post & Hc & ->).
    split_and!; [done..|]. right. by exists evs, sc, res, post.
  - wp_step. split; [intros; by edestruct lists_no_create|done].
Qed.

(** C4. A CreateVolume call of the controller returns. It creates at most one volume: after
    listing requests only, when these showed no volume of the requested name, with the
    requested name, zone and type, the resolved size and the ownership tag. What it
    reports is an adopted volume that fits the request, found without creating anything,
    or the volume of the creation it sent. *)
Theorem CreateVolume_adopts_or_creates ctx req w :
  runs (Controller.CreateVolume ctx req) w (fun r evs =>
    (forall pre ev post o res, evs = pre ++ ev :: post -> ev_call ev = CallCreate o res ->
      exists rq size, req = Some rq /\ resolveSizeGiB (cr_Range rq) = Ok size
        /\ o = requested_create rq size /\ Forall is_list pre
        /\ nothing_to_adopt (cr_Name rq) pre) /\
    (forall cv, r = Ok cv -> exists rq size v, req = Some rq
      /\ resolveSizeGiB (cr_Range rq) = Ok size /\ cv = formatCreateVolumeResponse v
      /\ (Forall is_list evs /\ vol_Name v = cr_Name rq
            /\ isAdoptable v (requested_discovery rq size) = true
          \/ exists pre sc res post, cr_Err res = None /\
            evs = pre ++ mkEvent sc (CallCreate (requested_create rq size) res) :: post))).
Proof. apply wp_runs, wp_controller_CreateVolume. Qed.

(** C15. A ControllerPublishVolume call of the controller returns; when it succeeds, its last
    request listed the pair the call names, and the publish context holds just the device
    path of that entry: trimmed, clean, strictly below /dev, and so a path the node's
    mounter takes as a device. A read-only publication is never granted. *)
Theorem ControllerPublishVolume_device ctx req w :
  runs (ControllerPublishVolume ctx req) w (fun r evs =>
    forall pc, r = Ok pc -> exists rq p pre sc l d,
      req = Some rq /\ cp_Readonly rq = false
      /\ evs = pre ++ [mkEvent sc (CallGetAttachments (cp_NodeId rq) (Ok (Some l)))]
      /\ d ∈ l /\ da_VolumeID d = cp_VolumeId rq /\ da_ServerID d = cp_NodeId rq
      /\ p = TrimSpace (da_Device d) /\ pc = {[ devicePathKey := p ]}
      /\ TrimSpace p = p /\ Clean p = p /\ holdsDevice (NewLinuxMounter []) p = true).
Proof.
  apply wp_runs. unfold ControllerPublishVolume. destruct req as [rq|]; [|by wp_step].
  do 3 (apply wp_require; [done|intros _]). apply wp_check; [done|intros _ _].
  apply wp_require; [done|intros Hro]. wp_step. eapply wp_mono; [apply wp_AttachVolume|].
  intros [a|e] evs w1 _ [Hc _]; [|by wp_step]. apply attach_reported in Hc as
    (pre & sc & l & d & -> & Hin & Hv & Hs & -> & _).
  simpl DeviceName. destruct (isDeviceNodePath _) eqn:Hd; wp_step; [|done]. intros pc [= <-].
  apply device_holds in Hd as [Hclean Hholds]. exists rq, (TrimSpace (da_Device d)), pre, sc, l, d.
  split_and!; try done; [by to_prop|apply TrimSpace_idemp].
Qed.

(** C21. A DeleteVolume call of the controller returns; it succeeds exactly when the client's
    deletion does or ends in not-found, and then its last request was a read or a delete
    of that volume which the cloud answered with "not found". *)
Theorem DeleteVolume_absent ctx req w :
  runs (Controller.DeleteVolume ctx req) w (fun r evs =>
    r = Ok tt -> exists rq pre sc err,
      req = Some rq /\ absent_answer err
      /\ (evs = pre ++ [mkEvent sc (CallGet (cd_VolumeId rq) (Err err))]
          \/ evs = pre ++ [mkEvent sc (CallDelete (cd_VolumeId rq) (Some err))])).
Proof.
  apply wp_runs. unfold Controller.DeleteVolume. destruct req as [rq|]; [|by wp_step].
  apply wp_require; [done|intros _]. wp_step.
  eapply wp_mono; [apply wp_DeleteVolume|]. intros r evs w1 _ Ho. pose proof (deletion_gone _ _ _ _ Ho) as Hgone.
  assert (forall r' : result unit, r = Ok tt \/ (exists e, r = Err e /\ Is e ErrNotFound = true) ->
    r' = Ok tt -> exists rq' pre sc err, Some rq = Some rq' /\ absent_answer err
      /\ (evs = pre ++ [mkEvent sc (CallGet (cd_VolumeId rq') (Err err))]
          \/ evs = pre ++ [mkEvent sc (CallDelete (cd_VolumeId rq') (Some err))])) as Habs.
  { intros r' (pre & sc & err & Ha & Hevs)%Hgone _. by exists rq, pre, sc, err. }
  destruct r as [[]|e]; [wp_step; apply Habs; by left|].
  destruct (Is e ErrNotFound) eqn:En; [wp_step; apply Habs; right; by exists e|].
  case_match; by wp_step.
Qed.
(** *** Trying again *)

(** A listed volume as a creation request made it. *)
Definition made_by (o : v3CreateOpts) (vol : Volume) : Prop :=
  vol_Name vol = v3o_Name o /\ vol_AvailabilityZone vol = v3o_AvailabilityZone o
  /\ vol_VolumeType vol = v3o_VolumeType o /\ vol_Size vol = v3o_Size o
  /\ vol_Tags vol !! OwnershipTagKey = v3o_Tags o !! OwnershipTagKey
  /\ (vol_Status vol = volumeStatusAvailable \/ vol_Status vol = volumeStatusInUse).

(** What the driver created for a request, the same request may adopt. *)
Lemma made_adoptable rq size vol :
  range_in_int64 (cr_Range rq) -> resolveSizeGiB (cr_Range rq) = Ok size ->
  made_by (requested_create rq size) vol -> isAdoptable vol (requested_discovery rq size) = true.
Proof.
  intros Hrange Hsize (_ & Hz & Ht & Hs & Htag & Hst). pose proof (resolveSizeGiB_size _ Hrange) as Hspec.
  rewrite Hsize in Hspec. destruct Hspec as (_ & (_ & _ & _ & Hlim) & _). simpl in *.
  assert (owned vol = true) as Hown.
  { unfold owned, tag. rewrite Htag, lookup_singleton_eq. by apply bool_decide_eq_true. }
  assert (negb (bool_decide (vol_Status vol = volumeStatusAvailable))
    && negb (bool_decide (vol_Status vol = volumeStatusInUse)) = false) as Hstatus.
  { by destruct Hst as [-> | ->]. }
  unfold isAdoptable. simpl. rewrite Hown, Hstatus, Hz, Ht, Hs, !bool_decide_true by done. cbn [negb].
  destruct (Z.ltb_spec size size); [lia|]. unfold limitSizeGiB. pose proof GiB_pos as Hg.
  destruct (Z.leb_spec (GetLimitBytes (cr_Range rq)) 0); [done|].
  destruct (Z.ltb_spec (Z.quot (GetLimitBytes (cr_Range rq)) bytesInGiB) size) as [Hq|];
    [|by rewrite andb_false_r].
  exfalso. rewrite Z.quot_div_nonneg in Hq by lia.
  assert (size <= GetLimitBytes (cr_Range rq) / bytesInGiB)%Z; [|lia].
  apply Z.div_le_lower_bound; [done|]. specialize (Hlim ltac:(lia)). lia.
Qed.

Lemma listed_fun opts evs c1 c2 : listed opts evs c1 -> listed opts evs c2 -> c1 = c2.
Proof.
  intros (e1 & s1 & -> & H1) (e2 & s2 & Heq & H2). apply app_inj_tail in Heq as [<- _].
  by apply (pages_fun _ _ _ _ H1).
Qed.

Lemma listed_found opts evs cands : listed opts evs cands -> ~ listing_not_found evs.
Proof.
  intros (e1 & s1 & -> & _) (e2 & s2 & o & err & Heq & _). by apply app_inj_tail in Heq as [_ ?].
Qed.

Lemma choose_made cands rq size vol :
  range_in_int64 (cr_Range rq) -> resolveSizeGiB (cr_Range rq) = Ok size -> vol ∈ cands ->
  made_by (requested_create rq size) vol -> exists vol',
    choose_volume cands (requested_discovery rq size) = Ok vol' /\ vol' ∈ cands
    /\ vol_Name vol' = cr_Name rq /\ isAdoptable vol' (requested_discovery rq size) = true
    /\ String.le (vol_ID vol') (vol_ID vol).
Proof.
  intros Hrange Hsize Hin Hmade. pose proof (made_adoptable _ _ _ Hrange Hsize Hmade) as Ha.
  destruct Hmade as [Hname _].
  destruct (choose_volume_chosen cands (requested_discovery rq size))
    as [v Hv Hn Hv' Hleast|e Habs _|v e _ _ Hno _].
  - exists v. split_and!; auto.
  - by destruct (Habs vol Hin).
  - rewrite (Hno vol Hin) in Ha by done. done.
Qed.

Lemma listed_lists opts evs cands : listed opts evs cands -> Forall is_list evs.
Proof.
  intros (evs0 & sc & -> & Hp). apply Forall_app. split; [|repeat constructor; by eexists _, _].
  induction Hp; constructor; [by eexists _, _|done].
Qed.

Lemma create_not_list c opts r evs :
  create_outcome c opts r evs -> Forall is_list evs -> evs = [].
Proof.
  destruct 1; [done|..]; intros [(o & a & Hl) _]%Forall_cons_iff; done.
Qed.

(** Behind its validation, a request whose listing shows [vol] answers from the listing. *)
Lemma wp_provision_retry ctx rq size vol w :
  range_in_int64 (cr_Range rq) -> resolveSizeGiB (cr_Range rq) = Ok size ->
  made_by (requested_create rq size) vol ->
  wp (provision ctx (cr_Name rq) (requested_zone rq) (requested_type rq) size (cr_Range rq))
    (fun r evs _ => forall cands, listed (by_name (cr_Name rq)) evs cands -> vol ∈ cands ->
       exists vol', r = Ok (formatCreateVolumeResponse vol')
         /\ choose_volume cands (requested_discovery rq size) = Ok vol') w.
Proof.
  intros Hrange Hsize Hmade. unfold provision. fold (requested_discovery rq size). wp_step.
  eapply wp_mono; [apply wp_DiscoverVolume|]. intros r evs w1 _ (_ & r0 & [_ Hs] & Hr).
  assert (forall cands, listed (by_name (cr_Name rq)) evs cands -> vol ∈ cands ->
    exists vol', r = Ok vol' /\ choose_volume cands (requested_discovery rq size) = Ok vol') as Hok.
  { intros cands Hc Hin. destruct r0 as [cands'|e].
    - rewrite (listed_fun _ _ _ _ Hc Hs) in *.
      destruct (choose_made _ _ _ _ Hrange Hsize Hin Hmade) as (vol' & Hv & _). exists vol'. by rewrite Hr.
    - destruct Hc as (e1 & s1 & -> & _). apply Forall_app in Hs as [_ Hs].
      apply Forall_cons_iff in Hs as [Hs _]. by edestruct Hs. }
  destruct r as [v|err].
  { wp_step. intros cands Hc Hin. destruct (Hok cands Hc Hin) as (? & [= <-] & ?). eauto. }
  destruct (negb _).
  { wp_step. intros cands Hc Hin. by destruct (Hok cands Hc Hin) as (? & ? & _). }
  wp_step. eapply wp_mono; [apply wp_CreateVolume|]. intros r2 evs' w2 _ [Ho _].
  assert (forall r3 : result csi_Volume, forall cands, listed (by_name (cr_Name rq)) (evs ++ evs') cands ->
    vol ∈ cands -> exists vol', r3 = Ok (formatCreateVolumeResponse vol')
      /\ choose_volume cands (requested_discovery rq size) = Ok vol') as Hno.
  { intros r3 cands Hc Hin. pose proof (listed_lists _ _ _ Hc) as [_ Hl]%Forall_app.
    rewrite (create_not_list _ _ _ _ Ho Hl), app_nil_r in Hc.
    by destruct (Hok cands Hc Hin) as (? & ? & _). }
  destruct r2; wp_step; apply Hno.
Qed.

(** C6. CreateVolume can be tried again. When a volume that an earlier call created for the
    same request is listed, the call sends no creation: it answers with a listed volume
    of the name that fits the request, that very volume when the name is its alone. So a
    caller that lost an answer does not get a second volume. *)
Theorem CreateVolume_retry ctx rq size vol w :
  range_in_int64 (cr_Range rq) -> resolveSizeGiB (cr_Range rq) = Ok size ->
  made_by (requested_create rq size) vol ->
  runs (Controller.CreateVolume ctx (Some rq)) w (fun r evs =>
    (forall pre ev post o res cands, evs = pre ++ ev :: post -> ev_call ev = CallCreate o res ->
       listed (by_name (cr_Name rq)) pre cands -> vol ∉ cands) /\
    (forall cands, listed (by_name (cr_Name rq)) evs cands -> vol ∈ cands ->
       exists vol', r = Ok (formatCreateVolumeResponse vol') /\ vol' ∈ cands
         /\ vol_Name vol' = cr_Name rq /\ isAdoptable vol' (requested_discovery rq size) = true
         /\ ((forall v, v ∈ cands -> vol_Name v = cr_Name rq -> v = vol) -> vol' = vol))).
Proof.
  intros Hrange Hsize Hmade. apply wp_runs.
  eapply wp_mono; [apply wp_and; [apply wp_controller_CreateVolume|]|].
  - apply (wp_CreateVolume_request _ _ (fun r evs _ => forall cands,
      listed (by_name (cr_Name rq)) evs cands -> vol ∈ cands -> exists vol',
        r = Ok (formatCreateVolumeResponse vol')
        /\ choose_volume cands (requested_discovery rq size) = Ok vol')).
    + intros e cands (evs0 & sc & Heq & _). by destruct evs0.
    + intros rq' size' [= <-] _ _ _ _ _ _ Hsize'. rewrite Hsize in Hsize'. injection Hsize' as <-.
      by apply wp_provision_retry.
  - intros r evs w1 _ [[Hone _] Hadopt]. split.
    + intros pre ev post o res cands Heq Hev Hc Hin.
      destruct (Hone pre ev post o res Heq Hev) as (rq' & size' & [= <-] & _ & _ & _ & [Hn|(c2 & Hc2 & Hno)]).
      { by apply (listed_found _ _ _ Hc). }
      rewrite (listed_fun _ _ _ _ Hc Hc2) in Hin. destruct Hmade as [Hname _]. by apply (Hno vol).
    + intros cands Hc Hin. destruct (Hadopt cands Hc Hin) as (vol' & -> & Hch).
      destruct (choose_made _ _ _ _ Hrange Hsize Hin Hmade) as (v2 & Hv2 & Hin2 & Hn2 & Ha2 & _).
      rewrite Hch in Hv2. injection Hv2 as <-. exists vol'. split_and!; auto.
Qed.
End Controller.

(** ** A request tried again *)

Definition retried_request : CreateVolumeRequest :=
  mkCreateReq "pvc-1"
    [Some (mkCap (Some SINGLE_NODE_WRITER) (Some (MountVolume "ext4" [])))] false
    {[ paramVolumeType := "SSD"; paramAvailabilityZone := "eu-de-01" ]} None
    (Some (mkRange 10737418240 0)).

Definition retried_volume : Volume := mapV2VolumeToDomain (stock_volume "vol-1").

Lemma CreateVolume_retry_witness :
  let cloud := stock_cloud [stock_volume "vol-1"] in
  @runs unit Event _ (@Controller.CreateVolume unit Event
      (@evs_client unit cloud plain_urls stock_client) Background (Some retried_request))
    (mkWorld 0 tt []) (fun r evs =>
    (forall pre ev post o res cands, evs = pre ++ ev :: post -> ev_call ev = CallCreate o res ->
       listed (by_name "pvc-1") pre cands -> retried_volume ∉ cands) /\
    (forall cands, listed (by_name "pvc-1") evs cands -> retried_volume ∈ cands ->
       exists vol', r = Ok (formatCreateVolumeResponse vol') /\ vol' ∈ cands
         /\ vol_Name vol' = "pvc-1" /\ isAdoptable vol' (requested_discovery retried_request 10) = true
         /\ ((forall v, v ∈ cands -> vol_Name v = "pvc-1" -> v = retried_volume) -> vol' = retried_volume))).
Proof.
  intros cloud. apply (@CreateVolume_retry unit cloud plain_urls (mkConfig "" "" "" "" "" "")
    (mkService None "" "") (Some (mkService None "" "")) None Background retried_request 10 retried_volume).
  - split; unfold in_int64; simpl; lia.
  - vm_compute. reflexivity.
  - repeat (split; [vm_compute; reflexivity|]). left. vm_compute. reflexivity.
Defined.
