(* ===== verification/VolumeLife.v ===== *)
(** * A volume's life in the cloud

    The controller's calls on an asynchronous cloud ([AsyncCloud]): a volume is created,
    attached to a node, detached and deleted. Every call succeeds once its request is
    carried out, and in the end the cloud holds nothing of the volume. *)

From S2P Require Import Prelude GoStrings GoErrors GoPath GoURL Runtime Csi.
From S2P Require Import EvsClient EvsTransport EvsSDK EvsVolume EvsListing EvsAttachment EvsBounds.
From S2P Require Import AsyncCloud CloudBench Controller ControllerSpec ControllerCloud.

Local Open Scope stdpp_scope.
Local Open Scope go_scope.
Local Open Scope Z_scope.

(** ** The calls of a container orchestrator *)

(** Time between two calls. *)
Definition pause {E L} (d : N) : M E L unit := fun w =>
  Some (tt, mkWorld (clock w + Z.of_N d) (env w) (trace w)).

Definition volume_life {E L} `{EVSClient E L} (c1 c2 c3 c4 : GoContext) (p1 p2 p3 : N)
    (rq : CreateVolumeRequest) (cap : option VolumeCapability) (node : string) :
    M E L (result (csi_Volume * gmap string string)) :=
  try! volume := Controller.CreateVolume c1 (Some rq) in
  let id := cv_VolumeId volume in
  let! _ := pause p1 in
  try! context := ControllerPublishVolume c2 (Some (mkPublishReq id node cap false)) in
  let! _ := pause p2 in
  try! _ := ControllerUnpublishVolume c3 (Some (mkUnpublishReq id node)) in
  let! _ := pause p3 in
  try! _ := Controller.DeleteVolume c4 (Some (mkDeleteReq id)) in
  ret (Ok (volume, context)).

Lemma wp_pause {E L} d (Q : unit -> list L -> World E L -> Prop) w :
  Q tt [] (mkWorld (clock w + Z.of_N d) (env w) (trace w)) -> wp (pause d) Q w.
Proof. intros HQ. eexists _, _, []. rewrite app_nil_r. split_and!; [done|done|simpl; lia|done]. Qed.

(** ** Requests the controller takes *)

(** The tests of CreateVolume, with the size it resolves. *)
Definition acceptable (rq : CreateVolumeRequest) (size : Z) : Prop :=
  blank (cr_Name rq) = false /\ cr_Caps rq <> [] /\ validate_capabilities (cr_Caps rq) = Ok tt
  /\ cr_HasSource rq = false /\ validateParameters (cr_Params rq) = Ok tt
  /\ blank (requested_type rq) = false /\ blank (requested_zone rq) = false
  /\ resolveSizeGiB (cr_Range rq) = Ok size /\ 0 < size.

(** What CreateVolume reports of a new volume. *)
Definition reported (rq : CreateVolumeRequest) (size : Z) (v : v3Volume) : csi_Volume :=
  mkCsiVolume (v3_ID v) (int64_mul size bytesInGiB) [{[ TopologyZoneKey := requested_zone rq ]}].

Lemma not_blank_ne s : blank s = false -> s <> "".
Proof. by intros Hs ->. Qed.

Lemma wp_acceptable {E L} `{EVSClient E L} ctx rq size
    (Q : result csi_Volume -> list L -> World E L -> Prop) w :
  acceptable rq size ->
  wp (provision ctx (cr_Name rq) (requested_zone rq) (requested_type rq) size (cr_Range rq)) Q w ->
  wp (Controller.CreateVolume ctx (Some rq)) Q w.
Proof.
  intros (Hname & Hcaps & Hvalid & Hsrc & Hparams & Htype & Hzone & Hsize & _) HQ.
  unfold Controller.CreateVolume, require, check. fold (requested_type rq) (requested_zone rq).
  rewrite Hname, Hvalid, Hsrc, Hparams, Hsize.
  apply not_blank_ne in Htype, Hzone. rewrite !bool_decide_false by done.
  by destruct (cr_Caps rq).
Qed.

(** ** The calls on an asynchronous cloud *)

(** No volume of the name is there or on its way. *)
Definition unnamed (name : string) (s : CloudState) : Prop :=
  (forall id v, volumes s !! id = Some v -> Contains (v3_Name v) name = false)
  /\ forall job due v, work s !! job = Some (due, Provisions v) -> Contains (v3_Name v) name = false.

Lemma finish_unnamed name s s' : finish s s' -> unnamed name s -> unnamed name s'.
Proof.
  intros [s0 job due ef Hjob] [Hv Hw]. split; simpl.
  - intros id v. destruct ef as [v1|i|i sv dev|i sv]; simpl; [|rewrite lookup_delete_Some| |]; try naive_solver.
    destruct (decide (v3_ID v1 = id)) as [->|]; [rewrite lookup_insert_eq|rewrite lookup_insert_ne by done];
      naive_solver.
  - intros job' due' v Hl. simpl in Hl. apply lookup_delete_Some in Hl as [_ Hl]. by eapply Hw.
Qed.

Lemma passes_unnamed name t s s' : passes t s s' -> unnamed name s -> unnamed name s'.
Proof. intros [Hs _]. induction Hs as [|s s1 s' Hf _ IH]; [done|]. intros. by eapply IH, finish_unnamed. Qed.

Section Calls.
Context {E : Type} `{AsyncCloud E} `{CloudURLs}.
Abbreviation view w := (cloud_of (env w)).
Variable c : Client.
Hypothesis Hreach : reachable c.
#[local] Instance cloud_client : EVSClient E Event := evs_client c.

Lemma wp_Discover_unnamed ctx opts w :
  blank (dvo_Name opts) = false -> unnamed (dvo_Name opts) (view w) ->
  latency < maxOperationTimeout -> lasts ctx (clock w + latency) ->
  wp (DiscoverVolume c ctx opts) (fun r _ w' => clock w' <= clock w + latency
    /\ passes (clock w) (view w) (view w') /\ exists e, r = Err e /\ Is e ErrNotFound = true) w.
Proof.
  intros Hname Hno Hlat Hl. pose proof law_latency as Hpos. unfold DiscoverVolume. wp_step. rewrite Hname.
  wp_step. unfold ListVolumes. wp_step. cbn [lvo_Limit lvo_Offset]. cbn [Z.ltb Z.compare orb].
  set (ctx' := WithDeadline (WithDeadline _ _) _).
  assert (lasts ctx' (clock w + latency)) as Hl' by (do 2 (apply lasts_WithDeadline; [|lia]); done).
  unfold volumeListMaxPages. cbn [list_pages]. wp_step. unfold listVolumePage.
  eapply wp_open; [done|lia|]. wp_step.
  apply wp_request; [apply law_List|by apply live_v2|]. intros r w1 Hc1 (s1 & Hp1 & Heq & Hr).
  destruct (passes_unnamed _ _ _ _ Hp1 Hno) as [Hv1 _]. specialize (Hr Hv1).
  destruct r as [l|err]; [|done]. injection Hr as ->. wp_step. cbn [map length Nat.eqb]. do 2 wp_step.
  rewrite Heq. split_and!; [lia|done|]. by eexists.
Qed.

Lemma wp_create_call ctx rq size w :
  acceptable rq size -> unnamed (cr_Name rq) (view w) -> patience < maxOperationTimeout ->
  lasts ctx (clock w + latency + patience) ->
  wp (Controller.CreateVolume ctx (Some rq)) (fun r _ w' => clock w' <= clock w + latency + patience /\
    exists v, made_for (requested_create rq size) v /\ v3_ID v <> "" /\ TrimSpace (v3_ID v) = v3_ID v
      /\ r = Ok (reported rq size v)
      /\ volumes (view w') !! v3_ID v = Some v /\ unplugged (v3_ID v) (view w')
      /\ quiet (v3_ID v) (view w')) w.
Proof.
  intros Hrq Hno Hp Hl. pose proof law_latency as Hpos. pose proof law_delay as Hpos'.
  assert (latency < maxOperationTimeout) as Hlat by (unfold patience, Second, Millisecond in *; lia).
  apply (wp_acceptable _ _ size); [done|].
  destruct Hrq as (Hname & _ & _ & _ & _ & Htype & Hzone & _ & Hsize).
  unfold provision. wp_step. eapply wp_mono; [apply wp_Discover_unnamed; try done; in_time Hl|].
  intros r evs w1 Hc1 (Hc1' & Hp1 & e & -> & He). rewrite He. cbn [negb]. wp_step.
  eapply wp_mono; [apply (wp_Create_async c Hreach); try done; in_time Hl|].
  intros r evs2 w2 Hc2 (Hc2' & v & v' & s & -> & Hsame & Hmade & Hne & Htrim & _ & Hun & _ & [Hq Ha]). wp_step.
  split; [lia|]. exists v. split_and!; try done.
  - unfold formatCreateVolumeResponse. simpl. destruct Hsame as (-> & _ & -> & -> & _), Hmade as (_ & -> & -> & _).
    done.
  - destruct Ha as [Hv _]. simpl in Hv. by rewrite lookup_insert_eq in Hv.
  - by apply (agree_unplugged _ _ _ Ha).
Qed.

Lemma device_name_usable device : device_name device -> isDeviceNodePath device = true.
Proof.
  intros (l & Hl & ->). destruct l as [[][][][][][][][]]; cbn in Hl; try lia; by vm_compute.
Qed.

Lemma wp_publish_call ctx id node cap w :
  blank id = false -> blank node = false -> is_Some cap -> validateVolumeCapability cap = Ok tt ->
  patience < maxOperationTimeout -> is_Some (volumes (view w) !! id) -> unplugged id (view w) ->
  quiet id (view w) -> lasts ctx (clock w + patience) ->
  wp (ControllerPublishVolume ctx (Some (mkPublishReq id node cap false)))
    (fun r _ w' => clock w' <= clock w + patience /\ exists device, device_name device
      /\ r = Ok {[ devicePathKey := device ]} /\ achieved (Plugs id node device) (view w) (view w')) w.
Proof.
  intros Hid Hnode Hcap Hvalid Hp Hvol Hun Hq Hl. unfold ControllerPublishVolume, require, check.
  cbn [cp_VolumeId cp_NodeId cp_Cap cp_Readonly]. rewrite Hid, Hnode, Hvalid, bool_decide_true by done.
  cbn [negb]. wp_step. eapply wp_mono; [by apply (wp_Attach_async c Hreach)|].
  intros r evs w1 _ (Hc1 & device & Hdev & -> & Hach). cbn [DeviceName].
  rewrite device_name_usable by done. wp_step. eauto 10.
Qed.

Lemma wp_unpublish_call ctx id node w :
  blank id = false -> blank node = false -> patience < maxOperationTimeout ->
  is_Some (plugged (view w) !! (id, node)) -> quiet id (view w) -> lasts ctx (clock w + patience) ->
  wp (ControllerUnpublishVolume ctx (Some (mkUnpublishReq id node)))
    (fun r _ w' => clock w' <= clock w + patience /\ r = Ok tt
      /\ achieved (Unplugs id node) (view w) (view w')) w.
Proof.
  intros Hid Hnode Hp Hplug Hq Hl. unfold ControllerUnpublishVolume, require.
  cbn [cu_VolumeId cu_NodeId]. rewrite Hid, Hnode. cbn [negb]. wp_step.
  eapply wp_mono; [by apply (wp_Detach_async c Hreach)|]. intros r evs w1 _ (Hc1 & -> & Hach). by wp_step.
Qed.

Lemma wp_delete_call ctx id v w :
  blank id = false -> patience < maxOperationTimeout -> delay <= 59 * Second ->
  volumes (view w) !! id = Some v -> v3_Tags v !! OwnershipTagKey = Some OwnershipTagValue ->
  quiet id (view w) -> lasts ctx (clock w + patience) ->
  wp (Controller.DeleteVolume ctx (Some (mkDeleteReq id)))
    (fun r _ w' => clock w' <= clock w + patience /\ r = Ok tt
      /\ achieved (Erases id) (view w) (view w')) w.
Proof.
  intros Hid Hp Hdel Hv Htag Hq Hl. unfold Controller.DeleteVolume, require. cbn [cd_VolumeId].
  rewrite Hid. cbn [negb]. wp_step. eapply wp_mono; [by eapply (wp_Delete_async c Hreach)|].
  intros r evs w1 _ (Hc1 & -> & Hach). by wp_step.
Qed.
End Calls.

(** ** The whole life *)

Section Life.
Context {E : Type} `{AsyncCloud E} `{CloudURLs}.
Abbreviation view w := (cloud_of (env w)).
Variable c : Client.
Hypothesis Hreach : reachable c.
#[local] Instance life_client : EVSClient E Event := evs_client c.

(** Reading the effects of the calls. *)
Ltac look := cbn [about apply volumes plugged cv_VolumeId reported clock env] in *.

(** C7. A volume lives and dies. On an asynchronous cloud, which carries out every request it
    accepts within its delay, the calls for an acceptable new volume all succeed:
    CreateVolume reports a volume made as requested, ControllerPublishVolume hands out its
    device on the node, ControllerUnpublishVolume and DeleteVolume take both back, whatever
    time passes between the calls. In the end the cloud holds neither the volume, nor an
    attachment of it, nor work for it; and all this within a bound that the delay and the
    latency of the cloud give. *)
Theorem volume_life_ends c1 c2 c3 c4 p1 p2 p3 rq size cap node w :
  acceptable rq size -> unnamed (cr_Name rq) (view w) ->
  is_Some cap -> validateVolumeCapability cap = Ok tt -> blank node = false ->
  patience < maxOperationTimeout -> delay <= 59 * Second ->
  let end_ := clock w + Z.of_N p1 + Z.of_N p2 + Z.of_N p3 + latency + 4 * patience in
  Forall (fun ctx => lasts ctx end_) [c1; c2; c3; c4] ->
  exists w' v device,
    volume_life c1 c2 c3 c4 p1 p2 p3 rq cap node w
      = Some (Ok (reported rq size v, {[ devicePathKey := device ]}), w')
    /\ made_for (requested_create rq size) v /\ device_name device
    /\ volumes (view w') !! v3_ID v = None /\ unplugged (v3_ID v) (view w')
    /\ quiet (v3_ID v) (view w') /\ clock w' <= end_.
Proof.
  intros Hrq Hno Hcap Hvalid Hnode Hp Hdel end_ Hctx.
  pose proof law_latency as Hpos. pose proof law_delay as Hpos'.
  rewrite !list.Forall_cons in Hctx. destruct Hctx as (Hl1 & Hl2 & Hl3 & Hl4 & _).
  assert (0 < patience) as Hpp by (unfold patience, Second, Millisecond; lia).
  enough (wp (volume_life c1 c2 c3 c4 p1 p2 p3 rq cap node) (fun r _ w' => exists v device,
    r = Ok (reported rq size v, {[ devicePathKey := device ]})
    /\ made_for (requested_create rq size) v /\ device_name device
    /\ volumes (view w') !! v3_ID v = None /\ unplugged (v3_ID v) (view w')
    /\ quiet (v3_ID v) (view w') /\ clock w' <= end_) w) as (r & w' & evs & Hr & _ & _ & v & device & -> & HQ)
    by by exists w', v, device.
  unfold volume_life, end_ in *. wp_step.
  eapply wp_mono; [apply (wp_create_call c Hreach _ _ size); try done; eapply lasts_before; [|exact Hl1]; lia|].
  intros r evs1 w1 _ (Hc1 & v & Hmade & Hne & Htrim & -> & Hv & Hun & Hq). cbn [cv_VolumeId].
  assert (blank (v3_ID v) = false) as Hid by (unfold blank; by rewrite Htrim, bool_decide_false).
  wp_step. apply wp_pause. wp_step.
  eapply wp_mono; [apply (wp_publish_call c Hreach); try done; eapply lasts_before; [|exact Hl2]; look; lia|].
  intros r evs2 w2 _ (Hc2 & device & Hdev & -> & Hq2 & Hv2 & Hp2). look.
  wp_step. apply wp_pause. wp_step.
  eapply wp_mono; [apply (wp_unpublish_call c Hreach); try done;
    [look; rewrite <-Hp2, lookup_insert_eq; by eexists|eapply lasts_before; [|exact Hl3]; look; lia]|].
  intros r evs3 w3 _ (Hc3 & -> & Hq3 & Hv3 & Hp3). look.
  wp_step. apply wp_pause. wp_step.
  eapply wp_mono; [apply (wp_delete_call c Hreach _ _ v); try done|].
  - look. by rewrite <-Hv3, <-Hv2.
  - destruct Hmade as (_ & _ & _ & _ & ->). simpl. apply lookup_singleton_eq.
  - eapply lasts_before; [|exact Hl4]. look. lia.
  - intros r evs4 w4 _ (Hc4 & -> & Hq4 & Hv4 & Hp4). look. wp_step.
    exists v, device. split_and!; try done; [|..|lia].
    + by rewrite <-Hv4, lookup_delete_eq.
    + intros server. rewrite <-Hp4, <-Hp3. destruct (decide (server = node)) as [->|Hs].
      * apply lookup_delete_eq.
      * rewrite lookup_delete_ne by congruence. rewrite <-Hp2, lookup_insert_ne by congruence. apply Hun.
Qed.
End Life.

(** ** One life *)

Definition bench_service (endpoint : string) : ServiceClient :=
  mkService (Some (mkProvider None 0 None None)) endpoint "".

Definition bench_client : Client :=
  mkClient (mkConfig "" "" "" "" "" "") (Some (bench_service "/v3/project"))
    (Some (bench_service "/v2/project")) (Some (bench_service "/v1/project")).

Definition bench_life : M Bench Event (result (csi_Volume * gmap string string)) :=
  @volume_life Bench Event (@evs_client Bench bench_sdk plain_urls bench_client)
    Background Background Background Background 1000 60000000000 2000 retried_request
    (Some (mkCap (Some SINGLE_NODE_WRITER) (Some (MountVolume "ext4" [])))) "node-1".

Lemma volume_life_ends_witness :
  exists w' v device,
    bench_life (mkWorld 0 (mkBench ∅ ∅ ∅ None) [])
      = Some (Ok (reported retried_request 10 v, {[ devicePathKey := device ]}), w')
    /\ made_for (requested_create retried_request 10) v /\ device_name device
    /\ volumes (cloud_of (env w')) !! v3_ID v = None /\ unplugged (v3_ID v) (cloud_of (env w'))
    /\ quiet (v3_ID v) (cloud_of (env w'))
    /\ clock w' <= 0 + Z.of_N 1000 + Z.of_N 60000000000 + Z.of_N 2000 + latency + 4 * patience.
Proof.
  apply (@volume_life_ends Bench bench_sdk bench_async plain_urls bench_client).
  - split; [|split]; [|eexists; by split..]. eexists _, _. split_and!; [reflexivity|by eexists|reflexivity].
  - by vm_compute.
  - split; intros *; simpl; by rewrite lookup_empty.
  - by eexists.
  - by vm_compute.
  - by vm_compute.
  - by vm_compute.
  - by vm_compute.
  - by repeat constructor.
Defined.
