(* ===== verification/System.v ===== *)
(** * The controller serving calls concurrently

    gRPC runs every call in a goroutine of its own, and the controller holds no lock: the
    requests of the calls in flight reach the cloud in any order. A call is known by its
    behaviours, the requests and answers it may leave whatever the cloud does, and the
    system steps by letting any call in flight send its next request, while other users
    of the cloud do what they like. *)

From S2P Require Import Prelude GoStrings GoErrors GoURL Runtime Replay GoPath Mount Csi.
From S2P Require Import EvsClient EvsTransport EvsSDK EvsVolume EvsListing EvsAttachment EvsContract.
From S2P Require Import EvsBounds Controller ControllerSpec ControllerCloud.

Local Open Scope stdpp_scope.
Local Open Scope go_scope.

(** ** What one call may send *)

(** A request that changes the cloud, and what its call has seen before. *)
Inductive permitted : rpc -> list Event -> Event -> Prop :=
| permit_create rq size pre sc res :
    resolveSizeGiB (cr_Range rq) = Ok size -> Forall is_list pre ->
    nothing_to_adopt (cr_Name rq) pre ->
    permitted (RpcCreate (Some rq)) pre (mkEvent sc (CallCreate (requested_create rq size) res))
| permit_delete rq sc v sc' res :
    v3_Tags v !! OwnershipTagKey = Some OwnershipTagValue ->
    v3_Status v <> volumeStatusDeleting -> v3_Status v <> volumeStatusErrorDeleting ->
    permitted (RpcDelete (Some rq)) [mkEvent sc (CallGet (cd_VolumeId rq) (Ok v))]
      (mkEvent sc' (CallDelete (cd_VolumeId rq) res))
| permit_attach rq sc l sc' res :
    observe_listing (cp_VolumeId rq) (cp_NodeId rq) l = None ->
    permitted (RpcPublish (Some rq)) [mkEvent sc (CallGetAttachments (cp_NodeId rq) (Ok l))]
      (mkEvent sc' (CallAttach (mkDiskCreateOpts (cp_NodeId rq) (cp_VolumeId rq)) res))
| permit_detach rq sc l sc' res :
    observe_listing (cu_VolumeId rq) (cu_NodeId rq) l <> None ->
    permitted (RpcUnpublish (Some rq)) [mkEvent sc (CallGetAttachments (cu_NodeId rq) (Ok l))]
      (mkEvent sc' (CallDetach (cu_NodeId rq) (cu_VolumeId rq) 0 res)).

Definition permitted_all (call : rpc) (evs : list Event) : Prop :=
  forall pre ev post, evs = pre ++ ev :: post -> mutates (ev_call ev) = true -> permitted call pre ev.

Lemma permitted_quiet call evs :
  Forall (fun ev => mutates (ev_call ev) = false) evs -> permitted_all call evs.
Proof.
  intros Hq pre ev post -> Hm. apply Forall_app in Hq as [_ Hq].
  apply Forall_cons_iff in Hq as [Hq _]. congruence.
Qed.

Lemma permitted_nil call : permitted_all call [].
Proof. by apply permitted_quiet. Qed.

(** ** Every call keeps to its permissions *)

Section Calls.
Context {E : Type} `{CloudSDK E} `{CloudURLs}.
Variables (cf : Config) (v3c : ServiceClient) (v2c ecsc : option ServiceClient).

#[local] Instance system_client : EVSClient E Event := evs_client (mkClient cf (Some v3c) v2c ecsc).

Lemma wp_failure {A} (m : M E Event (result A)) (Q : list Event -> Prop) w :
  wp m (fun _ evs _ => Q evs) w -> wp (failure m) (fun _ evs _ => Q evs) w.
Proof.
  intros Hm. unfold failure. wp_step. eapply wp_mono; [exact Hm|].
  intros r evs w' _ HQ. by wp_step.
Qed.

Lemma create_evs_mutate c opts r evs ev :
  create_outcome c opts r evs -> ev ∈ evs -> mutates (ev_call ev) = true ->
  exists o res, ev_call ev = CallCreate o res.
Proof.
  assert (forall job l, Forall (is_job job) l -> ev ∈ l -> mutates (ev_call ev) = false) as Hj.
  { intros job l Hl Hev. destruct (proj1 (list.Forall_forall _ _) Hl ev Hev) as [a ->]. done. }
  intros Ho Hev Hm. destruct Ho as [e|sc res e|sc res job e evs Hl|sc res job js sc' v r evs gets _ _ Hl _ Hg].
  - by apply elem_of_nil in Hev.
  - apply list_elem_of_singleton in Hev as ->. by eexists _, _.
  - apply elem_of_cons in Hev as [->|Hev]; [by eexists _, _|]. apply (Hj _ _ Hl) in Hev. congruence.
  - apply elem_of_cons in Hev as [->|Hev]; [by eexists _, _|].
    apply elem_of_app in Hev as [Hev|Hev]; [apply (Hj _ _ Hl) in Hev; congruence|].
    apply elem_of_cons in Hev as [->|Hev]; [done|].
    destruct Hg; [by apply elem_of_nil in Hev..|]. apply list_elem_of_singleton in Hev as ->. done.
Qed.

Lemma delete_evs_mutate c id r evs ev :
  delete_outcome c id r evs -> ev ∈ evs -> mutates (ev_call ev) = true ->
  exists id' res, ev_call ev = CallDelete id' res.
Proof.
  assert (forall n r polls, absence_spec id n r polls -> ev ∈ polls -> mutates (ev_call ev) = false) as Hj.
  { intros n r' polls [Hl _] Hev. destruct (proj1 (list.Forall_forall _ _) Hl ev Hev) as [a ->]. done. }
  intros Ho Hev Hm. destruct Ho as [e _|sc err|sc v e _ _ _|sc v r polls _ _ Hp|sc v sc' err Hd|sc v sc' r polls Hd Hp];
    rewrite ?elem_of_cons in Hev; destruct_or? Hev; try (by apply elem_of_nil in Hev);
    subst; try done; try (by eexists _, _);
    match goal with Hp : absence_spec _ _ _ _ |- _ => apply (Hj _ _ _ Hp) in Hev; congruence end.
Qed.

Lemma serves_Delete ctx req w :
  wp (failure (Controller.DeleteVolume ctx req)) (fun _ evs _ => permitted_all (RpcDelete req) evs) w.
Proof.
  apply wp_failure. unfold Controller.DeleteVolume.
  destruct req as [rq|]; [|wp_step; apply permitted_nil].
  apply wp_require; [intros; apply permitted_nil|intros _]. wp_step.
  eapply wp_mono; [apply wp_DeleteVolume|]. intros r evs w1 _ Ho.
  assert (permitted_all (RpcDelete (Some rq)) evs) as Hall.
  { intros pre ev post Hevs Hm.
    destruct (delete_evs_mutate _ _ _ _ ev Ho) as (id & res & Hev); [by rewrite Hevs; in_list|done|].
    destruct (delete_guarded _ _ _ _ _ _ _ _ _ Ho Hevs Hev) as (-> & sc & v & -> & Ht & Hs1 & Hs2).
    destruct ev as [sc' cl]. simpl in Hev. subst cl. by apply permit_delete. }
  destruct r as [[]|e]; [by wp_step|]. destruct (Is e ErrNotFound); [by wp_step|].
  destruct (Is e ErrNotOwned); by wp_step.
Qed.

Lemma serves_Create ctx req w :
  wp (failure (Controller.CreateVolume ctx req)) (fun _ evs _ => permitted_all (RpcCreate req) evs) w.
Proof.
  apply wp_failure.
  assert (wp (Controller.CreateVolume ctx req) (fun _ evs _ => forall ev, ev ∈ evs ->
    mutates (ev_call ev) = true -> exists o res, ev_call ev = CallCreate o res) w) as Honly.
  { apply wp_CreateVolume_request; [by intros e ev ?%elem_of_nil|].
    intros rq size _ _ _ _ _ _ _ _. unfold provision. wp_step.
    eapply wp_mono; [apply wp_DiscoverVolume|]. intros r evs w1 _ [Hl _].
    assert (forall ev, ev ∈ evs -> mutates (ev_call ev) = true -> False) as Hq.
    { intros ev Hev. destruct (proj1 (list.Forall_forall _ _) Hl ev Hev) as (o & a & ->). done. }
    destruct r as [v|e]; [wp_step; intros; exfalso; by eapply Hq|].
    destruct (negb _); [wp_step; intros; exfalso; by eapply Hq|]. wp_step.
    eapply wp_mono; [apply wp_CreateVolume|]. intros r evs' w2 _ [Ho _].
    destruct r; wp_step; intros ev [Hev|Hev]%elem_of_app Hm; [exfalso; by eapply Hq| |exfalso; by eapply Hq|];
      by eapply create_evs_mutate. }
  eapply wp_mono; [apply wp_and; [apply wp_controller_CreateVolume|exact Honly]|].
  intros r evs w1 _ [[Hone _] Hc] pre ev post Hevs Hm.
  destruct (Hc ev) as (o & res & Hev); [rewrite Hevs; in_list|done|].
  destruct (Hone pre ev post o res Hevs Hev) as (rq & size & -> & Hsize & -> & Hl & Hn).
  destruct ev as [sc cl]. simpl in Hev. subst cl. by apply permit_create.
Qed.

Lemma steps_permitted p call evs ph :
  (forall l sc sc' a, p_request p (observe_listing (p_volume p) (p_server p) l) = true ->
     permitted call [mkEvent sc (CallGetAttachments (p_server p) (Ok l))] (mkEvent sc' (p_effect p a))) ->
  steps p Idle evs ph -> permitted_all call evs.
Proof.
  intros Hp Hs pre ev post Hevs Hm.
  destruct (steps_once _ _ _ _ _ _ Hs Hevs Hm) as (sc & l & a & -> & Hreq & Hev).
  destruct ev as [sc' cl]. simpl in Hev. subst cl. by apply Hp.
Qed.

Lemma serves_Publish ctx req w :
  wp (failure (ControllerPublishVolume ctx req)) (fun _ evs _ => permitted_all (RpcPublish req) evs) w.
Proof.
  apply wp_failure. unfold ControllerPublishVolume. destruct req as [rq|]; [|wp_step; apply permitted_nil].
  do 3 (apply wp_require; [intros; apply permitted_nil|intros _]).
  apply wp_check; [intros; apply permitted_nil|intros _ _].
  apply wp_require; [intros; apply permitted_nil|intros _]. wp_step.
  eapply wp_mono; [apply wp_AttachVolume|]. intros r evs w1 _ [(ph & Hs & _) _].
  apply (steps_permitted _ (RpcPublish (Some rq))) in Hs; [destruct r as [[a|]|e]|];
    [destruct (isDeviceNodePath _)|..]; try by wp_step.
  intros l sc sc' a Hreq. apply permit_attach. simpl in Hreq. by destruct (observe_listing _ _ l).
Qed.

Lemma serves_Unpublish ctx req w :
  wp (failure (ControllerUnpublishVolume ctx req)) (fun _ evs _ => permitted_all (RpcUnpublish req) evs) w.
Proof.
  apply wp_failure. unfold ControllerUnpublishVolume. destruct req as [rq|]; [|wp_step; apply permitted_nil].
  do 2 (apply wp_require; [intros; apply permitted_nil|intros _]). wp_step.
  eapply wp_mono; [apply wp_DetachVolume|]. intros r evs w1 _ [(ph & Hs & _) _].
  apply (steps_permitted _ (RpcUnpublish (Some rq))) in Hs; [destruct r as [[]|e]; by wp_step|].
  intros l sc sc' a Hreq. apply permit_detach. simpl in Hreq. by destruct (observe_listing _ _ l).
Qed.

Lemma serves_Validate ctx req w :
  wp (failure (ValidateVolumeCapabilities ctx req)) (fun _ evs _ => permitted_all (RpcValidate req) evs) w.
Proof.
  apply wp_failure. unfold ValidateVolumeCapabilities.
  destruct req as [rq|]; [|wp_step; apply permitted_nil].
  do 2 (apply wp_require; [intros; apply permitted_nil|intros _]). wp_step.
  eapply wp_mono; [apply wp_GetVolume|]. intros r evs w1 _ [Hg _].
  assert (permitted_all (RpcValidate (Some rq)) evs) as Hall.
  { apply permitted_quiet. by destruct Hg; repeat constructor. }
  destruct r as [v|e]; [|case_match; by wp_step].
  destruct (validate_capabilities _); [|by wp_step]. case_match; [by wp_step|].
  destruct (validateParameters _); by wp_step.
Qed.

Lemma wp_serve_permitted ctx call w :
  wp (serve ctx call) (fun _ evs _ => permitted_all call evs) w.
Proof.
  destruct call; [apply serves_Create|apply serves_Delete|apply serves_Publish|apply serves_Unpublish
    |apply serves_Validate].
Qed.
End Calls.

(** ** The system *)

(** The volumes of the cloud by id: [Some None] once a volume is gone. *)
Abbreviation Cloud := (gmap string (option v3Volume)).

Definition ownership (v : v3Volume) : option string := v3_Tags v !! OwnershipTagKey.

(** What may become of the cloud, whoever acts on it: volumes come, change and go; ids are
    not used again, and the ownership tag of a volume stays as it is. *)
Definition evolves (c c' : Cloud) : Prop := forall id x, c !! id = Some x ->
  exists x', c' !! id = Some x' /\ forall v', x' = Some v' -> exists v, x = Some v /\ ownership v' = ownership v.

(** A request and its answer: a volume that is read is there as it is read. *)
Definition answers (c : Cloud) (ev : Event) (c' : Cloud) : Prop :=
  evolves c c' /\ forall id v, ev_call ev = CallGet id (Ok v) -> c !! id = Some (Some v).

(** A call in flight: its requests so far, and whether it has been answered. *)
Record Session := mkSession {
  s_ctx : GoContext; s_call : rpc; s_events : list Event; s_answered : bool }.

Record System := mkSystem { sessions : gmap nat Session; cloud : Cloud }.

Inductive label :=
| Accept (i : nat) (ctx : GoContext) (call : rpc)
| Request (i : nat) (ev : Event)
| Answer (i : nat) (o : option gerror)
| Others.

Section System.
Context `{CloudURLs}.
Variables (cf : Config) (v3c : ServiceClient) (v2c ecsc : option ServiceClient).

(** The runs of a call, over every cloud there may be. *)
Definition behaves (ctx : GoContext) (call : rpc) (evs : list Event) (o : option gerror) : Prop :=
  exists (E : Type) (sdk : CloudSDK E) (w w' : World E Event),
    @serve E Event (@evs_client E sdk _ (mkClient cf (Some v3c) v2c ecsc)) ctx call w = Some (o, w')
    /\ trace w' = trace w ++ evs.

Inductive sys_step : System -> label -> System -> Prop :=
| sys_accept s i ctx call : sessions s !! i = None ->
    sys_step s (Accept i ctx call)
      (mkSystem (<[i := mkSession ctx call [] false]> (sessions s)) (cloud s))
| sys_request s i ctx call evs ev rest o c' :
    sessions s !! i = Some (mkSession ctx call evs false) ->
    behaves ctx call (evs ++ ev :: rest) o -> answers (cloud s) ev c' ->
    sys_step s (Request i ev)
      (mkSystem (<[i := mkSession ctx call (evs ++ [ev]) false]> (sessions s)) c')
| sys_answer s i ctx call evs o :
    sessions s !! i = Some (mkSession ctx call evs false) -> behaves ctx call evs o ->
    sys_step s (Answer i o) (mkSystem (<[i := mkSession ctx call evs true]> (sessions s)) (cloud s))
| sys_others s c' : evolves (cloud s) c' -> sys_step s Others (mkSystem (sessions s) c').

(** The requests of one call among those of all. *)
Definition requests_of (i : nat) (ls : list label) : list Event :=
  omap (fun l => match l with Request j ev => if decide (j = i) then Some ev else None | _ => None end) ls.

Lemma behaves_permitted ctx call evs o : behaves ctx call evs o -> permitted_all call evs.
Proof.
  intros (E & sdk & w & w' & Hrun & Ht).
  destruct (wp_elim _ _ _ _ _ (@wp_serve_permitted E sdk _ cf v3c v2c ecsc ctx call w) Hrun)
    as (evs' & Ht' & _ & Hp).
  rewrite Ht in Ht'. by apply app_inv_head in Ht' as ->.
Qed.

Lemma evolves_refl c : evolves c c.
Proof. intros id x Hx. exists x. split; [done|]. eauto. Qed.

Lemma evolves_trans c1 c2 c3 : evolves c1 c2 -> evolves c2 c3 -> evolves c1 c3.
Proof.
  intros H12 H23 id x Hx. destruct (H12 id x Hx) as (x2 & Hx2 & Ho2).
  destruct (H23 id x2 Hx2) as (x3 & Hx3 & Ho3). exists x3. split; [done|].
  intros v3 (v2 & Hv2 & ->)%Ho3. destruct (Ho2 v2 Hv2) as (v & -> & ->). by exists v.
Qed.

(** The cloud only evolves. *)
Lemma step_evolves s l s' : sys_step s l s' -> evolves (cloud s) (cloud s').
Proof. destruct 1 as [| ? ? ? ? ? ? ? ? ? ? ? [? ?]| |]; simpl; auto using evolves_refl. Qed.

(** *** The invariant *)

(** A volume some call has read keeps the ownership it was read with. *)
Definition reads_hold (s : System) : Prop := forall i ses sc id v,
  sessions s !! i = Some ses -> mkEvent sc (CallGet id (Ok v)) ∈ s_events ses ->
  exists x, cloud s !! id = Some x /\ forall v', x = Some v' -> ownership v' = ownership v.

(** Each call in flight is on the way to one of its runs, and its requests are those of
    the history [ls]. *)
Definition on_track (ls : list label) (s : System) : Prop := forall i,
  match sessions s !! i with
  | Some ses => s_events ses = requests_of i ls /\ Accept i (s_ctx ses) (s_call ses) ∈ ls
  | None => requests_of i ls = []
  end.

Lemma reads_hold_step s l s' : reads_hold s -> sys_step s l s' -> reads_hold s'.
Proof.
  intros Hr Hs.
  assert (forall i ses sc id v, sessions s !! i = Some ses -> mkEvent sc (CallGet id (Ok v)) ∈ s_events ses ->
    exists x, cloud s' !! id = Some x /\ forall v', x = Some v' -> ownership v' = ownership v) as Hold.
  { intros i ses sc id v Hi Hv. destruct (Hr i ses sc id v Hi Hv) as (x & Hx & Ho).
    destruct (step_evolves _ _ _ Hs id x Hx) as (x' & Hx' & Ho'). exists x'. split; [done|].
    intros v' (v0 & -> & ->)%Ho'. by apply Ho. }
  destruct Hs as [s i ctx call Hi|s i ctx call evs ev rest o c' Hi _ [He Ha]|s i ctx call evs o Hi _|s c' He];
    intros j ses sc id v; simpl; intros Hj Hv.
  - apply lookup_insert_Some in Hj as [[<- <-]|[_ Hj]]; [by apply elem_of_nil in Hv|by eapply Hold].
  - apply lookup_insert_Some in Hj as [[<- <-]|[_ Hj]]; [|by eapply Hold].
    apply elem_of_app in Hv as [Hv|Hv]; [by eapply Hold|].
    apply list_elem_of_singleton in Hv as <-. destruct (He id _ (Ha id v eq_refl)) as (x' & Hx' & Ho).
    exists x'. split; [done|]. intros v' (v0 & [= <-] & Hv0)%Ho. done.
  - apply lookup_insert_Some in Hj as [[<- <-]|[_ Hj]]; by eapply Hold.
  - by eapply Hold.
Qed.

Lemma requests_of_snoc i ls l : requests_of i (ls ++ [l])
  = requests_of i ls ++ match l with Request j ev => if decide (j = i) then [ev] else [] | _ => [] end.
Proof. unfold requests_of. rewrite omap_app. simpl. by destruct l; [|case_decide|..]. Qed.

Lemma on_track_step ls s l s' : on_track ls s -> sys_step s l s' -> on_track (ls ++ [l]) s'.
Proof.
  intros Ht Hs j. rewrite requests_of_snoc. specialize (Ht j).
  destruct Hs as [s i ctx call Hi|s i ctx call evs ev rest o c' Hi _ _|s i ctx call evs o Hi _|s c' He]; simpl;
    rewrite ?app_nil_r; [|destruct (decide (i = j)) as [->|Hij]|..];
    try (destruct (decide (i = j)) as [->|Hij]); rewrite ?lookup_insert_eq, ?lookup_insert_ne by done;
    rewrite ?app_nil_r; try rewrite Hi in Ht; simpl in *.
  all: repeat case_match; destruct_and?; split_and?; try done; try congruence;
    rewrite ?elem_of_app, ?list_elem_of_singleton; auto.
Qed.

(** Histories from a system that serves nothing yet. *)
Definition history (c0 : Cloud) (ls : list label) (s : System) : Prop :=
  replay sys_step (mkSystem ∅ c0) ls s.

Lemma replay_invariant ls ls' s s' :
  reads_hold s -> on_track ls s -> replay sys_step s ls' s' -> reads_hold s' /\ on_track (ls ++ ls') s'.
Proof.
  intros Hr Ht Hrep. revert ls Ht. induction Hrep as [s|s l s1 ls' s' Hs _ IH]; intros ls Ht.
  - by rewrite app_nil_r.
  - change (l :: ls') with ([l] ++ ls'). rewrite app_assoc. apply IH.
    + by eapply reads_hold_step.
    + by eapply on_track_step.
Qed.

Lemma history_invariant c0 ls s : history c0 ls s -> reads_hold s /\ on_track ls s.
Proof.
  intros Hh. change ls with ([] ++ ls). eapply replay_invariant; [| |exact Hh].
  - intros i ses sc id v Hi. simpl in Hi. by rewrite lookup_empty in Hi.
  - intros i. simpl. by rewrite lookup_empty.
Qed.

(** A request in a history, with the call that sent it. *)
Lemma request_permitted c0 ls s i ev s' :
  history c0 ls s -> sys_step s (Request i ev) s' -> mutates (ev_call ev) = true ->
  exists ctx call, Accept i ctx call ∈ ls /\ permitted call (requests_of i ls) ev
    /\ exists ses, sessions s !! i = Some ses /\ s_events ses = requests_of i ls.
Proof.
  intros [_ Ht]%history_invariant Hs Hm. specialize (Ht i).
  inversion Hs as [|? ? ctx call evs ? rest o c' Hi Hb _| |]; subst. rewrite Hi in Ht. simpl in Ht.
  destruct Ht as [Hevs Hacc]. exists ctx, call. split; [done|]. rewrite <-Hevs. split.
  - by apply (behaves_permitted _ _ _ _ Hb evs ev rest).
  - by eexists.
Qed.

Lemma history_snoc_inv c0 pre l post s :
  history c0 (pre ++ l :: post) s -> exists s1 s2, history c0 pre s1 /\ sys_step s1 l s2.
Proof.
  intros (s1 & H1 & (s2 & H2 & _)%replay_cons_inv)%replay_app_inv. by exists s1, s2.
Qed.

(** C2. The driver never deletes what is not its own, however its calls overlap. In any
    history of concurrently served controller calls, among cloud users who change
    anything but the ownership tags, a volume that is there when a call sends a DELETE
    for it carries the driver's ownership tag at that moment. *)
Theorem delete_only_owned c0 ls s i ev s' id res v :
  history c0 ls s -> sys_step s (Request i ev) s' -> ev_call ev = CallDelete id res ->
  cloud s !! id = Some (Some v) -> v3_Tags v !! OwnershipTagKey = Some OwnershipTagValue.
Proof.
  intros Hh Hs Hev Hv. destruct (request_permitted _ _ _ _ _ _ Hh Hs) as
    (ctx & call & _ & Hp & ses & Hses & Hevs); [by rewrite Hev|].
  inversion Hp as [|rq sc v0 sc' res' Ht|  |]; subst; simplify_eq/=.
  destruct (history_invariant _ _ _ Hh) as [Hr _].
  destruct (Hr i ses sc (cd_VolumeId rq) v0 Hses) as (x & Hx & Ho).
  - rewrite Hevs. match goal with He : _ = requests_of _ _ |- _ => rewrite <-He end. in_list.
  - rewrite Hv in Hx. simplify_eq. rewrite <-Ht. by apply Ho.
Qed.

(** C5. Overlapping calls do not mix: whatever order the requests of the calls in flight
    reach the cloud in, a request that changes the cloud belongs to a call accepted
    before, is the one change that call asks for, and follows that call's own reads: a
    creation its listings of the name, a deletion its read of the owned volume, an attach
    or a detach its observation of the pair. *)
Theorem interleaved_requests c0 ls s pre i ev post :
  history c0 ls s -> ls = pre ++ Request i ev :: post -> mutates (ev_call ev) = true ->
  exists ctx call, Accept i ctx call ∈ pre /\ permitted call (requests_of i pre) ev
    /\ forall ev', ev' ∈ requests_of i pre -> mutates (ev_call ev') = false.
Proof.
  intros Hh -> Hm. apply history_snoc_inv in Hh as (s1 & s2 & Hh & Hs).
  destruct (request_permitted _ _ _ _ _ _ Hh Hs Hm) as (ctx & call & Hacc & Hp & _).
  exists ctx, call. split_and!; [done..|]. intros ev' Hin.
  inversion Hp as [rq size pre' sc res _ Hl _| | |]; subst;
    try (match goal with He : _ = requests_of _ _ |- _ => rewrite <-He in Hin end;
         by apply list_elem_of_singleton in Hin as ->).
  by destruct (proj1 (list.Forall_forall _ _) Hl ev' Hin) as (o & r & ->).
Qed.
End System.

(** ** A deletion among other calls *)

(** A cloud of one volume. *)
#[local] Instance single_cloud : CloudSDK (option v3Volume) := {|
  v3_Create _ _ _ e := (0%N, mkCreateResult (Some (ENew "read only")) (Err (ENew "read only")), e);
  v3_Get _ _ _ e := (0%N, match e with
    | Some v => Ok v
    | None => Err (ESDK (ErrDefault 404) "no such volume")
    end, e);
  v3_Delete _ _ _ _ := (0%N, None, None);
  v2_List _ _ _ e := (0%N, Ok [], e);
  evs_GetJob _ _ _ e := (0%N, Err (ENew "no jobs"), e);
  disk_GetAttachments _ _ _ e := (0%N, Ok None, e);
  disk_Attach _ _ _ e := (0%N, Ok None, e);
  disk_Detach _ _ _ _ _ e := (0%N, Ok None, e);
  ecs_GetJob _ _ _ e := (0%N, Err (ENew "no jobs"), e);
  cloud_scheduler := fun e => (true, e) |}.

Definition single_volume : v3Volume :=
  mkV3Volume "vol-1" "pvc-1" "available" 10 "eu-de-01" "SSD" ∅
    {[ OwnershipTagKey := OwnershipTagValue ]} false [].

Definition single_config : Config := mkConfig "" "" "" "" "" "".
Definition single_service : ServiceClient := mkService None "" "".

Definition single_delete : rpc := RpcDelete (Some (mkDeleteReq "vol-1")).

Definition single_run : option (option gerror * World (option v3Volume) Event) :=
  @serve (option v3Volume) Event (@evs_client _ single_cloud plain_urls
    (mkClient single_config (Some single_service) None None)) Background single_delete
    (mkWorld 0 (Some single_volume) []).

Definition single_event (n : nat) : Event :=
  nth n (match single_run with Some (_, w) => trace w | None => [] end)
    (mkEvent None (CallDelete "" None)).

Definition single_world : World (option v3Volume) Event :=
  match single_run with Some (_, w) => w | None => mkWorld 0 None [] end.

(** Two deletions of the volume in flight, both past their reads. *)
Definition single_history : list label :=
  [Accept 0 Background single_delete; Accept 1 Background single_delete;
   Request 1 (single_event 0); Request 0 (single_event 0)].

Definition single_state : System :=
  mkSystem (<[0%nat := mkSession Background single_delete [single_event 0] false]>
    (<[1%nat := mkSession Background single_delete [single_event 0] false]>
    (<[1%nat := mkSession Background single_delete [] false]>
    (<[0%nat := mkSession Background single_delete [] false]> ∅))))
    {[ "vol-1" := Some single_volume ]}.

Definition single_after : System :=
  mkSystem (<[0%nat := mkSession Background single_delete [single_event 0; single_event 1] false]>
    (sessions single_state)) {[ "vol-1" := Some single_volume ]}.

Lemma single_behaves : @behaves plain_urls single_config single_service None None Background
  single_delete [single_event 0; single_event 1; single_event 2] None.
Proof.
  exists (option v3Volume), single_cloud, (mkWorld 0 (Some single_volume) []), single_world.
  split; vm_compute; reflexivity.
Qed.

Lemma single_answers (c : Cloud) n :
  (forall id v, ev_call (single_event n) = CallGet id (Ok v) -> c !! id = Some (Some v)) ->
  answers c (single_event n) c.
Proof. intros Hg. split; [apply evolves_refl|done]. Qed.

Lemma single_history_holds :
  @history plain_urls single_config single_service None None {[ "vol-1" := Some single_volume ]}
    single_history single_state.
Proof.
  assert (forall id v, ev_call (single_event 0) = CallGet id (Ok v) ->
    ({[ "vol-1" := Some single_volume ]} : Cloud) !! id = Some (Some v)) as Hget.
  { intros id v Hev. vm_compute in Hev. injection Hev as <- <-. vm_compute. reflexivity. }
  unfold history, single_history. eapply replay_cons; [by apply sys_accept|].
  eapply replay_cons; [by apply sys_accept|].
  eapply replay_cons.
  - eapply (sys_request _ _ _ _ _ 1 Background single_delete []);
      [done|apply single_behaves|by apply single_answers].
  - apply replay_one.
    refine (sys_request _ _ _ _ _ 0 Background single_delete [] (single_event 0) _ _ _ _ _ _);
      [done|apply single_behaves|by apply single_answers].
Qed.

Lemma single_delete_sent :
  @sys_step plain_urls single_config single_service None None single_state
    (Request 0 (single_event 1)) single_after.
Proof.
  refine (sys_request _ _ _ _ _ 0 Background single_delete [single_event 0] (single_event 1) _ _ _ _ _ _);
    [done|apply single_behaves|]. apply single_answers.
  intros id v Hev. vm_compute in Hev. discriminate.
Qed.

Lemma delete_only_owned_witness :
  v3_Tags single_volume !! OwnershipTagKey = Some OwnershipTagValue.
Proof.
  apply (@delete_only_owned plain_urls single_config single_service None None
    {[ "vol-1" := Some single_volume ]} single_history single_state 0 (single_event 1) single_after "vol-1" None
    single_volume single_history_holds single_delete_sent); vm_compute; reflexivity.
Defined.

Lemma interleaved_requests_witness : exists ctx call,
  Accept 0 ctx call ∈ single_history
  /\ permitted call (requests_of 0 single_history) (single_event 1)
  /\ forall ev', ev' ∈ requests_of 0 single_history -> mutates (ev_call ev') = false.
Proof.
  apply (@interleaved_requests plain_urls single_config single_service None None
    {[ "vol-1" := Some single_volume ]} (single_history ++ [Request 0 (single_event 1)])
    single_after single_history 0 (single_event 1) []).
  - exact (replay_app _ _ _ _ _ _ single_history_holds (replay_one _ _ _ _ single_delete_sent)).
  - reflexivity.
  - vm_compute. reflexivity.
Defined.
