(* ===== verification/Node.v ===== *)
(** * The node service (internal/driver/node.go)

    The handlers against the interface [Mounter] (mount.Mounter) and the host's file
    operations. [linux_mounter] is the implementation the driver uses. *)

From S2P Require Import Prelude GoStrings GoErrors Runtime GoPath Mount Csi DriverConfig.

Local Open Scope stdpp_scope.
Local Open Scope go_scope.

(** ** Data *)

Definition mountPathPerm : Z := 488. (* 0o750 *)
Definition blockTargetFilePerm : Z := 384. (* 0o600 *)

Record StageRequest := mkStageReq {
  st_VolumeId : string; st_StagingPath : string; st_Cap : option VolumeCapability;
  st_PublishContext : gmap string string }.

Record UnstageRequest := mkUnstageReq { su_VolumeId : string; su_StagingPath : string }.

Record NodePublishRequest := mkNodePublishReq {
  np_VolumeId : string; np_StagingPath : string; np_TargetPath : string;
  np_Cap : option VolumeCapability; np_Readonly : bool; np_PublishContext : gmap string string }.

Record NodeUnpublishRequest := mkNodeUnpublishReq { nu_VolumeId : string; nu_TargetPath : string }.

Record NodeInfo := mkNodeInfo { ni_NodeId : string; ni_Topology : Topology }.

Inductive NodeCapability := STAGE_UNSTAGE_VOLUME.

(** ** The interface *)

Class Mounter (E : Type) := {
  mi_DiscoverDevice : GoContext -> string -> string -> M E HostCall (result string);
  mi_IsMountPoint : GoContext -> string -> M E HostCall (result bool);
  mi_GetFilesystemType : GoContext -> string -> M E HostCall (result string);
  mi_GetMountSource : GoContext -> string -> M E HostCall (result string);
  mi_Mount : GoContext -> string -> string -> string -> list string -> M E HostCall (result unit);
  mi_FormatAndMount :
    GoContext -> string -> string -> string -> list string -> M E HostCall (result unit);
  mi_Unmount : GoContext -> string -> M E HostCall (result unit) }.

#[export] Instance linux_mounter {E} `{Host E} (m : LinuxMounter) : Mounter E := {|
  mi_DiscoverDevice := DiscoverDevice m;
  mi_IsMountPoint := IsMountPoint;
  mi_GetFilesystemType := GetFilesystemType;
  mi_GetMountSource := GetMountSource;
  mi_Mount := Mount;
  mi_FormatAndMount := FormatAndMount;
  mi_Unmount := Unmount |}.

(** ** Construction and information *)

Definition NewNodeService {T Lg} (mounter : option T) (cfg : option DriverConfig)
    (logger : option Lg) : result (T * DriverConfig * Lg) :=
  match mounter, cfg, logger with
  | None, _, _ => Err (ENew "mounter cannot be nil")
  | _, None, _ => Err (ENew "config cannot be nil")
  | _, _, None => Err (ENew "logger cannot be nil")
  | Some m, Some c, Some l =>
      if decide (cf_NodeID c = "") then Err (ENew "node ID cannot be empty") else
      if decide (cf_AvailabilityZone c = "") then Err (ENew "availability zone cannot be empty") else
      Ok (m, c, l)
  end.

Definition NodeGetInfo (cfg : DriverConfig) : result NodeInfo :=
  if decide (cf_NodeID cfg = "") then status_Error InvalidArgument "node ID is not configured" else
  if decide (cf_AvailabilityZone cfg = "")
  then status_Error FailedPrecondition "availability zone is not configured" else
  Ok (mkNodeInfo (cf_NodeID cfg) {[ TopologyZoneKey := cf_AvailabilityZone cfg ]}).

Definition NodeGetCapabilities : list NodeCapability := [STAGE_UNSTAGE_VOLUME].

(** ** Errors *)

Definition nodeHostError (op : string) (err : gerror) : gerror :=
  if Is err Canceled then EStatus CodeCanceled (op +:+ ": " +:+ Error err) else
  if Is err DeadlineExceeded then EStatus CodeDeadlineExceeded (op +:+ ": " +:+ Error err) else
  EStatus Internal ("failed to " +:+ op +:+ ": " +:+ Error err).

(** The code discoverDevice gives an error of the mounter. *)
Definition discovery_code (err : gerror) : Code :=
  if Is err Canceled then CodeCanceled else
  if Is err DeadlineExceeded then CodeDeadlineExceeded else
  if Is err ErrInvalidInput then InvalidArgument else
  if Is err ErrDeviceIdentityUnverified then FailedPrecondition else NotFound.

(** ** Handlers *)

Section Handlers.
Context {E : Type} `{Host E} `{Mounter E}.
Abbreviation op A := (M E HostCall (result A)).

Definition discoverDevice (ctx : GoContext) (volumeID : string)
    (publishContext : gmap string string) : op string :=
  let devicePath := TrimSpace (default "" (publishContext !! devicePathKey)) in
  if decide (devicePath = "") then
    ret (status_Error InvalidArgument ("publish context for volume " +:+ quote volumeID
           +:+ " has no " +:+ devicePathKey)) else
  let! r := mi_DiscoverDevice ctx volumeID devicePath in
  match r with
  | Ok device => ret (Ok device)
  | Err err =>
      ret (status_Error (discovery_code err) ("failed to verify the block device for volume "
             +:+ quote volumeID +:+ ": " +:+ Error err))
  end.

(** [if err := f(); err != nil { return status.Error(Internal, msg + err) }]. *)
Definition host_step (m : M E HostCall (option gerror)) (msg : string) (k : op unit) : op unit :=
  let! err := m in
  match err with
  | Some err => ret (status_Error Internal (msg +:+ ": " +:+ Error err))
  | None => k
  end.

Definition open_file (path : string) (perm : Z) : M E HostCall (option gerror) :=
  call (os_OpenFile path perm) (HOpenFile path perm).
Definition close_file (path : string) : M E HostCall (option gerror) :=
  call (file_Close path) (HClose path).
Definition remove (path : string) : M E HostCall (option gerror) :=
  call (os_Remove path) (HRemove path).

Definition createBlockTargetFile (targetPath : string) : op unit :=
  let parentDir := Dir targetPath in
  host_step (mkdir_all parentDir mountPathPerm) ("failed to create parent directory " +:+ parentDir) (
  host_step (open_file targetPath blockTargetFilePerm) ("failed to create target file " +:+ targetPath) (
  host_step (close_file targetPath) ("failed to close target file " +:+ targetPath) (
  ret (Ok tt)))).

Definition removeMountPath (path : string) : op unit :=
  let! err := remove path in
  match err with
  | Some err =>
      if negb (IsNotExist err)
      then ret (status_Error Internal ("failed to remove mount path " +:+ path +:+ ": " +:+ Error err))
      else ret (Ok tt)
  | None => ret (Ok tt)
  end.

(** [if err := mounter.f(); err != nil { return nodeHostError(op, err) }]. *)
Definition mount_step {A B} (m : op A) (what : string) (k : A -> op B) : op B :=
  let! r := m in
  match r with
  | Err err => ret (Err (nodeHostError what err))
  | Ok a => k a
  end.

Definition stage_mount (ctx : GoContext) (sourceDevice stagingPath fs_type : string)
    (mountOptions : list string) : op unit :=
  let fsType := if decide (fs_type = "") then DefaultFilesystemType else fs_type in
  mount_step (mi_FormatAndMount ctx sourceDevice stagingPath fsType mountOptions)
    ("format and mount device " +:+ sourceDevice +:+ " at " +:+ stagingPath)
    (fun _ => ret (Ok tt)).

Definition NodeStageVolume (ctx : GoContext) (req : option StageRequest) : op unit :=
  match req with
  | None => ret (status_Error InvalidArgument "request cannot be nil")
  | Some req =>
  require (negb (blank (st_VolumeId req))) "volume_id cannot be empty" (
  require (negb (blank (st_StagingPath req))) "staging_target_path cannot be empty" (
  require (bool_decide (is_Some (st_Cap req))) "volume_capability cannot be nil" (
  check (validateVolumeCapability (st_Cap req)) (fun _ =>
  let stagingPath := st_StagingPath req in
  try! sourceDevice := discoverDevice ctx (st_VolumeId req) (st_PublishContext req) in
  match st_Cap req ≫= cap_AccessType with
  | Some Block =>
      host_step (mkdir_all stagingPath mountPathPerm)
        ("failed to create staging directory " +:+ stagingPath) (ret (Ok tt))
  | Some (MountVolume fs_type mount_flags) =>
      stage_mount ctx sourceDevice stagingPath fs_type mount_flags
  | None => ret (status_Error InvalidArgument "unsupported volume access type")
  end))))
  end.

Definition NodeUnstageVolume (ctx : GoContext) (req : option UnstageRequest) : op unit :=
  match req with
  | None => ret (status_Error InvalidArgument "request cannot be nil")
  | Some req =>
  require (negb (blank (su_VolumeId req))) "volume_id cannot be empty" (
  require (negb (blank (su_StagingPath req))) "staging_target_path cannot be empty" (
  let stagingPath := su_StagingPath req in
  mount_step (mi_Unmount ctx stagingPath)
    ("unstage volume " +:+ quote (su_VolumeId req) +:+ " at " +:+ stagingPath)
    (fun _ => removeMountPath stagingPath)))
  end.

(** The options of a publication: a bind, read-only when asked for, and the other flags
    of a mount capability. *)
Definition publish_options (readonly : bool) (flags : list string) : list string :=
  ("bind" :: if readonly then ["ro"] else [])
  ++ List.filter (fun opt => negb (bool_decide (opt = "bind")) && negb (bool_decide (opt = "ro"))) flags.

Definition publish_block (ctx : GoContext) (req : NodePublishRequest) : op unit :=
  let targetPath := np_TargetPath req in
  try! sourceDevice := discoverDevice ctx (np_VolumeId req) (np_PublishContext req) in
  try! _ := createBlockTargetFile targetPath in
  mount_step (mi_Mount ctx sourceDevice targetPath "" (publish_options (np_Readonly req) []))
    ("bind mount raw block device " +:+ sourceDevice +:+ " to " +:+ targetPath)
    (fun _ => ret (Ok tt)).

Definition publish_mount (ctx : GoContext) (req : NodePublishRequest) (flags : list string) :
    op unit :=
  let stagingPath := np_StagingPath req in
  let targetPath := np_TargetPath req in
  mount_step (mi_IsMountPoint ctx stagingPath) ("check staging path " +:+ stagingPath) (fun staged =>
  if negb staged then
    ret (status_Error FailedPrecondition ("volume " +:+ quote (np_VolumeId req)
           +:+ " is not staged at " +:+ stagingPath)) else
  host_step (mkdir_all targetPath mountPathPerm) ("failed to create target directory " +:+ targetPath) (
  mount_step (mi_Mount ctx stagingPath targetPath "" (publish_options (np_Readonly req) flags))
    ("bind mount staging path " +:+ stagingPath +:+ " at target " +:+ targetPath)
    (fun _ => ret (Ok tt)))).

Definition NodePublishVolume (ctx : GoContext) (req : option NodePublishRequest) : op unit :=
  match req with
  | None => ret (status_Error InvalidArgument "request cannot be nil")
  | Some req =>
  require (negb (blank (np_VolumeId req))) "volume_id cannot be empty" (
  require (negb (blank (np_StagingPath req))) "staging_target_path cannot be empty" (
  require (negb (blank (np_TargetPath req))) "target_path cannot be empty" (
  require (bool_decide (is_Some (np_Cap req))) "volume_capability cannot be nil" (
  check (validateVolumeCapability (np_Cap req)) (fun _ =>
  let readOnlyMode := bool_decide (np_Cap req ≫= cap_AccessMode = Some SINGLE_NODE_READER_ONLY) in
  require (negb (readOnlyMode && negb (np_Readonly req)))
    "writable publication requested for a read-only access mode" (
  match np_Cap req ≫= cap_AccessType with
  | Some Block => publish_block ctx req
  | Some (MountVolume _ flags) => publish_mount ctx req flags
  | None => ret (status_Error InvalidArgument "unsupported volume access type")
  end))))))
  end.

Definition NodeUnpublishVolume (ctx : GoContext) (req : option NodeUnpublishRequest) : op unit :=
  match req with
  | None => ret (status_Error InvalidArgument "request cannot be nil")
  | Some req =>
  require (negb (blank (nu_VolumeId req))) "volume_id cannot be empty" (
  require (negb (blank (nu_TargetPath req))) "target_path cannot be empty" (
  let targetPath := nu_TargetPath req in
  mount_step (mi_Unmount ctx targetPath)
    ("unpublish volume " +:+ quote (nu_VolumeId req) +:+ " at target " +:+ targetPath)
    (fun _ => removeMountPath targetPath)))
  end.
End Handlers.
