(* ===== verification/NodeSpec.v ===== *)
(** * What the node service guarantees

    Error codes against any mounter that returns; what the handlers do to the host with
    the Linux mounter of [Mount]. *)

From S2P Require Import Prelude GoStrings GoErrors Runtime GoPath Mount MountSpec Csi Node.

Local Open Scope stdpp_scope.
Local Open Scope go_scope.

(** ** Errors *)

Lemma proper_discovery_code e : discovery_code e <> OK /\ discovery_code e <> Unknown.
Proof. unfold discovery_code. by repeat case_match. Qed.

Lemma proper_nodeHostError {A} op e : proper_result (Err (nodeHostError op e) : result A).
Proof. unfold nodeHostError. repeat case_match; by apply proper_err. Qed.

#[export] Hint Resolve proper_nodeHostError : proper.

(** ** Rules *)

Section Rules.
Context {E : Type} `{Host E}.
Abbreviation post A := (A -> list HostCall -> World E HostCall -> Prop).

Lemma wp_host_step (m : M E HostCall (option gerror)) msg k (Q : post (result unit)) w :
  wp m (fun o evs w' => match o with
    | Some err => Q (Err (EStatus Internal (msg +:+ ": " +:+ Error err))) evs w'
    | None => wp k (fun r evs' w'' => Q r (evs ++ evs') w'') w' end) w ->
  wp (host_step m msg k) Q w.
Proof.
  intros Hm. unfold host_step. wp_step. eapply wp_mono; [exact Hm|]. intros [err|] evs w' _ HQ; [|exact HQ].
  wp_step. exact HQ.
Qed.

Lemma wp_mount_step {A B} (m : M E HostCall (result A)) what (k : A -> M E HostCall (result B))
    (Q : post (result B)) w :
  wp m (fun r evs w' => match r with
    | Err err => Q (Err (nodeHostError what err)) evs w'
    | Ok a => wp (k a) (fun r evs' w'' => Q r (evs ++ evs') w'') w' end) w ->
  wp (mount_step m what k) Q w.
Proof.
  intros Hm. unfold mount_step. wp_step. eapply wp_mono; [exact Hm|]. intros [a|err] evs w' _ HQ; [exact HQ|].
  wp_step. exact HQ.
Qed.
End Rules.

(** ** Statuses, whatever the mounter *)

(** A mounter whose operations return. *)
Class MounterReturns (E : Type) `{Mounter E} := {
  ret_Discover ctx v p w : wp (mi_DiscoverDevice ctx v p) (fun _ _ _ => True) w;
  ret_IsMountPoint ctx p w : wp (mi_IsMountPoint ctx p) (fun _ _ _ => True) w;
  ret_Mount ctx s p f o w : wp (mi_Mount ctx s p f o) (fun _ _ _ => True) w;
  ret_FormatAndMount ctx s p f o w : wp (mi_FormatAndMount ctx s p f o) (fun _ _ _ => True) w;
  ret_Unmount ctx p w : wp (mi_Unmount ctx p) (fun _ _ _ => True) w }.

Section Statuses.
Context {E : Type} `{Host E} `{MounterReturns E}.

Lemma proper_host_step (m : M E HostCall (option gerror)) msg k w :
  wp m (fun _ _ _ => True) w -> (forall w, proper k w) -> proper (host_step m msg k) w.
Proof.
  intros Hm Hk. apply wp_host_step. eapply wp_mono; [exact Hm|]. intros [e|] evs w' _ _; [|apply Hk].
  by apply (proper_err Internal).
Qed.

Lemma proper_mount_step {A B} (m : M E HostCall (result A)) what (k : A -> M E HostCall (result B)) w :
  wp m (fun _ _ _ => True) w -> (forall a w, proper (k a) w) -> proper (mount_step m what k) w.
Proof.
  intros Hm Hk. apply wp_mount_step. eapply wp_mono; [exact Hm|]. intros [a|e] evs w' _ _; [apply Hk|].
  apply proper_nodeHostError.
Qed.

Lemma proper_try {A B} (m : M E HostCall (result A)) (k : A -> M E HostCall (result B)) w :
  proper m w -> (forall a w, proper (k a) w) -> proper (try m k) w.
Proof.
  intros Hm Hk. wp_step. eapply wp_mono; [exact Hm|]. intros [a|e] evs w' _ Hr; [apply Hk|].
  intros e' [= <-]. by apply Hr.
Qed.

Lemma wp_call_any {A} (f : Z -> E -> N * A * E) (ev : A -> HostCall) w :
  wp (call f ev) (fun _ _ _ => True) w.
Proof. by apply wp_call. Qed.

Lemma proper_ret {A} (r : result A) (w : World E HostCall) : proper_result r -> proper (ret r) w.
Proof. intros Hr. by wp_step. Qed.

Lemma proper_discoverDevice ctx id pc w : proper (discoverDevice ctx id pc) w.
Proof.
  unfold discoverDevice. case_match; [by apply proper_ret, proper_err|]. wp_step.
  eapply wp_mono; [apply ret_Discover|]. intros [d|e] evs w' _ _; wp_step; [done|].
  apply proper_err; apply proper_discovery_code.
Qed.

Lemma proper_removeMountPath path w : proper (removeMountPath path) w.
Proof.
  unfold removeMountPath. wp_step. apply wp_call. intros [e|] w' _; [|by wp_step].
  destruct (negb _); wp_step; [by apply proper_err|done].
Qed.

#[local] Hint Resolve wp_call_any proper_discoverDevice proper_removeMountPath ret_Discover
  ret_IsMountPoint ret_Mount ret_FormatAndMount ret_Unmount proper_capability : proper.

(** Walks a handler down to its answers. *)
Ltac proper_step :=
  lazymatch goal with
  | |- wp (require _ _ _) _ _ => apply proper_require
  | |- wp (check _ _) _ _ => apply proper_check; [auto with proper|intros _]
  | |- wp (try _ _) _ _ => apply proper_try; [|intros ? ?]
  | |- wp (mount_step _ _ _) _ _ => apply proper_mount_step; [auto with proper|intros ? ?]
  | |- wp (host_step _ _ _) _ _ => apply proper_host_step; [apply wp_call_any|intros ?]
  | |- wp (ret _) _ _ => apply proper_ret; auto with proper
  | |- wp (match ?x with _ => _ end) _ _ => destruct x
  end.

Lemma proper_StageVolume ctx req w : proper (NodeStageVolume ctx req) w.
Proof. unfold NodeStageVolume, stage_mount. repeat proper_step; auto with proper. Qed.

Lemma proper_UnstageVolume ctx req w : proper (NodeUnstageVolume ctx req) w.
Proof. unfold NodeUnstageVolume. repeat proper_step; auto with proper. Qed.

Lemma proper_PublishVolume ctx req w : proper (NodePublishVolume ctx req) w.
Proof.
  unfold NodePublishVolume, publish_block, publish_mount, createBlockTargetFile.
  repeat proper_step; auto with proper.
Qed.

Lemma proper_UnpublishVolume ctx req w : proper (NodeUnpublishVolume ctx req) w.
Proof. unfold NodeUnpublishVolume. repeat proper_step; auto with proper. Qed.
End Statuses.

(** The calls of the node service. *)
Inductive node_rpc :=
| RpcStage (req : option StageRequest)
| RpcUnstage (req : option UnstageRequest)
| RpcNodePublish (req : option NodePublishRequest)
| RpcNodeUnpublish (req : option NodeUnpublishRequest).

Definition node_serve {E} `{Host E} `{Mounter E} (ctx : GoContext) (call : node_rpc) :
    M E HostCall (result unit) :=
  match call with
  | RpcStage req => NodeStageVolume ctx req
  | RpcUnstage req => NodeUnstageVolume ctx req
  | RpcNodePublish req => NodePublishVolume ctx req
  | RpcNodeUnpublish req => NodeUnpublishVolume ctx req
  end.

(** C27. Against any mounter whose operations return, every node call returns, and an error it
    returns is a gRPC status with a definite code, never OK or Unknown. *)
Theorem node_serve_proper {E} `{MounterReturns E} `{Host E} ctx call w :
  runs (node_serve ctx call) w (fun r _ => forall e, r = Err e -> proper_status e).
Proof.
  apply wp_runs. destruct call; simpl; [apply proper_StageVolume|apply proper_UnstageVolume
    |apply proper_PublishVolume|apply proper_UnpublishVolume].
Qed.

(** ** The Linux mounter *)

Section Linux.
Context {E : Type} `{Host E}.
Variable m : LinuxMounter.

#[local] Instance node_mounter : Mounter E := linux_mounter m.

#[export] Instance linux_returns : MounterReturns E.
Proof.
  split; simpl; intros.
  - eapply wp_mono; [apply wp_DiscoverDevice|done].
  - by apply wp_IsMountPoint.
  - destruct (decide (bindFlavor o = "")) as [Hf|Hf].
    + unfold Mount, mount. rewrite (bool_decide_true _ Hf). cbn [negb].
      destruct (decide (s = "")); [by wp_step|]. destruct (decide (p = "")); [by wp_step|].
      apply wp_guard_ctx; [done|]. intros _. wp_step. apply wp_IsMountPoint; [done|].
      intros a [[]|] w1 _ _ _; [by wp_step| |done]. by apply wp_runMount.
    + eapply wp_mono; [by apply wp_Mount_bind|done].
  - eapply wp_mono; [apply wp_FormatAndMount|done].
  - eapply wp_mono; [apply wp_Unmount|done].
Qed.

(** *** Taking a mount down *)

(** The events show that nothing is mounted at [path] any more. *)
Definition unmounted (path : string) (evs : list HostCall) : Prop :=
  (exists a, evs = [HIsMountPoint path a] /\ reads_mounted a = Ok false)
  \/ (exists a cmd out err, evs = [HIsMountPoint path a; HRun cmd out err]
        /\ cmd_name cmd = "umount" /\ cmd_args cmd = [path]
        /\ (err = None \/ Contains (ToLower out) umountNotMounted = true)).

Definition removes (ev : HostCall) : Prop := match ev with HRemove _ _ => True | _ => False end.

Definition removal_spec (path : string) (r : result unit) (evs : list HostCall) : Prop :=
  (r <> Ok tt /\ Forall (fun ev => ~ removes ev) evs)
  \/ exists pre err, evs = pre ++ [HRemove path err] /\ unmounted path pre
       /\ (r = Ok tt <-> forall e, err = Some e -> IsNotExist e = true).

Lemma unmount_unmounted ctx path live evs :
  unmount_spec ctx path live (Ok tt) evs -> unmounted path evs.
Proof.
  intros [(_ & ? & _)|[(a & _ & -> & _ & Hr)|(a & cmd & out & err & -> & Ha & -> & Hok & _)]]; [done|..].
  - left. exists a. split; [done|]. by apply Hr.
  - right. exists a, (command ctx "umount" [path]), out, err. split_and!; [done..|]. by apply Hok.
Qed.

Lemma unmount_removes_nothing ctx path live r evs :
  unmount_spec ctx path live r evs -> Forall (fun ev => ~ removes ev) evs.
Proof.
  intros [(-> & _)|[(a & _ & -> & _)|(a & cmd & out & err & -> & _)]]; repeat constructor; by intros [].
Qed.

Lemma wp_teardown ctx path what w :
  wp (mount_step (mi_Unmount ctx path) what (fun _ => removeMountPath path))
    (fun r evs _ => removal_spec path r evs) w.
Proof.
  apply wp_mount_step. simpl. eapply wp_mono; [apply wp_Unmount|]. intros [[]|e] evs w1 _ Hu.
  2: { left. split; [done|]. by eapply unmount_removes_nothing. }
  apply unmount_unmounted in Hu. unfold removeMountPath. wp_step. apply wp_call. intros o w2 _.
  assert (forall r, (r = Ok tt <-> forall e, o = Some e -> IsNotExist e = true) ->
    removal_spec path r (evs ++ [HRemove path o])) as Hdone.
  { intros r Hr. right. by exists evs, o. }
  destruct o as [e|]; [|wp_step; by apply Hdone].
  destruct (IsNotExist e) eqn:En; cbn [negb]; wp_step; apply Hdone.
  - split; [|done]. by intros _ e' [= <-].
  - split; [done|]. intros He. by rewrite (He e eq_refl) in En.
Qed.

Lemma removal_safe path r evs :
  removal_spec path r evs ->
  (forall pre ev post, evs = pre ++ ev :: post -> removes ev ->
     (exists err, ev = HRemove path err) /\ post = [] /\ unmounted path pre) /\
  (r = Ok tt -> exists pre err, evs = pre ++ [HRemove path err]
     /\ forall e, err = Some e -> IsNotExist e = true).
Proof.
  intros [[Hr Hnone]|(pre0 & err & -> & Hu & Hr)].
  - split; [|done]. intros pre ev post -> Hev. exfalso.
    apply Forall_app in Hnone as [_ Hnone]. by apply Forall_cons_iff in Hnone as [Hn _].
  - split; [|intros Hok; exists pre0, err; split; [done|]; by apply Hr].
    intros pre ev post Heq Hev. apply app_eq_app in Heq as (mid & [[-> Heq]|[-> Heq]]).
    + destruct mid as [|x mid]; simplify_list_eq; [by split; [eexists|]|]. exfalso.
      destruct Hu as [(a & Hu & _)|(a & cmd & out & e & Hu & _)];
        destruct pre as [|y [|z [|]]]; by simplify_list_eq.
    + destruct mid as [|x [|]]; simplify_list_eq. rewrite ?app_nil_r. by split; [eexists|].
Qed.

(** C12. Taking a volume down never deletes through a live mount: NodeUnstageVolume and
    NodeUnpublishVolume remove at most the one path of the request, non-recursively and
    last, after the mount table showed it unmounted, umount succeeded, or umount said
    that nothing was mounted there; and they succeed only once the path is removed or gone. *)
Theorem teardown_safe ctx w :
  (forall req, runs (NodeUnstageVolume ctx req) w (fun r evs =>
     (forall pre ev post, evs = pre ++ ev :: post -> removes ev -> exists rq err, req = Some rq
        /\ ev = HRemove (su_StagingPath rq) err /\ post = [] /\ unmounted (su_StagingPath rq) pre)
     /\ (r = Ok tt -> exists rq pre err, req = Some rq /\ evs = pre ++ [HRemove (su_StagingPath rq) err]
          /\ forall e, err = Some e -> IsNotExist e = true))) /\
  (forall req, runs (NodeUnpublishVolume ctx req) w (fun r evs =>
     (forall pre ev post, evs = pre ++ ev :: post -> removes ev -> exists rq err, req = Some rq
        /\ ev = HRemove (nu_TargetPath rq) err /\ post = [] /\ unmounted (nu_TargetPath rq) pre)
     /\ (r = Ok tt -> exists rq pre err, req = Some rq /\ evs = pre ++ [HRemove (nu_TargetPath rq) err]
          /\ forall e, err = Some e -> IsNotExist e = true))).
Proof.
  split; intros req; apply wp_runs; [unfold NodeUnstageVolume|unfold NodeUnpublishVolume];
    (destruct req as [rq|]; [|wp_step; split; [by intros []|done]]);
    do 2 (apply wp_require; [intros _; split; [by intros []|done]|intros _]);
    (eapply wp_mono; [apply wp_teardown|]); intros r evs w1 _ [Hrem Hok]%removal_safe; split.
  - intros pre ev post Heq Hev. destruct (Hrem pre ev post Heq Hev) as ([err ->] & -> & Hu).
    by exists rq, err.
  - intros (pre & err & -> & He)%Hok. by exists rq, pre, err.
  - intros pre ev post Heq Hev. destruct (Hrem pre ev post Heq Hev) as ([err ->] & -> & Hu).
    by exists rq, err.
  - intros (pre & err & -> & He)%Hok. by exists rq, pre, err.
Qed.
(** *** Devices *)

(** The device path of a publish context, as the node reads it. *)
Definition published_path (pc : gmap string string) : string :=
  TrimSpace (default "" (pc !! devicePathKey)).

Lemma wp_discoverDevice ctx id pc w :
  wp (discoverDevice ctx id pc) (fun r evs _ => Forall lookup evs
    /\ forall d, r = Ok d -> identified m id (published_path pc) d evs) w.
Proof.
  unfold discoverDevice. case_match; [by wp_step|]. wp_step.
  eapply wp_mono; [apply wp_DiscoverDevice|]. intros [d|e] evs w1 _ [Hl Hd]; wp_step; split; try done.
Qed.

Definition runs_command (ev : HostCall) : Prop := match ev with HRun _ _ _ => True | _ => False end.

Lemma lookup_quiet evs : Forall lookup evs -> Forall (fun ev => ~ runs_command ev) evs.
Proof. intros Hl. eapply Forall_impl; [|exact Hl]. intros [] ?; by simpl in *; auto. Qed.

Lemma lookup_harmless evs : Forall lookup evs -> Forall (fun ev => formats ev = false) evs.
Proof. intros Hl. eapply Forall_impl; [|exact Hl]. intros [] ?; by simpl in *; auto. Qed.

(** *** Staging *)

Definition stage_access (rq : StageRequest) : option AccessType := st_Cap rq ≫= cap_AccessType.

Lemma wp_NodeStageVolume ctx req (Q : result unit -> list HostCall -> World E HostCall -> Prop) w :
  (forall e evs w', Forall lookup evs -> Q (Err e) evs w') ->
  (forall rq device idevs w', req = Some rq -> Forall lookup idevs ->
     identified m (st_VolumeId rq) (published_path (st_PublishContext rq)) device idevs ->
     stage_access rq = Some Block -> forall err r,
     (r = Ok tt <-> err = None) -> Q r (idevs ++ [HMkdirAll (st_StagingPath rq) mountPathPerm err]) w') ->
  (forall rq device idevs fs flags r evs w', req = Some rq -> Forall lookup idevs ->
     identified m (st_VolumeId rq) (published_path (st_PublishContext rq)) device idevs ->
     stage_access rq = Some (MountVolume fs flags) ->
     (exists r0, format_outcome device (st_StagingPath rq) (effective_type fs) flags r0 evs
        /\ (r = Ok tt <-> r0 = Ok tt)) -> Q r (idevs ++ evs) w') ->
  wp (NodeStageVolume ctx req) Q w.
Proof.
  intros He Hb Hm. unfold NodeStageVolume. destruct req as [rq|]; [|wp_step; by apply He].
  do 3 (apply wp_require; [intros; by apply He|intros _]). apply wp_check; [intros; by apply He|intros _ _].
  wp_step. eapply wp_mono; [apply wp_discoverDevice|]. intros [d|e] idevs w1 _ [Hl Hd]; [|by apply He].
  fold (stage_access rq). destruct (stage_access rq) as [[|fs flags]|] eqn:Ea.
  - apply wp_host_step, wp_call. intros [err|] w2 _; [|wp_step]; by eapply Hb; auto.
  - unfold stage_mount. apply wp_mount_step. simpl. eapply wp_mono; [apply wp_FormatAndMount|].
    assert (effective_type (if decide (fs = "") then DefaultFilesystemType else fs) = effective_type fs) as ->.
    { unfold effective_type. destruct (decide (fs = "")) as [->|Hfs]; [done|]. by rewrite !decide_False. }
    intros r evs w2 _ Ho. assert (forall r' w', (r' = Ok tt <-> r = Ok tt) -> Q r' (idevs ++ evs) w') as Hr.
    { intros r' w' Hr. apply (Hm rq d idevs fs flags); eauto. }
    destruct r as [[]|e]; [wp_step|]; by apply Hr.
  - wp_step. by apply He.
Qed.

(** A formatting command behind quiet events is one of the mounter's. *)
Lemma format_guard_after device path fs flags idevs evs pre ev post :
  Forall lookup idevs -> format_guard device path fs flags evs ->
  idevs ++ evs = pre ++ ev :: post -> formats ev = true ->
  exists pre', pre = idevs ++ pre' /\ evs = pre' ++ ev :: post.
Proof.
  intros Hl Hg Heq Hev. apply app_eq_app in Heq as (mid & [[-> Heq]|[-> Heq]]); [|by exists mid].
  destruct mid as [|x mid]; simpl in Heq.
  - exists []. by rewrite !app_nil_r.
  - exfalso. injection Heq as -> _. apply lookup_harmless in Hl. by eapply harmless_none in Hl.
Qed.

(** C10. NodeStageVolume formats only what it identified: an mkfs it runs is the one formatting
    command, for a writable filesystem volume, on the device that the published path and
    the by-id links of the volume agree on, found blank just before. A raw block volume
    is staged without running any command. Success means that the device was identified
    and then, for a raw block volume, the staging directory made, and for a filesystem
    volume, the device mounted there. *)
Theorem NodeStageVolume_verified ctx req w :
  runs (NodeStageVolume ctx req) w (fun r evs =>
    (forall pre ev post, evs = pre ++ ev :: post -> formats ev = true ->
       exists rq device idevs pre' fs flags, req = Some rq /\ pre = idevs ++ pre'
         /\ identified m (st_VolumeId rq) (published_path (st_PublishContext rq)) device idevs
         /\ stage_access rq = Some (MountVolume fs flags) /\ contains flags "ro" = false
         /\ mkfs_run device (effective_type fs) ev /\ Forall (fun ev => formats ev = false) post
         /\ exists pre0 ev0, pre' = pre0 ++ [ev0] /\ shows device "" ev0) /\
    (forall rq, req = Some rq -> stage_access rq = Some Block ->
       Forall (fun ev => ~ runs_command ev) evs) /\
    (r = Ok tt -> exists rq device idevs rest, req = Some rq /\ evs = idevs ++ rest
       /\ identified m (st_VolumeId rq) (published_path (st_PublishContext rq)) device idevs
       /\ ((stage_access rq = Some Block /\ rest = [HMkdirAll (st_StagingPath rq) mountPathPerm None])
           \/ exists fs flags, stage_access rq = Some (MountVolume fs flags)
                /\ mounted_as device (st_StagingPath rq) (effective_type fs) rest))).
Proof.
  apply wp_runs, wp_NodeStageVolume.
  - intros e evs w' Hl. split_and!; [|by intros; apply lookup_quiet|done].
    intros pre ev post Heq Hev. apply lookup_harmless in Hl. by destruct (harmless_none _ _ _ _ Hl Heq Hev).
  - intros rq device idevs w' -> Hl Hid Ha err r Hr. split_and!.
    + intros pre ev post Heq Hev. exfalso. eapply harmless_none; [|exact Heq|exact Hev].
      apply Forall_app. split; [by apply lookup_harmless|by repeat constructor].
    + intros _ _ _. apply Forall_app. split; [by apply lookup_quiet|]. by repeat constructor; intros [].
    + intros Hok. apply Hr in Hok as ->. eexists rq, device, idevs, _. split_and!; [done..|]. by left.
  - intros rq device idevs fs flags r evs w' -> Hl Hid Ha (r0 & Ho & Hr). split_and!.
    + intros pre ev post Heq Hev. pose proof (format_guarded _ _ _ _ _ _ Ho) as Hg.
      destruct (format_guard_after _ _ _ _ _ _ _ _ _ Hl Hg Heq Hev) as (pre' & -> & Hevs).
      destruct (Hg pre' ev post Hevs Hev) as (Hro & Hmk & Hpost & pre0 & ev0 & a & -> & Hs & _).
      exists rq, device, idevs, (pre0 ++ [ev0]), fs, flags. split_and!; [done..|]. by exists pre0, ev0.
    + intros rq' [= <-]. congruence.
    + intros Hok. apply Hr in Hok as ->. exists rq, device, idevs, evs. split_and!; [done..|].
      right. exists fs, flags. split; [done|]. by eapply format_mounted.
Qed.

(** *** Publishing *)

Definition publish_access (rq : NodePublishRequest) : option AccessType := np_Cap rq ≫= cap_AccessType.

(** A command of a publication: a bind mount of [source] at [target], or the umount that
    takes it back. *)
Definition bind_command (source target : string) (ev : HostCall) : Prop :=
  exists cmd out err, ev = HRun cmd out err /\
    ((cmd_name cmd = "mount" /\ exists opts, cmd_args cmd = mount_args source target "" ("bind" :: opts))
     \/ (cmd_name cmd = "umount" /\ cmd_args cmd = [target])).

Definition bind_commands (source target : string) (evs : list HostCall) : Prop :=
  Forall (fun ev => runs_command ev -> bind_command source target ev) evs.

Lemma remount_bind_commands ctx source target options r evs :
  remount_spec ctx source target "" options r evs -> bind_commands source target evs.
Proof.
  intros [(e & -> & _)|(flags & out & err & -> & _)]; (constructor; [by intros []|]); [constructor|].
  constructor; [intros _|constructor].
  destruct (remount_options_shape flags options) as (rest & Heq & _).
  eexists _, _, _. split; [done|]. left. split; [done|]. exists ("remount" :: rest). simpl. by rewrite Heq.
Qed.

Lemma rollback_bind_commands source target evs :
  rollback_spec target evs -> target <> "" -> bind_commands source target evs.
Proof.
  intros [?|(d & [(a & -> & _)|(a & out & err & ->)])] Ht; [done|..];
    (constructor; [by intros []|]); [constructor|].
  constructor; [intros _|constructor]. eexists _, _, _. split; [done|]. by right.
Qed.

Lemma bound_bind_commands ctx source target options r evs :
  bindFlavor options = "bind" -> target <> "" ->
  bound_spec ctx source target "" options r evs -> bind_commands source target evs.
Proof.
  intros Hf Ht [[_ [->|[a ->]]]|(a & rest & -> & Hrest)]; [constructor|..];
    (constructor; [by intros []|]); [constructor|]. destruct Hrest as [[_ Hr]|[_ (out & err & tail & -> & Hfail & Hok)]].
  { by eapply remount_bind_commands. }
  rewrite Hf in *. constructor.
  { intros _. eexists _, _, _. split; [done|]. left. split; [done|]. by eexists. }
  destruct err as [e|]; [by destruct (Hfail ltac:(done)) as [-> _]|].
  destruct (Hok eq_refl) as (r' & rem & roll & -> & Hrem & Hgood & Hbad).
  apply Forall_app. split; [by eapply remount_bind_commands|]. destruct r' as [[]|e].
  - by destruct (Hgood eq_refl) as [_ ->].
  - destruct (Hbad ltac:(done)) as [_ Hroll]. by apply rollback_bind_commands.
Qed.

(** A successful publication ends with its remount. *)
Definition ends_bound (ctx : GoContext) (source target : string) (options : list string)
    (evs : list HostCall) : Prop :=
  exists pre flags out, evs = pre ++ [HStatfs source (Ok flags);
    HRun (mount_cmd ctx source target "" (remount_options (flag_options flags) options)) out None].

Lemma remount_ends ctx source target options evs :
  remount_spec ctx source target "" options (Ok tt) evs -> ends_bound ctx source target options evs.
Proof.
  intros [(e & _ & ?)|(flags & out & err & -> & Hr)]; [done|]. assert (err = None) as -> by (by apply Hr).
  by exists [], flags, out.
Qed.

Lemma ends_after ctx source target options pre evs :
  ends_bound ctx source target options evs -> ends_bound ctx source target options (pre ++ evs).
Proof. intros (pre0 & flags & out & ->). exists (pre ++ pre0), flags, out. by rewrite app_assoc. Qed.

Lemma bound_ends ctx source target options evs :
  bound_spec ctx source target "" options (Ok tt) evs -> ends_bound ctx source target options evs.
Proof.
  intros [[? _]|(a & rest & -> & Hrest)]; [done|]. apply (ends_after _ _ _ _ [_]).
  destruct Hrest as [[_ Hr]|[_ (out & err & tail & -> & Hfail & Hok)]]; [by apply remount_ends|].
  apply (ends_after _ _ _ _ [_]). destruct err as [e|]; [by destruct (Hfail ltac:(done))|].
  destruct (Hok eq_refl) as (r' & rem & roll & -> & Hrem & Hgood & Hbad). destruct r' as [[]|e].
  - destruct (Hgood eq_refl) as [_ ->]. rewrite app_nil_r. by apply remount_ends.
  - by destruct (Hbad ltac:(done)).
Qed.

Lemma publish_flavor readonly flags : bindFlavor (publish_options readonly flags) = "bind".
Proof. done. Qed.

(** What a publication binds, and the events that show it is there. *)
Inductive publish_source (rq : NodePublishRequest) : string -> list string -> list HostCall -> Prop :=
| source_device device idevs files :
    publish_access rq = Some Block ->
    identified m (np_VolumeId rq) (published_path (np_PublishContext rq)) device idevs ->
    publish_source rq device [] (idevs ++ files)
| source_staged fs flags a :
    publish_access rq = Some (MountVolume fs flags) -> reads_mounted a = Ok true ->
    publish_source rq (np_StagingPath rq) flags
      [HIsMountPoint (np_StagingPath rq) a; HMkdirAll (np_TargetPath rq) mountPathPerm None].

Definition quiet (evs : list HostCall) : Prop := Forall (fun ev => ~ runs_command ev) evs.

Lemma wp_createBlockTargetFile path w :
  wp (createBlockTargetFile path) (fun _ evs _ => quiet evs) w.
Proof.
  unfold createBlockTargetFile, mkdir_all, open_file, close_file.
  assert (forall o p q, ~ runs_command (HMkdirAll p q o)) as H1 by (by intros ??? []).
  assert (forall o p q, ~ runs_command (HOpenFile p q o)) as H2 by (by intros ??? []).
  assert (forall o p, ~ runs_command (HClose p o)) as H3 by (by intros ?? []).
  do 3 (apply wp_host_step, wp_call; intros [?|] ? _; [by repeat constructor|]).
  wp_step. by repeat constructor.
Qed.

Lemma wp_NodePublishVolume ctx req (Q : result unit -> list HostCall -> World E HostCall -> Prop) w :
  (forall e evs w', quiet evs -> Q (Err e) evs w') ->
  (forall rq source flags pre r r0 evs w', req = Some rq -> np_TargetPath rq <> "" ->
     (np_Cap rq ≫= cap_AccessMode = Some SINGLE_NODE_READER_ONLY -> np_Readonly rq = true) ->
     quiet pre -> publish_source rq source flags pre ->
     bound_spec ctx source (np_TargetPath rq) "" (publish_options (np_Readonly rq) flags) r0 evs ->
     (r = Ok tt <-> r0 = Ok tt) -> Q r (pre ++ evs) w') ->
  wp (NodePublishVolume ctx req) Q w.
Proof.
  intros He Hb. assert (forall e w, Q (Err e) [] w) as He0 by (intros; apply He; constructor).
  unfold NodePublishVolume. destruct req as [rq|]; [|wp_step; apply He0].
  do 2 (apply wp_require; [auto|intros _]).
  apply wp_require; [auto|intros Ht]. apply wp_require; [auto|intros _].
  apply wp_check; [auto|intros _ _]. apply wp_require; [auto|intros Hro].
  assert (np_TargetPath rq <> "") as Hne by (to_prop; by apply blank_false_ne).
  assert (np_Cap rq ≫= cap_AccessMode = Some SINGLE_NODE_READER_ONLY -> np_Readonly rq = true) as Hmode.
  { intros Hm. rewrite bool_decide_true in Hro by done. by destruct (np_Readonly rq). }
  assert (forall source flags what pre w1, quiet pre -> publish_source rq source flags pre ->
    wp (mount_step (mi_Mount ctx source (np_TargetPath rq) "" (publish_options (np_Readonly rq) flags))
      what (fun _ => ret (Ok tt))) (fun r evs w2 => Q r (pre ++ evs) w2) w1) as Hmount.
  { intros source flags what pre w1 Hq Hs. apply wp_mount_step. simpl.
    eapply wp_mono; [by apply wp_Mount_bind|]. intros r evs w2 _ Hbs.
    destruct r as [[]|e]; [wp_step|]; eapply Hb; eauto; done. }
  fold (publish_access rq). destruct (publish_access rq) as [[|fs flags]|] eqn:Ea.
  - unfold publish_block. wp_step. eapply wp_mono; [apply wp_discoverDevice|].
    intros [d|e] idevs w1 _ [Hl Hd]; [|by apply He, lookup_quiet].
    wp_step. eapply wp_mono; [apply wp_createBlockTargetFile|]. intros [[]|e] files w2 _ Hq.
    2: { apply He. apply Forall_app. split; [by apply lookup_quiet|done]. }
    eapply wp_mono; [apply (Hmount d [] _ (idevs ++ files)); [by apply Forall_app; split; [apply lookup_quiet|]|apply source_device; auto]|].
    intros r evs w3 _. cbv beta. rewrite <-app_assoc. intros HQ. exact HQ.
  - unfold publish_mount. apply wp_mount_step. simpl.
    apply wp_IsMountPoint; [intros; apply He0|]. intros a [staged|e] w1 _ _ Ha.
    2: { apply He. by repeat constructor; intros []. }
    destruct staged; cbn [negb]; [|wp_step; apply He; by repeat constructor; intros []].
    apply wp_host_step, wp_call. intros [err|] w2 _; [apply He; by repeat constructor; intros []|].
    apply (Hmount (np_StagingPath rq) flags _ [_; _]); [by repeat constructor; intros []|].
    apply (source_staged rq fs); [done|]. by apply Ha.
  - wp_step. apply He0.
Qed.

(** C11. NodePublishVolume only binds: every command it runs is a bind mount, at the target
    path, of the staging path the mount table shows as mounted, or of the device it
    identified for a raw block volume, or the umount that takes that bind back. Success
    means that the remount which sets the options was its last command; a capability
    that only reads is published only read-only. *)
Theorem NodePublishVolume_bound ctx req w :
  runs (NodePublishVolume ctx req) w (fun r evs =>
    (forall ev, ev ∈ evs -> runs_command ev -> exists rq source flags pre post, req = Some rq
       /\ evs = pre ++ post /\ publish_source rq source flags pre
       /\ bind_command source (np_TargetPath rq) ev) /\
    (r = Ok tt -> exists rq source flags pre post, req = Some rq
       /\ evs = pre ++ post /\ publish_source rq source flags pre
       /\ ends_bound ctx source (np_TargetPath rq) (publish_options (np_Readonly rq) flags) post
       /\ (np_Cap rq ≫= cap_AccessMode = Some SINGLE_NODE_READER_ONLY -> np_Readonly rq = true))).
Proof.
  apply wp_runs, wp_NodePublishVolume.
  - intros e evs _ Hq. split; [|done]. intros ev Hev Hrun. by destruct (proj1 (list.Forall_forall _ _) Hq ev Hev).
  - intros rq source flags pre r r0 evs _ -> Hne Hmode Hq Hs Hb Hr. split.
    + intros ev Hev Hrun. exists rq, source, flags, pre, evs. split_and!; [done..|].
      apply elem_of_app in Hev as [Hev|Hev]; [by destruct (proj1 (list.Forall_forall _ _) Hq ev Hev)|].
      apply bound_bind_commands in Hb; [|done..]. by apply (proj1 (list.Forall_forall _ _) Hb ev Hev).
    + intros Hok. apply Hr in Hok as ->. exists rq, source, flags, pre, evs. split_and!; [done..| |done].
      by apply bound_ends.
Qed.
End Linux.

(** ** Read-only publications *)

(** The mount flags a publication passes on. *)
Definition other_flags (flags : list string) : list string :=
  List.filter (fun opt => negb (bool_decide (opt = "bind")) && negb (bool_decide (opt = "ro"))) flags.

(** The flags that the remount over a source keeps: each once, in order, without those the
    loop of remountBind leaves out. *)
Definition kept_flags (source flags : list string) : list string :=
  fold_left (remount_step (contains source "ro")) (other_flags flags) [].

Lemma elem_of_kept source flags f :
  f ∈ kept_flags source flags <-> f ∈ flags /\ f <> "ro" /\ remountable source f.
Proof.
  unfold kept_flags, other_flags. rewrite elem_of_remount_fold, elem_of_nil, list_elem_of_In,
    List.filter_In, andb_true_iff, !negb_true_iff, !bool_decide_eq_false, <-list_elem_of_In.
  unfold remountable. tauto.
Qed.

Lemma readonly_bound source_flags f :
  f ∈ remount_options (flag_options source_flags) ["bind"; "ro"] ->
  contains_byte ","%char f = false /\ (f = "ro" \/ last_access (split_on ","%char f) = None).
Proof.
  unfold remount_options. rewrite elem_of_remount_fold, elem_of_app, !elem_of_cons, elem_of_nil.
  assert (forall o, o ∈ flag_options source_flags -> contains_byte ","%char o = false
    /\ (o = "ro" \/ last_access (split_on ","%char o) = None)) as Hsrc.
  { intros o (Ho & Hrw & _)%flag_option_access. split; [done|].
    destruct (decide (o = "ro")) as [|Hro]; [by left|right]. rewrite split_on_whole by done.
    apply last_access_None. by rewrite !list_elem_of_singleton. }
  intros [[->|[->|[]]]|[[Hf|[->|[->|[]]]] _]]; [| |by apply Hsrc| |]; (split; [done|]); auto.
Qed.

(** What a read-only publication asks for: what it asks of the source itself, and then the
    kept flags that are not among that. *)
Lemma publish_access_flags source_flags flags :
  let source := flag_options source_flags in
  last_access (read_options (remount_options source (publish_options true flags)))
  = Some (default "ro" (last_access (read_options (kept_flags source flags)))).
Proof.
  intros source. set (bound := remount_options source ["bind"; "ro"]).
  assert (remount_options source (publish_options true flags)
    = bound ++ List.filter (fun x => negb (contains bound x)) (kept_flags source flags)) as ->.
  { unfold kept_flags. rewrite <-remount_fold_after. simpl List.filter. rewrite app_nil_r.
    unfold bound, remount_options. change (publish_options true flags) with (["bind"; "ro"] ++ other_flags flags).
    by rewrite app_assoc, fold_left_app. }
  rewrite read_options_app, last_access_app, last_access_filter.
  - rewrite (read_options_plain bound).
    + rewrite (last_access_ro bound); [by destruct (last_access (read_options (kept_flags source flags)))| |].
      * apply elem_of_remount_fold. right. split; [in_list|]. split_and!; try done. by intros [].
      * intros Hrw%readonly_bound. by destruct Hrw as [_ [?|?]].
    + apply list.Forall_forall. intros o Ho. by apply readonly_bound in Ho as [? _].
  - intros o Ho Hin. apply negb_false_iff, bool_decide_eq_true in Hin.
    apply elem_of_kept in Ho as (_ & Hro & _). by apply readonly_bound in Hin as [_ [?|?]].
Qed.

(** C24. The access of a read-only publication, as mount(8) reads the options of its remount,
    splitting them at the commas: what the last word of the kept mount flags asks for, if
    one asks for anything, and read-only access else. Kept are the mount flags of the
    volume except bind, rbind, remount and ro, and except rw when the source is mounted
    read-only. So no publication is writable unless a flag holds the word rw; and with
    flags that are single words, it is writable exactly when rw is one of them and the
    source is not itself mounted read-only. *)
Theorem publish_readonly source_flags flags :
  let source := flag_options source_flags in
  let access := last_access (read_options (remount_options source (publish_options true flags))) in
  access = Some (default "ro" (last_access (read_options (kept_flags source flags))))
  /\ (forall f, f ∈ kept_flags source flags <-> f ∈ flags /\ f <> "ro" /\ remountable source f)
  /\ ((forall f, f ∈ flags -> "rw" ∉ split_on ","%char f) -> access = Some "ro")
  /\ ((forall f, f ∈ flags -> contains_byte ","%char f = false) ->
      access = Some (if decide ("rw" ∈ flags /\ "ro" ∉ source) then "rw" else "ro")).
Proof.
  intros source access. pose proof (publish_access_flags source_flags flags : access = _) as Ha.
  rewrite Ha. clear access Ha. fold source.
  pose proof (elem_of_kept source flags) as Hkept. split_and!; [done|exact Hkept| |].
  - intros Hno. destruct (last_access (read_options _)) as [o|] eqn:Eo; [|done].
    apply last_access_Some in Eo as [Ho [->| ->]]; [done|]. exfalso.
    rewrite read_options_words, list_elem_of_In in Ho. apply in_concat in Ho as (ws & Hws & Ho).
    apply in_map_iff in Hws as (f & <- & Hf%list_elem_of_In). apply Hkept in Hf as [Hf _].
    by apply (Hno f Hf), list_elem_of_In.
  - intros Hplain. rewrite (read_options_plain (kept_flags source flags)).
    2: { apply list.Forall_forall. intros f Hf. apply Hplain. by apply Hkept in Hf as [? _]. }
    assert ("ro" ∉ kept_flags source flags) as Hro by (intros Hk; by apply Hkept in Hk as (_ & ? & _)).
    destruct (decide _) as [[Hrw Hsrc]|Hno].
    + rewrite last_access_rw; [done| |done]. apply Hkept. unfold remountable. by intuition congruence.
    + rewrite (proj2 (last_access_None _)); [done|]. split; [done|].
      intros Hk. apply Hkept in Hk as (Hrw & _ & _ & _ & _ & Hsrc). apply Hno. split; [done|].
      intros Hs. by apply Hsrc.
Qed.

(** A host that answers every question with success and mounts nothing. *)
Definition idle_host : Host unit := {|
  os_Environ := [];
  os_Stat _ _ e := (0%N, None, e);
  os_MkdirAll _ _ _ e := (0%N, None, e);
  os_OpenFile _ _ _ e := (0%N, None, e);
  file_Close _ _ e := (0%N, None, e);
  os_Remove _ _ e := (0%N, None, e);
  filepath_EvalSymlinks p _ e := (0%N, Ok p, e);
  exec_CombinedOutput _ _ e := (0%N, (EmptyString, None), e);
  table_IsMountPoint _ _ e := (0%N, Ok false, e);
  GetDeviceNameFromMount _ _ e := (0%N, Ok "/dev/vdb", e);
  IsCorruptedMnt _ := false;
  sys_statfs _ _ e := (0%N, Ok 0%Z, e) |}.

Lemma node_serve_proper_witness :
  let mounter := @linux_mounter unit idle_host (NewLinuxMounter []) in
  let returns := @linux_returns unit idle_host (NewLinuxMounter []) in
  @runs unit HostCall _ (@node_serve unit idle_host mounter Background
    (RpcUnstage (Some (mkUnstageReq "vol-1" "/staging")))) (mkWorld 0 tt [])
    (fun r _ => forall e, r = Err e -> proper_status e).
Proof. intros mounter returns. apply (@node_serve_proper unit mounter returns idle_host). Defined.
