(* ===== verification/NodeTable.v ===== *)
(** * The mount table of a node, across the calls of the node service

    The mount table as a state: what mount, umount and a question to the table do to it is
    the relation [table_step], which a lawful host obeys. The handlers of [Node] over the
    mounter of [Mount] are then functions on the table, and a volume's life on a node,
    from staging to unstaging, leaves the table as it found it. *)

From S2P Require Import Prelude GoStrings GoErrors Runtime Replay GoPath Mount MountSpec MountTest.
From S2P Require Import Csi Node NodeSpec.

Local Open Scope stdpp_scope.
Local Open Scope go_scope.

(** ** The table *)

(** What is mounted: the source and the options of the last mount or remount. *)
Record Mounted := mkMounted { on_source : string; on_options : list string }.

(** The mounts of a path: the visible one, and those it covers. *)
Abbreviation Stack := (Mounted * list Mounted)%type.
Abbreviation MountTable := (gmap string Stack).

Definition push (m : Mounted) (s : option Stack) : option Stack :=
  Some (m, match s with Some (top, covered) => top :: covered | None => [] end).

Definition pop (s : option Stack) : option Stack :=
  match s with Some (_, top :: covered) => Some (top, covered) | _ => None end.

(** A remount changes the options of the visible mount. *)
Definition reoption (options : list string) (s : option Stack) : option Stack :=
  option_map (fun s => (mkMounted (on_source s.1) options, s.2)) s.

Definition mounted (t : MountTable) (path : string) : bool := bool_decide (is_Some (t !! path)).

Lemma pop_push m s : pop (push m s) = s.
Proof. by destruct s as [[]|]. Qed.

Lemma pop_reoption options s : pop (reoption options s) = pop s.
Proof. by destruct s as [[? []]|]. Qed.

Lemma mounted_true t path : mounted t path = true <-> is_Some (t !! path).
Proof. apply bool_decide_eq_true. Qed.

Lemma mounted_false t path : mounted t path = false <-> t !! path = None.
Proof. unfold mounted. rewrite bool_decide_eq_false, eq_None_not_Some. done. Qed.

(** ** The options of a mount command *)

Lemma parse_mount_args source target fsType options :
  ParseMountArgs (mount_args source target fsType options)
  = (source, target, fsType, read_options options).
Proof.
  unfold ParseMountArgs, mount_args, read_options.
  destruct (decide (fsType = "")) as [->|], options as [|o options]; done.
Qed.

Lemma read_remount sourceOptions options :
  "remount" ∈ read_options (remount_options sourceOptions options).
Proof.
  apply elem_of_read_options; [done|]. apply elem_of_remount_fold. left. in_list.
Qed.

(** ** What an event does to the table *)

Section Laws.
Context {E : Type} `{Host E}.

Inductive table_step : MountTable -> HostCall -> MountTable -> Prop :=
| ts_asked t target r b : reads_mounted r = Ok b -> mounted t target = b ->
    table_step t (HIsMountPoint target r) t
| ts_ask_failed t target r e : reads_mounted r = Err e -> table_step t (HIsMountPoint target r) t
| ts_mount t cmd out source target fsType options : cmd_name cmd = "mount" ->
    ParseMountArgs (cmd_args cmd) = (source, target, fsType, options) -> "remount" ∉ options ->
    table_step t (HRun cmd out None) (partial_alter (push (mkMounted source options)) target t)
| ts_remount t cmd out source target fsType options : cmd_name cmd = "mount" ->
    ParseMountArgs (cmd_args cmd) = (source, target, fsType, options) -> "remount" ∈ options ->
    mounted t target = true ->
    table_step t (HRun cmd out None) (partial_alter (reoption options) target t)
| ts_mount_failed t cmd out e : cmd_name cmd = "mount" -> table_step t (HRun cmd out (Some e)) t
| ts_umount t cmd out target : cmd_name cmd = "umount" -> cmd_args cmd = [target] ->
    mounted t target = true ->
    table_step t (HRun cmd out None) (partial_alter pop target t)
| ts_umount_failed t cmd out e target : cmd_name cmd = "umount" -> cmd_args cmd = [target] ->
    (Contains (ToLower out) umountNotMounted = true -> mounted t target = false) ->
    table_step t (HRun cmd out (Some e)) t
| ts_other t ev :
    match ev with
    | HIsMountPoint _ _ => False
    | HRun cmd _ _ => cmd_name cmd <> "mount" /\ cmd_name cmd <> "umount"
    | _ => True
    end -> table_step t ev t.

(** An event that does not touch the table. *)
Definition still (ev : HostCall) : Prop :=
  match ev with HRun cmd _ _ => cmd_name cmd <> "mount" /\ cmd_name cmd <> "umount" | _ => True end.

Lemma still_step t ev t' : still ev -> table_step t ev t' -> t' = t.
Proof. intros Hs Hstep. inversion Hstep; subst; simpl in Hs; try done; by destruct Hs. Qed.

Lemma still_replay t evs t' : Forall still evs -> replay table_step t evs t' -> t' = t.
Proof. apply replay_still. intros s ev s'. apply still_step. Qed.
End Laws.

(** A host whose table changes only as its answers say. A umount asked for more than one
    path, and a mount command that is neither, are not the driver's. *)
Class LawfulHost (E : Type) `{Host E} := {
  mtab : E -> MountTable;
  law_Stat p t e : mtab (os_Stat p t e).2 = mtab e;
  law_MkdirAll p perm t e : mtab (os_MkdirAll p perm t e).2 = mtab e;
  law_OpenFile p perm t e : mtab (os_OpenFile p perm t e).2 = mtab e;
  law_Close p t e : mtab (file_Close p t e).2 = mtab e;
  law_Remove p t e : mtab (os_Remove p t e).2 = mtab e;
  law_EvalSymlinks p t e : mtab (filepath_EvalSymlinks p t e).2 = mtab e;
  law_DeviceName p t e : mtab (GetDeviceNameFromMount p t e).2 = mtab e;
  law_statfs p t e : mtab (sys_statfs p t e).2 = mtab e;
  law_IsMountPoint p t e :
    table_step (mtab e) (HIsMountPoint p (table_IsMountPoint p t e).1.2) (mtab (table_IsMountPoint p t e).2);
  law_run cmd t e : (cmd_name cmd = "umount" -> exists p, cmd_args cmd = [p]) ->
    table_step (mtab e)
      (HRun cmd (exec_CombinedOutput cmd t e).1.2.1 (exec_CombinedOutput cmd t e).1.2.2)
      (mtab (exec_CombinedOutput cmd t e).2) }.

(** ** Every operation of the mounter follows the relation *)

Create HintDb follows.

Section Following.
Context {E : Type} `{LawfulHost E}.

Abbreviation follows m := (tracked table_step mtab m).

(** Closes the calls that leave the table alone. *)
Ltac follows_quiet law :=
  apply tracked_call; intros; rewrite law; by apply ts_other.

Lemma follows_stat p : follows (stat p).
Proof. follows_quiet law_Stat. Qed.
Lemma follows_mkdir_all p perm : follows (mkdir_all p perm).
Proof. follows_quiet law_MkdirAll. Qed.
Lemma follows_open_file p perm : follows (open_file p perm).
Proof. follows_quiet law_OpenFile. Qed.
Lemma follows_close_file p : follows (close_file p).
Proof. follows_quiet law_Close. Qed.
Lemma follows_remove p : follows (remove p).
Proof. follows_quiet law_Remove. Qed.
Lemma follows_links p : follows (call (filepath_EvalSymlinks p) (HEvalSymlinks p)).
Proof. follows_quiet law_EvalSymlinks. Qed.
Lemma follows_statfs p : follows (call (sys_statfs p) (HStatfs p)).
Proof. follows_quiet law_statfs. Qed.
Lemma follows_asked p : follows (call (table_IsMountPoint p) (HIsMountPoint p)).
Proof. apply tracked_call. intros. apply law_IsMountPoint. Qed.
Lemma follows_run cmd :
  (cmd_name cmd = "umount" -> exists p, cmd_args cmd = [p]) -> follows (run cmd).
Proof. intros Hc. apply tracked_call. intros. by apply law_run. Qed.

#[local] Hint Resolve follows_stat follows_mkdir_all follows_open_file follows_close_file
  follows_remove follows_links follows_statfs follows_asked : follows.

(** A command that is not umount, or the umount of one path. *)
Ltac follows_cmd := apply follows_run; intros Hcmd; first [discriminate Hcmd|by eexists].

Ltac follow :=
  repeat first [track_step | progress unfold guard_ctx, resolveSymlink | follows_cmd
               | solve [auto with follows]].

Lemma follows_IsMountPoint ctx p : follows (IsMountPoint ctx p).
Proof. unfold IsMountPoint. follow. Qed.
#[local] Hint Resolve follows_IsMountPoint : follows.

Lemma follows_runMount ctx s p f o : follows (runMount ctx s p f o).
Proof. unfold runMount. follow. Qed.

Lemma follows_Unmount ctx p : follows (Unmount ctx p).
Proof. unfold Unmount. follow. Qed.
#[local] Hint Resolve follows_runMount follows_Unmount : follows.

Lemma follows_remountBind ctx s p f o : follows (remountBind ctx s p f o).
Proof. unfold remountBind, sourceMountOptions. follow. Qed.
#[local] Hint Resolve follows_remountBind : follows.

Lemma follows_mount ctx s p f o : follows (mount ctx s p f o).
Proof. unfold mount, bindMount, rollBackBind. follow. Qed.
#[local] Hint Resolve follows_mount : follows.

Lemma follows_Mount ctx s p f o : follows (Mount ctx s p f o).
Proof. unfold Mount. follow. Qed.

Lemma follows_GetFilesystemType ctx s : follows (GetFilesystemType ctx s).
Proof. unfold GetFilesystemType. follow. Qed.

Lemma follows_prepare ctx s existing f ro : follows (prepare_filesystem ctx s existing f ro).
Proof. unfold prepare_filesystem, format, checkFilesystem. follow. Qed.

Lemma follows_ensure_directory p : follows (ensure_directory p).
Proof. unfold ensure_directory. follow. Qed.

Lemma follows_DiscoverDevice m ctx v p : follows (DiscoverDevice m ctx v p).
Proof.
  assert (forall names, follows (existing_links m names)) as Hl.
  { induction names; simpl; follow. }
  assert (forall published links, follows (first_mismatch published links)) as Hm.
  { intros published. induction links; simpl; follow. }
  unfold DiscoverDevice, serialLinks. follow; apply Hl || apply Hm.
Qed.
End Following.

(** ** What the operations do to the table *)

(** Binding [source] at [target], or giving the mount there the options. *)
Definition bind_at (source target : string) (options : list string) (t : MountTable) : MountTable :=
  if mounted t target then partial_alter (reoption options) target t
  else partial_alter (push (mkMounted source options)) target t.

Definition unmount_at (target : string) (t : MountTable) : MountTable := partial_alter pop target t.

Lemma unmount_nothing t target : mounted t target = false -> unmount_at target t = t.
Proof. intros Hm%mounted_false. apply partial_alter_id. by rewrite Hm. Qed.

Section Effects.
Context {E : Type} `{Host E}.
Implicit Types (t : MountTable) (evs : list HostCall).

(** Splits a replay of a concrete list of events. *)
Ltac replay_inv :=
  repeat match goal with
  | Hr : replay _ _ [] _ |- _ => apply replay_nil_inv in Hr as ->
  | Hr : replay _ _ (_ :: _) _ |- _ => apply replay_cons_inv in Hr as (? & ? & Hr)
  | Hr : replay _ _ (_ ++ _) _ |- _ => apply replay_app_inv in Hr as (? & ? & Hr)
  end.

Lemma asked_step t target r t' :
  table_step t (HIsMountPoint target r) t' ->
  t' = t /\ forall b, reads_mounted r = Ok b -> mounted t target = b.
Proof. inversion 1; simplify_eq; split; auto; try done; congruence. Qed.

Lemma umount_step ctx t target out err t' :
  table_step t (HRun (command ctx "umount" [target]) out err) t' ->
  match err with
  | None => t' = unmount_at target t
  | Some _ => t' = t /\ (Contains (ToLower out) umountNotMounted = true -> mounted t target = false)
  end.
Proof.
  inversion 1; subst; try done; simpl in *; simplify_eq; try done. by destruct_and?.
Qed.

Lemma mount_step_ok ctx t source target fsType options out t' :
  table_step t (HRun (mount_cmd ctx source target fsType options) out None) t' ->
  if decide ("remount" ∈ read_options options)
  then mounted t target = true /\ t' = partial_alter (reoption (read_options options)) target t
  else t' = partial_alter (push (mkMounted source (read_options options))) target t.
Proof.
  inversion 1 as [| |? ? ? s p f o Hn Hp Hr|? ? ? s p f o Hn Hp Hr Hm| | | |? ? Ho]; subst;
    try done; simpl in *; try (rewrite parse_mount_args in Hp; simplify_eq).
  - by rewrite decide_False.
  - by rewrite decide_True.
  - by destruct Ho.
Qed.

Lemma mount_step_failed ctx t source target fsType options out e t' :
  table_step t (HRun (mount_cmd ctx source target fsType options) out (Some e)) t' -> t' = t.
Proof. by inversion 1; subst. Qed.

Lemma statfs_step t p r t' : table_step t (HStatfs p r) t' -> t' = t.
Proof. by apply still_step. Qed.

Lemma unmount_effect ctx target live r evs t t' :
  unmount_spec ctx target live r evs -> replay table_step t evs t' ->
  (r = Ok tt -> t' = unmount_at target t) /\ (t' = t \/ t' = unmount_at target t).
Proof.
  intros [(-> & Hr & _)|[(a & _ & -> & _ & Hr)|(a & cmd & out & err & -> & Ha & -> & Hok & _)]] Hrep;
    replay_inv.
  - split; [done|by left].
  - destruct (asked_step _ _ _ _ H0) as [-> Hb]. split; [|by left].
    intros Hf%Hr%Hb. by rewrite unmount_nothing.
  - destruct (asked_step _ _ _ _ H0) as [-> Hb]. apply umount_step in H1.
    destruct err as [e|]; [|auto]. destruct H1 as [-> Hn]. split; [|by left].
    intros [?|Hc]%Hok; [done|]. rewrite unmount_nothing; auto.
Qed.

Lemma rollback_effect target evs t t' :
  target <> "" -> rollback_spec target evs -> replay table_step t evs t' ->
  t' = t \/ t' = unmount_at target t.
Proof.
  intros Hne [?|(d & [(a & -> & _)|(a & out & err & ->)])] Hrep; [done|..]; replay_inv.
  - destruct (asked_step _ _ _ _ H0) as [-> _]. by left.
  - destruct (asked_step _ _ _ _ H0) as [-> _]. apply umount_step in H1.
    destruct err; [|by right]. left. by destruct H1.
Qed.

(** The options a remount of [source] leaves, for the mount flags the kernel reports. *)
Definition remounted (flags : Z) (options : list string) : list string :=
  read_options (remount_options (flag_options flags) options).

Lemma remount_effect ctx source target fsType options r evs t t' :
  remount_spec ctx source target fsType options r evs -> replay table_step t evs t' ->
  (r = Ok tt -> mounted t target = true
     /\ exists flags, t' = partial_alter (reoption (remounted flags options)) target t)
  /\ (r <> Ok tt -> t' = t).
Proof.
  intros [(e & -> & Hr)|(flags & out & err & -> & Hr)] Hrep; replay_inv;
    apply statfs_step in H0 as ->; [done|].
  destruct err as [e|].
  - apply mount_step_failed in H1 as ->. split; [|done]. by intros ?%Hr.
  - apply mount_step_ok in H1. rewrite decide_True in H1 by apply read_remount.
    split; [|intros Hn; by destruct Hn; apply Hr]. intros _. destruct H1. eauto.
Qed.

Lemma bindFlavor_cases options : bindFlavor options <> "" ->
  bindFlavor options = "bind" \/ bindFlavor options = "rbind".
Proof.
  unfold bindFlavor. destruct (find_first _ _) as [o|] eqn:Ef; [|done]. intros _.
  apply find_first_elem in Ef as [_ Ho%orb_true_iff]. simpl. by rewrite !bool_decide_eq_true in Ho.
Qed.

Lemma bind_options_read options : bindFlavor options <> "" ->
  "remount" ∉ read_options (bind_options (bindFlavor options) options).
Proof.
  intros Hf%bindFlavor_cases. unfold bind_options.
  destruct Hf as [-> | ->], (contains options "_netdev");
    apply (bool_decide_unpack _); vm_compute; exact I.
Qed.

Lemma partial_alter_twice (f g h : option Stack -> option Stack) target t :
  (forall s, f (g s) = h s) -> partial_alter f target (partial_alter g target t) = partial_alter h target t.
Proof. intros Hh. rewrite partial_alter_partial_alter_eq. apply partial_alter_ext. intros s _. apply Hh. Qed.

Lemma mounted_push m target t : mounted (partial_alter (push m) target t) target = true.
Proof. apply mounted_true. rewrite lookup_partial_alter_eq. by eexists. Qed.

Lemma bind_effect ctx source target fsType options r evs t t' :
  target <> "" -> bindFlavor options <> "" ->
  bind_spec ctx source target fsType (bindFlavor options) options r evs ->
  replay table_step t evs t' ->
  (r = Ok tt -> exists flags,
     t' = partial_alter (push (mkMounted source (remounted flags options))) target t)
  /\ (r <> Ok tt -> t' = t \/ exists opts, t' = partial_alter (push (mkMounted source opts)) target t).
Proof.
  intros Hne Hf (out & err & rest & -> & Hfail & Hok) Hrep. replay_inv. destruct err as [e|].
  { destruct (Hfail ltac:(done)) as [-> Hr]. apply mount_step_failed in H0 as ->. replay_inv.
    split; [done|by left]. }
  destruct (Hok eq_refl) as (r' & rem & roll & -> & Hrem & Hgood & Hbad). replay_inv.
  apply mount_step_ok in H0. rewrite decide_False in H0 by (by apply bind_options_read). subst.
  destruct (remount_effect _ _ _ _ _ _ _ _ _ Hrem H1) as [He He']. destruct r' as [[]|e].
  - destruct (Hgood eq_refl) as [-> ->]. replay_inv. destruct (He eq_refl) as [_ [flags ->]].
    rewrite (partial_alter_twice _ _ (push (mkMounted source (remounted flags options)))) by done.
    split; [by exists flags|done].
  - destruct (Hbad ltac:(done)) as [-> Hroll]. rewrite (He' ltac:(done)) in *. split; [done|].
    intros _. destruct (rollback_effect _ _ _ _ Hne Hroll Hrep) as [->|Hu]; [eauto|left]. rewrite Hu.
    unfold unmount_at. rewrite (partial_alter_twice _ _ id) by apply pop_push.
    by apply partial_alter_id.
Qed.

(** Mount with bind options: one bind more, or the options of the mount there. *)
Lemma bound_effect ctx source target options r evs t t' :
  target <> "" -> bindFlavor options <> "" ->
  bound_spec ctx source target "" options r evs -> replay table_step t evs t' ->
  (r = Ok tt -> exists flags, t' = bind_at source target (remounted flags options) t)
  /\ (r <> Ok tt -> t' = t \/ mounted t target = false
       /\ exists opts, t' = partial_alter (push (mkMounted source opts)) target t).
Proof.
  intros Hne Hf [[Hr Hevs]|(a & rest & -> & Hrest)] Hrep.
  { destruct Hevs as [->|[a ->]]; replay_inv; [|destruct (asked_step _ _ _ _ H0) as [-> _]];
      (split; [done|by left]). }
  replay_inv. destruct (asked_step _ _ _ _ H0) as [-> Hb]. unfold bind_at.
  destruct Hrest as [[Ha Hrem]|[Ha Hbind]]; apply Hb in Ha as Hm; rewrite Hm.
  - destruct (remount_effect _ _ _ _ _ _ _ _ _ Hrem Hrep) as [He He'].
    split; [intros Hok; by destruct (He Hok)|auto].
  - destruct (bind_effect _ _ _ _ _ _ _ _ _ Hne Hf Hbind Hrep) as [He He']. split; [done|].
    intros Hr. destruct (He' Hr); auto.
Qed.
End Effects.

(** ** The node calls as operations on the table *)

(** The options a mount of [options] leaves: those given, or those of its remount. *)
Definition mount_options (options opts : list string) : Prop :=
  if decide (bindFlavor options = "") then opts = read_options options
  else exists flags, opts = remounted flags options.

(** What staging does to a path on which nothing is mounted. *)
Definition staged_at (source target : string) (options : list string) (r : result unit)
    (t t' : MountTable) : Prop :=
  (r = Ok tt -> exists opts, mount_options options opts
     /\ t' = partial_alter (push (mkMounted source opts)) target t)
  /\ (r <> Ok tt -> t' = t \/ bindFlavor options <> ""
       /\ exists opts, t' = partial_alter (push (mkMounted source opts)) target t).

(** What publishing does: one bind, or new options for the mount that is there. *)
Definition published_at (target : string) (options : list string) (access : option AccessType)
    (staging : string) (r : result unit) (t t' : MountTable) : Prop :=
  (r = Ok tt -> exists source flags, t' = bind_at source target (remounted flags options) t
     /\ (access <> Some Block -> source = staging /\ mounted t staging = true))
  /\ (r <> Ok tt -> t' = t \/ mounted t target = false
       /\ exists m, t' = partial_alter (push m) target t).

Definition taken_down (target : string) (r : result unit) (t t' : MountTable) : Prop :=
  (r = Ok tt -> t' = unmount_at target t) /\ (t' = t \/ t' = unmount_at target t).

Definition access_flags (access : option AccessType) : list string :=
  match access with Some (MountVolume _ flags) => flags | _ => [] end.

Definition node_effect (call : node_rpc) (r : result unit) (t t' : MountTable) : Prop :=
  match call with
  | RpcStage (Some rq) =>
      match stage_access rq with
      | Some (MountVolume _ flags) =>
          if mounted t (st_StagingPath rq) then t' = t
          else exists device, staged_at device (st_StagingPath rq) (flags ++ ["defaults"]) r t t'
      | _ => t' = t
      end
  | RpcNodePublish (Some rq) =>
      published_at (np_TargetPath rq)
        (publish_options (np_Readonly rq) (access_flags (publish_access rq))) (publish_access rq)
        (np_StagingPath rq) r t t'
  | RpcUnstage (Some rq) => taken_down (su_StagingPath rq) r t t'
  | RpcNodeUnpublish (Some rq) => taken_down (nu_TargetPath rq) r t t'
  | _ => r <> Ok tt /\ t' = t
  end.

(** ** The operations, run on a lawful host *)

Section Running.
Context {E : Type} `{LawfulHost E}.
Abbreviation post A := (A -> list HostCall -> World E HostCall -> Prop).
Abbreviation table w := (mtab (env w)).

Lemma wp_still {A} (m : M E HostCall A) (Q : post A) w :
  wp m Q w -> tracked table_step mtab m -> emits still m ->
  wp m (fun a evs w' => Q a evs w' /\ table w' = table w) w.
Proof.
  intros Hm Hf He. eapply wp_mono.
  - apply wp_emits; [exact (wp_tracked _ _ _ _ _ Hm Hf)|exact He].
  - intros a evs w' _ [[HQ Hr] Hs]. split; [done|]. by eapply still_replay.
Qed.

Lemma wp_asked ctx target w :
  wp (IsMountPoint ctx target) (fun r _ w' =>
    table w' = table w /\ forall b, r = Ok b -> mounted (table w) target = b) w.
Proof.
  eapply wp_mono.
  - apply (wp_tracked table_step mtab _ (fun r evs _ => (evs = [] /\ r <> Ok true /\ r <> Ok false)
      \/ exists a, evs = [HIsMountPoint target a] /\ forall b, r = Ok b <-> reads_mounted a = Ok b));
      [|apply follows_IsMountPoint].
    apply wp_IsMountPoint; [by left|]. intros a r w' _ _ Ha. right. by exists a.
  - intros r evs w' _ [[(-> & Hr & Hr')|(a & -> & Ha)] Hrep].
    + apply replay_nil_inv in Hrep as ->. split; [done|]. by intros [] ->.
    + apply replay_cons_inv in Hrep as (t & Hs & ->%replay_nil_inv).
      destruct (asked_step _ _ _ _ Hs) as [-> Hb]. split; [done|]. by intros b Hok%Ha%Hb.
Qed.

Lemma wp_mounting ctx source target fsType options w :
  target <> "" -> mounted (table w) target = false ->
  wp (mount ctx source target fsType options) (fun r _ w' =>
    staged_at source target options r (table w) (table w')) w.
Proof.
  intros Hne Hm. pose proof (follows_mount ctx source target fsType options) as Hf.
  unfold mount in *. unfold staged_at, mount_options.
  destruct (decide (bindFlavor options = "")) as [Hb|Hb].
  - rewrite bool_decide_true in * by done. cbn [negb] in *. eapply wp_mono.
    + apply (wp_tracked table_step mtab _ (fun r evs _ => exists out err,
        evs = [HRun (mount_cmd ctx source target fsType options) out err]
        /\ (r = Ok tt <-> err = None))); [|done].
      apply wp_runMount. intros r out err w' _ Hr. by exists out, err.
    + intros r evs w' _ [(out & err & -> & Hr) (t & Hs & ->%replay_nil_inv)%replay_cons_inv].
      destruct err as [e|]; [apply mount_step_failed in Hs; split; [by intros ?%Hr|auto]|].
      apply mount_step_ok in Hs. case_decide; [destruct Hs; congruence|].
      split; [by eauto|]. intros Hn. by destruct Hn; apply Hr.
  - rewrite bool_decide_false in * by done. cbn [negb] in *. eapply wp_mono.
    + apply (wp_tracked table_step mtab); [apply wp_bindMount|done].
    + intros r evs w' _ [Hbind Hrep]. destruct (bind_effect _ _ _ _ _ _ _ _ _ Hne Hb Hbind Hrep) as [He He'].
      split; [intros [flags Ht]%He; eauto|]. intros [|]%He'; auto.
Qed.

Ltac emits_still :=
  unfold guard_ctx; repeat emit_step; apply emits_call; intros; simpl; try done;
  split; discriminate.

(** Staging a device: nothing when the path is mounted, else one mount. *)
Lemma wp_staging ctx source target fsType options w :
  wp (FormatAndMount ctx source target fsType options) (fun r _ w' =>
    if mounted (table w) target then table w' = table w
    else staged_at source target (options ++ ["defaults"]) r (table w) (table w')) w.
Proof.
  assert (forall e (w' : World E HostCall), table w' = table w -> if mounted (table w) target then table w' = table w
    else staged_at source target (options ++ ["defaults"]) (Err e) (table w) (table w')) as Hno.
  { intros e w' ->. destruct (mounted _ _); [done|]. split; [done|by left]. }
  unfold FormatAndMount. destruct (decide (source = "")); [wp_step; by apply Hno|].
  destruct (decide (target = "")) as [|Hne]; [wp_step; by apply Hno|].
  apply wp_guard_ctx; [by intros; apply Hno|]. intros _. cbv zeta. destruct (negb _); [wp_step; by apply Hno|].
  wp_step. eapply wp_mono; [apply wp_still; [apply wp_ensure_directory|apply follows_ensure_directory|]|].
  { unfold ensure_directory, stat, mkdir_all. emits_still. }
  intros [[]|e] evs w1 _ [_ Ht1]; [|by apply Hno]. wp_step. eapply wp_mono; [apply wp_asked|].
  rewrite Ht1. intros [b|e] evs1 w2 _ [Ht2 Hb]; [|by apply Hno]. rewrite (Hb b eq_refl) in *.
  destruct b; [by wp_step|]. wp_step.
  eapply wp_mono; [apply wp_still; [apply wp_GetFilesystemType|apply follows_GetFilesystemType|]|].
  { unfold GetFilesystemType, run. emits_still. }
  intros [existing|e] evs2 w3 _ [_ Ht3]; [|wp_step; apply Hno; congruence].
  destruct (negb _ && negb _); [wp_step; apply Hno; congruence|]. wp_step.
  eapply wp_mono; [apply wp_still; [apply wp_prepare|apply follows_prepare|]|].
  { unfold prepare_filesystem, format, checkFilesystem, run. emits_still. }
  intros [[]|e] evs3 w4 _ [_ Ht4]; [|apply Hno; congruence].
  assert (table w4 = table w) as Ht by congruence.
  eapply wp_mono; [apply wp_mounting; [done|by rewrite Ht, (Hb false eq_refl)]|].
  by rewrite Ht.
Qed.
End Running.

Section Handlers.
Context {E : Type} `{LawfulHost E}.
Variable m : LinuxMounter.
Abbreviation table w := (mtab (env w)).

#[local] Instance table_mounter : Mounter E := linux_mounter m.

Lemma wp_device ctx id pc w :
  wp (discoverDevice ctx id pc) (fun _ _ w' => table w' = table w) w.
Proof.
  assert (tracked table_step mtab (discoverDevice ctx id pc)) as Hf.
  { unfold discoverDevice. repeat track_step. apply follows_DiscoverDevice. }
  eapply wp_mono; [exact (wp_tracked _ _ _ _ _ (wp_discoverDevice m ctx id pc w) Hf)|].
  intros r evs w' _ [[Hl _] Hr]. eapply still_replay; [|exact Hr].
  eapply Forall_impl; [|exact Hl]. by intros [].
Qed.

Lemma wp_block_target path w :
  wp (createBlockTargetFile path) (fun _ _ w' => table w' = table w) w.
Proof.
  assert (tracked table_step mtab (createBlockTargetFile path)) as Hf.
  { unfold createBlockTargetFile, host_step. repeat track_step;
      auto using follows_mkdir_all, follows_open_file, follows_close_file. }
  eapply wp_mono; [exact (wp_tracked _ _ _ _ _ (wp_createBlockTargetFile path w) Hf)|].
  intros r evs w' _ [Hq Hr]. eapply still_replay; [|exact Hr].
  eapply Forall_impl; [|exact Hq]. by intros [] Hev.
Qed.

Lemma wp_directory path perm w :
  wp (mkdir_all path perm) (fun _ _ w' => table w' = table w) w.
Proof.
  eapply wp_mono.
  - apply wp_still; [by apply (wp_call _ _ (fun _ _ _ => True))|apply follows_mkdir_all|].
    by apply emits_call.
  - by intros a evs w' _ [_ Ht].
Qed.

Lemma wp_removal path w : wp (removeMountPath path) (fun _ _ w' => table w' = table w) w.
Proof.
  eapply wp_mono.
  - apply (wp_still _ (fun _ _ _ => True)).
    + unfold removeMountPath. wp_step. apply wp_call. intros [e|] w' _; [|by wp_step].
      by destruct (negb _); wp_step.
    + unfold removeMountPath. repeat track_step. apply follows_remove.
    + unfold removeMountPath. repeat emit_step. by apply emits_call.
  - by intros a evs w' _ [_ Ht].
Qed.

Lemma stage_refused rq e t : node_effect (RpcStage (Some rq)) (Err e) t t.
Proof.
  simpl. destruct (stage_access rq) as [[|fs flags]|]; [done| |done].
  destruct (mounted _ _); [done|]. exists EmptyString. split; [done|by left].
Qed.

Lemma effect_StageVolume ctx req w :
  wp (NodeStageVolume ctx req) (fun r _ w' => node_effect (RpcStage req) r (table w) (table w')) w.
Proof.
  unfold NodeStageVolume. destruct req as [rq|]; [|by wp_step].
  do 3 (apply wp_require; [intros _; apply stage_refused|intros _]).
  apply wp_check; [intros e _; apply stage_refused|intros _ _].
  wp_step. eapply wp_mono; [apply wp_device|]. intros [device|e] evs w1 _ Ht1.
  2: { rewrite Ht1. apply stage_refused. }
  simpl node_effect. fold (stage_access rq). destruct (stage_access rq) as [[|fs flags]|].
  - apply wp_host_step. eapply wp_mono; [apply wp_directory|].
    intros [e|] evs2 w2 _ Ht2; [|wp_step]; congruence.
  - unfold stage_mount. apply wp_mount_step. simpl. eapply wp_mono; [apply wp_staging|].
    rewrite Ht1. intros r evs2 w2 _ Hs.
    assert (forall r', (r' = Ok tt <-> r = Ok tt) -> if mounted (table w) (st_StagingPath rq)
      then table w2 = table w else exists device,
        staged_at device (st_StagingPath rq) (flags ++ ["defaults"]) r' (table w) (table w2)) as Hr.
    { intros r' Hr. destruct (mounted _ _); [done|]. exists device. unfold staged_at. by rewrite !Hr. }
    destruct r as [[]|e]; [wp_step|]; by apply Hr.
  - wp_step. congruence.
Qed.

Lemma taken_refused path e t : taken_down path (Err e) t t.
Proof. split; [done|by left]. Qed.

Lemma effect_teardown ctx path what w :
  wp (mount_step (mi_Unmount ctx path) what (fun _ => removeMountPath path))
    (fun r _ w' => taken_down path r (table w) (table w')) w.
Proof.
  apply wp_mount_step. simpl.
  eapply wp_mono; [apply (wp_tracked table_step mtab); [apply wp_Unmount|apply follows_Unmount]|].
  intros r evs w1 _ [Hu Hr]. destruct (unmount_effect _ _ _ _ _ _ _ Hu Hr) as [Hok Hor].
  destruct r as [[]|e]; [|by split]. eapply wp_mono; [apply wp_removal|].
  intros r evs2 w2 _ ->. rewrite Hok by done. split; [done|by right].
Qed.

Lemma effect_UnstageVolume ctx req w :
  wp (NodeUnstageVolume ctx req) (fun r _ w' => node_effect (RpcUnstage req) r (table w) (table w')) w.
Proof.
  unfold NodeUnstageVolume. destruct req as [rq|]; [|by wp_step].
  do 2 (apply wp_require; [intros _; apply taken_refused|intros _]). apply effect_teardown.
Qed.

Lemma effect_UnpublishVolume ctx req w :
  wp (NodeUnpublishVolume ctx req)
    (fun r _ w' => node_effect (RpcNodeUnpublish req) r (table w) (table w')) w.
Proof.
  unfold NodeUnpublishVolume. destruct req as [rq|]; [|by wp_step].
  do 2 (apply wp_require; [intros _; apply taken_refused|intros _]). apply effect_teardown.
Qed.

Lemma published_refused target options access staging e t :
  published_at target options access staging (Err e) t t.
Proof. split; [done|by left]. Qed.

(** The bind of a publication, once its source is known. *)
Lemma effect_bind ctx source target options access staging what w :
  target <> "" -> bindFlavor options <> "" ->
  (access <> Some Block -> source = staging /\ mounted (table w) staging = true) ->
  wp (mount_step (mi_Mount ctx source target "" options) what (fun _ => ret (Ok tt)))
    (fun r _ w' => published_at target options access staging r (table w) (table w')) w.
Proof.
  intros Hne Hf Hs. apply wp_mount_step. simpl.
  eapply wp_mono; [apply (wp_tracked table_step mtab); [by apply wp_Mount_bind|apply follows_Mount]|].
  intros r evs w1 _ [Hb Hr]. destruct (bound_effect _ _ _ _ _ _ _ _ Hne Hf Hb Hr) as [Hok Herr].
  assert (forall r', (r' = Ok tt <-> r = Ok tt) ->
    published_at target options access staging r' (table w) (table w1)) as Hp.
  { intros r' Hr'. unfold published_at. rewrite !Hr'. split; [intros [flags Ht]%Hok; eauto|].
    intros [|[Hm [opts Ht]]]%Herr; eauto. }
  destruct r as [[]|e]; [wp_step|]; by apply Hp.
Qed.

Lemma effect_PublishVolume ctx req w :
  wp (NodePublishVolume ctx req)
    (fun r _ w' => node_effect (RpcNodePublish req) r (table w) (table w')) w.
Proof.
  unfold NodePublishVolume. destruct req as [rq|]; [|by wp_step]. simpl node_effect.
  do 2 (apply wp_require; [intros _; apply published_refused|intros _]).
  apply wp_require; [intros _; apply published_refused|intros Hb].
  apply wp_require; [intros _; apply published_refused|intros _].
  apply wp_check; [intros e _; apply published_refused|intros _ _].
  apply wp_require; [intros _; apply published_refused|intros _].
  assert (np_TargetPath rq <> "") as Hne by (to_prop; by apply blank_false_ne).
  fold (publish_access rq). destruct (publish_access rq) as [[|fs flags]|]; simpl access_flags.
  - unfold publish_block. wp_step. eapply wp_mono; [apply wp_device|].
    intros [device|e] evs w1 _ Ht1; [|rewrite Ht1; apply published_refused].
    wp_step. eapply wp_mono; [apply wp_block_target|].
    intros [[]|e] evs2 w2 _ Ht2; rewrite <-Ht1, <-Ht2; [|apply published_refused].
    by apply effect_bind.
  - unfold publish_mount. apply wp_mount_step. simpl. eapply wp_mono; [apply wp_asked|].
    intros [b|e] evs w1 _ [Ht1 Hm]; [|rewrite Ht1; apply published_refused].
    destruct b; cbn [negb]; [|wp_step; rewrite Ht1; apply published_refused].
    apply wp_host_step. eapply wp_mono; [apply wp_directory|]. intros [e|] evs2 w2 _ Ht2.
    { rewrite Ht2, Ht1. apply published_refused. }
    rewrite <-Ht1, <-Ht2. apply effect_bind; [done|done|]. rewrite Ht2, Ht1. auto.
  - wp_step. apply published_refused.
Qed.

Lemma node_serve_effect ctx call w :
  wp (node_serve ctx call) (fun r _ w' => node_effect call r (table w) (table w')) w.
Proof.
  destruct call; [apply effect_StageVolume|apply effect_UnstageVolume|apply effect_PublishVolume
    |apply effect_UnpublishVolume].
Qed.

(** C14. The node calls are operations on the mount table of a lawful host. Staging a
    filesystem volume leaves a mounted path alone and else adds one mount at the staging
    path; staging a raw block volume mounts nothing. Publishing adds one bind at the
    target, of the staging path, which is mounted, or of the device, or gives the bind
    that is there its options. Taking down removes one mount at the path, or nothing when
    there is none. A call that fails leaves the table alone, or leaves its one mount
    behind, or has removed it; no other path is ever touched. *)
Theorem node_serve_refines ctx call w :
  exists r w', node_serve ctx call w = Some (r, w')
    /\ node_effect call r (mtab (env w)) (mtab (env w')).
Proof.
  destruct (node_serve_effect ctx call w) as (r & w' & evs & Hr & _ & _ & He).
  by exists r, w'.
Qed.

(** ** A volume's life on a node *)

(** Calls served one after the other, with their answers. *)
Definition served (w : World E HostCall) (x : GoContext * node_rpc * result unit)
    (w' : World E HostCall) : Prop := node_serve x.1.1 x.1.2 w = Some (x.2, w').

Abbreviation serves w log w' := (replay served w log w').

(** The path a call works on. *)
Definition call_path (call : node_rpc) : option string :=
  match call with
  | RpcStage rq => st_StagingPath <$> rq
  | RpcUnstage rq => su_StagingPath <$> rq
  | RpcNodePublish rq => np_TargetPath <$> rq
  | RpcNodeUnpublish rq => nu_TargetPath <$> rq
  end.

Definition elsewhere (p : string) (x : GoContext * node_rpc * result unit) : Prop :=
  call_path x.1.2 <> Some p.

Lemma served_effect w x w' : served w x w' -> node_effect x.1.2 x.2 (table w) (table w').
Proof.
  intros Hs. destruct (wp_elim _ _ _ _ _ (node_serve_effect x.1.1 x.1.2 w) Hs) as (evs & _ & _ & He).
  exact He.
Qed.

Lemma effect_elsewhere call r t t' p :
  node_effect call r t t' -> call_path call <> Some p -> t' !! p = t !! p.
Proof.
  assert (forall (f : option Stack -> option Stack) target, target <> p ->
    partial_alter f target t !! p = t !! p) as Hf by (intros; by apply lookup_partial_alter_ne).
  destruct call as [[rq|]|[rq|]|[rq|]|[rq|]]; simpl; try (by intros [_ ->]); intros He Hp;
    try assert (Hne : forall q, Some q <> Some p -> q <> p) by congruence; apply Hne in Hp.
  - destruct (stage_access rq) as [[|fs flags]|]; [by rewrite He| |by rewrite He].
    destruct (mounted _ _); [by rewrite He|]. destruct He as (device & Hok & Herr).
    destruct r as [[]|e].
    + destruct (Hok eq_refl) as (opts & _ & ->). by apply Hf.
    + destruct (Herr ltac:(done)) as [->|(_ & opts & ->)]; [done|by apply Hf].
  - destruct He as [_ [->|He]]; [done|]. rewrite He. by apply Hf.
  - destruct He as [Hok Herr]. destruct r as [[]|e].
    + destruct (Hok eq_refl) as (source & flags & -> & _). unfold bind_at. case_match; by apply Hf.
    + destruct (Herr ltac:(done)) as [->|(_ & mt & ->)]; [done|by apply Hf].
  - destruct He as [_ [->|He]]; [done|]. rewrite He. by apply Hf.
Qed.

Lemma serves_elsewhere w log w' p :
  serves w log w' -> Forall (elsewhere p) log -> table w' !! p = table w !! p.
Proof.
  induction 1 as [|w x w1 log w2 Hs _ IH]; [done|]. intros [Hx Hl]%Forall_cons_iff.
  rewrite IH by done. apply served_effect in Hs. by apply effect_elsewhere with (1 := Hs).
Qed.

(** What one successful call leaves at its own path. *)
Lemma stage_here ctx st w w' :
  served w (ctx, RpcStage (Some st), Ok tt) w' -> table w !! st_StagingPath st = None ->
  table w' !! st_StagingPath st = None
  \/ exists device opts, table w' !! st_StagingPath st = Some (mkMounted device opts, []).
Proof.
  intros He%served_effect Hn. simpl in He.
  destruct (stage_access st) as [[|fs flags]|]; [left; by rewrite He| |left; by rewrite He].
  rewrite (proj2 (mounted_false _ _) Hn) in He. destruct He as (device & Hok & _).
  destruct (Hok eq_refl) as (opts & _ & ->). right. exists device, opts.
  by rewrite lookup_partial_alter_eq, Hn.
Qed.

Lemma publish_here ctx pub w w' :
  served w (ctx, RpcNodePublish (Some pub), Ok tt) w' -> table w !! np_TargetPath pub = None ->
  exists source flags, table w' !! np_TargetPath pub = Some (mkMounted source (remounted flags
      (publish_options (np_Readonly pub) (access_flags (publish_access pub)))), [])
    /\ (publish_access pub <> Some Block ->
        source = np_StagingPath pub /\ is_Some (table w !! np_StagingPath pub)).
Proof.
  intros [Hok _]%served_effect Hn. destruct (Hok eq_refl) as (source & flags & -> & Hs).
  exists source, flags. unfold bind_at. rewrite (proj2 (mounted_false _ _) Hn).
  rewrite lookup_partial_alter_eq, Hn. split; [done|]. intros [-> Hm]%Hs.
  split; [done|by apply mounted_true].
Qed.

Lemma down_here call ctx path w w' :
  call_path call = Some path ->
  match call with RpcUnstage _ | RpcNodeUnpublish _ => True | _ => False end ->
  served w (ctx, call, Ok tt) w' -> table w' !! path = pop (table w !! path).
Proof.
  intros Hp Hd He%served_effect. destruct call as [[rq|]|[rq|]|[rq|]|[rq|]]; try done;
    simpl in Hp, He; simplify_eq; destruct He as [Hok _]; rewrite (Hok eq_refl);
    by apply lookup_partial_alter_eq.
Qed.

Abbreviation fine ctx call := ((ctx, call, Ok tt) : GoContext * node_rpc * result unit).

(** Two paths a call and the others name differ. *)
Ltac far :=
  repeat match goal with x := _ : string |- _ => subst x end;
  let Hpath := fresh in intros [= Hpath]; congruence.

(** C13. A volume's life on a node leaves no trace in its mount table. Stage, publish,
    unpublish and unstage a volume on two free paths, with any other calls on other paths
    served in between: once the four have succeeded, every path the others do not name has
    the mounts it had before. And while the volume is published as a filesystem, its
    device is mounted at the staging path, and the staging path, with the options of the
    publication, at the target. *)
Theorem volume_lifecycle c1 c2 c3 c4 st pub unp uns l0 l1 l2 w0 w1 w2 :
  st_StagingPath st <> np_TargetPath pub -> np_StagingPath pub = st_StagingPath st ->
  nu_TargetPath unp = np_TargetPath pub -> su_StagingPath uns = st_StagingPath st ->
  mtab (env w0) !! st_StagingPath st = None -> mtab (env w0) !! np_TargetPath pub = None ->
  Forall (elsewhere (st_StagingPath st)) (l0 ++ l1 ++ l2) ->
  Forall (elsewhere (np_TargetPath pub)) (l0 ++ l1 ++ l2) ->
  serves w0 (fine c1 (RpcStage (Some st)) :: l0 ++ [fine c2 (RpcNodePublish (Some pub))]) w1 ->
  serves w1 (l1 ++ fine c3 (RpcNodeUnpublish (Some unp))
               :: l2 ++ [fine c4 (RpcUnstage (Some uns))]) w2 ->
  (publish_access pub <> Some Block -> exists device opts flags,
     mtab (env w1) !! st_StagingPath st = Some (mkMounted device opts, [])
     /\ mtab (env w1) !! np_TargetPath pub = Some (mkMounted (st_StagingPath st) (remounted flags
          (publish_options (np_Readonly pub) (access_flags (publish_access pub)))), []))
  /\ (forall p, Forall (elsewhere p) (l0 ++ l1 ++ l2) -> mtab (env w2) !! p = mtab (env w0) !! p).
Proof.
  set (staging := st_StagingPath st). set (target := np_TargetPath pub).
  intros Hne Hpub Hunp Huns Hs0 Ht0 Hls Hlt H1 H2.
  apply replay_cons_inv in H1 as (wa & Hstage & (wb & Hl0 & (w' & Hpublish & <-%replay_nil_inv)%replay_cons_inv)%replay_app_inv).
  apply replay_app_inv in H2 as (wc & Hl1 & (wd & Hunpublish & (we & Hl2 & (w'' & Hunstage & <-%replay_nil_inv)%replay_cons_inv)%replay_app_inv)%replay_cons_inv).
  assert (forall p, Forall (elsewhere p) (l0 ++ l1 ++ l2) ->
    table wb !! p = table wa !! p /\ table wc !! p = table w1 !! p /\ table we !! p = table wd !! p) as Hothers.
  { intros p Hp. rewrite !list.Forall_app in Hp. destruct Hp as (? & ? & ?).
    split_and!; by eapply serves_elsewhere. }
  assert (forall x w w' p, served w x w' -> call_path x.1.2 <> Some p -> table w' !! p = table w !! p) as Hfar.
  { intros x w w' p He%served_effect Hp. by eapply effect_elsewhere. }
  destruct (Hothers staging Hls) as (Hs1 & Hs2 & Hs3). destruct (Hothers target Hlt) as (Ht1 & Ht2 & Ht3).
  assert (table wa !! target = None) as Hta by (by rewrite (Hfar _ _ _ target Hstage) by far).
  destruct (publish_here _ _ _ _ Hpublish) as (source & flags & Hbound & Hsource);
    [by fold target; rewrite Ht1|].
  assert (table w1 !! staging = table wa !! staging) as Hs1'.
  { rewrite <-Hs1. apply (Hfar _ _ _ _ Hpublish). far. }
  split.
  - intros [-> Hm]%Hsource. rewrite Hpub in *. fold staging in Hm.
    destruct (stage_here _ _ _ _ Hstage Hs0) as [Hn|(device & opts & Hn)]; fold staging in Hn.
    + rewrite Hs1, Hn in Hm. by destruct Hm.
    + exists device, opts, flags. split; [congruence|exact Hbound].
  - intros p Hp. destruct (Hothers p Hp) as (Hp1 & Hp2 & Hp3).
    destruct (decide (p = staging)) as [->|Hps]; [|destruct (decide (p = target)) as [->|Hpt]].
    + rewrite (down_here (RpcUnstage (Some uns)) c4 staging we) by first [done|exact (f_equal Some Huns)].
      rewrite Hp3.
      rewrite (Hfar _ _ _ staging Hunpublish) by far. rewrite Hp2, Hs1', Hs0.
      by destruct (stage_here _ _ _ _ Hstage Hs0) as [Hn|(device & opts & Hn)]; fold staging in Hn; rewrite Hn.
    + rewrite (Hfar _ _ _ target Hunstage) by far. rewrite Hp3.
      rewrite (down_here (RpcNodeUnpublish (Some unp)) c3 target wc) by first [done|exact (f_equal Some Hunp)].
      rewrite Hp2.
      unfold target. by rewrite Hbound.
    + rewrite (Hfar _ _ _ p Hunstage), Hp3, (Hfar _ _ _ p Hunpublish), Hp2, (Hfar _ _ _ p Hpublish), Hp1
        by far.
      apply (Hfar _ _ _ _ Hstage). far.
Qed.
End Handlers.

(** ** A host that keeps a mount table and nothing else

    Every path exists, every link names the one device, and every device is blank. *)

Definition bench_run (cmd : Cmd) (t : MountTable) : string * option gerror * MountTable :=
  if decide (cmd_name cmd = "mount") then
    let '(source, target, _, options) := ParseMountArgs (cmd_args cmd) in
    if contains options "remount" then
      if mounted t target then ("", None, partial_alter (reoption options) target t)
      else ("mount point not mounted or bad option.", Some (mountExitError mountBadOption), t)
    else ("", None, partial_alter (push (mkMounted source options)) target t)
  else if decide (cmd_name cmd = "umount") then
    let target := hd "" (cmd_args cmd) in
    if mounted t target then ("", None, unmount_at target t)
    else (target +:+ ": not mounted.", Some (mountExitError mountBadOption), t)
  else ("", None, t).

#[export] Instance bench_host : Host MountTable := {|
  os_Environ := [];
  os_Stat _ _ t := (0%N, None, t);
  os_MkdirAll _ _ _ t := (0%N, None, t);
  os_OpenFile _ _ _ t := (0%N, None, t);
  file_Close _ _ t := (0%N, None, t);
  os_Remove _ _ t := (0%N, None, t);
  filepath_EvalSymlinks _ _ t := (0%N, Ok "/dev/vdb", t);
  exec_CombinedOutput cmd _ t := (0%N, (bench_run cmd t).1, (bench_run cmd t).2);
  table_IsMountPoint p _ t := (0%N, Ok (mounted t p), t);
  GetDeviceNameFromMount _ _ t := (0%N, Ok "/dev/vdb", t);
  IsCorruptedMnt _ := false;
  sys_statfs := StaticStatfs 0 |}.

Lemma bench_run_lawful cmd t :
  (cmd_name cmd = "umount" -> exists p, cmd_args cmd = [p]) ->
  table_step t (HRun cmd (bench_run cmd t).1.1 (bench_run cmd t).1.2) (bench_run cmd t).2.
Proof.
  intros Hu. unfold bench_run. destruct (decide (cmd_name cmd = "mount")) as [Hn|Hn].
  - destruct (ParseMountArgs _) as [[[source target] fsType] options] eqn:Hp. unfold contains.
    case_bool_decide as Hr; [|by eapply ts_mount].
    destruct (mounted t target) eqn:Hm; [by eapply ts_remount|by apply ts_mount_failed].
  - destruct (decide (cmd_name cmd = "umount")) as [Hn'|Hn']; [|by apply ts_other].
    destruct (Hu Hn') as [p Hp]. rewrite Hp. simpl. destruct (mounted t p) eqn:Hm.
    + by eapply ts_umount.
    + by eapply ts_umount_failed.
Qed.

#[export] Instance bench_lawful : LawfulHost MountTable.
Proof.
  refine {| mtab := id |}; try done; intros.
  - by eapply ts_asked.
  - by apply bench_run_lawful.
Defined.

(** A volume of the bench, its four calls, and one of another volume. *)
Definition bench_cap : option VolumeCapability :=
  Some (mkCap (Some SINGLE_NODE_WRITER) (Some (MountVolume "ext4" ["noatime"]))).
Definition bench_context : gmap string string := {[ devicePathKey := "/dev/vdb" ]}.
Definition bench_stage := mkStageReq "vol-1" "/staging" bench_cap bench_context.
Definition bench_publish :=
  mkNodePublishReq "vol-1" "/staging" "/target" bench_cap true bench_context.
Definition bench_unpublish := mkNodeUnpublishReq "vol-1" "/target".
Definition bench_unstage := mkUnstageReq "vol-1" "/staging".
Definition bench_other := RpcUnstage (Some (mkUnstageReq "vol-2" "/other")).

(** The world after a call. *)
Definition bench_after (call : node_rpc) (w : World MountTable HostCall) : World MountTable HostCall :=
  match @node_serve MountTable bench_host (linux_mounter (NewLinuxMounter [])) Background call w with
  | Some (_, w') => w'
  | None => w
  end.

Lemma volume_lifecycle_witness :
  let w0 := mkWorld 0 (∅ : MountTable) [] in
  let w1 := bench_after (RpcNodePublish (Some bench_publish)) (bench_after (RpcStage (Some bench_stage)) w0) in
  let w2 := bench_after (RpcUnstage (Some bench_unstage))
    (bench_after (RpcNodeUnpublish (Some bench_unpublish)) (bench_after bench_other w1)) in
  (publish_access bench_publish <> Some Block -> exists device opts flags,
     mtab (env w1) !! "/staging" = Some (mkMounted device opts, [])
     /\ mtab (env w1) !! "/target" = Some (mkMounted "/staging" (remounted flags
          (publish_options true ["noatime"])), []))
  /\ forall p, Forall (elsewhere p) [(Background, bench_other, Ok tt)] -> mtab (env w2) !! p = mtab (env w0) !! p.
Proof.
  intros w0 w1 w2.
  apply (volume_lifecycle (NewLinuxMounter []) Background Background Background Background
    bench_stage bench_publish bench_unpublish bench_unstage [] [(Background, bench_other, Ok tt)] []
    w0 w1 w2); try reflexivity; try (apply (bool_decide_unpack _); vm_compute; exact I).
  - apply (replay_cons _ w0 _ (bench_after (RpcStage (Some bench_stage)) w0)), replay_one;
      vm_compute; reflexivity.
  - apply (replay_cons _ w1 _ (bench_after bench_other w1));
      [|apply (replay_cons _ _ _ (bench_after (RpcNodeUnpublish (Some bench_unpublish))
          (bench_after bench_other w1))), replay_one]; vm_compute; reflexivity.
Defined.

Lemma node_serve_refines_witness :
  exists r w', @node_serve MountTable bench_host (linux_mounter (NewLinuxMounter [])) Background
      (RpcStage (Some bench_stage)) (mkWorld 0 ∅ []) = Some (r, w')
    /\ node_effect (RpcStage (Some bench_stage)) r (mtab (∅ : MountTable)) (mtab (env w')).
Proof.
  exact (node_serve_refines (NewLinuxMounter []) Background (RpcStage (Some bench_stage))
    (mkWorld 0 (∅ : MountTable) [])).
Defined.
