(* ===== verification/Identity.v ===== *)
(** * The identity service (internal/driver/identity.go) *)

From S2P Require Import Prelude GoStrings GoErrors Runtime GoPath Mount Csi DriverConfig.

Local Open Scope stdpp_scope.
Local Open Scope go_scope.

Record IdentityService := mkIdentity { is_name : string; is_version : string }.

Record PluginInfo := mkPluginInfo { pi_Name : string; pi_VendorVersion : string }.

Inductive PluginCapability := CONTROLLER_SERVICE | VOLUME_ACCESSIBILITY_CONSTRAINTS.

Definition NewIdentityService {Lg} (cfg : option DriverConfig) (logger : option Lg) :
    result IdentityService :=
  match cfg, logger with
  | None, _ => Err (ENew "config cannot be nil")
  | _, None => Err (ENew "logger cannot be nil")
  | Some c, Some _ =>
      if decide (cf_DriverName c = "") then Err (ENew "driver name cannot be empty") else
      if decide (cf_Version c = "") then Err (ENew "version cannot be empty") else
      Ok (mkIdentity (cf_DriverName c) (cf_Version c))
  end.

Definition GetPluginInfo (s : IdentityService) : result PluginInfo :=
  if decide (is_name s = "") then status_Error InvalidArgument "driver name is empty" else
  if decide (is_version s = "") then status_Error InvalidArgument "driver version is empty" else
  Ok (mkPluginInfo (is_name s) (is_version s)).

Definition GetPluginCapabilities : list PluginCapability :=
  [CONTROLLER_SERVICE; VOLUME_ACCESSIBILITY_CONSTRAINTS].

(** The answer's Ready field. *)
Definition Probe : bool := true.

(** A service the constructor accepts always answers GetPluginInfo, with the configured
    name and version, both non-empty; the constructor refuses everything else. *)
Theorem identity_answers {Lg} (cfg : option DriverConfig) (logger : option Lg) :
  (forall s, NewIdentityService cfg logger = Ok s -> exists c, cfg = Some c
     /\ GetPluginInfo s = Ok (mkPluginInfo (cf_DriverName c) (cf_Version c))
     /\ cf_DriverName c <> "" /\ cf_Version c <> "")
  /\ (forall c l, cfg = Some c -> logger = Some l -> cf_DriverName c <> "" -> cf_Version c <> "" ->
       exists s, NewIdentityService cfg logger = Ok s).
Proof.
  unfold NewIdentityService, GetPluginInfo. split.
  - intros s Hs. destruct cfg as [c|]; [|done]. destruct logger as [l|]; [|done].
    destruct (decide (cf_DriverName c = "")) as [|Hn]; [done|].
    destruct (decide (cf_Version c = "")) as [|Hv]; [done|]. injection Hs as <-. exists c.
    split; [done|]. simpl. by rewrite !decide_False.
  - intros c l -> -> Hn Hv. rewrite !decide_False by done. by eexists.
Qed.
