(* ===== verification/Startup.v ===== *)
(** * Starting and stopping (cmd/t-cloud-csi-driver/main.go and logging.go)

    Which services a role registers, how the endpoint is opened, how the server is shut
    down, and the level a served call is logged at. *)

From S2P Require Import Prelude GoStrings GoErrors GoURL GoFlag GoPath Runtime.
From S2P Require Import DriverConfig Metadata Log EvsClient EvsTransport EvsSDK Mount Controller Node Identity.

Local Open Scope stdpp_scope.
Local Open Scope go_scope.

Definition socketDirPerm : Z := 488. (* 0o750 *)
Definition gracefulStopTimeout : Z := 15 * Second.

(** ** Services

    A service's constructor gets a logger; it is the unit value here. *)
Inductive service :=
| IdentityServer (s : IdentityService)
| ControllerServer (client : Client) (cfg : DriverConfig)
| NodeServer (mounter : LinuxMounter) (cfg : DriverConfig).

Definition evs_config (c : DriverConfig) : Config :=
  mkConfig (cf_AuthURL c) (Secret_Value (cf_AccessKey c)) (Secret_Value (cf_SecretKey c)) (cf_ProjectID c)
    (cf_RegionName c) (Secret_Value (cf_SecurityToken c)).

Section Services.
Context {E : Type} `{ProviderSDK E} `{ServiceSDK}.

(** The services registered so far, and the error that stops. *)
Abbreviation registration := (M E AuthCall (result (list service))).

Definition registerController (ctx : GoContext) (cfg : DriverConfig) (before : list service) :
    registration :=
  let! r := NewClient ctx (evs_config cfg) in
  match r with
  | Err err => ret (Err (wrapf "failed to construct EVS client: " err))
  | Ok evsClient =>
      match NewControllerService (Some evsClient) (Some cfg) (Some tt) with
      | Err err => ret (Err (wrapf "failed to construct controller service: " err))
      | Ok (client, cfg, _) => ret (Ok (before ++ [ControllerServer client cfg]))
      end
  end.

Definition registerNode (cfg : DriverConfig) (before : list service) : registration :=
  match NewNodeService (Some (NewLinuxMounter [])) (Some cfg) (Some tt) with
  | Err err => ret (Err (wrapf "failed to construct node service: " err))
  | Ok (mounter, cfg, _) => ret (Ok (before ++ [NodeServer mounter cfg]))
  end.

Definition registerServices (ctx : GoContext) (cfg : DriverConfig) : registration :=
  match NewIdentityService (Some cfg) (Some tt) with
  | Err err => ret (Err (wrapf "failed to construct identity service: " err))
  | Ok identity =>
      if decide (cf_Role cfg = RoleController) then registerController ctx cfg [IdentityServer identity]
      else if decide (cf_Role cfg = RoleNode) then registerNode cfg [IdentityServer identity]
      else ret (Err (ENew ("unsupported driver role " +:+ quote (cf_Role cfg))))
  end.
End Services.

(** ** The endpoint *)

(** os.Stat answers whether the path is a socket. *)
Class Sockets (E : Type) := {
  so_MkdirAll : string -> Z -> prim E (option gerror);
  so_Stat : string -> prim E (result bool);
  so_Remove : string -> prim E (option gerror);
  net_Listen : string -> string -> prim E (option gerror) }.

Inductive SocketCall :=
| SMkdirAll (path : string) (perm : Z) (err : option gerror)
| SStat (path : string) (r : result bool)
| SRemove (path : string) (err : option gerror)
| SListen (network address : string) (err : option gerror).

Section Endpoint.
Context {E : Type} `{Sockets E}.
Abbreviation op A := (M E SocketCall (result A)).

Definition clearStaleSocket (socketPath : string) : op unit :=
  let! r := call (so_Stat socketPath) (SStat socketPath) in
  match r with
  | Err err =>
      if Is err ErrNotExist then ret (Ok tt)
      else ret (Err (wrapf "failed to inspect endpoint path: " err))
  | Ok is_socket =>
      if negb is_socket then ret (Err (ENew "endpoint path already exists and is not a socket")) else
      let! err := call (so_Remove socketPath) (SRemove socketPath) in
      match err with
      | Some err => ret (Err (wrapf "failed to remove stale endpoint socket: " err))
      | None => ret (Ok tt)
      end
  end.

(** net.Listen with the wrapped error of its network. *)
Definition open_listener (network address : string) : op (string * string) :=
  let! err := call (net_Listen network address) (SListen network address) in
  match err with
  | Some err => ret (Err (wrapf ("failed to listen on " +:+ network +:+ " endpoint: ") err))
  | None => ret (Ok (network, address))
  end.

Definition listen `{CloudURLs} (cfg : DriverConfig) : op (string * string) :=
  match Network cfg with
  | Err err => ret (Err err)
  | Ok (network, address) =>
      if decide (network = "tcp") then open_listener network address else
      let! err := call (so_MkdirAll (Dir address) socketDirPerm) (SMkdirAll (Dir address) socketDirPerm) in
      match err with
      | Some err => ret (Err (wrapf "failed to create endpoint directory: " err))
      | None =>
          try! _ := clearStaleSocket address in
          open_listener network address
      end
  end.
End Endpoint.

(** ** Select statements

    A case of a select is a channel: when it is ready, and what it then yields; a channel
    that never is stands for [None]. *)
Abbreviation SelectCase A := (option (Z * A)).

(** A select entered at [from] takes a case no other is ready before, at that instant, or at
    once when it was ready on entry. Of cases that are ready together any may be taken. *)
Inductive selects {A} (from : Z) (cases : list (SelectCase A)) : Z -> A -> Prop :=
| selects_ready u a :
    Some (u, a) ∈ cases ->
    (forall u' a', Some (u', a') ∈ cases -> Z.max from u <= Z.max from u')%Z ->
    selects from cases (Z.max from u) a.

(** ** Serving and shutting down

    What happens around the server: when Serve returns of itself, when a graceful stop
    called at an instant is through, when the next signal after an instant arrives, and
    how long a hard stop takes that is called at an instant. *)
Record ServerFate := mkServerFate {
  served_at : option (Z * option gerror);
  stopped_at : Z -> option Z;
  signal_after : Z -> option Z;
  stop_takes : Z -> N }.

Inductive ServerCall := GracefulStop | Stop.

Definition ErrServerStopped : sentinel :=
  Sentinel "grpc.ErrServerStopped" "grpc: the server has been stopped".

Definition served_result (err : option gerror) : result unit :=
  match err with
  | Some e => if Is e ErrServerStopped then Ok tt else Err (wrapf "csi server failed: " e)
  | None => Ok tt
  end.

(** The cases of the first select. *)
Inductive serve_case := Served (err : option gerror) | CtxDone.

Definition serve_cases (ctx_done : option Z) (fate : ServerFate) : list (SelectCase serve_case) :=
  [(fun s => (s.1, Served s.2)) <$> served_at fate; (fun d => (d, CtxDone)) <$> ctx_done].

(** The cases of the second select, for a shutdown begun at [t]. *)
Inductive shutdown_case := Stopped | Signalled | TimedOut.

Definition shutdown_cases (fate : ServerFate) (t : Z) : list (SelectCase shutdown_case) :=
  [(fun u => (u, Stopped)) <$> stopped_at fate t;
   (fun u => (u, Signalled)) <$> signal_after fate t;
   Some ((t + gracefulStopTimeout)%Z, TimedOut)].

(** serve, entered at [t0] under a context done at [ctx_done]: [serve_ends t0 ctx_done fate t
    calls r] when it can return [r] at [t], having called the server at the instants in
    [calls]. The shutdown begins when the first select takes the context; the graceful
    stop is called, the signals are listened for and the timer is armed then. *)
Inductive serve_ends (t0 : Z) (ctx_done : option Z) (fate : ServerFate) :
    Z -> list (Z * ServerCall) -> result unit -> Prop :=
| ends_served t err :
    selects t0 (serve_cases ctx_done fate) t (Served err) ->
    serve_ends t0 ctx_done fate t [] (served_result err)
| ends_stopped t1 t :
    selects t0 (serve_cases ctx_done fate) t1 CtxDone ->
    selects t1 (shutdown_cases fate t1) t Stopped ->
    serve_ends t0 ctx_done fate t [(t1, GracefulStop)] (Ok tt)
| ends_signalled t1 t :
    selects t0 (serve_cases ctx_done fate) t1 CtxDone ->
    selects t1 (shutdown_cases fate t1) t Signalled ->
    serve_ends t0 ctx_done fate (t + Z.of_N (stop_takes fate t)) [(t1, GracefulStop); (t, Stop)] (Ok tt)
| ends_timed_out t1 t :
    selects t0 (serve_cases ctx_done fate) t1 CtxDone ->
    selects t1 (shutdown_cases fate t1) t TimedOut ->
    serve_ends t0 ctx_done fate (t + Z.of_N (stop_takes fate t)) [(t1, GracefulStop); (t, Stop)] (Ok tt).

(** ** Logging of served calls *)

Definition levelForCode (code : Code) : Level :=
  match code with
  | OK => LevelDebug
  | InvalidArgument | NotFound | AlreadyExists | FailedPrecondition | Aborted | CodeCanceled => LevelWarn
  | _ => LevelError
  end.

(** The line the interceptor logs: method, code, milliseconds and the error. *)
Record ServedLine := mkServedLine {
  sl_level : Level; sl_method : string; sl_code : string; sl_duration_ms : Z;
  sl_error : option gerror }.

(** The interceptor: the handler's result passes through unchanged. A nil error has the
    code OK. *)
Definition unaryLoggingInterceptor {E L A} (log : ServedLine -> M E L unit) (method : string)
    (handler : M E L (result A)) : M E L (result A) :=
  let! started := now in
  let! r := handler in
  let! ended := now in
  let code := match r with Ok _ => OK | Err e => status_code e end in
  let! _ := log (mkServedLine (levelForCode code) method (Code_String code)
                   (Z.quot (ended - started) Millisecond) (err_of r)) in
  ret r.

(** ** Facts *)

Section Configuration.
Context `{CloudURLs}.
Variable ver : string.

(** A configuration without credentials. *)
Definition holds_no_credential (c : DriverConfig) : Prop :=
  cf_AuthURL c = "" /\ Secret_Value (cf_AccessKey c) = "" /\ Secret_Value (cf_SecretKey c) = ""
  /\ cf_ProjectID c = "" /\ cf_RegionName c = "" /\ Secret_Value (cf_SecurityToken c) = "".

Lemma parseRole_ok raw role : parseRole raw = Ok role -> role = RoleController \/ role = RoleNode.
Proof. unfold parseRole. destruct (decide _); [by intros [= <-]|by case_match]. Qed.

Lemma Parse_ok args getenv osenv c :
  Parse ver args getenv osenv = Ok c ->
  (cf_Role c = RoleController \/ cf_Role c = RoleNode) /\ Validate c = Ok tt
  /\ (cf_Role c = RoleNode -> holds_no_credential c).
Proof.
  unfold Parse. destruct (flag_Parse _ _ _) as [vals [|]]; [|done]. case_match; [done|].
  destruct (parseRole _) as [role|] eqn:Er; [|done]. apply parseRole_ok in Er.
  destruct (Validate _) as [[]|] eqn:Ev; [|done]. intros [= <-]. split_and!; [exact Er|exact Ev|].
  intros Hrole. simpl in Hrole. subst role. repeat split; by rewrite decide_False.
Qed.

Lemma Validate_ok c :
  Validate c = Ok tt -> cf_DriverName c <> "" /\ cf_Version c <> ""
  /\ (exists n a, Network c = Ok (n, a))
  /\ (cf_Role c = RoleController -> config_complete (evs_config c) = true).
Proof.
  unfold Validate. case_match; [done|]. fold (Network c). destruct (Network c) as [[n a]|]; [|done].
  case_match; [done|]. case_match; [done|]. intros Hc. split_and!; [done..|eauto|].
  intros Hrole. rewrite decide_True in Hc by done. revert Hc. unfold validateCloudCredentials, config_complete.
  case_match; [done|]. destruct (url_Parse _); [|done]. case_match; [done|]. repeat (case_match; [done|]).
  intros _. simpl. by rewrite !bool_decide_false.
Qed.
End Configuration.

Lemma wp_NewClient {E} `{ProviderSDK E} `{ServiceSDK} ctx c w : wp (NewClient ctx c) (fun _ _ _ => True) w.
Proof.
  unfold NewClient, NewProviderClient. wp_step. destruct (negb _); [by wp_step|].
  destruct (openstack_NewClient _); [|by wp_step]. wp_step. apply wp_call. intros [err|] w1 _; by repeat wp_step.
Qed.

Lemma wp_listener {E} `{Sockets E} network address (Q : result (string * string) -> list SocketCall -> World E SocketCall -> Prop) w :
  (forall err r w', (r = Ok (network, address) <-> err = None) -> (forall x, r = Ok x -> x = (network, address)) ->
     Q r [SListen network address err] w') ->
  wp (open_listener network address) Q w.
Proof.
  intros HQ. unfold open_listener. wp_step. apply wp_call. intros [e|] w' _; wp_step; apply HQ; try done.
  by intros x [= <-].
Qed.

Definition socket_removes (ev : SocketCall) : Prop := match ev with SRemove _ _ => True | _ => False end.

(** What clearing the endpoint path did. *)
Inductive cleared (path : string) : result unit -> list SocketCall -> Prop :=
| cleared_kept r a : cleared path r [SStat path a]
| cleared_removed r err : cleared path r [SStat path (Ok true); SRemove path err].

Lemma wp_clearStaleSocket {E} `{Sockets E} path w :
  wp (clearStaleSocket path) (fun r evs _ => cleared path r evs) w.
Proof.
  unfold clearStaleSocket. wp_step. apply wp_call. intros [[]|err] w1 _; cbn [negb].
  - wp_step. apply wp_call. intros [e|] w2 _; wp_step; constructor.
  - wp_step. constructor.
  - destruct (Is err ErrNotExist); wp_step; constructor.
Qed.

Lemma Network_ok `{CloudURLs} c n a :
  Network c = Ok (n, a) -> n = "tcp" \/ n = "unix" /\ isCleanAbsPath a = true.
Proof.
  unfold Network, resolveEndpoint. case_match; [done|]. destruct (url_Parse _) as [u|]; [|done].
  do 2 (case_match; [done|]). destruct (decide (u_Scheme u = "tcp")).
  - do 2 (case_match; [done|]). intros [= <- <-]. by left.
  - case_match; [done|]. destruct (isCleanAbsPath (u_Path u)) eqn:Ep; [|done]. intros [= <- <-]. by right.
Qed.

(** Opening the endpoint: the outcomes of [listen]. *)
Inductive listen_outcome `{CloudURLs} (cfg : DriverConfig) :
    result (string * string) -> list SocketCall -> Prop :=
| listen_refused e evs : Forall (fun ev => ~ socket_removes ev) evs -> listen_outcome cfg (Err e) evs
| listen_tcp r a err : Network cfg = Ok ("tcp", a) ->
    (forall x, r = Ok x -> x = ("tcp", a) /\ err = None) -> listen_outcome cfg r [SListen "tcp" a err]
| listen_blocked e a p perm err evs : Network cfg = Ok ("unix", a) -> isCleanAbsPath a = true ->
    cleared a (Err e) evs -> listen_outcome cfg (Err e) (SMkdirAll p perm err :: evs)
| listen_unix r a p perm err evs err' : Network cfg = Ok ("unix", a) -> isCleanAbsPath a = true ->
    cleared a (Ok tt) evs -> (forall x, r = Ok x -> x = ("unix", a) /\ err' = None) ->
    listen_outcome cfg r (SMkdirAll p perm err :: evs ++ [SListen "unix" a err']).

Lemma wp_listen {E} `{Sockets E} `{CloudURLs} cfg w :
  wp (listen cfg) (fun r evs _ => listen_outcome cfg r evs) w.
Proof.
  unfold listen. destruct (Network cfg) as [[n a]|e] eqn:En; [|wp_step; by apply listen_refused].
  assert (forall n a w, wp (open_listener n a) (fun r evs _ => exists err, evs = [SListen n a err]
    /\ (forall x, r = Ok x -> x = (n, a) /\ err = None)) w) as Hopen.
  { intros n' a' w'. apply wp_listener. intros err r w1 Hr Hx. exists err. split; [done|].
    intros x ->. pose proof (Hx x eq_refl) as ->. split; [done|]. by apply Hr. }
  destruct (Network_ok _ _ _ En) as [->|[-> Hclean]]; simpl.
  - eapply wp_mono; [apply Hopen|]. intros r evs w1 _ (err & -> & Hx). by apply listen_tcp.
  - wp_step. apply wp_call. intros [e|] w1 _.
    { wp_step. apply listen_refused. by repeat constructor; intros []. }
    wp_step. eapply wp_mono; [apply wp_clearStaleSocket|]. intros [[]|e] evs w2 _ Hc; [|by eapply listen_blocked].
    eapply wp_mono; [apply Hopen|]. intros r evs' w3 _ (err & -> & Hx). by apply listen_unix.
Qed.

(** A removal among the events of an opening. *)
Lemma cleared_removes path r mk evs post0 pre ev post :
  cleared path r evs -> Forall (fun ev => ~ socket_removes ev) (mk :: post0) ->
  mk :: evs ++ post0 = pre ++ ev :: post -> socket_removes ev ->
  exists err pre0, ev = SRemove path err /\ pre = pre0 ++ [SStat path (Ok true)].
Proof.
  intros Hc [Hmk Hpost]%Forall_cons_iff Heq Hev.
  assert (forall l l1, Forall (fun ev => ~ socket_removes ev) l -> l = l1 ++ ev :: post -> False) as Hno.
  { intros l l1 Hl ->. apply Forall_app in Hl as [_ Hl]. by apply Forall_cons_iff in Hl as [Hl _]. }
  destruct Hc as [r a|r err].
  - exfalso. apply (Hno (mk :: SStat path a :: post0) pre); [|done].
    constructor; [done|]. by constructor; [intros []|].
  - destruct pre as [|y1 [|y2 [|y3 pre]]]; simplify_list_eq; [done|done| |].
    + by exists err, [y1].
    + exfalso. by eapply Hno.
Qed.

(** *** Registration *)

Section Registration.
Context {E : Type} `{ProviderSDK E} `{ServiceSDK}.
Variable c : DriverConfig.
Hypotheses (Hname : cf_DriverName c <> "") (Hversion : cf_Version c <> "").

Lemma identity_constructed :
  NewIdentityService (Some c) (Some tt) = Ok (mkIdentity (cf_DriverName c) (cf_Version c)).
Proof. unfold NewIdentityService. by rewrite !decide_False. Qed.

Lemma wp_register_node ctx w :
  cf_Role c = RoleNode -> cf_NodeID c <> "" -> cf_AvailabilityZone c <> "" ->
  wp (registerServices ctx c) (fun r evs _ => evs = []
    /\ exists s, r = Ok [IdentityServer s; NodeServer (NewLinuxMounter []) c]) w.
Proof.
  intros Hr Hn Hz. unfold registerServices. rewrite identity_constructed, Hr.
  rewrite decide_False, decide_True by done. unfold registerNode, NewNodeService.
  rewrite !decide_False by done. wp_step. split; [done|]. by eexists.
Qed.

Lemma wp_register_controller ctx w :
  cf_Role c = RoleController ->
  wp (registerServices ctx c) (fun r _ _ =>
    (exists s client, r = Ok [IdentityServer s; ControllerServer client c])
    \/ exists e, r = Err (wrapf "failed to construct EVS client: " e)) w.
Proof.
  intros Hr. unfold registerServices. rewrite identity_constructed, Hr, decide_True by done.
  unfold registerController. wp_step. eapply wp_mono; [apply wp_NewClient|].
  intros [client|e] evs w1 _ _; unfold NewControllerService; wp_step; [left|right]; eauto.
Qed.
End Registration.

(** *** Loading *)

(** The configuration a process may start with. *)
Definition startable `{CloudURLs} (c : DriverConfig) : Prop :=
  Validate c = Ok tt /\ (cf_Role c = RoleController \/ cf_Role c = RoleNode)
  /\ (cf_Role c = RoleNode -> holds_no_credential c /\ cf_NodeID c <> "" /\ cf_AvailabilityZone c <> "").

Lemma validateNodeFacts_ok c :
  validateNodeFacts c = Ok tt -> cf_NodeID c <> "" /\ cf_AvailabilityZone c <> "".
Proof. unfold validateNodeFacts. by repeat case_match. Qed.

Lemma wp_Load {E L} `{CloudURLs} fetch ver ctx args getenv osenv (w : World E L) :
  (forall ctx w, wp (fetch ctx) (fun _ _ _ => True) w) ->
  wp (Load fetch ver ctx args getenv osenv) (fun r _ _ => forall c, r = Ok c -> startable c) w.
Proof.
  intros Hf. unfold Load. destruct (Parse _ _ _ _) as [c|e] eqn:Ep; [|by wp_step].
  apply Parse_ok in Ep as (Hrole & Hv & Hnode). unfold resolveNodeFacts, startable.
  case_bool_decide as Hr; cbn [negb]; [|wp_step; intros c' [= <-]; split_and!; [done|done|done]].
  assert (forall c', Validate c' = Validate c -> cf_Role c' = cf_Role c ->
    (holds_no_credential c -> holds_no_credential c') -> forall c'',
    match validateNodeFacts c' with Err e => Err e | Ok _ => Ok c' end = Ok c'' ->
    Validate c'' = Ok tt /\ (cf_Role c'' = RoleController \/ cf_Role c'' = RoleNode)
    /\ (cf_Role c'' = RoleNode -> holds_no_credential c'' /\ cf_NodeID c'' <> "" /\ cf_AvailabilityZone c'' <> ""))
    as Hchecked.
  { intros c' Hvc Hrc Hcred c''. destruct (validateNodeFacts c') as [[]|] eqn:Ef; [|done]. intros [= <-].
    rewrite Hvc, Hrc. split_and!; [done|done|]. intros _. split; [by apply Hcred, Hnode|].
    by apply validateNodeFacts_ok. }
  destruct (negb _ && negb _); [wp_step; by apply Hchecked|].
  wp_step. eapply wp_mono; [apply Hf|]. intros [f|e] evs w1 _ _; [|done].
  wp_step. by apply Hchecked.
Qed.

(** *** Shutting down *)

(** A select with a case that is ever ready takes one. *)
Lemma selects_some {A} from (cases : list (SelectCase A)) :
  (exists u a, Some (u, a) ∈ cases) -> exists t a, selects from cases t a.
Proof.
  assert ((forall u a, Some (u, a) ∉ cases) \/ exists t a, selects from cases t a)
    as [Hno|Hyes]; [|by intros (u & a & []%Hno)|done].
  induction cases as [|c cases IH]; [left; by intros u a ?%elem_of_nil|].
  destruct c as [[u a]|]; [right|destruct IH as [Hno|(t & b & [u' a' Hin Hle])]].
  - destruct IH as [Hno|(t & b & [u' a' Hin Hle])].
    { exists (Z.max from u), a. constructor; [apply list_elem_of_here|].
      intros v e [[= -> ->]|Hv]%elem_of_cons; [lia|by destruct (Hno v e)]. }
    destruct (Z_le_gt_dec (Z.max from u) (Z.max from u')) as [Hu|Hu].
    + exists (Z.max from u), a. constructor; [apply list_elem_of_here|].
      intros v e [[= -> ->]|Hv%Hle]%elem_of_cons; lia.
    + exists (Z.max from u'), a'. constructor; [by right|].
      intros v e [[= -> ->]|Hv%Hle]%elem_of_cons; lia.
  - left. by intros u a [?|?%Hno]%elem_of_cons.
  - right. exists (Z.max from u'), a'. constructor; [by right|]. by intros v e [?|Hv%Hle]%elem_of_cons.
Qed.

(** What it means that a select of serve took one of its cases. *)
Lemma selects_served t0 d fate t err :
  selects t0 (serve_cases (Some d) fate) t (Served err) ->
  exists u, served_at fate = Some (u, err) /\ t = Z.max t0 u /\ (t <= Z.max t0 d)%Z.
Proof.
  inversion 1 as [u a Hin Hle]; subst. specialize (Hle d CtxDone). exists u.
  split_and!; [|done|by apply Hle, list_elem_of_further, list_elem_of_here].
  unfold serve_cases in Hin. rewrite !elem_of_cons, elem_of_nil in Hin.
  destruct (served_at fate) as [[v e]|]; destruct Hin as [|[|Hin]]; by simplify_eq/=.
Qed.

Lemma selects_done t0 d fate t :
  selects t0 (serve_cases (Some d) fate) t CtxDone ->
  t = Z.max t0 d /\ forall s, served_at fate = Some s -> (Z.max t0 d <= Z.max t0 s.1)%Z.
Proof.
  inversion 1 as [u a Hin Hle]; subst. assert (u = d) as ->.
  { unfold serve_cases in Hin. rewrite !elem_of_cons, elem_of_nil in Hin.
    destruct (served_at fate) as [[v e]|]; destruct Hin as [|[|Hin]]; by simplify_eq/=. }
  split; [done|]. intros s Hs. apply (Hle s.1 (Served s.2)). unfold serve_cases. rewrite Hs. apply list_elem_of_here.
Qed.

Lemma selects_shutdown t1 fate t c :
  selects t1 (shutdown_cases fate t1) t c ->
  (t1 <= t <= t1 + 15 * Second)%Z
  /\ (forall u, stopped_at fate t1 = Some u -> t <= Z.max t1 u)%Z
  /\ (forall u, signal_after fate t1 = Some u -> t <= Z.max t1 u)%Z
  /\ match c with
     | Stopped => exists u, stopped_at fate t1 = Some u /\ t = Z.max t1 u
     | Signalled => exists u, signal_after fate t1 = Some u /\ t = Z.max t1 u
     | TimedOut => t = (t1 + 15 * Second)%Z
     end.
Proof.
  inversion 1 as [u a Hin Hle]; subst. unfold shutdown_cases in Hin, Hle.
  assert (Z.max t1 u <= t1 + 15 * Second)%Z as Ht.
  { pose proof (Hle (t1 + gracefulStopTimeout)%Z TimedOut
      ltac:(do 2 apply list_elem_of_further; apply list_elem_of_here)) as Ht.
    unfold gracefulStopTimeout, Second, Millisecond in *. lia. }
  split_and!; [lia|done| | |].
  - intros v Hv. apply (Hle v Stopped). rewrite Hv. apply list_elem_of_here.
  - intros v Hv. apply (Hle v Signalled). rewrite Hv. apply list_elem_of_further, list_elem_of_here.
  - rewrite !elem_of_cons, elem_of_nil in Hin.
    destruct (stopped_at fate t1), (signal_after fate t1); destruct Hin as [|[|[|[]]]];
      simplify_eq/=; eauto; unfold gracefulStopTimeout, Second, Millisecond; lia.
Qed.

(** Told to stop, serve ends. *)
Lemma serve_returns t0 fate d : exists t calls r, serve_ends t0 (Some d) fate t calls r.
Proof.
  destruct (selects_some t0 (serve_cases (Some d) fate)) as (t1 & [err|] & Hs).
  { exists d, CtxDone. apply list_elem_of_further, list_elem_of_here. }
  { eexists _, _, _. by eapply ends_served. }
  destruct (selects_some t1 (shutdown_cases fate t1)) as (t & [] & Hw); [|eexists _, _, _..].
  - eexists _, TimedOut. do 2 right. apply list_elem_of_here.
  - by eapply ends_stopped.
  - by eapply ends_signalled.
  - by eapply ends_timed_out.
Qed.

(** ** Properties *)

(** C34. Opening the endpoint deletes nothing but a socket at the endpoint's own path: a
    removal is of that path, absolute and clean, right after a stat showed a socket
    there. Success means that the configured address was opened last. *)
Theorem listen_safe {E} `{Sockets E} `{CloudURLs} cfg w :
  runs (listen cfg) w (fun r evs =>
    (forall pre ev post, evs = pre ++ ev :: post -> socket_removes ev -> exists path err pre0,
       ev = SRemove path err /\ Network cfg = Ok ("unix", path) /\ isCleanAbsPath path = true
       /\ pre = pre0 ++ [SStat path (Ok true)]) /\
    (forall n a, r = Ok (n, a) -> Network cfg = Ok (n, a) /\ exists pre, evs = pre ++ [SListen n a None])).
Proof.
  eapply runs_mono; [apply wp_runs, wp_listen|]. intros r evs Ho.
  destruct Ho as [e evs Hq|r a err Hn Hx|e a p perm err evs Hn Hclean Hc|r a p perm err evs err' Hn Hclean Hc Hx].
  - split; [|done]. intros pre ev post -> Hev. apply Forall_app in Hq as [_ Hq].
    by apply Forall_cons_iff in Hq as [Hq _].
  - split.
    + intros [|y [|]] ev post Heq Hev; simplify_list_eq. done.
    + intros n b Hr. destruct (Hx _ Hr) as [[= -> ->] ->]. split; [done|]. by exists [].
  - split; [|done]. intros pre ev post Heq Hev. rewrite <-(app_nil_r evs) in Heq.
    destruct (cleared_removes a _ (SMkdirAll p perm err) evs [] pre ev post Hc) as (err' & pre0 & -> & ->);
      [by repeat constructor; intros []|done|done|]. by exists a, err', pre0.
  - split.
    + intros pre ev post Heq Hev.
      destruct (cleared_removes a _ (SMkdirAll p perm err) evs [SListen "unix" a err'] pre ev post Hc)
        as (err0 & pre0 & -> & ->); [by repeat constructor; intros []|done|done|]. by exists a, err0, pre0.
    + intros n b Hr. destruct (Hx _ Hr) as [[= -> ->] ->]. split; [done|].
      by exists (SMkdirAll p perm err :: evs).
Qed.

(** C33. What a role starts with. Whatever configuration Load accepts is valid; a node's holds
    no credential, names the node and its zone, and registers the identity and the node
    service without contacting the cloud; a controller's credentials are complete, and it
    registers the identity and the controller service unless the EVS client refuses. *)
Theorem Load_ready {E E'} `{MetadataHTTP E} `{CloudURLs} `{ProviderSDK E'} `{ServiceSDK}
    ver ctx args getenv osenv (w : World E MetadataCall) :
  runs (Load (fetch newMetadataClient) ver ctx args getenv osenv) w (fun r _ => forall c, r = Ok c ->
    Validate c = Ok tt
    /\ (cf_Role c = RoleNode -> holds_no_credential c /\ cf_NodeID c <> "" /\ cf_AvailabilityZone c <> ""
         /\ forall w' : World E' AuthCall, runs (registerServices ctx c) w' (fun r' evs' => evs' = []
              /\ exists s, r' = Ok [IdentityServer s; NodeServer (NewLinuxMounter []) c]))
    /\ (cf_Role c <> RoleNode -> cf_Role c = RoleController /\ config_complete (evs_config c) = true
         /\ forall w' : World E' AuthCall, runs (registerServices ctx c) w' (fun r' _ =>
              (exists s client, r' = Ok [IdentityServer s; ControllerServer client c])
              \/ exists e, r' = Err (wrapf "failed to construct EVS client: " e)))).
Proof.
  apply wp_runs. eapply wp_mono; [apply wp_Load; intros; eapply wp_mono; [apply wp_fetch|done]|].
  intros r evs w1 _ Hs c Hr. destruct (Hs c Hr) as (Hv & Hrole & Hnode).
  destruct (Validate_ok c Hv) as (Hname & Hver & _ & Hcred). split_and!; [done|..].
  - intros Hn. destruct (Hnode Hn) as (Hc & Hid & Hz). split_and!; [done..|].
    intros w'. by apply wp_runs, wp_register_node.
  - intros Hn. destruct Hrole as [Hc|]; [|done]. split_and!; [done|by apply Hcred|].
    intros w'. by apply wp_runs, wp_register_controller.
Qed.

(** C38. Once the process is told to stop, at [d], serve ends whatever the server does. Either
    the server ended of itself no later, and nothing is called; or at that instant (on
    entry, when it was told before) the graceful stop is called, and serve wakes at the
    first of its completion, a second signal and fifteen seconds: on completion it returns
    at once, and the hard stop is called only on the signal or after the fifteen seconds,
    and then at once. It reports success. *)
Theorem serve_bounded t0 d fate :
  let t1 := Z.max t0 d in
  (exists t calls r, serve_ends t0 (Some d) fate t calls r)
  /\ (forall t calls r, serve_ends t0 (Some d) fate t calls r ->
       (calls = [] /\ exists u err, served_at fate = Some (u, err) /\ t = Z.max t0 u /\ (t <= t1)%Z
          /\ r = served_result err)
       \/ (r = Ok tt /\ exists wake, (t1 <= wake <= t1 + 15 * Second)%Z
            /\ (forall u, served_at fate = Some u -> t1 <= Z.max t0 u.1)%Z
            /\ (forall u, stopped_at fate t1 = Some u -> wake <= Z.max t1 u)%Z
            /\ (forall u, signal_after fate t1 = Some u -> wake <= Z.max t1 u)%Z
            /\ ((calls = [(t1, GracefulStop)] /\ t = wake
                  /\ exists u, stopped_at fate t1 = Some u /\ wake = Z.max t1 u)
                \/ (calls = [(t1, GracefulStop); (wake, Stop)]
                    /\ t = (wake + Z.of_N (stop_takes fate wake))%Z
                    /\ (wake = (t1 + 15 * Second)%Z
                        \/ exists u, signal_after fate t1 = Some u /\ wake = Z.max t1 u))))).
Proof.
  intros t1. split; [apply serve_returns|].
  intros t calls r Hend. destruct Hend as [t err Hs|t2 wake Hs Hw|t2 wake Hs Hw|t2 wake Hs Hw];
    [left; apply selects_served in Hs as (u & Hu & -> & Hle); split; [done|by exists u, err]|..].
  all: right; split; [done|]; apply selects_done in Hs as [-> Hs]; exists wake;
    apply selects_shutdown in Hw as (Hb & Hg & Hn & Hw); (split_and!; [lia..|done|done|done|]).
  - left. eauto.
  - right. eauto.
  - right. eauto.
Qed.
