(* ===== verification/Process.v ===== *)
(** * The driver process (cmd/t-cloud-csi-driver/main.go, internal/version/version.go)

    From the command line to the exit code: the build identity, the order in which a
    process loads its configuration, constructs its services, opens its endpoint and
    serves, and what it exits with. *)

From S2P Require Import Prelude GoStrings GoErrors GoURL GoFlag Runtime.
From S2P Require Import DriverConfig Metadata EvsTransport EvsSDK Mount Identity Startup.

Local Open Scope stdpp_scope.
Local Open Scope go_scope.

(** ** The build identity

    The linker stamps the first three, package runtime answers the others. *)
Section Version.
Variables version commit buildDate runtime_Version GOOS GOARCH : string.

Record Info := mkInfo {
  Info_Version : string; Commit : string; BuildDate : string; GoVersion : string; Platform : string }.

Definition Get : Info := mkInfo version commit buildDate runtime_Version (GOOS +:+ "/" +:+ GOARCH).

Definition Version : string := version.

Definition Info_String (i : Info) : string :=
  Info_Version i +:+ " (commit " +:+ Commit i +:+ ", built " +:+ BuildDate i +:+ ", "
    +:+ GoVersion i +:+ ", " +:+ Platform i +:+ ")".
End Version.

(** ** Starting *)

Inductive StartEvent :=
| EvMetadata (ev : MetadataCall)
| EvAuth (ev : AuthCall)
| EvSocket (ev : SocketCall).

(** signal.NotifyContext over the background: done when the first signal arrives. *)
Definition NotifyContext (signal : option Z) : GoContext := mkContext None signal.

Section Process.
Context {E : Type} `{MetadataHTTP E} `{ProviderSDK E} `{Sockets E} `{ServiceSDK} `{CloudURLs}.
Abbreviation op A := (M E StartEvent (result A)).

Definition LoadFromEnvAndFlags (DriverVersion : string) (ctx : GoContext) (args : list string)
    (os_Getenv : string -> string) : M E MetadataCall (result DriverConfig) :=
  Load (fetch newMetadataClient) DriverVersion ctx args (Some os_Getenv) os_Getenv.

(** run up to its last statement: the services to serve and the listener. *)
Definition start (DriverVersion : string) (ctx : GoContext) (args : list string)
    (os_Getenv : string -> string) : op (list service * (string * string)) :=
  try! cfg := lift EvMetadata (LoadFromEnvAndFlags DriverVersion ctx args os_Getenv) in
  try! services := lift EvAuth (registerServices ctx cfg) in
  try! listener := lift EvSocket (listen cfg) in
  ret (Ok (services, listener)).

(** The exit code main gives the result of run. *)
Definition exit_code (err : option gerror) : Z :=
  match err with
  | Some e => if Is e ErrHelp || Is e ErrVersionRequested then 0 else 1
  | None => 0
  end.

(** A run of the process: the first signal arrives at [signal], and [fate] is what happens
    around the server it starts. *)
Inductive process_ends (DriverVersion : string) (args : list string) (os_Getenv : string -> string)
    (signal : option Z) (fate : ServerFate) (w : World E StartEvent) :
    list StartEvent -> list (Z * ServerCall) -> Z -> Prop :=
| process_refused e w' evs :
    start DriverVersion (NotifyContext signal) args os_Getenv w = Some (Err e, w') ->
    trace w' = trace w ++ evs ->
    process_ends DriverVersion args os_Getenv signal fate w evs [] (exit_code (Some e))
| process_served services listener w' evs t calls r :
    start DriverVersion (NotifyContext signal) args os_Getenv w = Some (Ok (services, listener), w') ->
    trace w' = trace w ++ evs ->
    serve_ends (clock w') signal fate t calls r ->
    process_ends DriverVersion args os_Getenv signal fate w evs calls (exit_code (err_of r)).
End Process.

(** ** What a start does *)

(** An endpoint that was opened. *)
Definition opened (ev : StartEvent) : Prop :=
  match ev with EvSocket (SListen _ _ None) => True | _ => False end.

Abbreviation unopened evs := (Forall (fun ev => ~ opened ev) evs).

(** The services of a role. *)
Definition registered (c : DriverConfig) (services : list service) : Prop :=
  exists id, (cf_Role c = RoleNode /\ services = [IdentityServer id; NodeServer (NewLinuxMounter []) c])
    \/ (cf_Role c = RoleController
        /\ exists client, services = [IdentityServer id; ControllerServer client c]).

Inductive start_outcome `{CloudURLs} :
    result (list service * (string * string)) -> list StartEvent -> Prop :=
| start_refused e evs : unopened evs -> start_outcome (Err e) evs
| start_ready c services n a pre :
    startable c -> registered c services -> Network c = Ok (n, a) -> unopened pre ->
    start_outcome (Ok (services, (n, a))) (pre ++ [EvSocket (SListen n a None)]).

Section Facts.
Context {E : Type} `{MetadataHTTP E} `{ProviderSDK E} `{Sockets E} `{ServiceSDK} `{CloudURLs}.

Lemma unopened_map {L} (f : L -> StartEvent) evs :
  (forall ev, ~ opened (f ev)) -> unopened (map f evs).
Proof. intros Hf. by apply Forall_map, Forall_true. Qed.

(** Listening is the last step, and an error means that it did not succeed. *)
Lemma wp_listen_last cfg w :
  wp (listen cfg) (fun r evs _ => match r with
    | Ok (n, a) => Network cfg = Ok (n, a) /\ exists pre, evs = pre ++ [SListen n a None]
        /\ unopened (map EvSocket pre)
    | Err _ => unopened (map EvSocket evs) end) w.
Proof.
  assert (forall n a pre w, unopened (map EvSocket pre) -> Network cfg = Ok (n, a) ->
    wp (open_listener n a) (fun r evs _ => match r with
      | Ok (n, a) => Network cfg = Ok (n, a) /\ exists pre', pre ++ evs = pre' ++ [SListen n a None]
          /\ unopened (map EvSocket pre')
      | Err _ => unopened (map EvSocket (pre ++ evs)) end) w) as Hopen.
  { intros n a pre w' Hpre Hn. apply wp_listener. intros [e|] [x|err] w1 Hr Hx.
    - rewrite (Hx x eq_refl) in Hr. by destruct Hr as [Hr _]; specialize (Hr eq_refl).
    - rewrite map_app. apply Forall_app. split; [done|by repeat constructor; intros []].
    - rewrite (Hx x eq_refl). split; [done|]. by exists pre.
    - by destruct Hr as [_ Hr]; specialize (Hr eq_refl). }
  unfold listen. destruct (Network cfg) as [[n a]|e] eqn:En; [|by wp_step].
  destruct (decide (n = "tcp")) as [->|]; [by apply (Hopen _ _ [])|].
  wp_step. apply wp_call. intros [e|] w1 _; [wp_step; by repeat constructor; intros []|].
  wp_step. eapply wp_mono; [apply wp_clearStaleSocket|]. intros r evs w2 _ Hc.
  assert (unopened (map EvSocket evs)) as Hevs by (destruct Hc; by repeat constructor; intros []).
  destruct r as [[]|err]; [|by constructor; [intros []|]].
  apply (Hopen n a (_ :: evs)); [by constructor; [intros []|]|done].
Qed.

Lemma wp_start ver ctx args getenv w :
  wp (start ver ctx args getenv) (fun r evs _ => start_outcome r evs) w.
Proof.
  unfold start. wp_step. apply wp_lift. eapply wp_mono.
  { apply wp_Load. intros; eapply wp_mono; [apply wp_fetch|done]. }
  intros [c|e] evs1 w1 _ Hc w1' _ _; [|apply start_refused, unopened_map; by intros ? []].
  destruct (Hc c eq_refl) as (Hv & Hrole & Hnode).
  destruct (Validate_ok c Hv) as (Hname & Hver & _ & _). wp_step. apply wp_lift.
  assert (unopened (map EvMetadata evs1)) as Hmeta by (apply unopened_map; by intros ? []).
  assert (forall evs, unopened (map EvAuth evs)) as Hauth by (intros; apply unopened_map; by intros ? []).
  assert (forall services, registered c services -> forall evs2 w2, wp
    (try (lift EvSocket (listen c)) (fun listener => ret (Ok (services, listener))))
    (fun r evs _ => start_outcome r (map EvMetadata evs1 ++ map EvAuth evs2 ++ evs)) w2) as Hlisten.
  { intros services Hreg evs2 w2. wp_step. apply wp_lift. eapply wp_mono; [apply wp_listen_last|].
    intros [[n a]|e] evs3 w3 _ Hl w3' _ _.
    - destruct Hl as (Hn & pre & -> & Hpre). wp_step. rewrite map_app, !app_assoc.
      apply (start_ready c); [done|done|done|]. by rewrite !list.Forall_app.
    - apply start_refused. by rewrite !list.Forall_app. }
  destruct Hrole as [Hctl|Hn].
  - eapply wp_mono; [by apply wp_register_controller|]. intros r evs2 w2 _ Hr w2' _ _.
    destruct Hr as [(s & client & ->)|[e ->]].
    + apply Hlisten. exists s. right. eauto.
    + apply start_refused. by apply Forall_app.
  - destruct (Hnode Hn) as (_ & Hid & Hz). eapply wp_mono; [by apply wp_register_node|].
    intros r evs2 w2 _ (_ & s & ->) w2' _ _. apply Hlisten. exists s. by left.
Qed.

Lemma start_opened r evs pre ev post :
  start_outcome r evs -> evs = pre ++ ev :: post -> opened ev ->
  post = [] /\ unopened pre /\ exists c services n a, startable c /\ registered c services
    /\ Network c = Ok (n, a) /\ ev = EvSocket (SListen n a None).
Proof.
  assert (forall l, unopened l -> forall pre post, l = pre ++ ev :: post -> opened ev -> False) as Hno.
  { intros l Hl pre' post' -> Hev. apply Forall_app in Hl as [_ Hl]. by apply Forall_cons_iff in Hl as [Hl _]. }
  intros Ho Heq Hev. destruct Ho as [e evs Hq|c services n a pre0 Hs Hreg Hn Hq].
  - by destruct (Hno _ Hq _ _ Heq Hev).
  - apply app_eq_app in Heq as (mid & [[-> Heq]|[-> Heq]]).
    + destruct mid as [|x mid]; simplify_list_eq; [split_and!; [done..|]; by eexists _, _, _, _|].
      by destruct (Hno _ Hq pre mid).
    + destruct mid as [|x [|]]; simplify_list_eq. split_and!; [done..|]. by eexists _, _, _, _.
Qed.

(** A command line that is refused ends the start at once. *)
Lemma start_unparsed ver ctx args getenv w e :
  Parse ver args (Some getenv) getenv = Err e ->
  start ver ctx args getenv w = Some (Err e, mkWorld (clock w) (env w) (trace w ++ [])).
Proof.
  intros He. unfold start, try. unfold bind at 1. unfold lift at 1. unfold LoadFromEnvAndFlags, Load.
  by rewrite He.
Qed.

(** A server that was told to stop ends without an error. *)
Lemma serve_called t0 signal fate t calls r :
  serve_ends t0 signal fate t calls r -> calls <> [] -> r = Ok tt.
Proof. by destruct 1. Qed.

(** C35. A process ends with exit code 0 or 1, and opens its endpoint only as the last step of
    its start, with a valid configuration and all services of its role registered: a start
    that fails leaves no open endpoint and serves nothing. A command line that is refused
    contacts nothing, and exits 0 exactly when it asked for help or the version. Once
    started, a process that is signalled ends whatever its server does, with 0 when it was
    told to stop before the server failed. *)
Theorem process_exits ver args getenv signal fate (w : World E StartEvent) :
  (forall d, signal = Some d -> exists evs calls code,
     process_ends ver args getenv signal fate w evs calls code) /\
  (forall evs calls code, process_ends ver args getenv signal fate w evs calls code ->
     (code = 0 \/ code = 1)%Z
     /\ (forall pre ev post, evs = pre ++ ev :: post -> opened ev -> post = [] /\ unopened pre
          /\ exists c services n a, startable c /\ registered c services
               /\ Network c = Ok (n, a) /\ ev = EvSocket (SListen n a None))
     /\ (calls <> [] -> code = 0%Z /\ Exists opened evs)
     /\ (forall e, Parse ver args (Some getenv) getenv = Err e -> evs = [] /\ calls = []
          /\ (code = 0%Z <-> Is e ErrHelp = true \/ Is e ErrVersionRequested = true))).
Proof.
  destruct (wp_start ver (NotifyContext signal) args getenv w) as (r & w' & evs0 & Hstart & Ht & _ & Ho).
  split.
  - intros d ->. destruct r as [[services listener]|e].
    + destruct (serve_returns (clock w') fate d) as (t & calls & r & Hs).
      exists evs0, calls, (exit_code (err_of r)). by eapply process_served.
    + exists evs0, [], (exit_code (Some e)). by eapply process_refused.
  - intros evs calls code Hp. assert (forall o, exit_code o = 0 \/ exit_code o = 1)%Z as Hcode.
    { intros [e|]; simpl; [destruct (_ || _)|]; auto. }
    assert (evs = evs0 /\ match r with
      | Err e => calls = [] /\ code = exit_code (Some e)
      | Ok _ => exists t r', serve_ends (clock w') signal fate t calls r' /\ code = exit_code (err_of r') end) as [-> Hr].
    { destruct Hp as [e w2 evs Hs Ht2|services listener w2 evs t calls r' Hs Ht2 Hend];
        rewrite Hstart in Hs; simplify_eq; rewrite Ht in Ht2; apply app_inv_head in Ht2 as ->; eauto 10. }
    clear Hp. split_and!.
    + destruct r; [destruct Hr as (t & r' & _ & ->)|destruct Hr as [_ ->]]; apply Hcode.
    + intros pre ev post Heq Hev. by apply (start_opened r _ pre ev post Ho).
    + intros Hcalls. destruct r as [[services listener]|e]; [|by destruct Hr].
      destruct Hr as (t & r' & Hend & ->). split; [by rewrite (serve_called _ _ _ _ _ _ Hend Hcalls)|].
      inversion Ho; subst. apply Exists_app. right. by constructor.
    + intros e He. rewrite (start_unparsed _ _ _ _ _ _ He) in Hstart. simplify_eq. simpl in Ht.
      rewrite app_nil_r in Ht.
      destruct Hr as [-> ->]. rewrite <-(app_nil_r (trace w)) in Ht at 1. apply app_inv_head in Ht as <-.
      split_and!; [done..|]. simpl. destruct (Is e ErrHelp), (Is e ErrVersionRequested); simpl; split; auto; intros; destruct_or?; done.
Qed.
End Facts.
