(* ===== verification/Reclaim.v ===== *)
(** * Reclaiming what a test run created (test/e2e/reclaim/reclaim.go)

    The reduction of a run's ledger to the volumes teardown deletes, and the loop that
    deletes them. *)

From S2P Require Import Prelude GoStrings GoErrors Runtime.

Local Open Scope stdpp_scope.
Local Open Scope go_scope.

(** ** Data *)

(** type ResourceKind string. *)
Definition ResourceKind : Type := string.
Definition ResourceVolume : ResourceKind := "volume".
Definition ResourceAttachment : ResourceKind := "attachment".

(** A line of the ledger; [en_At] is the instant it was committed. *)
Record Entry := mkEntry {
  en_Kind : ResourceKind; en_Name : string; en_VolumeID : string; en_ServerID : string;
  en_At : Z }.

(** A map[string]bool; a key it lacks reads false. *)
Abbreviation flags := (gmap string bool).
Definition flagged (m : flags) (k : string) : bool := default false (m !! k).

(** A map[string]int; a key it lacks reads 0. *)
Abbreviation counts := (gmap string nat).
Definition count_of (m : counts) (k : string) : nat := default 0%nat (m !! k).
Definition increment (k : string) (m : counts) : counts := <[k := S (count_of m k)]> m.

(** ** ReclaimableEntries *)

Record scan := mkScan {
  sc_out : list Entry; sc_seen : flags; sc_reservations : counts; sc_observations : counts }.

(** One turn of the first loop. *)
Definition id_step (preexisting : flags) (s : scan) (entry : Entry) : scan :=
  if negb (bool_decide (en_Kind entry = ResourceVolume)) then s else
  if decide (en_VolumeID entry = "") then
    mkScan (sc_out s) (sc_seen s) (increment (en_Name entry) (sc_reservations s)) (sc_observations s)
  else
  let observations := increment (en_Name entry) (sc_observations s) in
  if flagged (sc_seen s) (en_VolumeID entry) || flagged preexisting (en_VolumeID entry)
  then mkScan (sc_out s) (sc_seen s) (sc_reservations s) observations
  else mkScan (sc_out s ++ [entry]) (<[en_VolumeID entry := true]> (sc_seen s))
         (sc_reservations s) observations.

(** One turn of the second loop: the output and the names seen. *)
Definition name_step (reservations observations : counts) (s : list Entry * flags) (entry : Entry) :
    list Entry * flags :=
  let '(out, seenName) := s in
  if negb (bool_decide (en_Kind entry = ResourceVolume)) || negb (bool_decide (en_VolumeID entry = ""))
  then s else
  if (count_of reservations (en_Name entry) <=? count_of observations (en_Name entry))%nat
     || flagged seenName (en_Name entry)
  then s
  else (out ++ [entry], <[en_Name entry := true]> seenName).

Definition ReclaimableEntries (entries : list Entry) (preexisting : flags) : list Entry :=
  let s := fold_left (id_step preexisting) entries (mkScan [] ∅ ∅ ∅) in
  (fold_left (name_step (sc_reservations s) (sc_observations s)) entries (sc_out s, ∅)).1.

(** ** MergeReclamationIDs *)

(** Scheduling one identifier: skipped when it was there before the run or is scheduled. *)
Definition schedule (preexisting : flags) (s : list string * flags) (id : string) : list string * flags :=
  let '(ids, seen) := s in
  if flagged preexisting id || flagged seen id then s else (ids ++ [id], <[id := true]> seen).

Definition merge_step (resolved : gmap string (list string)) (preexisting : flags)
    (s : list string * flags) (entry : Entry) : list string * flags :=
  if negb (bool_decide (en_VolumeID entry = "")) then schedule preexisting s (en_VolumeID entry)
  else fold_left (schedule preexisting) (default [] (resolved !! en_Name entry)) s.

Definition MergeReclamationIDs (entries : list Entry) (resolved : gmap string (list string))
    (preexisting : flags) : list string :=
  (fold_left (merge_step resolved preexisting) entries ([], ∅)).1.

(** ** RunCleanupEffects *)

Section Effects.
Context {E L : Type}.
Variable effect : GoContext -> string -> M E L (option gerror).

Fixpoint RunCleanupEffects (ctx : GoContext) (ids : list string) : M E L (list gerror) :=
  match ids with
  | [] => ret []
  | id :: ids =>
      let! err := ctx_err ctx in
      match err with
      | Some err => ret [err]
      | None =>
          let! err := effect ctx id in
          let! failures := RunCleanupEffects ctx ids in
          ret (match err with Some err => err :: failures | None => failures end)
      end
  end.
End Effects.

(** ** Facts *)

Definition is_volume (e : Entry) : bool := bool_decide (en_Kind e = ResourceVolume).

(** How often a name was reserved, and how often it was identified. *)
Definition reserved (name : string) (entries : list Entry) : nat :=
  length (List.filter (fun e => is_volume e && bool_decide (en_VolumeID e = "")
                          && bool_decide (en_Name e = name)) entries).
Definition observed (name : string) (entries : list Entry) : nat :=
  length (List.filter (fun e => is_volume e && negb (bool_decide (en_VolumeID e = ""))
                          && bool_decide (en_Name e = name)) entries).

Lemma count_increment k k' m :
  count_of (increment k m) k' = (count_of m k' + if decide (k = k') then 1 else 0)%nat.
Proof.
  unfold increment, count_of. destruct (decide (k = k')) as [->|Hk].
  - rewrite lookup_insert, decide_True by done. simpl. lia.
  - rewrite lookup_insert_ne by done. lia.
Qed.

Lemma flagged_insert k k' m : flagged (<[k := true]> m) k' = bool_decide (k = k') || flagged m k'.
Proof.
  unfold flagged. destruct (decide (k = k')) as [->|Hk].
  - by rewrite lookup_insert, decide_True, bool_decide_true.
  - by rewrite lookup_insert_ne, bool_decide_false.
Qed.

(** *** The first loop *)

Record scan_ok (preexisting : flags) (done_ : list Entry) (s : scan) : Prop := {
  ok_reserved n : count_of (sc_reservations s) n = reserved n done_;
  ok_observed n : count_of (sc_observations s) n = observed n done_;
  ok_seen id : flagged (sc_seen s) id = true <-> id ∈ map en_VolumeID (sc_out s);
  ok_nodup : NoDup (map en_VolumeID (sc_out s));
  ok_sound e : e ∈ sc_out s -> e ∈ done_ /\ en_Kind e = ResourceVolume /\ en_VolumeID e <> ""
    /\ flagged preexisting (en_VolumeID e) = false;
  ok_complete e : e ∈ done_ -> en_Kind e = ResourceVolume -> en_VolumeID e <> "" ->
    flagged preexisting (en_VolumeID e) = false -> en_VolumeID e ∈ map en_VolumeID (sc_out s) }.

Lemma reserved_app n l e :
  reserved n (l ++ [e]) = (reserved n l + if is_volume e && bool_decide (en_VolumeID e = "")
                             && bool_decide (en_Name e = n) then 1 else 0)%nat.
Proof. unfold reserved. rewrite List.filter_app, length_app. simpl. by case_match. Qed.

Lemma observed_app n l e :
  observed n (l ++ [e]) = (observed n l + if is_volume e && negb (bool_decide (en_VolumeID e = ""))
                             && bool_decide (en_Name e = n) then 1 else 0)%nat.
Proof. unfold observed. rewrite List.filter_app, length_app. simpl. by case_match. Qed.

Lemma id_step_ok preexisting done_ s e :
  scan_ok preexisting done_ s -> scan_ok preexisting (done_ ++ [e]) (id_step preexisting s e).
Proof.
  intros [Hr Ho Hs Hn Hsound Hc]. unfold id_step.
  pose proof (fun n => reserved_app n done_ e) as HR. pose proof (fun n => observed_app n done_ e) as HO.
  unfold is_volume in HR, HO. case_bool_decide as Hk; cbn [negb].
  2: { split; [intros n; rewrite Hr, HR; simpl; lia|intros n; rewrite Ho, HO; simpl; lia|done|done| |].
       - intros x Hx. rewrite elem_of_snoc. destruct (Hsound x Hx) as (? & ?). auto.
       - intros x [Hx| ->]%elem_of_snoc; [auto|done]. }
  destruct (decide (en_VolumeID e = "")) as [Hv|Hv].
  { split; simpl; [| |done|done| |].
    - intros n. rewrite count_increment, Hr, HR, (bool_decide_true (en_VolumeID e = "")) by done.
      simpl. by destruct (decide _), (bool_decide_reflect (en_Name e = n)).
    - intros n. rewrite Ho, HO, (bool_decide_true (en_VolumeID e = "")) by done. simpl. lia.
    - intros x Hx. rewrite elem_of_snoc. destruct (Hsound x Hx) as (? & ?). auto.
    - intros x [Hx| ->]%elem_of_snoc; [auto|done]. }
  assert (forall n, count_of (increment (en_Name e) (sc_observations s)) n = observed n (done_ ++ [e])) as Hobs.
  { intros n. rewrite count_increment, Ho, HO, (bool_decide_false (en_VolumeID e = "")) by done.
    simpl. by destruct (decide _), (bool_decide_reflect (en_Name e = n)). }
  assert (forall n, count_of (sc_reservations s) n = reserved n (done_ ++ [e])) as Hres.
  { intros n. rewrite Hr, HR, (bool_decide_false (en_VolumeID e = "")) by done. simpl. lia. }
  destruct (flagged (sc_seen s) (en_VolumeID e) || flagged preexisting (en_VolumeID e)) eqn:Eskip.
  - split; simpl; [done..| |].
    + intros x Hx. rewrite elem_of_snoc. destruct (Hsound x Hx) as (? & ?). auto.
    + intros x [Hx| ->]%elem_of_snoc; [auto|]. intros _ _ Hpre. apply Hs.
      rewrite Hpre, orb_false_r in Eskip. done.
  - apply orb_false_iff in Eskip as [Enew Epre].
    assert (en_VolumeID e ∉ map en_VolumeID (sc_out s)) as Hnew by (rewrite <-Hs; congruence).
    split; simpl; [done|done|..].
    + intros id. rewrite flagged_insert, map_app, orb_true_iff, bool_decide_eq_true. simpl.
      rewrite elem_of_snoc, <-Hs. naive_solver.
    + rewrite map_app. by apply NoDup_snoc.
    + intros x [Hx| ->]%elem_of_snoc; rewrite elem_of_snoc; [|auto]. destruct (Hsound x Hx) as (? & ?). auto.
    + intros x [Hx| ->]%elem_of_snoc ? ? ?; rewrite map_app; simpl; rewrite elem_of_snoc; auto.
Qed.

Lemma scan_entries_ok preexisting entries :
  scan_ok preexisting entries (fold_left (id_step preexisting) entries (mkScan [] ∅ ∅ ∅)).
Proof.
  induction entries as [|e entries IH] using rev_ind.
  - split; simpl; try done; try (intros x Hx; by apply elem_of_nil in Hx); [|constructor].
    intros id. rewrite elem_of_nil. unfold flagged. by rewrite lookup_empty.
  - rewrite fold_left_app. simpl. by apply id_step_ok.
Qed.

(** *** The second loop: one name-only row per name reserved more often than identified *)

Record rows_ok (due : string -> bool) (done_ rows : list Entry) (seenName : flags) : Prop := {
  rows_seen n : flagged seenName n = true <-> n ∈ map en_Name rows;
  rows_nodup : NoDup (map en_Name rows);
  rows_sound e : e ∈ rows -> e ∈ done_ /\ en_Kind e = ResourceVolume /\ en_VolumeID e = ""
    /\ due (en_Name e) = true;
  rows_complete e : e ∈ done_ -> en_Kind e = ResourceVolume -> en_VolumeID e = "" ->
    due (en_Name e) = true -> en_Name e ∈ map en_Name rows }.

Definition due_name (reservations observations : counts) (n : string) : bool :=
  (count_of observations n <? count_of reservations n)%nat.

Lemma name_step_ok res obs done_ ids rows seenName e :
  rows_ok (due_name res obs) done_ rows seenName ->
  exists rows' seenName', name_step res obs (ids ++ rows, seenName) e = (ids ++ rows', seenName')
    /\ rows_ok (due_name res obs) (done_ ++ [e]) rows' seenName'.
Proof.
  intros [Hs Hn Hsound Hc]. unfold name_step.
  assert (forall x, x ∈ rows -> x ∈ done_ ++ [e] /\ en_Kind x = ResourceVolume /\ en_VolumeID x = ""
    /\ due_name res obs (en_Name x) = true) as Hsound'.
  { intros x Hx. rewrite elem_of_snoc. destruct (Hsound x Hx) as (? & ?). auto. }
  case_bool_decide as Hk; cbn [negb orb].
  2: { exists rows, seenName. split; [done|split; try done]. intros x [Hx| ->]%elem_of_snoc; [auto|done]. }
  case_bool_decide as Hv; cbn [negb orb].
  2: { exists rows, seenName. split; [done|split; try done]. intros x [Hx| ->]%elem_of_snoc; [auto|done]. }
  rewrite Nat.leb_antisym. fold (due_name res obs (en_Name e)).
  destruct (negb (due_name res obs (en_Name e)) || flagged seenName (en_Name e)) eqn:Eskip.
  - exists rows, seenName. split; [done|split; try done].
    intros x [Hx| ->]%elem_of_snoc; [auto|]. intros _ _ Hdue. apply Hs.
    rewrite Hdue in Eskip. done.
  - apply orb_false_iff in Eskip as [Edue%negb_false_iff Enew].
    assert (en_Name e ∉ map en_Name rows) as Hnew by (rewrite <-Hs; congruence).
    exists (rows ++ [e]), (<[en_Name e := true]> seenName). split; [by rewrite app_assoc|]. split.
    + intros n. rewrite flagged_insert, map_app, orb_true_iff, bool_decide_eq_true. simpl.
      rewrite elem_of_snoc, <-Hs. naive_solver.
    + rewrite map_app. by apply NoDup_snoc.
    + intros x [Hx| ->]%elem_of_snoc; [auto|]. rewrite elem_of_snoc. auto.
    + intros x [Hx| ->]%elem_of_snoc ? ? ?; rewrite map_app; simpl; rewrite elem_of_snoc; auto.
Qed.

Lemma name_rows_ok res obs ids entries :
  exists rows seenName, fold_left (name_step res obs) entries (ids, ∅) = (ids ++ rows, seenName)
    /\ rows_ok (due_name res obs) entries rows seenName.
Proof.
  induction entries as [|e entries IH] using rev_ind.
  - exists [], ∅. rewrite app_nil_r. split; [done|]. split; simpl.
    + intros n. rewrite elem_of_nil. unfold flagged. by rewrite lookup_empty.
    + constructor.
    + intros e He. by apply elem_of_nil in He.
    + intros e He. by apply elem_of_nil in He.
  - destruct IH as (rows & seenName & IH & Hok). rewrite fold_left_app, IH. simpl.
    by apply name_step_ok.
Qed.

(** What [ReclaimableEntries] answers: identified rows, then name-only rows. *)
Lemma ReclaimableEntries_rows entries preexisting :
  exists ids rows seenName, ReclaimableEntries entries preexisting = ids ++ rows
    /\ NoDup (map en_VolumeID ids)
    /\ (forall e, e ∈ ids -> e ∈ entries /\ en_Kind e = ResourceVolume /\ en_VolumeID e <> ""
          /\ flagged preexisting (en_VolumeID e) = false)
    /\ (forall e, e ∈ entries -> en_Kind e = ResourceVolume -> en_VolumeID e <> "" ->
          flagged preexisting (en_VolumeID e) = false -> en_VolumeID e ∈ map en_VolumeID ids)
    /\ rows_ok (fun n => (observed n entries <? reserved n entries)%nat) entries rows seenName.
Proof.
  unfold ReclaimableEntries. destruct (scan_entries_ok preexisting entries) as [Hr Ho _ Hn Hsound Hc].
  set (s := fold_left (id_step preexisting) entries _) in *.
  destruct (name_rows_ok (sc_reservations s) (sc_observations s) (sc_out s) entries)
    as (rows & seenName & -> & Hrows).
  exists (sc_out s), rows, seenName. do 4 (split; [done|]). destruct Hrows as [? ? Hs' Hc'].
  unfold due_name in *. split; [done|done|..].
  - intros e He. rewrite <-Hr, <-Ho. auto.
  - intros e He. rewrite <-Hr, <-Ho. auto.
Qed.

(** *** Merging *)

(** The identifiers one row contributes. *)
Definition candidates (resolved : gmap string (list string)) (e : Entry) : list string :=
  if bool_decide (en_VolumeID e = "") then default [] (resolved !! en_Name e) else [en_VolumeID e].

Lemma merge_flat resolved preexisting entries s :
  fold_left (merge_step resolved preexisting) entries s =
  fold_left (schedule preexisting) (flat_map (candidates resolved) entries) s.
Proof.
  revert s. induction entries as [|e entries IH]; intros s; [done|]. simpl.
  rewrite fold_left_app, IH. unfold merge_step, candidates. by case_bool_decide.
Qed.

Lemma schedule_all preexisting l ids seen :
  (forall id, flagged seen id = true <-> id ∈ ids) -> NoDup ids ->
  let out := (fold_left (schedule preexisting) l (ids, seen)).1 in
  NoDup out /\ forall id, id ∈ out <-> id ∈ ids \/ id ∈ l /\ flagged preexisting id = false.
Proof.
  revert ids seen. induction l as [|x l IH]; intros ids seen Hseen Hn; simpl.
  { split; [done|]. intros id. rewrite elem_of_nil. tauto. }
  destruct (flagged preexisting x || flagged seen x) eqn:Eskip.
  - destruct (IH ids seen Hseen Hn) as [? Hin]. split; [done|]. intros id. rewrite Hin, elem_of_cons.
    split; [tauto|]. intros [?|[[->|?] Hp]]; [tauto| |tauto]. left. apply Hseen.
    by rewrite Hp in Eskip.
  - apply orb_false_iff in Eskip as [Hp Hx]. destruct (IH (ids ++ [x]) (<[x := true]> seen)) as [? Hin].
    + intros id. rewrite flagged_insert, orb_true_iff, bool_decide_eq_true, elem_of_snoc, Hseen.
      naive_solver.
    + apply NoDup_snoc; [done|]. rewrite <-Hseen. congruence.
    + split; [done|]. intros id. rewrite Hin, elem_of_snoc, elem_of_cons. naive_solver.
Qed.

Lemma MergeReclamationIDs_spec entries resolved preexisting :
  NoDup (MergeReclamationIDs entries resolved preexisting) /\
  forall id, id ∈ MergeReclamationIDs entries resolved preexisting <->
    flagged preexisting id = false /\ exists e, e ∈ entries /\ id ∈ candidates resolved e.
Proof.
  unfold MergeReclamationIDs. rewrite merge_flat.
  destruct (schedule_all preexisting (flat_map (candidates resolved) entries) [] ∅) as [Hn Hin].
  - intros id. rewrite elem_of_nil. unfold flagged. by rewrite lookup_empty.
  - constructor.
  - split; [done|]. intros id. rewrite Hin, elem_of_nil, list_elem_of_In, in_flat_map.
    setoid_rewrite <-list_elem_of_In. naive_solver.
Qed.

Lemma reserved_row n entries :
  (0 < reserved n entries)%nat ->
  exists e, e ∈ entries /\ en_Kind e = ResourceVolume /\ en_VolumeID e = "" /\ en_Name e = n.
Proof.
  unfold reserved. intros H.
  destruct (List.filter _ entries) as [|e l] eqn:Ef; [simpl in H; lia|].
  assert (e ∈ e :: l) as He by constructor. rewrite <-Ef, list_elem_of_In, filter_In in He.
  destruct He as [He%list_elem_of_In Hp]. unfold is_volume in Hp.
  rewrite !andb_true_iff, !bool_decide_eq_true in Hp. exists e. tauto.
Qed.

(** C40. Teardown visits exactly what the run left: every identifier is scheduled once, and
    it is scheduled if and only if the preflight snapshot did not show it and either a
    volume row of the ledger recorded it, or it carries a name that was reserved more often
    than it was identified (an interrupted create). *)
Theorem cleanup_exact entries resolved preexisting :
  let ids := MergeReclamationIDs (ReclaimableEntries entries preexisting) resolved preexisting in
  NoDup ids /\
  forall id, id ∈ ids <->
    flagged preexisting id = false /\
    ((exists e, e ∈ entries /\ en_Kind e = ResourceVolume /\ en_VolumeID e = id /\ id <> "") \/
     (exists n, (observed n entries < reserved n entries)%nat /\ id ∈ default [] (resolved !! n))).
Proof.
  cbv zeta. destruct (ReclaimableEntries_rows entries preexisting)
    as (idrows & rows & seenName & -> & _ & Hsound & Hc & [_ _ Hrs Hrc]).
  destruct (MergeReclamationIDs_spec (idrows ++ rows) resolved preexisting) as [Hn Hin].
  split; [done|]. intros id. rewrite Hin.
  split; intros [Hpre H]; (split; [done|]).
  - destruct H as (e & [He|He]%elem_of_app & Hcand); unfold candidates in Hcand.
    + destruct (Hsound e He) as (? & ? & Hne & _). rewrite bool_decide_false in Hcand by done.
      apply list_elem_of_singleton in Hcand as ->. left. by exists e.
    + destruct (Hrs e He) as (? & ? & Hv & Hdue%Nat.ltb_lt). rewrite bool_decide_true in Hcand by done.
      right. by exists (en_Name e).
  - destruct H as [(e & He & Hk & <- & Hne)|(n & Hdue & Hid)].
    + specialize (Hc e He Hk Hne Hpre). apply list_elem_of_In, in_map_iff in Hc as (x & Hx & Hin'%list_elem_of_In).
      exists x. split; [by apply elem_of_app; left|]. unfold candidates. rewrite Hx, bool_decide_false by done.
      by apply list_elem_of_singleton.
    + destruct (reserved_row n entries) as (e & He & Hk & Hv & <-); [lia|].
      specialize (Hrc e He Hk Hv (proj2 (Nat.ltb_lt _ _) Hdue)).
      apply list_elem_of_In, in_map_iff in Hrc as (x & Hx & Hin'%list_elem_of_In).
      exists x. split; [by apply elem_of_app; right|]. unfold candidates.
      destruct (Hrs x Hin') as (_ & _ & Hvx & _). by rewrite bool_decide_true, Hx.
Qed.

(** ** Running the cleanup *)

Section Cleanup.
Context {E : Type}.
Variable delete : string -> Z -> E -> N * option gerror * E.

(** An effect that leaves its identifier and its outcome in the trace. *)
Definition traced (_ : GoContext) (id : string) : M E (string * option gerror) (option gerror) :=
  call (delete id) (pair id).

(** Cleanup deletes in order and hides no failure: the effects started are those of a
    prefix of the identifiers, every error one of them returned is in the answer in order,
    and a prefix that is not the whole list ends because the context was done, whose error
    the answer then carries last. *)
Theorem cleanup_complete ctx ids w :
  wp (RunCleanupEffects traced ctx ids) (fun failures evs w' =>
    exists n, map fst evs = take n ids /\
      ((n = length ids /\ failures = omap snd evs) \/
       ((n < length ids)%nat /\ exists err, ctx_err_at ctx (clock w') = Some err
          /\ failures = omap snd evs ++ [err]))) w.
Proof.
  revert w. induction ids as [|id ids IH]; intros w; simpl.
  { wp_step. exists 0%nat. simpl. auto. }
  wp_step. wp_step. destruct (ctx_err_at ctx (clock w)) as [err|] eqn:Eerr.
  { wp_step. exists 0%nat. simpl. split; [done|]. right. split; [lia|]. by exists err. }
  wp_step. unfold traced at 1. apply wp_call. intros err w1 _. wp_step.
  eapply wp_mono; [apply IH|]. intros failures evs w' _ (n & Hevs & H). wp_step. simpl.
  exists (S n). simpl. rewrite Hevs. split; [done|].
  destruct H as [[-> ->]|(? & e & ? & ->)]; [left|right; split; [lia|exists e; split; [done|]]];
    by destruct err.
Qed.
End Cleanup.
