(* ===== verification/Catalogue.v ===== *)
(** * The catalogue of the live proof asset (test/e2e/catalogue/catalogue.go)

    What a run of the end-to-end asset checks: the obligations in the order a full run
    reaches them, their lookup, their selection by audience and their printed list. A
    function that prints is the list of its writes: each write is followed by a test of
    its error, so that the writes of a failed call are a prefix of the list. *)

From S2P Require Import Prelude GoStrings GoTabwriter.

Local Open Scope stdpp_scope.

(** ** Data *)

(** settings.Profile and its two values. *)
Definition Profile : Type := string.
Definition ProfileEvaluation : Profile := "evaluation".
Definition ProfileProof : Profile := "proof".

Definition CheckID : Type := string.

Definition CheckTier : Type := string.
Definition TierForceable : CheckTier := "forceable".
Definition TierAuthorized : CheckTier := "authorized".
Definition TierOpportunistic : CheckTier := "opportunistic".
Definition TierNotForceable : CheckTier := "not forceable".

Record Check := mkCheck {
  ck_ID : CheckID; ck_Group : string; ck_Tier : CheckTier; ck_Profiles : list Profile;
  ck_Statement : string; ck_ProofRoute : string }.

Definition evaluationAndProof : list Profile := [ProfileEvaluation; ProfileProof].
Definition proofOnly : list Profile := [ProfileProof].

(** Check identifiers. *)
Definition CheckAttachmentNamesThisServer : CheckID := "attachment-names-this-server".
Definition CheckAttachedStateExplained : CheckID := "attached-volume-state-explained".
Definition CheckGuestExposesNamedDevice : CheckID := "guest-exposes-named-device".
Definition CheckStableLinkAgrees : CheckID := "stable-link-agrees-with-attachment".
Definition CheckBothBusNamings : CheckID := "both-bus-namings-observed".
Definition CheckRepeatedAttachIdempotent : CheckID := "repeated-attach-is-idempotent".
Definition CheckClassifiedFailureNoSecret : CheckID := "classified-failure-carries-no-credential".
Definition CheckCancellationReachesWire : CheckID := "cancellation-reaches-work-on-the-wire".
Definition CheckExt4LifecycleCompletes : CheckID := "ext4-lifecycle-completes".
Definition CheckXFSLifecycleCompletes : CheckID := "xfs-lifecycle-completes".
Definition CheckBlockLifecycleCompletes : CheckID := "block-lifecycle-completes".
Definition CheckNodeIdentityFromMetadata : CheckID := "node-identity-from-metadata".
Definition CheckControllerServesIdentity : CheckID := "controller-serves-identity".
Definition CheckControllerServesController : CheckID := "controller-serves-controller-surface".
Definition CheckControllerServesNoNode : CheckID := "controller-serves-no-node-surface".
Definition CheckMarkerOnDetailSurface : CheckID := "marker-on-detail-surface".
Definition CheckMarkerOnListSurface : CheckID := "marker-on-list-surface".
Definition CheckOffsetPagingAdvances : CheckID := "offset-paging-advances".
Definition CheckUnmarkedNotAdopted : CheckID := "unmarked-same-name-not-adopted".
Definition CheckIncompatibleRefused : CheckID := "incompatible-same-name-refused".
Definition CheckDuplicateIsDeterministic : CheckID := "duplicate-name-is-deterministic".
Definition CheckDeletingNotAdopted : CheckID := "deleting-volume-not-adopted".
Definition CheckLaterPageRevealsCandidate : CheckID := "later-page-reveals-candidate".
Definition CheckNoCallerValueInTags : CheckID := "no-caller-value-in-tags-or-metadata".
Definition CheckUnmarkedDeletionRefused : CheckID := "unmarked-deletion-refused".
Definition CheckAbsentDeletionReported : CheckID := "absent-deletion-reports-absence".
Definition CheckInFlightDeletionObserved : CheckID := "in-flight-deletion-observed".
Definition CheckFailedDeletionReported : CheckID := "failed-deletion-reported-as-failure".
Definition CheckAbsenceNeverArrives : CheckID := "absence-never-arrives-reported-as-failure".

(** Group names. *)
Definition GroupAttachment : string := "attachment handoff".
Definition GroupCancellation : string := "attachment cancellation".
Definition GroupLifecycle : string := "volume lifecycle".
Definition GroupStartup : string := "role startup".
Definition GroupContract : string := "volume contract".
Definition GroupDeletion : string := "volume deletion".

(** Every obligation, groups contiguous. *)
Definition checks : list Check :=
  [mkCheck CheckAttachmentNamesThisServer GroupAttachment TierForceable evaluationAndProof
     "an attachment reports the volume, the server the run executes on and a device name"
     "";
   mkCheck CheckAttachedStateExplained GroupAttachment TierForceable evaluationAndProof
     "the cloud reports a volume state the attachment explains"
     "";
   mkCheck CheckGuestExposesNamedDevice GroupAttachment TierForceable evaluationAndProof
     "the guest exposes a block device under the name the cloud reported"
     "";
   mkCheck CheckStableLinkAgrees GroupAttachment TierForceable evaluationAndProof
     "a stable link names the attached volume and resolves to the same kernel device the cloud named"
     "";
   mkCheck CheckBothBusNamings GroupAttachment TierOpportunistic evaluationAndProof
     "both bus namings are observed, which one instance can show only when it exposes both disk buses"
     "";
   mkCheck CheckRepeatedAttachIdempotent GroupAttachment TierForceable evaluationAndProof
     "attaching an already-attached volume returns the same descriptor"
     "";
   mkCheck CheckClassifiedFailureNoSecret GroupCancellation TierForceable proofOnly
     "a classified cloud failure carries a matchable sentinel and no credential"
     "";
   mkCheck CheckCancellationReachesWire GroupCancellation TierOpportunistic proofOnly
     "canceling reaches work already on the wire. Re-issuing the request reconciles without creating a second attach"
     "";
   mkCheck CheckExt4LifecycleCompletes GroupLifecycle TierForceable evaluationAndProof
     "a mounted ext4 volume completes create, attach, stage, publish, read back and teardown. Every idempotent call repeats safely"
     "";
   mkCheck CheckXFSLifecycleCompletes GroupLifecycle TierForceable evaluationAndProof
     "a mounted xfs volume completes the same lifecycle"
     "";
   mkCheck CheckBlockLifecycleCompletes GroupLifecycle TierForceable evaluationAndProof
     "a raw block volume completes the same lifecycle and publishes a block device and not a filesystem"
     "";
   mkCheck CheckNodeIdentityFromMetadata GroupStartup TierForceable evaluationAndProof
     "the node role resolves its node identity and zone from the metadata service"
     "";
   mkCheck CheckControllerServesIdentity GroupStartup TierForceable evaluationAndProof
     "the controller role serves its identity once authentication succeeded"
     "";
   mkCheck CheckControllerServesController GroupStartup TierForceable evaluationAndProof
     "the controller role serves the controller surface"
     "";
   mkCheck CheckControllerServesNoNode GroupStartup TierForceable evaluationAndProof
     "the controller role serves no node surface"
     "";
   mkCheck CheckMarkerOnDetailSurface GroupContract TierForceable proofOnly
     "the ownership marker is accepted and returned on the volume detail surface"
     "";
   mkCheck CheckMarkerOnListSurface GroupContract TierForceable proofOnly
     "the ownership marker is returned on the discovery list surface"
     "";
   mkCheck CheckOffsetPagingAdvances GroupContract TierForceable proofOnly
     "offset paging advances between pages and does not repeat a page"
     "";
   mkCheck CheckUnmarkedNotAdopted GroupContract TierForceable proofOnly
     "an unmarked volume of the same name is neither adopted nor modified"
     "";
   mkCheck CheckIncompatibleRefused GroupContract TierForceable proofOnly
     "a marked but incompatible volume of the same name is refused and left intact"
     "";
   mkCheck CheckDuplicateIsDeterministic GroupContract TierForceable proofOnly
     "two candidates of the same name produce one deterministic answer"
     "";
   mkCheck CheckDeletingNotAdopted GroupContract TierOpportunistic proofOnly
     "a volume being deleted is not adopted, which a run can show only while that transient state lasts"
     "";
   mkCheck CheckLaterPageRevealsCandidate GroupContract TierAuthorized proofOnly
     "a candidate of the same name is still found on a later list page, which needs more volumes than one discovery page holds"
     "";
   mkCheck CheckNoCallerValueInTags GroupContract TierForceable proofOnly
     "no caller-supplied value reaches volume tags or metadata"
     "";
   mkCheck CheckUnmarkedDeletionRefused GroupDeletion TierForceable proofOnly
     "deleting an unmarked volume is refused and leaves it intact"
     "";
   mkCheck CheckAbsentDeletionReported GroupDeletion TierForceable proofOnly
     "deleting a volume that is already gone reports its absence"
     "";
   mkCheck CheckInFlightDeletionObserved GroupDeletion TierOpportunistic proofOnly
     "a deletion already in progress is observed and not re-issued, which a run can show only while that transient state lasts"
     "";
   mkCheck CheckFailedDeletionReported GroupDeletion TierNotForceable proofOnly
     "a terminally failed deletion is reported as a failure; neither the service nor a caller can produce that state on demand"
     "an offline HTTP transport script reports error_deleting, requires terminal failure and verifies that no destructive request is issued";
   mkCheck CheckAbsenceNeverArrives GroupDeletion TierNotForceable proofOnly
     "a deletion whose absence never arrives is reported as a failure; the service cannot be made to accept a deletion and then keep the volume"
     "an offline HTTP transport script accepts deletion, keeps reporting the volume present through the bounded observation attempts and requires terminal failure"].

(** ** Operations *)

Definition indexChecks (cat : list Check) : gmap string Check :=
  fold_left (fun byID entry => <[ck_ID entry := entry]> byID) cat ∅.

Definition checkIndex : gmap string Check := indexChecks checks.

(** A copy of an entry with its own slice of profiles. *)
Definition copyCheck (entry : Check) : Check :=
  mkCheck (ck_ID entry) (ck_Group entry) (ck_Tier entry) ([] ++ ck_Profiles entry)
    (ck_Statement entry) (ck_ProofRoute entry).

Definition LookupCheck (id : CheckID) : option Check :=
  match checkIndex !! id with
  | None => None
  | Some entry => Some (copyCheck entry)
  end.

Definition SelectCatalogue (p : Profile) : list Check :=
  flat_map (fun entry => if negb (bool_decide (p ∈ ck_Profiles entry)) then [] else [copyCheck entry]) checks.


Definition profileNames (profiles : list Profile) : string := Join profiles ", ".

(** The group names in order; a repeat of the last one is skipped. *)
Definition group_step (groups : list string) (entry : Check) : list string :=
  match list.last groups with
  | None => groups ++ [ck_Group entry]
  | Some g => if negb (bool_decide (g = ck_Group entry)) then groups ++ [ck_Group entry] else groups
  end.

Definition groupsOf (cat : list Check) : list string := fold_left group_step cat [].

(** The number of entries of a tier. *)
Definition tier_count (cat : list Check) (tier : CheckTier) : string :=
  itoa (Z.of_nat (length (List.filter (fun entry => bool_decide (ck_Tier entry = tier)) cat))).

Definition tab : string := String htab "".
Definition eol : string := String newline "".

Definition catalogue_row (i : nat) (entry : Check) : string :=
  itoa (Z.of_nat (i + 1)) +:+ tab +:+ ck_Group entry +:+ tab +:+ ck_ID entry +:+ tab
    +:+ profileNames (ck_Profiles entry) +:+ tab +:+ ck_Tier entry +:+ tab
    +:+ ck_Statement entry +:+ tab +:+ ck_ProofRoute entry +:+ eol.

Definition WriteCatalogue (cat : list Check) : list string :=
  [tabwriter (foldr String.append ""
     ([itoa (Z.of_nat (length cat)) +:+ " checks in " +:+ itoa (Z.of_nat (length (groupsOf cat)))
         +:+ " scenarios." +:+ eol +:+ eol;
       "#" +:+ tab +:+ "SCENARIO" +:+ tab +:+ "CHECK" +:+ tab +:+ "PROFILES" +:+ tab +:+ "REACHABLE" +:+ tab
         +:+ "WHAT IT DEMONSTRATES" +:+ tab +:+ "OFFLINE PROOF ROUTE" +:+ eol]
      ++ imap catalogue_row cat));
   eol +:+ tier_count cat TierForceable +:+ " reachable by any run, " +:+ tier_count cat TierAuthorized
     +:+ " once their cost is authorized, " +:+ tier_count cat TierOpportunistic
     +:+ " only when a transient state or the instance shape allows and "
     +:+ tier_count cat TierNotForceable +:+ " that no run of this asset can force." +:+ eol].

(** ** Facts *)

Lemma copyCheck_id entry : copyCheck entry = entry.
Proof. by destruct entry. Qed.

(** An index holds the last entry of each identifier. *)
Lemma index_fold cat (m : gmap string Check) (id : string) :
  fold_left (fun (byID : gmap string Check) entry => <[ck_ID entry : string := entry]> byID) cat m !! id =
  match find_first (fun c => bool_decide (ck_ID c = id)) (rev cat) with
  | Some c => Some c
  | None => m !! id
  end.
Proof.
  induction cat as [|c cat IH] using rev_ind; [done|].
  rewrite fold_left_app, rev_app_distr. simpl. case_bool_decide as Hid.
  - subst id. by rewrite lookup_insert, decide_True.
  - by rewrite lookup_insert_ne.
Qed.

Lemma checks_ids_NoDup : NoDup (map ck_ID checks).
Proof. apply (bool_decide_unpack _). by vm_compute. Qed.

(** Looking an identifier up answers an entry exactly when the catalogue lists that entry
    under it. *)
Lemma LookupCheck_exact id c : LookupCheck id = Some c <-> c ∈ checks /\ ck_ID c = id.
Proof.
  unfold LookupCheck, checkIndex, indexChecks. rewrite index_fold, lookup_empty.
  destruct (find_first _ (rev checks)) as [x|] eqn:Ef.
  - rewrite copyCheck_id. apply find_first_elem in Ef as (Hx & Hid%bool_decide_eq_true).
    apply list_elem_of_In, in_rev, list_elem_of_In in Hx. split; [intros [= <-]; done|].
    intros [Hc Hcid]. f_equal. apply (NoDup_map_elem ck_ID checks); [apply checks_ids_NoDup|done..|].
    by rewrite Hcid.
  - rewrite find_first_None, List.Forall_forall in Ef. split; [done|]. intros [Hc Hid].
    apply list_elem_of_In in Hc. specialize (Ef c). rewrite <-in_rev in Ef.
    specialize (Ef Hc). by rewrite bool_decide_eq_false in Ef.
Qed.

(** An entry as the report and the settings rely on it: named, grouped and stated in one
    line of plain cells, of a known tier, in the proof profile, and with an offline proof
    exactly when no run can force it. *)
Definition cell (s : string) : bool :=
  negb (contains_byte htab s) && negb (contains_byte newline s) && bool_decide (TrimSpace s = s).

Definition well_typed (c : Check) : bool :=
  negb (blank (ck_ID c)) && negb (blank (ck_Group c)) && negb (blank (ck_Statement c))
  && cell (ck_ID c) && cell (ck_Group c) && cell (ck_Statement c) && cell (ck_ProofRoute c)
  && bool_decide ((ck_Tier c : string) ∈ [TierForceable; TierAuthorized; TierOpportunistic; TierNotForceable])
  && (bool_decide (ck_Profiles c = evaluationAndProof) || bool_decide (ck_Profiles c = proofOnly))
  && bool_decide (ck_ProofRoute c <> "" <-> (ck_Tier c : string) = TierNotForceable).

(** Every entry of the table is as the report and the settings rely on it, and no group
    recurs. *)
Lemma checks_well_typed :
  Forall (fun c => well_typed c = true) checks /\ NoDup (groupsOf checks).
Proof.
  split; [|apply (bool_decide_unpack _); by vm_compute].
  repeat (constructor; [by vm_compute|]). constructor.
Qed.
