(* ===== verification/Settings.v ===== *)
(** * The settings of a run (test/e2e/settings/settings.go)

    Flags, then environment variables, then the defaults of the selected profile. The flags
    the test framework declares on the same flag set are not part of the repository: their
    declarations and the values they print are parameters. *)

From S2P Require Import Prelude GoStrings GoErrors Runtime GoTime GoTabwriter GoFlag Log EvsListing Catalogue.

Local Open Scope stdpp_scope.
Local Open Scope Z_scope.

(** ** Data *)

Definition ConformanceName : string := "t-cloud-csi-conformance".
Definition DefaultDriverBinary : string := "./t-cloud-csi-driver".

Definition EnvApprovedProjectID : string := "CSI_E2E_APPROVED_PROJECT_ID".
Definition EnvVolumeType : string := "CSI_E2E_VOLUME_TYPE".
Definition EnvDriverBinary : string := "CSI_E2E_DRIVER_BINARY".
Definition EnvEvidencePath : string := "CSI_E2E_EVIDENCE_PATH".
Definition EnvReportPath : string := "CSI_E2E_REPORT_PATH".
Definition EnvPagingVolumeCount : string := "CSI_E2E_PAGING_VOLUME_COUNT".
Definition EnvTimeBudget : string := "CSI_E2E_TIME_BUDGET".
Definition EnvTeardownBudget : string := "CSI_E2E_TEARDOWN_BUDGET".
Definition EnvStrict : string := "CSI_E2E_STRICT".

Definition ErrHelpRequested : sentinel := Sentinel "settings.ErrHelpRequested" "usage requested".

Record Settings := mkSettings {
  st_Profile : Profile; st_Approved : string; st_VolumeType : string; st_DriverBinary : string;
  st_EvidencePath : string; st_ReportPath : string; st_PagingVolumes : Z; st_TimeBudget : Z;
  st_TeardownBudget : Z; st_Strict : bool; st_ListChecks : bool; st_HelpAll : bool;
  st_ShowObservation : bool }.

Definition zero_settings : Settings := mkSettings "" "" "" "" "" "" 0 0 0 false false false false.

(** The fields a flag or a variable sets. *)
Definition with_Profile (v : string) (s : Settings) : Settings :=
  mkSettings v (st_Approved s) (st_VolumeType s) (st_DriverBinary s) (st_EvidencePath s) (st_ReportPath s)
    (st_PagingVolumes s) (st_TimeBudget s) (st_TeardownBudget s) (st_Strict s) (st_ListChecks s)
    (st_HelpAll s) (st_ShowObservation s).
Definition with_Approved (v : string) (s : Settings) : Settings :=
  mkSettings (st_Profile s) v (st_VolumeType s) (st_DriverBinary s) (st_EvidencePath s) (st_ReportPath s)
    (st_PagingVolumes s) (st_TimeBudget s) (st_TeardownBudget s) (st_Strict s) (st_ListChecks s)
    (st_HelpAll s) (st_ShowObservation s).
Definition with_VolumeType (v : string) (s : Settings) : Settings :=
  mkSettings (st_Profile s) (st_Approved s) v (st_DriverBinary s) (st_EvidencePath s) (st_ReportPath s)
    (st_PagingVolumes s) (st_TimeBudget s) (st_TeardownBudget s) (st_Strict s) (st_ListChecks s)
    (st_HelpAll s) (st_ShowObservation s).
Definition with_DriverBinary (v : string) (s : Settings) : Settings :=
  mkSettings (st_Profile s) (st_Approved s) (st_VolumeType s) v (st_EvidencePath s) (st_ReportPath s)
    (st_PagingVolumes s) (st_TimeBudget s) (st_TeardownBudget s) (st_Strict s) (st_ListChecks s)
    (st_HelpAll s) (st_ShowObservation s).
Definition with_EvidencePath (v : string) (s : Settings) : Settings :=
  mkSettings (st_Profile s) (st_Approved s) (st_VolumeType s) (st_DriverBinary s) v (st_ReportPath s)
    (st_PagingVolumes s) (st_TimeBudget s) (st_TeardownBudget s) (st_Strict s) (st_ListChecks s)
    (st_HelpAll s) (st_ShowObservation s).
Definition with_ReportPath (v : string) (s : Settings) : Settings :=
  mkSettings (st_Profile s) (st_Approved s) (st_VolumeType s) (st_DriverBinary s) (st_EvidencePath s) v
    (st_PagingVolumes s) (st_TimeBudget s) (st_TeardownBudget s) (st_Strict s) (st_ListChecks s)
    (st_HelpAll s) (st_ShowObservation s).
Definition with_PagingVolumes (v : Z) (s : Settings) : Settings :=
  mkSettings (st_Profile s) (st_Approved s) (st_VolumeType s) (st_DriverBinary s) (st_EvidencePath s)
    (st_ReportPath s) v (st_TimeBudget s) (st_TeardownBudget s) (st_Strict s) (st_ListChecks s)
    (st_HelpAll s) (st_ShowObservation s).
Definition with_TimeBudget (v : Z) (s : Settings) : Settings :=
  mkSettings (st_Profile s) (st_Approved s) (st_VolumeType s) (st_DriverBinary s) (st_EvidencePath s)
    (st_ReportPath s) (st_PagingVolumes s) v (st_TeardownBudget s) (st_Strict s) (st_ListChecks s)
    (st_HelpAll s) (st_ShowObservation s).
Definition with_TeardownBudget (v : Z) (s : Settings) : Settings :=
  mkSettings (st_Profile s) (st_Approved s) (st_VolumeType s) (st_DriverBinary s) (st_EvidencePath s)
    (st_ReportPath s) (st_PagingVolumes s) (st_TimeBudget s) v (st_Strict s) (st_ListChecks s)
    (st_HelpAll s) (st_ShowObservation s).
Definition with_Strict (v : bool) (s : Settings) : Settings :=
  mkSettings (st_Profile s) (st_Approved s) (st_VolumeType s) (st_DriverBinary s) (st_EvidencePath s)
    (st_ReportPath s) (st_PagingVolumes s) (st_TimeBudget s) (st_TeardownBudget s) v (st_ListChecks s)
    (st_HelpAll s) (st_ShowObservation s).
Definition with_ListChecks (v : bool) (s : Settings) : Settings :=
  mkSettings (st_Profile s) (st_Approved s) (st_VolumeType s) (st_DriverBinary s) (st_EvidencePath s)
    (st_ReportPath s) (st_PagingVolumes s) (st_TimeBudget s) (st_TeardownBudget s) (st_Strict s) v
    (st_HelpAll s) (st_ShowObservation s).
Definition with_HelpAll (v : bool) (s : Settings) : Settings :=
  mkSettings (st_Profile s) (st_Approved s) (st_VolumeType s) (st_DriverBinary s) (st_EvidencePath s)
    (st_ReportPath s) (st_PagingVolumes s) (st_TimeBudget s) (st_TeardownBudget s) (st_Strict s)
    (st_ListChecks s) v (st_ShowObservation s).
Definition with_ShowObservation (v : bool) (s : Settings) : Settings :=
  mkSettings (st_Profile s) (st_Approved s) (st_VolumeType s) (st_DriverBinary s) (st_EvidencePath s)
    (st_ReportPath s) (st_PagingVolumes s) (st_TimeBudget s) (st_TeardownBudget s) (st_Strict s)
    (st_ListChecks s) (st_HelpAll s) v.

Record ProfileDefaults := mkProfileDefaults {
  pd_TimeBudget : Z; pd_TeardownBudget : Z; pd_ShowObservation : bool }.

Definition DefaultsFor (p : Profile) : ProfileDefaults :=
  if bool_decide (p = ProfileProof) then mkProfileDefaults (2 * Hour) (30 * Minute) true
  else mkProfileDefaults (45 * Minute) (30 * Minute) false.

(** ** Specifications of the settings

    [register] is the kind of the declared flag and [sp_apply] what its value does;
    [sp_applyEnv] is [None] for settings without a variable. *)
Record settingSpec := mkSpec {
  sp_flag : string; sp_env : string; sp_usage : string; sp_register : flag_kind;
  sp_apply : string -> Settings -> Settings;
  sp_applyEnv : option (string -> string -> Settings -> result Settings) }.

(** What flag.DurationVar declares. *)
Definition DurationFlag : flag_kind :=
  ValueFlag (fun s => match ParseDuration s with Some _ => None | None => Some "parse error" end).

Definition stringSetting (field : string -> Settings -> Settings) (name env usage : string) : settingSpec :=
  mkSpec name env usage StringFlag field (Some (fun _ raw set => Ok (field raw set))).

Definition durationSetting (field : Z -> Settings -> Settings) (name env usage : string) : settingSpec :=
  mkSpec name env usage DurationFlag
    (fun v => field (default 0 (ParseDuration v)))
    (Some (fun env raw set =>
       match ParseDuration raw with
       | None => Err (ENew (env +:+ " must be a duration such as 45m"))
       | Some parsed => Ok (field parsed set)
       end)).

Definition int_value (v : string) : Z := match ParseInt true v with inr n => n | inl _ => 0 end.

Definition settingSpecs : list settingSpec :=
  [mkSpec "profile" "" "required declared audience: evaluation or proof" StringFlag with_Profile None;
   stringSetting with_Approved "approved-project-id" EnvApprovedProjectID
     "the project this run may mutate; required";
   stringSetting with_VolumeType "volume-type" EnvVolumeType
     "the volume type to provision; required and regional";
   stringSetting with_DriverBinary "driver-binary" EnvDriverBinary
     ("the driver binary to drive; defaults to " +:+ DefaultDriverBinary);
   stringSetting with_EvidencePath "evidence-path" EnvEvidencePath
     "replace the run-identifier-named JSON evidence path";
   stringSetting with_ReportPath "report-path" EnvReportPath
     "write the readable report here instead of standard output";
   mkSpec "paging-volume-count" EnvPagingVolumeCount "authorize the one check that costs extra volumes"
     IntFlag (fun v => with_PagingVolumes (int_value v))
     (Some (fun _ raw set =>
        match Atoi raw with
        | inr count =>
            if count <? 0 then Err (ENew (EnvPagingVolumeCount +:+ " must be a non-negative whole number"))
            else Ok (with_PagingVolumes count set)
        | inl _ => Err (ENew (EnvPagingVolumeCount +:+ " must be a non-negative whole number"))
        end));
   durationSetting with_TimeBudget "time-budget" EnvTimeBudget "stop the run after this much wall clock";
   durationSetting with_TeardownBudget "teardown-budget" EnvTeardownBudget "how long reclamation may take";
   mkSpec "strict" EnvStrict "fail when a selected check was not reached" BoolFlag
     (fun v => with_Strict (bool_decide (v = "true")))
     (Some (fun _ raw set =>
        match ParseBool raw with
        | None => Err (ENew (EnvStrict +:+ " must be true or false"))
        | Some parsed => Ok (with_Strict parsed set)
        end));
   mkSpec "list-checks" "" "print what this asset checks and exit" BoolFlag
     (fun v => with_ListChecks (bool_decide (v = "true"))) None;
   mkSpec "help-all" "" "also print the test framework's own flags" BoolFlag
     (fun v => with_HelpAll (bool_decide (v = "true"))) None].

(** ** Resolution and validation *)

Definition spec_named (name : string) : option settingSpec :=
  find_first (fun spec => bool_decide (sp_flag spec = name)) settingSpecs.

(** The struct RegisterSettings returns, after the flags have been parsed: each flag of the
    list that was given has set its field to its last value. *)
Definition RegisterSettings (vals : gmap string string) : Settings :=
  fold_left (fun set spec => match vals !! sp_flag spec with
                             | Some v => sp_apply spec v set
                             | None => set
                             end) settingSpecs zero_settings.

Section Resolve.
Variable vals : gmap string string. (* the flags given, with their values *)
Variable getenv : string -> string.

Definition given (name : string) : bool := bool_decide (is_Some (vals !! name)).
Definition env_value (name : string) : string := TrimSpace (getenv name).

(** The loop over the variables. *)
Fixpoint apply_env (specs : list settingSpec) (set : Settings) : result Settings :=
  match specs with
  | [] => Ok set
  | spec :: specs =>
      match sp_applyEnv spec with
      | None => apply_env specs set
      | Some applyEnv =>
          if given (sp_flag spec) then apply_env specs set else
          let raw := env_value (sp_env spec) in
          if bool_decide (raw = "") then apply_env specs set else
          match applyEnv (sp_env spec) raw set with
          | Err err => Err err
          | Ok set => apply_env specs set
          end
      end
  end.

Definition ResolveSettings (set : Settings) : result Settings :=
  match apply_env settingSpecs set with
  | Err err => Err err
  | Ok set =>
      let defaults := DefaultsFor (st_Profile set) in
      let set := if negb (given "time-budget") && bool_decide (env_value EnvTimeBudget = "")
                 then with_TimeBudget (pd_TimeBudget defaults) set else set in
      let set := if negb (given "teardown-budget") && bool_decide (env_value EnvTeardownBudget = "")
                 then with_TeardownBudget (pd_TeardownBudget defaults) set else set in
      let set := if bool_decide (st_DriverBinary set = "") then with_DriverBinary DefaultDriverBinary set
                 else set in
      Ok (with_ShowObservation (pd_ShowObservation defaults) set)
  end.
End Resolve.

Definition ValidateSettings (set : Settings) : result unit :=
  if negb (bool_decide (st_Profile set = ProfileEvaluation) || bool_decide (st_Profile set = ProfileProof)) then
    Err (ENew ("profile " +:+ quote (st_Profile set) +:+ " is not one this asset declares; use "
                 +:+ quote ProfileEvaluation +:+ " or " +:+ quote ProfileProof))
  else if bool_decide (st_Approved set = "") then
    Err (ENew ("no project is asserted as approved; set -approved-project-id or " +:+ EnvApprovedProjectID))
  else if bool_decide (st_VolumeType set = "") then
    Err (ENew ("no volume type is declared; available types are regional, so set -volume-type or "
                 +:+ EnvVolumeType))
  else if st_PagingVolumes set <? 0 then
    Err (ENew "-paging-volume-count must be a non-negative whole number")
  else if (0 <? st_PagingVolumes set) && (st_PagingVolumes set <=? DiscoveryPageSize) then
    Err (ENew ("-paging-volume-count must exceed the discovery page size of " +:+ itoa DiscoveryPageSize))
  else if st_TimeBudget set <=? 0 then
    Err (ENew "-time-budget must be positive, because an unbounded run holds real volumes")
  else if st_TeardownBudget set <=? 0 then
    Err (ENew "-teardown-budget must be positive, because reclamation must be able to finish")
  else if bool_decide (st_Profile set = ProfileProof) && st_Strict set && (st_PagingVolumes set =? 0) then
    Err (ENew "-strict cannot be satisfied while -paging-volume-count is unset, because one check provisions more volumes than a discovery page holds")
  else Ok tt.

(** ** Loading *)

Section Load.
(** The flags the test framework declares, and Lookup(name).Value.String() after parsing. *)
Variable framework : string -> option flag_kind.
Variable framework_String : gmap string string -> string -> option string.

Definition formal (name : string) : option flag_kind :=
  match spec_named name with
  | Some spec => Some (sp_register spec)
  | None => framework name
  end.

Definition framework_defaults : list (string * string) :=
  [("test.run", ""); ("test.skip", ""); ("test.count", "1"); ("test.shuffle", "off");
   ("test.failfast", "false"); ("test.timeout", "0s")].

Definition altered (vals : gmap string string) (entry : string * string) : bool :=
  match framework_String vals entry.1 with
  | None => false
  | Some v => negb (bool_decide (v = entry.2))
  end.

Definition ValidateFrameworkFlags (vals : gmap string string) : result unit :=
  match find_first (altered vals) framework_defaults with
  | None => Ok tt
  | Some entry =>
      Err (ENew ("the test framework setting -" +:+ entry.1 +:+ "="
        +:+ RedactString (default "" (framework_String vals entry.1))
        +:+ " cannot alter a cloud-mutating run; select work with -profile"))
  end.

(** The settings and the error loadSettings returns; a request for help comes with the
    settings parsed so far. *)
Definition loadSettings (args : list string) (getenv : string -> string) : option Settings * option gerror :=
  let '(vals, parsed) := flag_Parse formal args ∅ in
  let set := RegisterSettings vals in
  match parsed with
  | Err err =>
      if Is err ErrHelp then (Some set, Some (ESentinel ErrHelpRequested))
      else (None, Some (ENew (RedactString (Error err))))
  | Ok (arg :: _) =>
      (None, Some (ENew (quote (RedactString arg) +:+ " is not a setting this asset accepts")))
  | Ok [] =>
      if st_HelpAll set then (Some set, Some (ESentinel ErrHelpRequested)) else
      if st_ListChecks set then (Some set, None) else
      match ValidateFrameworkFlags vals with
      | Err err => (None, Some err)
      | Ok _ =>
          match ResolveSettings vals getenv set with
          | Err err => (None, Some err)
          | Ok set =>
              match ValidateSettings set with
              | Err err => (None, Some err)
              | Ok _ => (Some set, None)
              end
          end
      end
  end.
End Load.

(** ** Usage *)

(** The verbs %-22s and %-30s. *)
Definition padded (width : nat) (s : string) : string := s +:+ spaces (width - rune_count s).

Definition UsageText : string :=
  ConformanceName +:+ " checks whether this driver works against one cloud project." +:+ eol +:+ eol
  +:+ "It creates, attaches, formats, mounts and deletes real volumes in the project you" +:+ eol
  +:+ "name, bills real storage and must run as root on an instance in that project." +:+ eol +:+ eol
  +:+ "Usage: " +:+ ConformanceName +:+ " [settings]" +:+ eol +:+ eol
  +:+ "Settings. A flag wins over its variable. A variable wins over the selected profile's default."
  +:+ eol +:+ eol
  +:+ foldr (fun spec out => "  " +:+ padded 22 ("-" +:+ sp_flag spec) +:+ " " +:+ padded 30 (sp_env spec)
               +:+ " " +:+ sp_usage spec +:+ eol +:+ out) "" settingSpecs
  +:+ eol +:+ "Cloud credentials are read from the process environment only. They are never" +:+ eol
  +:+ "accepted as a flag. A run refuses to start if one appears on its command line." +:+ eol
  +:+ "Test-framework filters, skips, repetition, shuffling, fail-fast and timeout controls are refused." +:+ eol
  +:+ eol +:+ "Exit codes: 0 demonstrated, 1 a check failed or a resource survived, 2 refused" +:+ eol
  +:+ "before anything was created, 3 finished without covering everything selected." +:+ eol.

(** ** Concrete runs *)

Definition no_env : string -> string := fun _ => "".
Definition no_framework {A} : A -> string -> option string := fun _ _ => None.

Example a_loaded_run :
  (fun r => (st_Approved <$> r.1, st_TimeBudget <$> r.1, st_Strict <$> r.1, r.2))
    (loadSettings (fun _ => None) no_framework
      ["-profile=evaluation"; "-approved-project-id"; "p1"; "--strict"; "-time-budget"; "20m"]
      (fun n => if bool_decide (n = EnvVolumeType) then " SSD " else
                if bool_decide (n = EnvTimeBudget) then "1h" else ""))
  = (Some "p1", Some (20 * Minute), Some true, None).
Proof. by vm_compute. Qed.

Example refused_runs :
  map (fun args => (loadSettings (fun _ => None) no_framework args no_env).1)
    [["-profile=proof"]; ["-time-budget=x"]; ["extra"]; ["-profile=proof"; "-approved-project-id=p";
      "-volume-type=SSD"; "-strict"]] = [None; None; None; None].
Proof. by vm_compute. Qed.

(** ** Facts *)

(** A setting that leaves a field alone, from the command line and from the environment. *)
Definition preserves {A} (f : Settings -> A) (spec : settingSpec) : Prop :=
  (forall v s, f (sp_apply spec v s) = f s)
  /\ forall ae, sp_applyEnv spec = Some ae -> forall env raw s s', ae env raw s = Ok s' -> f s' = f s.

Lemma fold_preserves {A} (f : Settings -> A) (vals : gmap string string) specs set :
  Forall (preserves f) specs ->
  f (fold_left (fun set spec => match vals !! sp_flag spec with
                                | Some v => sp_apply spec v set
                                | None => set
                                end) specs set) = f set.
Proof.
  intros H. revert set. induction H as [|spec specs [Hs _] _ IH]; intros set; [done|]. simpl. rewrite IH.
  by case_match.
Qed.

Lemma apply_env_preserves {A} (f : Settings -> A) vals getenv specs set set' :
  Forall (preserves f) specs -> apply_env vals getenv specs set = Ok set' -> f set' = f set.
Proof.
  intros H. revert set. induction H as [|spec specs [_ Hs] _ IH]; intros set; simpl; [by intros [= <-]|].
  destruct (sp_applyEnv spec) as [ae|]; [|apply IH]. destruct (given _ _); [apply IH|].
  case_bool_decide; [apply IH|]. destruct (ae _ _ set) as [m|] eqn:E; [|done].
  intros Hm. rewrite (IH _ Hm). by eapply Hs.
Qed.

Lemma apply_env_app vals getenv l1 l2 set :
  apply_env vals getenv (l1 ++ l2) set =
  match apply_env vals getenv l1 set with Ok m => apply_env vals getenv l2 m | Err e => Err e end.
Proof.
  revert set. induction l1 as [|spec l1 IH]; intros set; [done|]. simpl.
  destruct (sp_applyEnv spec) as [ae|]; [|apply IH]. destruct (given _ _); [apply IH|].
  case_bool_decide; [apply IH|]. destruct (ae _ _ set); [apply IH|done].
Qed.

(** Where a field comes from: its flag, else its variable, else nowhere. *)
Lemma resolved_field {A} (f : Settings -> A) vals getenv pre spec post set :
  settingSpecs = pre ++ spec :: post -> Forall (preserves f) (pre ++ post) ->
  apply_env vals getenv settingSpecs (RegisterSettings vals) = Ok set ->
  match vals !! sp_flag spec with
  | Some v => exists s, f set = f (sp_apply spec v s)
  | None =>
      let raw := env_value getenv (sp_env spec) in
      match sp_applyEnv spec with
      | Some ae =>
          if bool_decide (raw = "") then f set = f zero_settings
          else exists m m', ae (sp_env spec) raw m = Ok m' /\ f set = f m'
      | None => f set = f zero_settings
      end
  end.
Proof.
  intros Hspecs [Hpre Hpost]%Forall_app Hset.
  assert (match vals !! sp_flag spec with
          | Some v => exists s, f (RegisterSettings vals) = f (sp_apply spec v s)
          | None => f (RegisterSettings vals) = f zero_settings
          end) as Hreg.
  { unfold RegisterSettings. rewrite Hspecs, fold_left_app. simpl.
    destruct (vals !! sp_flag spec) as [v|]; rewrite fold_preserves by done; [by eexists|].
    by apply fold_preserves. }
  rewrite Hspecs, apply_env_app in Hset.
  destruct (apply_env vals getenv pre _) as [m|] eqn:Em; [|done].
  apply (apply_env_preserves f) in Em; [|done]. simpl in Hset.
  destruct (sp_applyEnv spec) as [ae|] eqn:Eae.
  - unfold given in Hset. destruct (vals !! sp_flag spec) as [v|] eqn:Ev.
    + rewrite bool_decide_true in Hset by eauto. apply (apply_env_preserves f) in Hset; [|done].
      rewrite Hset, Em. exact Hreg.
    + rewrite bool_decide_false in Hset by (by intros [? ?]). cbv zeta. case_bool_decide.
      * apply (apply_env_preserves f) in Hset; [|done]. by rewrite Hset, Em.
      * destruct (ae _ _ m) as [m'|] eqn:Ea; [|done]. exists m, m'. split; [done|].
        by apply (apply_env_preserves f) in Hset.
  - apply (apply_env_preserves f) in Hset; [|done]. destruct (vals !! sp_flag spec); by rewrite Hset, Em.
Qed.

Ltac preserve := unfold settingSpecs; cbn [take drop app]; repeat (constructor;
  [split; [done|intros ae [= <-] ? ? ? ? Hae; simpl in Hae; case_in Hae; by simplify_eq]|]); constructor.

(** The source of a text setting. *)
Definition text_source (vals : gmap string string) (getenv : string -> string) (name env : string) : string :=
  default (env_value getenv env) (vals !! name).

(** The source of a budget. *)
Definition budget_source (vals : gmap string string) (getenv : string -> string) (name env : string)
    (dflt : Z) : Z :=
  match vals !! name with
  | Some v => default 0 (ParseDuration v)
  | None => if bool_decide (env_value getenv env = "") then dflt
            else default 0 (ParseDuration (env_value getenv env))
  end.

Section Sources.
Variables (vals : gmap string string) (getenv : string -> string) (set : Settings).
Hypothesis applied : apply_env vals getenv settingSpecs (RegisterSettings vals) = Ok set.

Lemma text_field field f name env usage pre post :
  (forall v s, f (field v s) = v) -> f zero_settings = "" ->
  settingSpecs = pre ++ stringSetting field name env usage :: post -> Forall (preserves f) (pre ++ post) ->
  f set = text_source vals getenv name env.
Proof.
  intros Hf Hz Hspecs Hpres. pose proof (resolved_field f vals getenv pre _ post set Hspecs Hpres applied) as H.
  unfold text_source. cbn [sp_flag sp_env sp_applyEnv stringSetting] in H.
  destruct (vals !! name) as [v|]; [destruct H as [s ->]; apply Hf|]. cbv zeta in H. case_bool_decide as E; simpl.
  - by rewrite H, E.
  - destruct H as (m & m' & [= <-] & ->). apply Hf.
Qed.

Lemma budget_field field f name env usage pre post :
  (forall v s, f (field v s) = v) -> f zero_settings = 0 ->
  settingSpecs = pre ++ durationSetting field name env usage :: post -> Forall (preserves f) (pre ++ post) ->
  f set = budget_source vals getenv name env 0.
Proof.
  intros Hf Hz Hspecs Hpres. pose proof (resolved_field f vals getenv pre _ post set Hspecs Hpres applied) as H.
  unfold budget_source. cbn [sp_flag sp_env sp_applyEnv durationSetting] in H.
  destruct (vals !! name) as [v|]; [destruct H as [s ->]; apply Hf|]. cbv zeta in H. case_bool_decide as E.
  - by rewrite H.
  - destruct H as (m & m' & H & ->). destruct (ParseDuration _); [|done]. injection H as <-. apply Hf.
Qed.

Lemma field_sources :
  st_Approved set = text_source vals getenv "approved-project-id" EnvApprovedProjectID
  /\ st_VolumeType set = text_source vals getenv "volume-type" EnvVolumeType
  /\ st_DriverBinary set = text_source vals getenv "driver-binary" EnvDriverBinary
  /\ st_TimeBudget set = budget_source vals getenv "time-budget" EnvTimeBudget 0
  /\ st_TeardownBudget set = budget_source vals getenv "teardown-budget" EnvTeardownBudget 0.
Proof.
  split_and!.
  - by eapply (text_field with_Approved st_Approved _ _ _ (take 1 settingSpecs) (drop 2 settingSpecs)); [..|preserve].
  - by eapply (text_field with_VolumeType st_VolumeType _ _ _ (take 2 settingSpecs) (drop 3 settingSpecs)); [..|preserve].
  - by eapply (text_field with_DriverBinary st_DriverBinary _ _ _ (take 3 settingSpecs) (drop 4 settingSpecs)); [..|preserve].
  - by eapply (budget_field with_TimeBudget st_TimeBudget _ _ _ (take 7 settingSpecs) (drop 8 settingSpecs)); [..|preserve].
  - by eapply (budget_field with_TeardownBudget st_TeardownBudget _ _ _ (take 8 settingSpecs) (drop 9 settingSpecs)); [..|preserve].
Qed.

Lemma profile_source : st_Profile set = default "" (vals !! "profile").
Proof.
  pose proof (resolved_field st_Profile vals getenv [] _ (drop 1 settingSpecs) set eq_refl ltac:(preserve) applied) as H.
  cbn [sp_flag sp_env sp_applyEnv] in H. destruct (vals !! "profile") as [v|]; [by destruct H as [s ->]|exact H].
Qed.
End Sources.

(** Resolution, field by field. *)
Lemma ResolveSettings_sources vals getenv set :
  ResolveSettings vals getenv (RegisterSettings vals) = Ok set ->
  let defaults := DefaultsFor (st_Profile set) in
  st_Profile set = default "" (vals !! "profile")
  /\ st_Approved set = text_source vals getenv "approved-project-id" EnvApprovedProjectID
  /\ st_VolumeType set = text_source vals getenv "volume-type" EnvVolumeType
  /\ st_DriverBinary set = (let path := text_source vals getenv "driver-binary" EnvDriverBinary in
                            if bool_decide (path = "") then DefaultDriverBinary else path)
  /\ st_TimeBudget set = budget_source vals getenv "time-budget" EnvTimeBudget (pd_TimeBudget defaults)
  /\ st_TeardownBudget set
     = budget_source vals getenv "teardown-budget" EnvTeardownBudget (pd_TeardownBudget defaults)
  /\ st_ShowObservation set = pd_ShowObservation defaults.
Proof.
  unfold ResolveSettings. destruct (apply_env _ _ _ _) as [m|] eqn:Em; [|done].
  destruct (field_sources vals getenv m Em) as (Ha & Hv & Hd & Ht & Hr).
  pose proof (profile_source vals getenv m Em) as Hp. intros [= <-]. cbv zeta.
  assert (forall name env d, budget_source vals getenv name env d
    = if negb (given vals name) && bool_decide (env_value getenv env = "") then d
      else budget_source vals getenv name env 0) as Hb.
  { intros name env d. unfold budget_source, given. destruct (vals !! name); simpl; [done|].
    by destruct (bool_decide _). }
  rewrite (Hb "time-budget"), (Hb "teardown-budget"), <-Ht, <-Hr, <-Ha, <-Hv, <-Hd, <-Hp.
  destruct (negb (given vals "time-budget") && _), (negb (given vals "teardown-budget") && _);
    simpl; case_bool_decide; simpl; done.
Qed.

Lemma ValidateSettings_ok set :
  ValidateSettings set = Ok tt ->
  (st_Profile set = ProfileEvaluation \/ st_Profile set = ProfileProof)
  /\ st_Approved set <> "" /\ st_VolumeType set <> ""
  /\ (st_PagingVolumes set = 0 \/ DiscoveryPageSize < st_PagingVolumes set)
  /\ 0 < st_TimeBudget set /\ 0 < st_TeardownBudget set
  /\ (st_Profile set = ProfileProof -> st_Strict set = true -> DiscoveryPageSize < st_PagingVolumes set).
Proof.
  unfold ValidateSettings.
  destruct (bool_decide (st_Profile set = ProfileEvaluation) || _) eqn:Ep; [|done].
  destruct (bool_decide (st_Approved set = "")) eqn:Ea; [done|].
  destruct (bool_decide (st_VolumeType set = "")) eqn:Evt; [done|]. cbn [negb].
  apply bool_decide_eq_false in Ea, Evt.
  destruct (Z.ltb_spec (st_PagingVolumes set) 0); [done|].
  destruct ((0 <? st_PagingVolumes set) && _) eqn:Epage; [done|].
  destruct (Z.leb_spec (st_TimeBudget set) 0); [done|].
  destruct (Z.leb_spec (st_TeardownBudget set) 0); [done|].
  destruct (bool_decide (st_Profile set = ProfileProof) && _ && _) eqn:Estrict; [done|]. intros _.
  assert (st_PagingVolumes set = 0 \/ DiscoveryPageSize < st_PagingVolumes set) as Hpage.
  { apply andb_false_iff in Epage as [?%Z.ltb_ge|?%Z.leb_gt]; [left; lia|by right]. }
  split_and!; try done.
  - apply orb_true_iff in Ep as [?%bool_decide_eq_true|?%bool_decide_eq_true]; auto.
  - intros Hp Hs. rewrite Hp, Hs, bool_decide_true in Estrict by done. simpl in Estrict.
    apply Z.eqb_neq in Estrict. by destruct Hpage.
Qed.

Lemma ValidateFrameworkFlags_ok fstring vals :
  ValidateFrameworkFlags fstring vals = Ok tt -> Forall (fun e => altered fstring vals e = false) framework_defaults.
Proof. unfold ValidateFrameworkFlags. intros H. apply find_first_None. by destruct (find_first _ _). Qed.

(** What a run starts with. When settings that do not merely list the checks are accepted,
    they name a known profile, an approved project and a volume type, both budgets are
    positive, extra volumes are more than a discovery page or none, a strict proof run
    has them, no control of the test framework is altered, and every value comes from its
    flag, else from its variable, else from the defaults of the profile. *)
Theorem loadSettings_ready framework fstring args getenv s
    (H : loadSettings framework fstring args getenv = (Some s, None)) (Hrun : st_ListChecks s = false) :
  let vals := (flag_Parse (formal framework) args ∅).1 in
  let defaults := DefaultsFor (st_Profile s) in
  (st_Profile s = ProfileEvaluation \/ st_Profile s = ProfileProof)
  /\ st_Approved s <> "" /\ st_VolumeType s <> ""
  /\ 0 < st_TimeBudget s /\ 0 < st_TeardownBudget s
  /\ (st_PagingVolumes s = 0 \/ DiscoveryPageSize < st_PagingVolumes s)
  /\ (st_Profile s = ProfileProof -> st_Strict s = true -> DiscoveryPageSize < st_PagingVolumes s)
  /\ Forall (fun e => altered fstring vals e = false) framework_defaults
  /\ st_Profile s = default "" (vals !! "profile")
  /\ st_Approved s = text_source vals getenv "approved-project-id" EnvApprovedProjectID
  /\ st_VolumeType s = text_source vals getenv "volume-type" EnvVolumeType
  /\ st_TimeBudget s = budget_source vals getenv "time-budget" EnvTimeBudget (pd_TimeBudget defaults)
  /\ st_TeardownBudget s
     = budget_source vals getenv "teardown-budget" EnvTeardownBudget (pd_TeardownBudget defaults).
Proof.
  revert H. unfold loadSettings. destruct (flag_Parse (formal framework) args ∅) as [vals [[|arg rest]|err]];
    [|done|by destruct (Is err ErrHelp)]. cbn [fst].
  destruct (st_HelpAll _); [done|]. destruct (st_ListChecks (RegisterSettings vals)) eqn:El.
  { intros [= <-]. congruence. }
  destruct (ValidateFrameworkFlags fstring vals) as [[]|] eqn:Ef; [|done].
  destruct (ResolveSettings vals getenv _) as [set|] eqn:Er; [|done].
  destruct (ValidateSettings set) as [[]|] eqn:Ev; [|done]. intros [= <-].
  apply ValidateFrameworkFlags_ok in Ef. apply ValidateSettings_ok in Ev as (? & ? & ? & ? & ? & ? & ?).
  apply ResolveSettings_sources in Er as (? & ? & ? & ? & ? & ? & ?). by split_and!.
Qed.

Lemma loadSettings_ready_witness :
  let args := ["-profile=proof"; "-approved-project-id"; "p1"; "-volume-type=SSD"; "--strict";
               "-paging-volume-count=0x80"] in
  let getenv := fun n => if bool_decide (n = EnvTeardownBudget) then "1h" else "" in
  exists s, loadSettings (fun _ => None) no_framework args getenv = (Some s, None)
    /\ st_PagingVolumes s = 128 /\ DiscoveryPageSize < st_PagingVolumes s
    /\ st_TimeBudget s = 2 * Hour /\ st_TeardownBudget s = Hour.
Proof.
  intros args getenv.
  destruct (loadSettings (fun _ => None) no_framework args getenv) as [[s|] [e|]] eqn:E; try by vm_compute in E.
  exists s. split; [done|].
  destruct (loadSettings_ready (fun _ => None) no_framework args getenv s E) as (_ & _ & _ & _ & _ & _ & Hs & _).
  - vm_compute in E. by injection E as <-.
  - vm_compute in E. injection E as <-. split; [done|]. split; [by apply Hs|done].
Defined.
