(* ===== verification/Outcome.v ===== *)
(** * What a run may claim (test/e2e/catalogue/outcome.go)

    The record a run keeps of each catalogued check, the completion of the records, and
    the reduction of them to one verdict and one process exit code. *)

From S2P Require Import Prelude GoStrings GoErrors Runtime Catalogue.

Local Open Scope stdpp_scope.
Local Open Scope Z_scope.

(** ** Data *)

Definition State : Type := string.
Definition StateDemonstrated : State := "demonstrated".
Definition StateNotReached : State := "not reached".
Definition StateFailed : State := "failed".

Definition SkipReason : Type := string.
Definition ReasonNone : SkipReason := "".
Definition ReasonUnauthorized : SkipReason := "cost not authorized".
Definition ReasonWindow : SkipReason := "timing window missed".
Definition ReasonShape : SkipReason := "instance shape".
Definition ReasonNotForceable : SkipReason := "not forceable here".
Definition ReasonBlocked : SkipReason := "blocked by an earlier failure".
Definition ReasonBudget : SkipReason := "time budget exhausted".
Definition ReasonNeverRan : SkipReason := "never executed".
Definition ReasonUnclassified : SkipReason := "unclassified skip".

Definition ClassifiedReason (reason : SkipReason) : SkipReason :=
  if bool_decide (reason = ReasonNone) then ReasonUnclassified else reason.

(** [Record] in the source; [rec_Elapsed] in nanoseconds. *)
Record CheckRecord := mkRecord {
  rec_ID : CheckID; rec_State : State; rec_Reason : SkipReason; rec_Detail : string; rec_Elapsed : Z }.

Definition Verdict : Type := string.
Definition VerdictDemonstrated : Verdict := "every check this run could force was demonstrated".
Definition VerdictFailed : Verdict := "at least one check failed".
Definition VerdictIncomplete : Verdict := "the run did not reach every check it selected".
Definition VerdictRefused : Verdict := "the run refused to start".

Definition ExitDemonstrated : Z := 0.
Definition ExitFailed : Z := 1.
Definition ExitRefused : Z := 2.
Definition ExitIncomplete : Z := 3.

Record Summary := mkSummary {
  sm_Verdict : Verdict; sm_Demonstrated : Z; sm_NotReached : Z; sm_Failed : Z; sm_Total : Z;
  sm_Strict : bool; sm_UnclassifiedSkips : Z; sm_MissingForceable : Z; sm_Records : list CheckRecord }.

(** ** Reconcile *)

Definition stateSeverity (state : State) : Z :=
  if bool_decide (state = StateFailed) then 3
  else if bool_decide (state = StateNotReached) then 2
  else if bool_decide (state = StateDemonstrated) then 1
  else 0.

(** One turn of the loop that keeps the worst record of each check. *)
Definition worst_step (seen : gmap string CheckRecord) (rec : CheckRecord) : gmap string CheckRecord :=
  match seen !! (rec_ID rec : string) with
  | Some existing =>
      if stateSeverity (rec_State rec) <=? stateSeverity (rec_State existing) then seen
      else <[rec_ID rec : string := rec]> seen
  | None => <[rec_ID rec : string := rec]> seen
  end.

(** What a selected check is recorded as. *)
Definition selected_record (seen : gmap string CheckRecord) (entry : Check) : CheckRecord :=
  match seen !! (ck_ID entry : string) with
  | Some rec => rec
  | None => mkRecord (ck_ID entry) StateNotReached ReasonNeverRan "" 0
  end.

(** One turn of the loop that appends the records of checks nobody selected; reading a key
    [seen] lacks would answer the zero record. *)
Definition append_step (seen : gmap string CheckRecord) (selectedIDs : gset string)
    (s : list CheckRecord * gset string) (rec : CheckRecord) : list CheckRecord * gset string :=
  let '(complete, appended) := s in
  if bool_decide ((rec_ID rec : string) ∈ selectedIDs) || bool_decide ((rec_ID rec : string) ∈ appended) then s
  else (complete ++ [default (mkRecord "" "" "" "" 0) (seen !! (rec_ID rec : string))],
        {[rec_ID rec : string]} ∪ appended).

Definition Reconcile (selected : list Check) (recorded : list CheckRecord) : list CheckRecord :=
  let seen := fold_left worst_step recorded ∅ in
  let complete := map (selected_record seen) selected in
  let selectedIDs : gset string := list_to_set (map ck_ID selected) in
  (fold_left (append_step seen selectedIDs) recorded (complete, ∅)).1.

(** ** Summarize *)

Definition skipExplainsTier (tier : CheckTier) (reason : SkipReason) : bool :=
  if bool_decide (reason = ReasonBudget) || bool_decide (reason = ReasonBlocked)
     || bool_decide (reason = ReasonNeverRan) then true
  else if bool_decide (reason = ReasonUnauthorized) then bool_decide (tier = TierAuthorized)
  else if bool_decide (reason = ReasonWindow) || bool_decide (reason = ReasonShape)
  then bool_decide (tier = TierOpportunistic)
  else if bool_decide (reason = ReasonNotForceable) then bool_decide (tier = TierNotForceable)
  else false.

Definition skipFinding (entry : Check) (reason : SkipReason) : string :=
  if bool_decide (ck_Tier entry = TierForceable) then
    ck_ID entry +:+ " should be reachable by any run but was skipped as " +:+ quote reason
  else if bool_decide (ck_Tier entry = TierAuthorized) then
    ck_ID entry +:+ " needs its cost authorized, so a skip as " +:+ quote reason +:+ " does not explain it"
  else if bool_decide (ck_Tier entry = TierOpportunistic) then
    ck_ID entry +:+ " waits on a timing window or the instance shape, so a skip as " +:+ quote reason
      +:+ " does not explain it"
  else ck_ID entry +:+ " is catalogued as impossible to force but was skipped as " +:+ quote reason.

Definition incoherence (entry : Check) (rec : CheckRecord) : list string :=
  if bool_decide (rec_State rec = StateNotReached) && bool_decide (rec_Reason rec = ReasonUnclassified) then
    [ck_ID entry +:+ " was skipped without classifying why, so nothing says whether another run could reach it"]
  else if bool_decide (rec_State rec = StateNotReached) && bool_decide (rec_Reason rec = ReasonNeverRan) then
    [ck_ID entry +:+ " was selected but no check executed it"]
  else if bool_decide (ck_Tier entry = TierNotForceable) && bool_decide (rec_State rec = StateDemonstrated) then
    [ck_ID entry +:+ " is catalogued as impossible to force but this run demonstrated it, so the catalogue is stale"]
  else if bool_decide (rec_State rec = StateNotReached) && negb (skipExplainsTier (ck_Tier entry) (rec_Reason rec))
  then [skipFinding entry (rec_Reason rec)]
  else [].

(** A map[SkipReason]int; a key it lacks reads 0. *)
Abbreviation tally := (gmap string Z).
Definition tally_of (m : tally) (k : string) : Z := default 0 (m !! k).

Definition shortCoverage (counted : Summary) (byReason : tally) : Z :=
  let short := sm_NotReached counted - tally_of byReason ReasonNotForceable
               - tally_of byReason ReasonWindow - tally_of byReason ReasonShape in
  if short <? 0 then 0 else short.

Definition decide_verdict (counted : Summary) (byReason : tally) (incoherent : bool) : Verdict :=
  if 0 <? sm_Failed counted then VerdictFailed
  else if incoherent then VerdictFailed
  else if 0 <? tally_of byReason ReasonBudget then VerdictIncomplete
  else if sm_Strict counted && (0 <? shortCoverage counted byReason) then VerdictIncomplete
  else VerdictDemonstrated.

(** The state of the loop over the records. *)
Record counting := mkCounting {
  cn_summary : Summary; cn_byID : gmap string CheckRecord; cn_byReason : tally }.

Definition count_record (c : counting) (rec : CheckRecord) : counting :=
  let 'mkSummary v d n f t s u mf rs := cn_summary c in
  let byID := <[rec_ID rec : string := rec]> (cn_byID c) in
  if bool_decide (rec_State rec = StateDemonstrated) then
    mkCounting (mkSummary v (d + 1) n f t s u mf rs) byID (cn_byReason c)
  else if bool_decide (rec_State rec = StateFailed) then
    mkCounting (mkSummary v d n (f + 1) t s u mf rs) byID (cn_byReason c)
  else if bool_decide (rec_State rec = StateNotReached) then
    mkCounting
      (mkSummary v d (n + 1) f t s
         (if bool_decide (ClassifiedReason (rec_Reason rec) = ReasonUnclassified) then u + 1 else u) mf rs)
      byID (<[rec_Reason rec : string := tally_of (cn_byReason c) (rec_Reason rec) + 1]> (cn_byReason c))
  else mkCounting (cn_summary c) byID (cn_byReason c).

(** One turn of the loop over the selection: the missing forceable checks and whether an
    outcome contradicted the catalogue. *)
Definition check_entry (byID : gmap string CheckRecord) (s : Z * bool) (entry : Check) : Z * bool :=
  let '(missing, incoherent) := s in
  match byID !! (ck_ID entry : string) with
  | None => s
  | Some rec =>
      (if bool_decide (ck_Tier entry = TierForceable) && bool_decide (rec_State rec = StateNotReached)
       then missing + 1 else missing,
       if (0 <? length (incoherence entry rec))%nat then true else incoherent)
  end.

Definition Summarize (selected : list Check) (records : list CheckRecord) (strict : bool) : Summary :=
  let start := mkSummary "" 0 0 0 (Z.of_nat (length records)) strict 0 0 ([] ++ records) in
  let c := fold_left count_record records (mkCounting start ∅ ∅) in
  let '(missing, incoherent) := fold_left (check_entry (cn_byID c)) selected (0, false) in
  let 'mkSummary _ d n f t s u _ rs := cn_summary c in
  let result := mkSummary "" d n f t s u missing rs in
  mkSummary (decide_verdict result (cn_byReason c) incoherent) d n f t s u missing rs.

Definition ExitCode (s : Summary) : Z :=
  if bool_decide (sm_Verdict s = VerdictDemonstrated) then ExitDemonstrated
  else if bool_decide (sm_Verdict s = VerdictFailed) then ExitFailed
  else if bool_decide (sm_Verdict s = VerdictRefused) then ExitRefused
  else if bool_decide (sm_Verdict s = VerdictIncomplete) then ExitIncomplete
  else ExitFailed.

(** ** Reconciliation: facts *)

(** A record is the worst of its check among those recorded. *)
Definition worst (recorded : list CheckRecord) (r : CheckRecord) : Prop :=
  r ∈ recorded /\ forall r', r' ∈ recorded -> rec_ID r' = rec_ID r ->
    stateSeverity (rec_State r') <= stateSeverity (rec_State r).

Definition seen_ok (recorded : list CheckRecord) (seen : gmap string CheckRecord) : Prop :=
  forall id : string, match seen !! id with
  | Some r => rec_ID r = id /\ worst recorded r
  | None => forall r, r ∈ recorded -> rec_ID r <> id
  end.

Lemma worst_step_ok recorded seen r :
  seen_ok recorded seen -> seen_ok (recorded ++ [r]) (worst_step seen r).
Proof.
  intros H id. unfold worst_step.
  assert (forall x, rec_ID x = id -> worst recorded x ->
    (rec_ID r = id -> stateSeverity (rec_State r) <= stateSeverity (rec_State x)) ->
    rec_ID x = id /\ worst (recorded ++ [r]) x) as Hkeep.
  { intros x Hx [Hin Hw] Hr. split; [done|]. split; [by apply elem_of_app; left|].
    intros y [Hy| ->]%elem_of_snoc Hid; [auto|]. apply Hr. by rewrite Hid. }
  assert ((forall x, x ∈ recorded -> rec_ID x = rec_ID r ->
    stateSeverity (rec_State x) <= stateSeverity (rec_State r)) ->
    match (<[rec_ID r : string := r]> seen) !! id with
    | Some x => rec_ID x = id /\ worst (recorded ++ [r]) x
    | None => forall x, x ∈ recorded ++ [r] -> rec_ID x <> id
    end) as Hput.
  { intros Hw. destruct (decide (rec_ID r = id)) as [<-|Hne].
    - rewrite lookup_insert, decide_True by done. split; [done|]. split; [in_list|].
      intros x [Hx| ->]%elem_of_snoc Hid; [auto|lia].
    - rewrite lookup_insert_ne by done. specialize (H id). destruct (seen !! id) as [x|].
      + destruct H. apply Hkeep; [done|done|]. by intros ?%Hne.
      + intros x [Hx| ->]%elem_of_snoc; auto. }
  pose proof (H (rec_ID r)) as Hr. destruct (seen !! (rec_ID r : string)) as [x|] eqn:Ex.
  - destruct Hr as [Hxid [Hxin Hxw]].
    destruct (Z.leb_spec (stateSeverity (rec_State r)) (stateSeverity (rec_State x))).
    + specialize (H id). destruct (seen !! id) as [y|] eqn:Ey.
      * destruct H. apply Hkeep; [done|done|]. intros <-. by simplify_eq.
      * intros y [Hy| ->]%elem_of_snoc; [auto|]. congruence.
    + apply Hput. intros y Hy Hyid. rewrite <-Hxid in Hyid. specialize (Hxw y Hy Hyid). lia.
  - apply Hput. intros y Hy Hyid. by destruct (Hr y Hy).
Qed.

Lemma worst_fold_ok recorded : seen_ok recorded (fold_left worst_step recorded ∅).
Proof.
  induction recorded as [|r l IH] using rev_ind.
  - intros id. simpl. rewrite lookup_empty. intros r Hr. by apply elem_of_nil in Hr.
  - rewrite fold_left_app. by apply worst_step_ok.
Qed.

Lemma append_fold_ok seen selectedIDs base recorded :
  (forall r, r ∈ recorded -> exists r', seen !! (rec_ID r : string) = Some r' /\ rec_ID r' = rec_ID r) ->
  exists extras, (fold_left (append_step seen selectedIDs) recorded (base, ∅))
      = (base ++ extras, list_to_set (map rec_ID extras))
    /\ NoDup (map rec_ID extras)
    /\ (forall id : string, id ∈ map rec_ID extras <-> id ∈ map rec_ID recorded /\ id ∉ selectedIDs)
    /\ (forall r, r ∈ extras -> seen !! (rec_ID r : string) = Some r).
Proof.
  induction recorded as [|r l IH] using rev_ind; intros Hseen.
  { exists []. rewrite app_nil_r. split; [done|]. split; [constructor|]. split; simpl.
    - intros id. rewrite elem_of_nil. tauto.
    - intros r Hr. by apply elem_of_nil in Hr. }
  destruct IH as (extras & IH & Hn & Hin & Hs).
  { intros x Hx. apply Hseen. by apply elem_of_app; left. }
  rewrite fold_left_app, IH. simpl.
  assert (forall id : string, id ∈ map rec_ID (l ++ [r]) <-> id ∈ map rec_ID l \/ id = rec_ID r) as Hsnoc.
  { intros id. rewrite map_app. apply elem_of_snoc. }
  destruct (bool_decide ((rec_ID r : string) ∈ selectedIDs)
    || bool_decide ((rec_ID r : string) ∈ (list_to_set (map rec_ID extras) : gset string))) eqn:E.
  - exists extras. split; [done|]. split; [done|]. split; [|done]. intros id. rewrite Hin, Hsnoc.
    rewrite orb_true_iff, !bool_decide_eq_true, elem_of_list_to_set, Hin in E. naive_solver.
  - rewrite orb_false_iff, !bool_decide_eq_false, elem_of_list_to_set in E. destruct E as [E1 E2].
    destruct (Hseen r) as (r' & Hr' & Hid); [in_list|]. exists (extras ++ [r']).
    rewrite Hr'. simpl. split; [|split; [|split]].
    + rewrite <-app_assoc. f_equal. rewrite map_app, list_to_set_app_L. simpl. rewrite Hid. set_solver.
    + rewrite map_app. apply NoDup_snoc; [done|]. by rewrite Hid.
    + intros id. rewrite map_app. simpl. rewrite elem_of_snoc, Hin, Hsnoc, Hid. naive_solver.
    + intros x [Hx| ->]%elem_of_snoc; [auto|by rewrite Hid].
Qed.

(** What reconciliation makes of a check nobody recorded. *)
Definition never_ran (id : CheckID) : CheckRecord := mkRecord id StateNotReached ReasonNeverRan "" 0.

(** A record of the completed list stands for everything recorded under its identifier. *)
Definition stands_for (recorded : list CheckRecord) (r : CheckRecord) : Prop :=
  worst recorded r
  \/ r = never_ran (rec_ID r) /\ forall r', r' ∈ recorded -> rec_ID r' <> rec_ID r.

Lemma selected_record_ok recorded entry :
  let r := selected_record (fold_left worst_step recorded ∅) entry in
  rec_ID r = ck_ID entry /\ stands_for recorded r.
Proof.
  cbv zeta. unfold selected_record. pose proof (worst_fold_ok recorded (ck_ID entry)) as H.
  destruct (_ !! _) as [r|].
  - destruct H. split; [done|by left].
  - split; [done|]. right. by split.
Qed.

Lemma Reconcile_parts selected recorded :
  exists extras : list string,
    map rec_ID (Reconcile selected recorded) = map ck_ID selected ++ extras
    /\ NoDup extras
    /\ (forall id, id ∈ extras <-> id ∈ map rec_ID recorded /\ id ∉ map ck_ID selected)
    /\ forall r, r ∈ Reconcile selected recorded -> stands_for recorded r.
Proof.
  unfold Reconcile. set (seen := fold_left worst_step recorded ∅).
  pose proof (worst_fold_ok recorded) as Hok. fold seen in Hok.
  destruct (append_fold_ok seen (list_to_set (map ck_ID selected))
    (map (selected_record seen) selected) recorded) as (extras & -> & Hn & Hin & Hs).
  { intros r Hr. specialize (Hok (rec_ID r)). destruct (seen !! _) as [r'|].
    - exists r'. destruct Hok. by split.
    - by destruct (Hok r Hr). }
  exists (map rec_ID extras). simpl. split; [|split; [done|split]].
  - rewrite map_app, map_map. f_equal. apply map_ext. intros c. apply (selected_record_ok recorded c).
  - intros id. rewrite Hin. by rewrite elem_of_list_to_set.
  - intros r [Hr|Hr]%elem_of_app.
    + apply list_elem_of_In, in_map_iff in Hr as (c & <- & _). apply (selected_record_ok recorded c).
    + left. specialize (Hok (rec_ID r)). rewrite (Hs r Hr) in Hok. apply Hok.
Qed.

(** Reconciliation silences nothing: the completed list has one record per selected
    check, in catalogue order, then one per check recorded without being selected; each of
    them is the worst outcome recorded for its check, or says the check never ran when
    nothing was recorded for it. *)
Theorem Reconcile_complete selected recorded :
  exists extras : list string,
    map rec_ID (Reconcile selected recorded) = map ck_ID selected ++ extras
    /\ NoDup extras
    /\ (forall id, id ∈ extras <-> id ∈ map rec_ID recorded /\ id ∉ map ck_ID selected)
    /\ forall r, r ∈ Reconcile selected recorded -> stands_for recorded r.
Proof. apply Reconcile_parts. Qed.

(** ** The verdict: facts *)

(** How many records satisfy a test. *)
Definition num (p : CheckRecord -> bool) (l : list CheckRecord) : Z :=
  Z.of_nat (length (List.filter p l)).

Lemma num_snoc p l r : num p (l ++ [r]) = num p l + if p r then 1 else 0.
Proof. unfold num. rewrite List.filter_app, length_app. simpl. destruct (p r); simpl; lia. Qed.

Lemma num_nonneg p l : 0 <= num p l.
Proof. unfold num. lia. Qed.

Lemma num_pos p l : 0 < num p l <-> exists r, r ∈ l /\ p r = true.
Proof.
  unfold num. split.
  - intros H. destruct (List.filter p l) as [|r l'] eqn:E; [simpl in H; lia|]. exists r.
    assert (r ∈ r :: l') as Hr by constructor. by rewrite <-E, list_elem_of_In, filter_In, <-list_elem_of_In in Hr.
  - intros (r & Hr & Hp). assert (In r (List.filter p l)) as H.
    { apply filter_In. by rewrite <-list_elem_of_In. }
    destruct (List.filter p l); [done|]. simpl. lia.
Qed.

Lemma num_zero p l : num p l = 0 -> forall r, r ∈ l -> p r = false.
Proof.
  intros H r Hr. destruct (p r) eqn:E; [|done]. assert (0 < num p l); [|lia]. apply num_pos. eauto.
Qed.

Definition failed (r : CheckRecord) : bool := bool_decide (rec_State r = StateFailed).
Definition not_reached (r : CheckRecord) : bool := bool_decide (rec_State r = StateNotReached).
Definition skipped_for (k : SkipReason) (r : CheckRecord) : bool :=
  not_reached r && bool_decide (rec_Reason r = k).

(** A reason that strict coverage excuses. *)
Definition excused (r : CheckRecord) : bool :=
  skipped_for ReasonNotForceable r || skipped_for ReasonWindow r || skipped_for ReasonShape r.

Record count_ok (strict : bool) (l : list CheckRecord) (c : counting) : Prop := {
  ct_failed : sm_Failed (cn_summary c) = num failed l;
  ct_not_reached : sm_NotReached (cn_summary c) = num not_reached l;
  ct_strict : sm_Strict (cn_summary c) = strict;
  ct_reason k : tally_of (cn_byReason c) k = num (skipped_for k) l;
  ct_byID (id : string) : match cn_byID c !! id with
                          | Some r => r ∈ l /\ rec_ID r = id
                          | None => forall r, r ∈ l -> rec_ID r <> id
                          end }.

Lemma byID_insert (m : gmap string CheckRecord) l r :
  (forall id : string, match m !! id with
                       | Some x => x ∈ l /\ rec_ID x = id
                       | None => forall x, x ∈ l -> rec_ID x <> id
                       end) ->
  forall id : string, match (<[rec_ID r : string := r]> m) !! id with
                      | Some x => x ∈ l ++ [r] /\ rec_ID x = id
                      | None => forall x, x ∈ l ++ [r] -> rec_ID x <> id
                      end.
Proof.
  intros H id. destruct (decide (rec_ID r = id)) as [<-|Hne].
  - rewrite lookup_insert, decide_True by done. split; [in_list|done].
  - rewrite lookup_insert_ne by done. specialize (H id). destruct (m !! id) as [x|].
    + destruct H. split; [in_list|done].
    + intros x [Hx| ->]%elem_of_snoc; auto.
Qed.

Lemma count_record_ok strict l c r :
  count_ok strict l c -> count_ok strict (l ++ [r]) (count_record c r).
Proof.
  intros [Hf Hn Hst Hk Hid]. destruct c as [[v d n f t s u mf rs] byID byReason]. simpl in *.
  pose proof (byID_insert byID l r Hid) as Hid'. unfold count_record. simpl.
  assert (not_reached r = false -> forall k, tally_of byReason k = num (skipped_for k) (l ++ [r])) as HK.
  { intros E k. assert (skipped_for k r = false) as Es by (unfold skipped_for; by rewrite E).
    rewrite num_snoc, Hk, Es. lia. }
  case_bool_decide as E1; [|case_bool_decide as E2; [|case_bool_decide as E3]].
  - assert (failed r = false) as F by (unfold failed; by rewrite E1).
    assert (not_reached r = false) as N by (unfold not_reached; by rewrite E1).
    split; simpl; [rewrite num_snoc, F; lia|rewrite num_snoc, N; lia|done|by apply HK|done].
  - assert (failed r = true) as F by (unfold failed; by rewrite E2).
    assert (not_reached r = false) as N by (unfold not_reached; by rewrite E2).
    split; simpl; [rewrite num_snoc, F; lia|rewrite num_snoc, N; lia|done|by apply HK|done].
  - assert (failed r = false) as F by (unfold failed; by rewrite E3).
    assert (not_reached r = true) as N by (unfold not_reached; by rewrite E3).
    split; simpl; [rewrite num_snoc, F; lia|rewrite num_snoc, N; lia|done| |done].
    intros k. rewrite num_snoc, <-Hk. unfold skipped_for, tally_of. rewrite N. simpl.
    destruct (bool_decide_reflect (rec_Reason r = k)) as [<-|Hne].
    + by rewrite lookup_insert, decide_True.
    + rewrite lookup_insert_ne by done. lia.
  - assert (failed r = false) as F by (unfold failed; by rewrite bool_decide_false).
    assert (not_reached r = false) as N by (unfold not_reached; by rewrite bool_decide_false).
    split; simpl; [rewrite num_snoc, F; lia|rewrite num_snoc, N; lia|done|by apply HK|done].
Qed.

Lemma count_fold_ok strict l v total rs :
  count_ok strict l (fold_left count_record l (mkCounting (mkSummary v 0 0 0 total strict 0 0 rs) ∅ ∅)).
Proof.
  induction l as [|r l IH] using rev_ind.
  - split; try done. intros id. simpl. rewrite lookup_empty. intros r Hr. by apply elem_of_nil in Hr.
  - rewrite fold_left_app. by apply count_record_ok.
Qed.

(** Whether the record kept for a selected check contradicts the catalogue. *)
Definition contradicts (byID : gmap string CheckRecord) (entry : Check) : bool :=
  match byID !! (ck_ID entry : string) with
  | None => false
  | Some rec => (0 <? length (incoherence entry rec))%nat
  end.

Lemma check_fold byID selected missing incoherent :
  (fold_left (check_entry byID) selected (missing, incoherent)).2
  = existsb (contradicts byID) selected || incoherent.
Proof.
  revert missing incoherent. induction selected as [|c l IH]; intros missing incoherent; [done|].
  simpl. unfold contradicts at 1. destruct (byID !! _) as [rec|]; [|by rewrite IH].
  rewrite IH. by destruct (0 <? length _)%nat, (existsb _ l).
Qed.

(** When a run is given the verdict of success. *)
Lemma Summarize_demonstrated selected records strict :
  exists byID : gmap string CheckRecord,
    (forall id : string, match byID !! id with
                         | Some r => r ∈ records /\ rec_ID r = id
                         | None => forall r, r ∈ records -> rec_ID r <> id
                         end)
    /\ (sm_Verdict (Summarize selected records strict) = VerdictDemonstrated <->
        num failed records = 0 /\ Forall (fun c => contradicts byID c = false) selected
        /\ num (skipped_for ReasonBudget) records = 0
        /\ (strict = true -> num not_reached records <=
             num (skipped_for ReasonNotForceable) records + num (skipped_for ReasonWindow) records
             + num (skipped_for ReasonShape) records)).
Proof.
  unfold Summarize. simpl app. destruct (count_fold_ok strict records "" (Z.of_nat (length records)) records) as [Hf Hn Hs Hk Hid].
  set (c := fold_left count_record records _) in *. exists (cn_byID c). split; [done|].
  pose proof (check_fold (cn_byID c) selected 0 false) as Hc.
  destruct (fold_left (check_entry (cn_byID c)) selected (0, false)) as [missing incoherent].
  rewrite orb_false_r in Hc. simpl in Hc. destruct (cn_summary c) as [v d n f t s u mf rs]. simpl in *.
  subst f n s incoherent. rewrite <-existsb_false_Forall. unfold decide_verdict, shortCoverage. simpl.
  rewrite !Hk. pose proof (num_nonneg failed records). pose proof (num_nonneg (skipped_for ReasonBudget) records).
  destruct (Z.ltb_spec 0 (num failed records)); [split; [done|lia]|].
  destruct (existsb _ selected); [split; [done|by intros (_ & ? & _)]|].
  destruct (Z.ltb_spec 0 (num (skipped_for ReasonBudget) records)); [split; [done|lia]|].
  destruct strict; simpl; [|split; [intros _; repeat split; lia || done|done]].
  destruct (Z.ltb_spec (num not_reached records - num (skipped_for ReasonNotForceable) records
    - num (skipped_for ReasonWindow) records - num (skipped_for ReasonShape) records) 0); simpl.
  { split; [intros _; repeat split; lia|done]. }
  case_match; split; intros Hx; [done| |repeat split; lia|done]. destruct Hx as (_ & _ & _ & Hx). specialize (Hx eq_refl). lia.
Qed.

(** The index a loop over records builds: the last record of each check. *)
Definition record_index (records : list CheckRecord) : gmap string CheckRecord :=
  fold_left (fun (m : gmap string CheckRecord) rec => <[rec_ID rec : string := rec]> m) records ∅.

Lemma cn_byID_fold l c :
  cn_byID (fold_left count_record l c)
  = fold_left (fun (m : gmap string CheckRecord) rec => <[rec_ID rec : string := rec]> m) l (cn_byID c).
Proof.
  revert c. induction l as [|r l IH]; intros c; [done|]. simpl. rewrite IH. f_equal.
  unfold count_record. destruct (cn_summary c). by repeat case_bool_decide.
Qed.

Lemma count_fold_total l c : sm_Total (cn_summary (fold_left count_record l c)) = sm_Total (cn_summary c).
Proof.
  revert c. induction l as [|r l IH]; intros c; [done|]. simpl. rewrite IH.
  unfold count_record. destruct (cn_summary c) eqn:E. by repeat case_bool_decide; rewrite ?E.
Qed.

(** When a run is given the verdict of failure. *)
Lemma Summarize_failed selected records strict :
  sm_Verdict (Summarize selected records strict) = VerdictFailed <->
  (exists r, r ∈ records /\ rec_State r = StateFailed)
  \/ existsb (contradicts (record_index records)) selected = true.
Proof.
  unfold Summarize. simpl app.
  pose proof (count_fold_ok strict records "" (Z.of_nat (length records)) records) as [Hf _ _ _ _].
  pose proof (cn_byID_fold records (mkCounting (mkSummary "" 0 0 0 (Z.of_nat (length records)) strict
    0 0 records) ∅ ∅)) as Hid. cbn [cn_byID] in Hid. fold (record_index records) in Hid.
  set (c := fold_left count_record records _) in *.
  pose proof (check_fold (cn_byID c) selected 0 false) as Hc.
  destruct (fold_left (check_entry (cn_byID c)) selected (0, false)) as [missing incoherent].
  rewrite orb_false_r in Hc. simpl in Hc. destruct (cn_summary c) as [v d n f t s u mf rs]. simpl in *.
  subst f incoherent. rewrite Hid. unfold decide_verdict. simpl.
  assert ((0 <? num failed records) = true <-> exists r, r ∈ records /\ rec_State r = StateFailed) as Hnum.
  { rewrite Z.ltb_lt, num_pos. unfold failed. setoid_rewrite bool_decide_eq_true. done. }
  destruct (0 <? num failed records); [split; [left; by apply Hnum|done]|].
  destruct (existsb _ selected); [split; [by right|done]|].
  split; [|intros [?%Hnum|?]; done]. by repeat case_match.
Qed.

Lemma num_add p q l : (forall r, p r = true -> q r = false) -> num (fun r => p r || q r) l = num p l + num q l.
Proof.
  intros H. induction l as [|r l IH] using rev_ind; [done|]. rewrite !num_snoc, IH.
  specialize (H r). destruct (p r); simpl; [rewrite H by done|]; lia.
Qed.

Lemma skipped_for_ne k k' r : k <> k' -> skipped_for k r = true -> skipped_for k' r = false.
Proof.
  intros Hne. unfold skipped_for. destruct (not_reached r); simpl; [|done].
  intros <-%bool_decide_eq_true. by apply bool_decide_eq_false.
Qed.

(** Strict coverage leaves no skip that is not excused. *)
Lemma all_excused l :
  num not_reached l <= num (skipped_for ReasonNotForceable) l + num (skipped_for ReasonWindow) l
    + num (skipped_for ReasonShape) l ->
  forall r, r ∈ l -> not_reached r = true -> excused r = true.
Proof.
  intros H r Hr Hn. destruct (excused r) eqn:E; [done|]. exfalso.
  assert (num not_reached l = num excused l + num (fun r => not_reached r && negb (excused r)) l) as Hsum.
  { rewrite <-num_add by (intros x ->; by rewrite andb_false_r). unfold num. do 2 f_equal.
    apply filter_ext. intros x. destruct (not_reached x) eqn:N; [by destruct (excused x)|].
    unfold excused, skipped_for. by rewrite N. }
  assert (num excused l = num (skipped_for ReasonNotForceable) l + num (skipped_for ReasonWindow) l
    + num (skipped_for ReasonShape) l) as Hex.
  { unfold excused. rewrite !num_add; [done| |]; intros x; rewrite ?orb_true_iff; intros Hx;
      repeat destruct Hx as [Hx|Hx]; revert Hx; apply skipped_for_ne; discriminate. }
  assert (0 < num (fun r => not_reached r && negb (excused r)) l); [|lia].
  apply num_pos. exists r. split; [done|]. by rewrite Hn, E.
Qed.

(** A tier that every run, or every authorized run, can force. *)
Definition required (c : Check) : bool :=
  bool_decide (ck_Tier c = TierForceable) || bool_decide (ck_Tier c = TierAuthorized).

(** An excused skip of a required check contradicts the catalogue. *)
Lemma required_incoherent c r :
  required c = true -> excused r = true -> (0 <? length (incoherence c r))%nat = true.
Proof.
  unfold required, excused, skipped_for, not_reached. intros Hc Hr.
  assert (rec_State r = StateNotReached /\ (rec_Reason r = ReasonNotForceable
    \/ rec_Reason r = ReasonWindow \/ rec_Reason r = ReasonShape)) as [Hs Hk].
  { rewrite !orb_true_iff, !andb_true_iff, !bool_decide_eq_true in Hr. tauto. }
  rewrite orb_true_iff, !bool_decide_eq_true in Hc.
  unfold incoherence. rewrite Hs. by destruct Hc as [-> | ->], Hk as [-> |[-> | ->]].
Qed.

Lemma ExitCode_demonstrated s : ExitCode s = ExitDemonstrated -> sm_Verdict s = VerdictDemonstrated.
Proof. unfold ExitCode. intros H. case_bool_decide; [done|]. by case_in H. Qed.

(** C37. A strict success means what it says: when the process of a strict run over the
    reconciled records exits with code 0, no record at all is a failure, and every selected check
    that a run can force or that was authorized has been recorded and no record of it is a
    failure or a skip. *)
Theorem strict_verdict_sound selected recorded
    (H : ExitCode (Summarize selected (Reconcile selected recorded) true) = ExitDemonstrated) :
  (forall r, r ∈ recorded -> rec_State r <> StateFailed) /\
  (forall c, c ∈ selected -> required c = true ->
     (exists r, r ∈ recorded /\ rec_ID r = ck_ID c) /\
     forall r, r ∈ recorded -> rec_ID r = ck_ID c -> rec_State r <> StateNotReached).
Proof.
  destruct (Summarize_demonstrated selected (Reconcile selected recorded) true) as (byID & HbyID & Hv).
  apply proj1 in Hv. destruct (Hv (ExitCode_demonstrated _ H)) as (Hf & Hco & _ & Hex). specialize (Hex eq_refl). clear Hv.
  destruct (Reconcile_parts selected recorded) as (extras & Hids & _ & Hextra & Hall).
  assert (forall r, r ∈ recorded -> exists x, x ∈ Reconcile selected recorded /\ rec_ID x = rec_ID r) as Hcover.
  { intros r Hr. assert (rec_ID r ∈ map rec_ID (Reconcile selected recorded)) as Hin.
    - rewrite Hids, elem_of_app. destruct (decide ((rec_ID r : string) ∈ map ck_ID selected)); [by left|].
      right. apply Hextra. split; [|done]. apply list_elem_of_In, in_map. by apply list_elem_of_In.
    - apply list_elem_of_In, in_map_iff in Hin as (x & ? & ?%list_elem_of_In). by exists x. }
  assert (forall x r, x ∈ Reconcile selected recorded -> r ∈ recorded -> rec_ID r = rec_ID x ->
    stateSeverity (rec_State r) <= stateSeverity (rec_State x)) as Hsev.
  { intros x r Hx Hr Hid. destruct (Hall x Hx) as [[_ Hw]|[_ Hno]]; [auto|]. by destruct (Hno r Hr). }
  split.
  - intros r Hr Hfail. destruct (Hcover r Hr) as (x & Hx & Hid). specialize (Hsev x r Hx Hr (eq_sym Hid)).
    pose proof (num_zero _ _ Hf x Hx) as Hnf. unfold failed in Hnf. rewrite bool_decide_eq_false in Hnf.
    rewrite Hfail in Hsev. unfold stateSeverity in Hsev. simpl in Hsev.
    rewrite (bool_decide_false (rec_State x = StateFailed)) in Hsev by done. case_in Hsev; lia.
  - intros c Hc Hreq.
    assert (exists x, x ∈ Reconcile selected recorded /\ rec_ID x = ck_ID c /\ not_reached x = false)
      as (x & Hx & Hid & Hnr).
    { rewrite List.Forall_forall in Hco. apply list_elem_of_In in Hc as Hc'. specialize (Hco c Hc').
      unfold contradicts in Hco. specialize (HbyID (ck_ID c)). destruct (byID !! _) as [x|].
      - destruct HbyID as [Hx Hid]. exists x. split; [done|]. split; [done|].
        destruct (not_reached x) eqn:E; [|done]. pose proof (all_excused _ Hex x Hx E) as Hexc.
        by rewrite (required_incoherent c x Hreq Hexc) in Hco.
      - assert (ck_ID c ∈ map rec_ID (Reconcile selected recorded)) as Hin.
        { rewrite Hids. apply elem_of_app. left. apply list_elem_of_In, in_map. done. }
        apply list_elem_of_In, in_map_iff in Hin as (x & Hx & Hin%list_elem_of_In).
        by destruct (HbyID x Hin). }
    unfold not_reached in Hnr. rewrite bool_decide_eq_false in Hnr. split.
    + destruct (Hall x Hx) as [[Hin _]|[Hnever _]]; [by exists x|]. rewrite Hnever in Hnr. done.
    + intros r Hr Hrid Hskip. rewrite <-Hid in Hrid. specialize (Hsev x r Hx Hr Hrid).
      pose proof (num_zero _ _ Hf x Hx) as Hnf. unfold failed in Hnf. rewrite bool_decide_eq_false in Hnf.
      rewrite Hskip in Hsev. unfold stateSeverity in Hsev. simpl in Hsev.
      rewrite (bool_decide_false (rec_State x = StateFailed)), (bool_decide_false (rec_State x = StateNotReached))
        in Hsev by done. case_in Hsev; lia.
Qed.

(** A proof run that demonstrates whatever a run can, with the skips the catalogue excuses. *)
Definition healthy_run : list CheckRecord :=
  map (fun c => if required c then mkRecord (ck_ID c) StateDemonstrated ReasonNone "" Second
                else if bool_decide (ck_Tier c = TierNotForceable)
                then mkRecord (ck_ID c) StateNotReached ReasonNotForceable "" 0
                else mkRecord (ck_ID c) StateNotReached ReasonWindow "" 0)
    (SelectCatalogue ProfileProof).

Lemma strict_verdict_sound_witness :
  let selected := SelectCatalogue ProfileProof in
  ExitCode (Summarize selected (Reconcile selected healthy_run) true) = ExitDemonstrated
  /\ exists r, r ∈ healthy_run /\ rec_ID r = CheckExt4LifecycleCompletes.
Proof.
  split; [by vm_compute|].
  apply (proj2 (strict_verdict_sound (SelectCatalogue ProfileProof) healthy_run ltac:(by vm_compute))
    (nth 8 checks (mkCheck "" "" "" [] "" ""))); [|done].
  apply (list_elem_of_lookup_2 _ 8). by vm_compute.
Defined.

(** The three other exits of a summary. *)
Example one_failure_fails :
  ExitCode (Summarize checks (Reconcile checks
    (mkRecord CheckOffsetPagingAdvances StateFailed ReasonNone "" Second :: healthy_run)) false) = ExitFailed.
Proof. by vm_compute. Qed.
Example silence_fails : ExitCode (Summarize checks (Reconcile checks []) false) = ExitFailed.
Proof. by vm_compute. Qed.
Example budget_is_incomplete :
  ExitCode (Summarize (take 1 checks) (Reconcile (take 1 checks)
    [mkRecord CheckAttachmentNamesThisServer StateNotReached ReasonBudget "" 0]) false) = ExitIncomplete.
Proof. by vm_compute. Qed.
