(* ===== verification/ReportMask.v ===== *)
(** * Masking a run's output (test/e2e/report/report.go, renderMasked of output.go)

    The writer that masks whole lines, however they are split into writes, and the mask
    that replaces the run's own credentials. A Write and a Flush hold the writer's mutex
    from start to end, so a sequence of them is a sequence of operations on its state. *)

From S2P Require Import Prelude GoStrings GoErrors Log.

Local Open Scope stdpp_scope.

(** ** The masking writer *)

Section Writer.
Context {W : Type}.
(** io.WriteString on the destination: its error and the destination it leaves. *)
Variable WriteString : W -> string -> option gerror * W.

Record MaskingWriter := mkMaskingWriter {
  mw_next : W; mw_pending : string; mw_mask : string -> string }.

(** A nil mask is the identity. *)
Definition NewMaskingWriter (next : W) (mask : option (string -> string)) : MaskingWriter :=
  mkMaskingWriter next "" (match mask with Some mask => mask | None => fun s => s end).

(** The loop of Write; [None] is running out of fuel. *)
Fixpoint forward_lines (fuel : nat) (w : MaskingWriter) : option (option gerror * MaskingWriter) :=
  match fuel with
  | O => None
  | S fuel =>
      match IndexByte (mw_pending w) newline with
      | None => Some (None, w)
      | Some index =>
          let line := string_take (index + 1) (mw_pending w) in
          let pending := string_drop (index + 1) (mw_pending w) in
          let '(err, next) := WriteString (mw_next w) (mw_mask w line) in
          let w' := mkMaskingWriter next pending (mw_mask w) in
          match err with
          | Some err => Some (Some err, w')
          | None => forward_lines fuel w'
          end
      end
  end.

(** The count and the error Write answers, and the writer it leaves. *)
Definition Write (w : MaskingWriter) (p : string) : option (Z * option gerror * MaskingWriter) :=
  let pending := mw_pending w +:+ p in
  match forward_lines (S (String.length pending)) (mkMaskingWriter (mw_next w) pending (mw_mask w)) with
  | None => None
  | Some (err, w') => Some (Z.of_nat (String.length p), err, w')
  end.

Definition Flush (w : MaskingWriter) : option gerror * MaskingWriter :=
  if bool_decide (mw_pending w = "") then (None, w) else
  let '(err, next) := WriteString (mw_next w) (mw_mask w (mw_pending w)) in
  (err, mkMaskingWriter next "" (mw_mask w)).
End Writer.
Arguments MaskingWriter W : clear implicits.

(** ** The masks *)

Definition RedactLine (s : string) : string := RedactString s.

Definition longer_first (a b : string) : bool :=
  if negb (String.length a =? String.length b)%nat then (String.length b <? String.length a)%nat
  else match String.compare a b with Lt => true | _ => false end.

Definition stars : string := marker "*" "*" "*".

Definition ExactMask (secrets : list string) : string -> string :=
  let ordered := insertion_sort longer_first
    (List.filter (fun secret => negb (bool_decide (secret = ""))) secrets) in
  fun line => RedactString (fold_left (fun line secret => ReplaceAll line secret stars) ordered line).

(** ** renderMasked *)

(** bytes.Buffer: a write never fails. *)
Definition buffer_WriteString (b s : string) : option gerror * string := (None, b +:+ s).

(** A rendering is the sequence of its writes and the error it returns; it sees no error of
    its own writes, because the buffer below has none. *)
Fixpoint write_all (w : MaskingWriter string) (chunks : list string) : option (MaskingWriter string) :=
  match chunks with
  | [] => Some w
  | p :: chunks =>
      match Write buffer_WriteString w p with
      | None => None
      | Some (_, _, w') => write_all w' chunks
      end
  end.

(** [None] is a rendering that does not end. *)
Definition renderMasked (mask : string -> string) (render : list string * option gerror) :
    option (result string) :=
  match write_all (NewMaskingWriter "" (Some mask)) render.1 with
  | None => None
  | Some masked =>
      let '(flushErr, masked) := Flush buffer_WriteString masked in
      match errors_Join [render.2; flushErr] with
      | Some err => Some (Err err)
      | None => Some (Ok (mw_next masked))
      end
  end.

(** ** Facts *)

(** The complete lines of a text, with their newlines, and what is left. *)
Fixpoint split_lines (s : string) : list string * string :=
  match s with
  | EmptyString => ([], "")
  | String a t =>
      let '(ls, r) := split_lines t in
      if byte_eqb a newline then (String a "" :: ls, r)
      else match ls with
           | l :: ls => (String a l :: ls, r)
           | [] => ([], String a r)
           end
  end.

(** All lines, the last one possibly without a newline. *)
Definition lines_of (s : string) : list string :=
  let '(ls, r) := split_lines s in if bool_decide (r = "") then ls else ls ++ [r].

Definition concat_strings (l : list string) : string := foldr String.append "" l.

Lemma concat_strings_app l1 l2 : concat_strings (l1 ++ l2) = concat_strings l1 +:+ concat_strings l2.
Proof. induction l1 as [|x l1 IH]; [done|]. simpl. by rewrite IH, append_assoc. Qed.

Lemma split_lines_app s t :
  let '(ls, r) := split_lines s in
  split_lines (s +:+ t) = let '(ls', r') := split_lines (r +:+ t) in (ls ++ ls', r').
Proof.
  induction s as [|a s IH]; simpl; [by destruct (split_lines t)|].
  destruct (split_lines s) as [ls r]. destruct (byte_eqb a newline) eqn:E.
  - rewrite IH. by destruct (split_lines (r +:+ t)).
  - destruct ls as [|l ls]; simpl.
    + rewrite IH, E. by destruct (split_lines (r +:+ t)) as [[|] ?].
    + rewrite IH. by destruct (split_lines (r +:+ t)).
Qed.

(** The first line of a text and what is behind it. *)
Lemma split_lines_index s :
  match IndexByte s newline with
  | None => split_lines s = ([], s)
  | Some i => let '(ls, r) := split_lines (string_drop (i + 1) s) in
              split_lines s = (string_take (i + 1) s :: ls, r)
              /\ String.length (string_drop (i + 1) s) < String.length s
  end.
Proof.
  induction s as [|a s IH]; simpl; [done|]. destruct (byte_eqb a newline) eqn:E.
  - simpl. destruct (split_lines s) as [ls r]. split; [done|simpl; lia].
  - destruct (IndexByte s newline) as [i|]; simpl; [|by rewrite IH].
    destruct (split_lines (string_drop (i + 1) s)) as [ls r]. destruct IH as [-> ?].
    split; [done|lia].
Qed.

(** Over a buffer the loop forwards every complete line, masked, and keeps the rest. *)
Lemma forward_lines_buffer mask fuel next s :
  String.length s < fuel ->
  forward_lines buffer_WriteString fuel (mkMaskingWriter next s mask)
  = let '(ls, r) := split_lines s in
    Some (None, mkMaskingWriter (next +:+ concat_strings (map mask ls)) r mask).
Proof.
  revert next s. induction fuel as [|fuel IH]; intros next s Hf; [lia|]. simpl.
  pose proof (split_lines_index s) as Hs. destruct (IndexByte s newline) as [i|].
  - destruct (split_lines (string_drop (i + 1) s)) as [ls r] eqn:E. destruct Hs as [-> Hl].
    unfold buffer_WriteString at 1. rewrite IH, E by lia. simpl. by rewrite append_assoc.
  - rewrite Hs. simpl. by rewrite append_nil_r.
Qed.

Lemma Write_buffer mask next pending p :
  Write buffer_WriteString (mkMaskingWriter next pending mask) p
  = let '(ls, r) := split_lines (pending +:+ p) in
    Some (Z.of_nat (String.length p), None,
          mkMaskingWriter (next +:+ concat_strings (map mask ls)) r mask).
Proof.
  unfold Write. cbn [mw_next mw_pending mw_mask]. rewrite forward_lines_buffer by lia.
  by destruct (split_lines _).
Qed.

Lemma split_rest s : (split_lines (split_lines s).2).1 = [] /\ (split_lines (split_lines s).2).2 = (split_lines s).2.
Proof.
  induction s as [|a s IH]; simpl; [done|]. destruct (split_lines s) as [ls r]. simpl in IH.
  destruct (byte_eqb a newline) eqn:E; simpl; [done|]. destruct ls as [|l ls]; simpl; [|done].
  rewrite E. destruct (split_lines r) as [ls' r']. simpl in IH. by destruct IH as [-> ->].
Qed.

Lemma write_all_buffer mask next pending chunks :
  (split_lines pending).1 = [] -> (split_lines pending).2 = pending ->
  write_all (mkMaskingWriter next pending mask) chunks
  = let '(ls, r) := split_lines (pending +:+ concat_strings chunks) in
    Some (mkMaskingWriter (next +:+ concat_strings (map mask ls)) r mask).
Proof.
  revert next pending. induction chunks as [|p chunks IH]; intros next pending H1 H2; simpl.
  - rewrite append_nil_r. destruct (split_lines pending) as [ls r]. simpl in *. subst.
    simpl. by rewrite append_nil_r.
  - rewrite Write_buffer. pose proof (split_lines_app (pending +:+ p) (concat_strings chunks)) as Happ.
    pose proof (split_rest (pending +:+ p)) as [Hr1 Hr2].
    destruct (split_lines (pending +:+ p)) as [ls r]. simpl in Hr1, Hr2.
    rewrite IH by done. rewrite <-append_assoc, Happ.
    destruct (split_lines (r +:+ concat_strings chunks)) as [ls' r'].
    by rewrite map_app, concat_strings_app, append_assoc.
Qed.

(** What a rendering leaves: its text, line by line masked, whatever its writes were. *)
Lemma renderMasked_lines mask chunks :
  renderMasked mask (chunks, None) = Some (Ok (concat_strings (map mask (lines_of (concat_strings chunks))))).
Proof.
  unfold renderMasked, NewMaskingWriter. cbn [fst snd]. rewrite write_all_buffer by done. simpl.
  unfold lines_of. destruct (split_lines (concat_strings chunks)) as [ls r].
  unfold Flush. cbn [mw_pending mw_next mw_mask]. case_bool_decide; [done|].
  simpl. by rewrite map_app, concat_strings_app; simpl; rewrite append_nil_r.
Qed.

(** *** The end of a masked line

    A mask keeps the last byte of a line or ends it with a star, so that no credential
    can arise across two masked lines. *)

Definition keeps_end (before after : option ascii) : Prop := after = before \/ after = Some "*"%char.

Lemma replace_end old k s p q :
  (p = q \/ p = Some "*"%char) -> (k <> 0 -> p = Some "*"%char) ->
  keeps_end (last_byte q s) (last_byte p (replace_from old stars k s)).
Proof.
  unfold keeps_end. revert k p q. induction s as [|a s IH]; intros k p q Hpq Hk; cbn [replace_from last_byte].
  { destruct Hpq as [-> | ->]; auto. }
  destruct k as [|k].
  - destruct (HasPrefix (String a s) old).
    + apply (IH _ (Some "*"%char)); auto.
    + cbn [last_byte]. apply IH; auto. done.
  - rewrite Hk by done. apply IH; auto.
Qed.

Lemma mask_scan_end prefix f prev s p q :
  prefix <> "" -> (p = q \/ p = Some "*"%char) ->
  keeps_end (last_byte q s) (last_byte p (mask_scan f prefix prev s)).
Proof.
  unfold keeps_end. intros Hne. revert prev s p q. induction f as [|f IH]; intros prev s p q Hpq.
  { simpl. destruct s; [|by left]. destruct Hpq as [-> | ->]; auto. }
  destruct (HasPrefix s prefix && name_start prev) eqn:E.
  - apply andb_true_iff in E as [[t ->]%HasPrefix_spec Hn]. rewrite mask_scan_hit by done.
    rewrite last_byte_app. case_decide as Hv.
    + rewrite last_byte_app. apply IH. left. by destruct prefix.
    + rewrite !last_byte_app. replace (last_byte (last_byte q prefix) t) with
        (last_byte (last_byte q prefix) (take_while isQuoteOrSpace t +:+ value_of t +:+ after_value t))
        by by rewrite <-value_of_app.
      rewrite !last_byte_app. apply IH. by right.
  - cbn [mask_scan]. rewrite E. destruct s as [|a s]; simpl.
    + destruct Hpq as [-> | ->]; auto.
    + apply IH. by left.
Qed.

Lemma keeps_end_trans a b c : keeps_end a b -> keeps_end b c -> keeps_end a c.
Proof. unfold keeps_end. intros [-> | ->] [-> | ->]; auto. Qed.

Lemma fold_end {B} (f : string -> B -> string) (l : list B) s :
  (forall s x, x ∈ l -> keeps_end (last_byte None s) (last_byte None (f s x))) ->
  keeps_end (last_byte None s) (last_byte None (fold_left f l s)).
Proof.
  revert s. induction l as [|x l IH]; intros s Hf; simpl; [by left|].
  eapply keeps_end_trans; [apply (Hf s x); set_solver|]. apply IH. intros y z Hz. apply Hf. set_solver.
Qed.

Lemma RedactString_end s : keeps_end (last_byte None s) (last_byte None (RedactString s)).
Proof.
  unfold RedactString. case_decide; [by left|]. apply fold_end. intros s1 key Hk.
  apply fold_end. intros s2 sep Hs. pose proof (good_key key sep Hk Hs) as Hg.
  rewrite maskKeyValues_eq by (by apply good_prefix_ne).
  apply mask_scan_end; [by apply good_prefix_ne|by left].
Qed.

Lemma ExactMask_end secrets s : keeps_end (last_byte None s) (last_byte None (ExactMask secrets s)).
Proof.
  unfold ExactMask. eapply keeps_end_trans; [|apply RedactString_end].
  apply fold_end. intros t x _. apply replace_end; [by left|done].
Qed.

(** A credential the mask can work on: one line, without the mask's own byte. *)
Definition maskable (s : string) : bool :=
  negb (bool_decide (s = "")) && negb (contains_byte "*" s) && negb (contains_byte newline s).

Lemma ExactMask_no_secret secrets s line :
  s ∈ secrets -> maskable s = true -> ~ occurs s (ExactMask secrets line).
Proof.
  unfold maskable. intros Hin Hs Ho. to_prop. unfold ExactMask in Ho.
  apply occurs_RedactString in Ho; [|done..]. revert Ho.
  apply (occurs_replace_list "*" "*" "*"); [done..| |].
  - intros Ho. assert (contains_byte "*" s = true); [|congruence]. destruct Ho as (u & v & Huv).
    destruct u as [|a u].
    + destruct s as [|b s]; [done|]. injection Huv as <- _. done.
    + injection Huv as _ Huv. symmetry in Huv. apply append_eq_nil in Huv as [_ Huv].
      by apply append_eq_nil in Huv as [-> _].
  - rewrite insertion_sort_perm, list_elem_of_In, List.filter_In, negb_true_iff, bool_decide_eq_false.
    split; [by apply list_elem_of_In|done].
Qed.

Lemma last_byte_split s a : last_byte None s = Some a -> exists t, s = t +:+ String a "".
Proof.
  assert (forall p, last_byte p s = Some a -> s = "" \/ exists t, s = t +:+ String a "") as H.
  { induction s as [|b s IH]; intros p Hp; [by left|]. right. simpl in Hp. destruct (IH _ Hp) as [->|[t ->]].
    - simpl in Hp. simplify_eq. by exists "".
    - by exists (String b t). }
  intros Hl. destruct (H None Hl) as [->|?]; [done|done].
Qed.

Lemma lines_of_spec s :
  concat_strings (lines_of s) = s
  /\ exists ls r, lines_of s = ls ++ r /\ length r <= 1
       /\ Forall (fun l => last_byte None l = Some newline) ls.
Proof.
  unfold lines_of.
  assert (let '(ls, r) := split_lines s in concat_strings ls +:+ r = s
          /\ Forall (fun l => last_byte None l = Some newline) ls) as H.
  { induction s as [|a s IH]; simpl; [by split|]. destruct (split_lines s) as [ls r].
    destruct IH as [IH1 IH2]. destruct (byte_eqb a newline) eqn:E.
    - apply byte_eqb_eq in E as ->. simpl. rewrite IH1. split; [done|by constructor].
    - destruct ls as [|l ls]; simpl in *; [by rewrite IH1|].
      apply Forall_cons_iff in IH2 as [Hl IH2]. split; [by rewrite IH1|]. constructor; [|done].
      destruct l; [done|exact Hl]. }
  destruct (split_lines s) as [ls r]. destruct H as [Hc Hl]. case_bool_decide.
  - subst. rewrite append_nil_r in *. split; [done|]. exists ls, []. rewrite app_nil_r. auto.
  - rewrite concat_strings_app. simpl. rewrite append_nil_r. split; [done|]. by exists ls, [r].
Qed.

(** Lines that end with a byte the pattern does not have cannot form it together. *)
Lemma occurs_concat o ls r :
  o <> "" -> Forall (fun l => exists a, last_byte None l = Some a /\ contains_byte a o = false) ls ->
  length r <= 1 -> occurs o (concat_strings (ls ++ r)) -> exists l, l ∈ ls ++ r /\ occurs o l.
Proof.
  intros Ho Hls Hr. induction Hls as [|l ls (a & Ha & Hno) _ IH]; simpl.
  - destruct r as [|x [|]]; simpl in *; [by intros ?%occurs_nil_inv| |lia].
    rewrite append_nil_r. intros H. exists x. split; [constructor|done].
  - apply last_byte_split in Ha as [t ->]. rewrite append_assoc. simpl.
    intros [H|H]%occurs_sep; [| |done|done].
    + exists (t +:+ String a ""). split; [constructor|]. by apply occurs_app_l.
    + destruct (IH H) as (y & Hy & ?). exists y. split; [by constructor|done].
Qed.

(** What a rendering through the run's mask leaves: the rendered text masked line by line,
    however it was split into writes, or the error of the rendering; and no maskable
    credential of the run occurs anywhere in it, not even across lines. *)
Lemma renderMasked_spec secrets chunks err :
  exists r, renderMasked (ExactMask secrets) (chunks, err) = Some r
    /\ (err = None -> r = Ok (concat_strings (map (ExactMask secrets) (lines_of (concat_strings chunks)))))
    /\ (forall e, err = Some e -> exists e', r = Err e' /\ forall t, Is e' t = Is e t)
    /\ forall out s, r = Ok out -> s ∈ secrets -> maskable s = true -> ~ occurs s out.
Proof.
  destruct err as [e|].
  - pose proof (renderMasked_lines (ExactMask secrets) chunks) as H. unfold renderMasked in *. cbn [fst snd] in *.
    destruct (write_all _ _) as [w|]; [|done].
    assert ((Flush buffer_WriteString w).1 = None) as HF by (unfold Flush; by case_bool_decide).
    destruct (Flush buffer_WriteString w) as [ferr w']. simpl in HF. subst ferr. eexists. split; [done|].
    split; [done|]. split; [|done]. intros e0 [= <-]. eexists. split; [done|].
    intros t. unfold Is. simpl. by destruct (efind _ e).
  - rewrite renderMasked_lines. eexists. split; [done|]. split; [done|]. split; [done|].
    intros out s [= <-] Hin Hs Ho. pose proof Hs as Hs'. unfold maskable in Hs'. to_prop.
    destruct (lines_of_spec (concat_strings chunks)) as (_ & ls & r & Heq & Hr & Hls).
    rewrite Heq, map_app in Ho. apply occurs_concat in Ho as (l & Hl & Ho).
    + rewrite <-map_app in Hl. apply list_elem_of_In, in_map_iff in Hl as (x & <- & _).
      by eapply ExactMask_no_secret.
    + done.
    + apply Forall_map. eapply Forall_impl; [|exact Hls]. intros l Hl. simpl.
      destruct (ExactMask_end secrets l) as [He|He]; rewrite He, ?Hl; eauto.
    + by rewrite length_map.
Qed.
