(* ===== verification/Report.v ===== *)
(** * The readable report (test/e2e/report/report.go)

    The progress lines, the header and the report itself, each as the list of its writes:
    every write is followed by a test of its error, so that the writes of a failed call
    are a prefix of the list. *)

From S2P Require Import Prelude GoStrings GoErrors Runtime GoTime GoTabwriter Log Catalogue Outcome ReportMask.

Local Open Scope stdpp_scope.
Local Open Scope Z_scope.

(** ** Records and reasons *)

Definition reasonText (rec : CheckRecord) : string :=
  if negb (bool_decide (rec_Detail rec = "")) then RedactLine (rec_Detail rec)
  else if negb (bool_decide (rec_Reason rec = ReasonNone)) then rec_Reason rec
  else "".

Definition reason_order : list SkipReason :=
  [ReasonUnauthorized; ReasonWindow; ReasonShape; ReasonBlocked; ReasonBudget; ReasonNeverRan;
   ReasonNotForceable; ReasonUnclassified; ReasonNone].

Definition orderedReasons (counts : tally) : list SkipReason :=
  flat_map (fun reason => if 0 <? tally_of counts reason then [reason] else []) reason_order.

(** ** Wrapping *)

(** One turn of the loop over the words: what has been written and the line in hand. *)
Definition wrap_step (width : nat) (indent : string) (s : string * string) (word : string) : string * string :=
  let '(out, line) := s in
  if (width <? String.length line + 1 + String.length word)%nat
  then (out +:+ line +:+ String newline "" +:+ indent, word)
  else (out, line +:+ " " +:+ word).

Definition wrapIndent (text : string) (width : nat) (indent : string) : string :=
  match Fields text with
  | [] => ""
  | word :: words =>
      let '(out, line) := fold_left (wrap_step width indent) words ("", word) in
      out +:+ line
  end.

(** ** Findings about the catalogue *)

Definition tierExcuses (tier : CheckTier) (reason : SkipReason) : bool :=
  if bool_decide (reason = ReasonBudget) || bool_decide (reason = ReasonBlocked)
     || bool_decide (reason = ReasonNeverRan) then true
  else if bool_decide (reason = ReasonUnauthorized) then bool_decide (tier = TierAuthorized)
  else if bool_decide (reason = ReasonWindow) || bool_decide (reason = ReasonShape)
  then bool_decide (tier = TierOpportunistic)
  else if bool_decide (reason = ReasonNotForceable) then bool_decide (tier = TierNotForceable)
  else false.

Definition tierFinding (entry : Check) (reason : SkipReason) : string :=
  if bool_decide (ck_Tier entry = TierForceable) then
    ck_ID entry +:+ " should be reachable by any run but was skipped as " +:+ quote reason
  else if bool_decide (ck_Tier entry = TierAuthorized) then
    ck_ID entry +:+ " needs its cost authorized, so a skip as " +:+ quote reason
      +:+ " does not explain it"
  else if bool_decide (ck_Tier entry = TierOpportunistic) then
    ck_ID entry +:+ " waits on a timing window or the instance shape, so a skip as " +:+ quote reason
      +:+ " does not explain it"
  else ck_ID entry +:+ " is catalogued as impossible to force but was skipped as " +:+ quote reason.

Definition checkFindings (entry : Check) (rec : CheckRecord) : list string :=
  if bool_decide (rec_State rec = StateNotReached) && bool_decide (rec_Reason rec = ReasonUnclassified) then
    [ck_ID entry +:+ " was skipped without classifying why, so nothing says whether another run could reach it"]
  else if bool_decide (rec_State rec = StateNotReached) && bool_decide (rec_Reason rec = ReasonNeverRan) then
    [ck_ID entry +:+ " was selected but no check executed it"]
  else if bool_decide (ck_Tier entry = TierNotForceable) && bool_decide (rec_State rec = StateDemonstrated) then
    [ck_ID entry +:+ " is catalogued as impossible to force but this run demonstrated it, so the catalogue is stale"]
  else if bool_decide (rec_State rec = StateNotReached) && negb (tierExcuses (ck_Tier entry) (rec_Reason rec))
  then [tierFinding entry (rec_Reason rec)]
  else [].

Definition coherenceFindings (selected : list Check) (records : list CheckRecord) : list string :=
  let byID := fold_left (fun (m : gmap string CheckRecord) rec => <[rec_ID rec : string := rec]> m) records ∅ in
  fold_left (fun findings entry =>
    match byID !! (ck_ID entry : string) with
    | None => findings
    | Some rec => findings ++ checkFindings entry rec
    end) selected [].

(** ** Progress

    The mutex orders whole lines. A nil Progress prints nothing. *)

Record Progress := mkProgress { pr_total : nat; pr_positions : gmap string nat }.

Definition positionIndex (cat : list Check) : gmap string nat :=
  (fold_left (fun (s : gmap string nat * nat) entry =>
     (<[ck_ID entry : string := S s.2]> s.1, S s.2)) cat (∅, 0%nat)).1.

Definition NewProgress (cat : list Check) : Progress := mkProgress (length cat) (positionIndex cat).

(** The verb %2d of a position. *)
Definition padded2 (n : nat) : string :=
  let s := itoa (Z.of_nat n) in spaces (2 - String.length s) +:+ s.

Definition counter (p : Progress) (entry : Check) : string :=
  "[" +:+ padded2 (default 0%nat (pr_positions p !! (ck_ID entry : string))) +:+ "/"
    +:+ itoa (Z.of_nat (pr_total p)) +:+ "]".

Definition Starting (p : option Progress) (entry : Check) : list string :=
  match p with
  | None => []
  | Some p => [counter p entry +:+ " running       " +:+ ck_Group entry +:+ " / " +:+ ck_ID entry +:+ eol]
  end.

(** The verb %-13s. *)
Definition padded13 (s : string) : string := s +:+ spaces (13 - rune_count s).

Definition Finished (p : option Progress) (entry : Check) (rec : CheckRecord) : list string :=
  match p with
  | None => []
  | Some p =>
      let trailer := if bool_decide (rec_State rec = StateNotReached) then rec_Reason rec
                     else Duration_String (Round (rec_Elapsed rec) Millisecond) in
      [counter p entry +:+ " " +:+ padded13 (rec_State rec) +:+ " " +:+ ck_Group entry +:+ " / "
         +:+ ck_ID entry +:+ "   " +:+ trailer +:+ eol]
  end.

(** ** Header *)

Record NameValue := mkNameValue { nv_Name : string; nv_Value : string }.

Record GuestInfo := mkGuestInfo {
  gi_Kernel : string; gi_Udev : string; gi_Blkid : string; gi_MkfsExt4 : string; gi_MkfsXfs : string }.

Record ReportHeader := mkReportHeader {
  rh_Tool : string; rh_ToolBuild : string; rh_DriverBinary : string; rh_DriverBuild : string;
  rh_BuildsAgree : bool; rh_Profile : Profile; rh_Strict : bool; rh_TimeBudget : Z; rh_RunID : string;
  rh_ProjectID : string; rh_Region : string; rh_Zone : string; rh_ServerID : string;
  rh_ServerStatus : string; rh_VolumeType : string; rh_Guest : GuestInfo; rh_Started : Z }.

Definition guestFacts (g : GuestInfo) : list NameValue :=
  [mkNameValue "guest kernel" (gi_Kernel g); mkNameValue "guest udev" (gi_Udev g);
   mkNameValue "guest blkid" (gi_Blkid g); mkNameValue "guest mkfs.ext4" (gi_MkfsExt4 g);
   mkNameValue "guest mkfs.xfs" (gi_MkfsXfs g)].

(** fmt.Sprint of a bool. *)
Definition Sprint_bool (b : bool) : string := if b then "true" else "false".

Definition fact_row (fact : NameValue) : string := "  " +:+ nv_Name fact +:+ tab +:+ nv_Value fact +:+ eol.

Definition WriteHeader (h : ReportHeader) : list string :=
  let facts :=
    [mkNameValue "asset build" (rh_ToolBuild h);
     mkNameValue "driver binary" (rh_DriverBinary h);
     mkNameValue "driver build" (rh_DriverBuild h);
     mkNameValue "profile" (rh_Profile h);
     mkNameValue "strict coverage" (Sprint_bool (rh_Strict h));
     mkNameValue "time budget" (Duration_String (rh_TimeBudget h));
     mkNameValue "run identifier" (rh_RunID h);
     mkNameValue "approved project" (rh_ProjectID h);
     mkNameValue "region" (rh_Region h);
     mkNameValue "availability zone" (rh_Zone h);
     mkNameValue "instance" (rh_ServerID h);
     mkNameValue "instance state" (rh_ServerStatus h);
     mkNameValue "volume type" (rh_VolumeType h);
     mkNameValue "started" (RFC3339 (rh_Started h))]
    ++ List.filter (fun fact => negb (bool_decide (nv_Value fact = ""))) (guestFacts (rh_Guest h)) in
  [rh_Tool h +:+ eol +:+ eol; tabwriter (concat_strings (map fact_row facts))]
  ++ (if negb (rh_BuildsAgree h)
      then [eol +:+ "  The asset and the driver were built from different sources. A verdict from this run" +:+ eol
              +:+ "  describes neither build on its own." +:+ eol]
      else [])
  ++ [eol].

(** ** Report *)

Definition nonClaims : list string :=
  ["It used this instance's own kernel, udev and filesystem utilities, whose versions are named above. It did not use the versions inside the image a release ships.";
   "It covered one availability zone, one volume type and one instance shape. It says nothing about any other.";
   "It drove the driver's own service surface directly. No orchestrator, node agent or sidecar took part.";
   "A check reported as not forceable names a state neither the service nor a caller can produce on demand. This run does not cover that state.";
   "It says nothing about capacity, quota, throughput or latency.";
   "A demonstrated check is an observation about these builds in this project at this time."].

(** One row of the table. *)
Definition report_row (position : nat) (entry : Check) (rec : CheckRecord) : string :=
  let took := if 0 <? rec_Elapsed rec then Duration_String (Round (rec_Elapsed rec) Millisecond) else "" in
  let why := reasonText rec in
  let why :=
    if negb (bool_decide (ck_ProofRoute entry = "")) then
      let route := "offline proof route: " +:+ ck_ProofRoute entry in
      if bool_decide (why = "") then route else why +:+ "; " +:+ route
    else why in
  "  " +:+ itoa (Z.of_nat position) +:+ tab +:+ ck_Group entry +:+ tab +:+ rec_ID rec +:+ tab
    +:+ rec_State rec +:+ tab +:+ took +:+ tab +:+ why +:+ eol.

(** The rows of the selected checks that have a record, at their place in the selection. *)
Definition selected_rows (byID : gmap string CheckRecord) (selected : list Check) :
    list (nat * Check * CheckRecord) :=
  concat (imap (fun i entry => match byID !! (ck_ID entry : string) with
                               | None => []
                               | Some rec => [((i + 1)%nat, entry, rec)]
                               end) selected).

(** The rows of the records that name no selected check, numbered on. *)
Definition other_rows (catalogued : gset string) (position : nat) (records : list CheckRecord) :
    list (nat * Check * CheckRecord) :=
  (fold_left (fun (s : list (nat * Check * CheckRecord) * nat) rec =>
     if bool_decide ((rec_ID rec : string) ∈ catalogued) then s
     else (s.1 ++ [(S s.2, mkCheck "" "(uncatalogued)" "" [] "" "", rec)], S s.2))
     records ([], position)).1.

Definition report_rows (selected : list Check) (records : list CheckRecord) : list (nat * Check * CheckRecord) :=
  selected_rows (record_index records) selected
  ++ other_rows (list_to_set (map ck_ID selected)) (length selected) records.

(** How many records were not reached for each reason. *)
Definition reason_counts (records : list CheckRecord) : tally :=
  fold_left (fun (m : tally) rec =>
    if bool_decide (rec_State rec = StateNotReached)
    then <[rec_Reason rec : string := tally_of m (rec_Reason rec) + 1]> m else m) records ∅.

Definition WriteReport (h : ReportHeader) (selected : list Check) (records : list CheckRecord)
    (result : Summary) (teardown finalization : list gerror) (observations : list NameValue)
    (elapsed : Z) : list string :=
  let byReason := reason_counts records in
  let findings := coherenceFindings selected records in
  ["Checks" +:+ eol +:+ eol;
   tabwriter (concat_strings
     (("  #" +:+ tab +:+ "SCENARIO" +:+ tab +:+ "CHECK" +:+ tab +:+ "OUTCOME" +:+ tab +:+ "ELAPSED" +:+ tab
         +:+ "WHY" +:+ eol)
      :: map (fun '(position, entry, rec) => report_row position entry rec) (report_rows selected records)));
   eol +:+ "  " +:+ itoa (sm_Demonstrated result) +:+ " demonstrated, " +:+ itoa (sm_Failed result)
     +:+ " failed, " +:+ itoa (sm_NotReached result) +:+ " not reached, of " +:+ itoa (sm_Total result)
     +:+ " checks in " +:+ Duration_String (Round elapsed Second) +:+ "." +:+ eol]
  ++ map (fun reason => "    " +:+ itoa (tally_of byReason reason) +:+ " not reached: " +:+ reason +:+ eol)
       (orderedReasons byReason)
  ++ (if (0 <? length findings)%nat
      then (eol +:+ "Findings about this asset" +:+ eol +:+ eol)
           :: map (fun finding => "  " +:+ finding +:+ eol) findings
      else [])
  ++ [eol +:+ "Reclamation" +:+ eol +:+ eol]
  ++ (if (length teardown =? 0)%nat
      then ["  Everything this run created was reclaimed." +:+ eol] else [])
  ++ map (fun failure => "  " +:+ RedactLine (Error failure) +:+ eol) teardown
  ++ (if (0 <? length finalization)%nat
      then (eol +:+ "Finalization" +:+ eol +:+ eol)
           :: map (fun failure => "  " +:+ RedactLine (Error failure) +:+ eol) finalization
      else [])
  ++ (if (0 <? length observations)%nat
      then [eol +:+ "Observed values" +:+ eol +:+ eol; tabwriter (concat_strings (map fact_row observations))]
      else [])
  ++ [eol +:+ "What this run does not prove" +:+ eol +:+ eol]
  ++ map (fun claim => "  " +:+ wrapIndent claim 94 "  " +:+ eol) nonClaims
  ++ [eol +:+ "Verdict: " +:+ sm_Verdict result +:+ " (exit " +:+ itoa (ExitCode result) +:+ ")." +:+ eol
        +:+ "  Run " +:+ rh_RunID h +:+ " under the " +:+ rh_Profile h +:+ " profile, driving "
        +:+ rh_DriverBuild h +:+ "." +:+ eol]
  ++ (if negb (rh_BuildsAgree h)
      then ["  The asset build " +:+ rh_ToolBuild h
              +:+ " does not match, so this verdict describes neither build alone." +:+ eol]
      else []).

(** ** Facts *)

Lemma checkFindings_incoherence entry rec : checkFindings entry rec = incoherence entry rec.
Proof. reflexivity. Qed.

Lemma coherenceFindings_flat selected records :
  coherenceFindings selected records =
  flat_map (fun entry => match record_index records !! (ck_ID entry : string) with
                         | None => []
                         | Some rec => incoherence entry rec
                         end) selected.
Proof.
  unfold coherenceFindings. fold (record_index records). induction selected as [|c l IH] using rev_ind; [done|].
  rewrite fold_left_app, flat_map_app, <-IH. simpl. destruct (_ !! _); by rewrite ?app_nil_r.
Qed.

(** The report explains the verdict: a run is failed exactly when one of its records is a
    failure or the report prints a finding about the catalogue, and what it prints are the
    disagreements the verdict was decided on, in catalogue order. *)
Lemma findings_explain selected records strict :
  (sm_Verdict (Summarize selected records strict) = VerdictFailed <->
     (exists r, r ∈ records /\ rec_State r = StateFailed) \/ coherenceFindings selected records <> [])
  /\ coherenceFindings selected records
     = flat_map (fun entry => match record_index records !! (ck_ID entry : string) with
                              | None => []
                              | Some rec => incoherence entry rec
                              end) selected.
Proof.
  split; [|apply coherenceFindings_flat]. rewrite Summarize_failed, coherenceFindings_flat.
  apply or_iff_compat_l. rewrite existsb_exists. split.
  - intros (c & Hc & Hx) Hnil. apply List.in_split in Hc as (l1 & l2 & ->).
    rewrite flat_map_app in Hnil. apply app_eq_nil in Hnil as [_ Hnil]. simpl in Hnil.
    apply app_eq_nil in Hnil as [Hnil _]. unfold contradicts in Hx.
    destruct (record_index records !! _); [|done]. by rewrite Hnil in Hx.
  - intros Hne. destruct (flat_map _ selected) as [|x l] eqn:E; [done|].
    assert (In x (x :: l)) as Hx by by left. rewrite <-E in Hx. apply in_flat_map in Hx as (c & Hc & Hx).
    exists c. split; [done|]. unfold contradicts. destruct (record_index records !! _) as [r|]; [|done].
    by destruct (incoherence c r).
Qed.

(** Wrapping keeps the words: the text is cut into lines of words, joined by single spaces,
    and only a line of one word is longer than the width. *)
Lemma wrap_fold width indent words out line ws :
  line = Join ws " " -> ws <> [] -> ((String.length line <= width)%nat \/ length ws = 1%nat) ->
  exists lines last, fold_left (wrap_step width indent) words (out, line)
      = (out +:+ concat_strings (map (fun l => Join l " " +:+ String newline indent) lines), Join last " ")
    /\ concat (lines ++ [last]) = ws ++ words
    /\ Forall (fun l => l <> [] /\ ((String.length (Join l " ") <= width)%nat \/ length l = 1%nat)) (lines ++ [last]).
Proof.
  assert (forall (ws : list string) w, ws <> [] -> Join (ws ++ [w]) " " = Join ws " " +:+ " " +:+ w) as Hjoin.
  { induction ws0 as [|x [|y l] IH]; intros w Hne; [done|done|].
    change (x +:+ " " +:+ Join ((y :: l) ++ [w]) " " = (x +:+ " " +:+ Join (y :: l) " ") +:+ " " +:+ w).
    by rewrite IH, !append_assoc. }
  revert out line ws. induction words as [|w words IH]; intros out line ws -> Hne Hw; simpl.
  { exists [], ws. simpl. rewrite append_nil_r, app_nil_r. split; [done|]. split; [done|].
    constructor; [by split|constructor]. }
  destruct (Nat.ltb_spec width (String.length (Join ws " ") + 1 + String.length w)) as [Hlt|Hge].
  - destruct (IH (out +:+ Join ws " " +:+ String newline indent) w [w]) as (lines & last & -> & Hc & Hf);
      [done|done|by right|]. exists (ws :: lines), last. split; [|split].
    + simpl. by rewrite !append_assoc.
    + simpl. by rewrite Hc.
    + constructor; [by split|done].
  - destruct (IH out (Join ws " " +:+ String " " w) (ws ++ [w])) as (lines & last & -> & Hc & Hf).
    + by rewrite Hjoin.
    + by destruct ws.
    + left. rewrite !length_append. simpl. lia.
    + exists lines, last. rewrite Hc, <-app_assoc. done.
Qed.

Lemma wrapIndent_lines text width indent :
  wrapIndent text width indent = "" /\ Fields text = [] \/
  exists lines last,
    wrapIndent text width indent
      = concat_strings (map (fun l => Join l " " +:+ String newline indent) lines) +:+ Join last " "
    /\ concat (lines ++ [last]) = Fields text
    /\ Forall (fun l => l <> [] /\ ((String.length (Join l " ") <= width)%nat \/ length l = 1%nat)) (lines ++ [last]).
Proof.
  unfold wrapIndent. destruct (Fields text) as [|w ws]; [by left|]. right.
  destruct (wrap_fold width indent ws "" w [w]) as (lines & last & -> & Hc & Hf); [done|done|by right|].
  exists lines, last. done.
Qed.

(** *** The table *)

Lemma record_index_lookup records (id : string) x :
  x ∈ records -> rec_ID x = id -> (forall r, r ∈ records -> rec_ID r = id -> r = x) ->
  record_index records !! id = Some x.
Proof.
  unfold record_index. induction records as [|r l IH] using rev_ind; intros Hx Hid Hall.
  { by apply elem_of_nil in Hx. }
  rewrite fold_left_app. simpl. destruct (decide (rec_ID r = id)) as [Hr|Hr].
  - rewrite <-Hr, lookup_insert, decide_True by done. f_equal. apply Hall; [in_list|done].
  - rewrite lookup_insert_ne by done. apply elem_of_snoc in Hx as [Hx| ->]; [|done].
    apply IH; [done|done|]. intros y Hy. apply Hall. by apply elem_of_app; left.
Qed.

Lemma Reconcile_split selected recorded :
  exists f extras, Reconcile selected recorded = map f selected ++ extras
    /\ (forall c, rec_ID (f c) = ck_ID c) /\ (forall c c', ck_ID c = ck_ID c' -> f c = f c')
    /\ forall r, r ∈ extras -> rec_ID r ∉ map ck_ID selected.
Proof.
  unfold Reconcile. set (seen := fold_left worst_step recorded ∅).
  pose proof (worst_fold_ok recorded) as Hok. fold seen in Hok.
  destruct (append_fold_ok seen (list_to_set (map ck_ID selected))
    (map (selected_record seen) selected) recorded) as (extras & -> & _ & Hin & _).
  { intros r Hr. specialize (Hok (rec_ID r)). destruct (seen !! _) as [r'|].
    - exists r'. destruct Hok. by split.
    - by destruct (Hok r Hr). }
  exists (selected_record seen), extras. split; [done|]. split; [|split].
  - intros c. apply (selected_record_ok recorded c).
  - intros c c' Hc. unfold selected_record. by rewrite Hc.
  - intros r Hr Hs. assert (rec_ID r ∈ map rec_ID extras) as Hr' by (apply list_elem_of_In, in_map; by apply list_elem_of_In).
    apply Hin in Hr' as [_ Hr']. by rewrite elem_of_list_to_set in Hr'.
Qed.

Lemma selected_rows_all byID f selected :
  (forall c, c ∈ selected -> byID !! (ck_ID c : string) = Some (f c)) ->
  map snd (selected_rows byID selected) = map f selected.
Proof.
  unfold selected_rows. intros Hf.
  assert (forall n, map snd (concat (imap (fun i entry => match byID !! (ck_ID entry : string) with
    | None => [] | Some rec => [((n + i + 1)%nat, entry, rec)] end) selected)) = map f selected) as H; [|apply (H 0%nat)].
  induction selected as [|c l IH]; intros n; [done|]. simpl. rewrite Hf by constructor. simpl. f_equal.
  rewrite <-(IH (fun x Hx => Hf x (list_elem_of_further _ _ _ Hx)) (S n)). do 2 f_equal. apply imap_ext. intros i x _. simpl.
  by replace (n + S i)%nat with (S n + i)%nat by lia.
Qed.

Lemma other_rows_filter catalogued position records :
  map snd (other_rows catalogued position records)
  = List.filter (fun rec => negb (bool_decide ((rec_ID rec : string) ∈ catalogued))) records.
Proof.
  unfold other_rows.
  assert (forall rows, map snd (fold_left (fun (s : list (nat * Check * CheckRecord) * nat) rec =>
      if bool_decide ((rec_ID rec : string) ∈ catalogued) then s
      else (s.1 ++ [(S s.2, mkCheck "" "(uncatalogued)" "" [] "" "", rec)], S s.2)) records (rows, position)).1
    = map snd rows ++ List.filter (fun rec => negb (bool_decide ((rec_ID rec : string) ∈ catalogued))) records)
    as H; [|apply (H [])].
  revert position. induction records as [|r l IH]; intros position rows; simpl; [by rewrite app_nil_r|].
  case_bool_decide; simpl; rewrite IH; [done|]. rewrite map_app. simpl. by rewrite <-app_assoc.
Qed.

(** The table and the counts of the report agree: over the reconciled records, the table
    has one row per record, in the order of the records, the rows of selected checks first;
    and the totals printed below it are the numbers of its rows, of those that failed and
    of those that were not reached. *)
Lemma report_table_agrees selected recorded strict :
  let records := Reconcile selected recorded in
  let rows := map snd (report_rows selected records) in
  let result := Summarize selected records strict in
  rows = records
  /\ sm_Total result = Z.of_nat (length rows)
  /\ sm_Failed result = num failed rows
  /\ sm_NotReached result = num not_reached rows.
Proof.
  cbv zeta.
  assert (map snd (report_rows selected (Reconcile selected recorded)) = Reconcile selected recorded) as ->.
  { destruct (Reconcile_split selected recorded) as (f & extras & -> & Hid & Hf & Hex).
    unfold report_rows. rewrite map_app, other_rows_filter, (selected_rows_all _ f).
    - f_equal. rewrite List.filter_app, (List.filter_ext_in _ (fun _ => false) (map f selected)).
      + rewrite (List.filter_ext_in _ (fun _ => true) extras).
        * rewrite List.filter_true. by induction (map f selected).
        * intros r Hr%list_elem_of_In. rewrite bool_decide_false; [done|].
          rewrite elem_of_list_to_set. by apply Hex.
      + intros r (c & <- & Hc)%in_map_iff. rewrite bool_decide_true; [done|].
        rewrite elem_of_list_to_set, Hid. apply list_elem_of_In, in_map. done.
    - intros c Hc. apply record_index_lookup; [|by rewrite Hid|].
      + apply elem_of_app. left. apply list_elem_of_In, in_map. by apply list_elem_of_In.
      + intros r [Hr|Hr]%elem_of_app Hrid.
        * apply list_elem_of_In, in_map_iff in Hr as (d & <- & _). apply Hf. by rewrite <-Hrid, Hid.
        * destruct (Hex r Hr). rewrite Hrid. apply list_elem_of_In, in_map. by apply list_elem_of_In. }
  split; [done|]. generalize (Reconcile selected recorded) as records. intros records.
  unfold Summarize. simpl app.
  pose proof (count_fold_ok strict records "" (Z.of_nat (length records)) records) as [Hf Hn _ _ _].
  pose proof (count_fold_total records (mkCounting (mkSummary "" 0 0 0 (Z.of_nat (length records)) strict 0 0 records) ∅ ∅)) as Ht.
  set (c := fold_left count_record records _) in *.
  destruct (fold_left (check_entry (cn_byID c)) selected (0, false)) as [missing incoherent].
  destruct (cn_summary c) as [v d n f t s u mf rs]. simpl in *. auto.
Qed.

(** The report shows why a run ended as it did: over the reconciled records its table has
    one row per record, in their order; the totals printed below it are the numbers of its
    rows, of those that failed and of those that were not reached; and the verdict is a
    failure exactly when a row failed or the report prints a finding about the catalogue. *)
Theorem report_explains selected recorded strict :
  let records := Reconcile selected recorded in
  let rows := map snd (report_rows selected records) in
  let result := Summarize selected records strict in
  rows = records
  /\ sm_Total result = Z.of_nat (length rows)
  /\ sm_Failed result = num failed rows
  /\ sm_NotReached result = num not_reached rows
  /\ (sm_Verdict result = VerdictFailed <->
        (exists r, r ∈ rows /\ rec_State r = StateFailed) \/ coherenceFindings selected records <> []).
Proof.
  cbv zeta. destruct (report_table_agrees selected recorded strict) as (Hrows & Ht & Hf & Hn).
  split_and!; [done..|]. rewrite Hrows. apply findings_explain.
Qed.
