(* ===== verification/Evidence.v ===== *)
(** * The machine-readable record of a run (test/e2e/report/evidence.go)

    The state of the record, the operations on it, and its rendering as one log record that
    goes through the sanitizing handler of [Log]. Every operation holds the mutex from
    start to end. The JSON handler behind the sanitizing one is library I/O. *)

From S2P Require Import Prelude GoStrings GoErrors Runtime GoTime Log Catalogue Outcome ReportMask Report.

Local Open Scope stdpp_scope.
Local Open Scope Z_scope.

(** ** State and operations *)

Record EvidenceRecord := mkEvidence {
  ev_header : ReportHeader; ev_guest : GuestInfo; ev_clauses : list CheckRecord;
  ev_observations : gmap string string }.

Definition NewEvidence (h : ReportHeader) : EvidenceRecord :=
  mkEvidence h (mkGuestInfo "" "" "" "" "") [] ∅.

Definition DescribeGuest (e : EvidenceRecord) (g : GuestInfo) : EvidenceRecord :=
  mkEvidence (ev_header e) g (ev_clauses e) (ev_observations e).

Definition Observe (e : EvidenceRecord) (name value : string) : EvidenceRecord :=
  mkEvidence (ev_header e) (ev_guest e) (ev_clauses e) (<[name := value]> (ev_observations e)).

(** The method Record. *)
Definition RecordClause (e : EvidenceRecord) (r : CheckRecord) : EvidenceRecord :=
  mkEvidence (ev_header e) (ev_guest e) (ev_clauses e ++ [r]) (ev_observations e).

(** The method Replace, with its copy of the slice. *)
Definition ReplaceClauses (e : EvidenceRecord) (records : list CheckRecord) : EvidenceRecord :=
  mkEvidence (ev_header e) (ev_guest e) ([] ++ records) (ev_observations e).

(** The method Records, with its copy of the slice. *)
Definition Records (e : EvidenceRecord) : list CheckRecord := [] ++ ev_clauses e.

(** The keys of a map in the order of sort.Strings. *)
Definition keys_in_order {A} (m : gmap string A) : list string :=
  merge_sort String.le (map fst (map_to_list m)).

Definition ObservedPairs (e : EvidenceRecord) : list NameValue :=
  map (fun key => mkNameValue key (default "" (ev_observations e !! key))) (keys_in_order (ev_observations e)).

(** ** Attributes of package log/slog *)

Definition slog_String (key value : string) : Attr := (key, StringValue value).
Definition slog_Int (key : string) (value : Z) : Attr := (key, OtherValue (itoa value)).
Definition slog_Bool (key : string) (value : bool) : Attr := (key, OtherValue (Sprint_bool value)).

(** slog.Group. *)
Definition slog_Group (key : string) (attrs : list Attr) : Attr := (key, group_value attrs).

(** ** Render *)

Definition clause_attr (index : gmap string Check) (clause : CheckRecord) : Attr :=
  slog_Group (rec_ID clause)
    ([slog_String "state" (rec_State clause);
      slog_Int "elapsed_ms" (Z.quot (rec_Elapsed clause) Millisecond)]
     ++ match index !! (rec_ID clause : string) with
        | None => []
        | Some entry =>
            [slog_String "scenario" (ck_Group entry); slog_String "reachable" (ck_Tier entry);
             slog_String "statement" (ck_Statement entry)]
            ++ (if negb (bool_decide (ck_ProofRoute entry = ""))
                then [slog_String "proof_route" (ck_ProofRoute entry)] else [])
        end
     ++ (if negb (bool_decide (rec_Reason clause = ReasonNone))
         then [slog_String "reason" (rec_Reason clause)] else [])
     ++ (if negb (bool_decide (rec_Detail clause = ""))
         then [slog_String "detail" (rec_Detail clause)] else [])).

(** The record before the handler; [now] is its time. *)
Definition evidence_record (now : Z) (e : EvidenceRecord) (selected : list Check) (result : Summary) : Record_ :=
  let index := indexChecks selected in
  let clauseAttrs := map (clause_attr index) (ev_clauses e) in
  let reasonCounts := reason_counts (ev_clauses e) in
  let observationAttrs :=
    map (fun key => slog_String key (default "" (ev_observations e !! key))) (keys_in_order (ev_observations e)) in
  let reasonAttrs :=
    map (fun reason => slog_Int reason (tally_of reasonCounts reason)) (keys_in_order reasonCounts) in
  let h := ev_header e in
  let g := ev_guest e in
  AddAttrs (Log.mkRecord now LevelInfo "End-to-end run evidence" 0 [])
      [slog_String "run_id" (rh_RunID h);
       slog_String "approved_project_id" (rh_ProjectID h);
       slog_Group "build"
         [slog_String "asset" (rh_ToolBuild h); slog_String "driver" (rh_DriverBuild h);
          slog_Bool "agree" (rh_BuildsAgree h)];
       slog_Group "run"
         [slog_String "profile" (rh_Profile h); slog_Bool "strict" (rh_Strict h);
          slog_String "time_budget" (Duration_String (rh_TimeBudget h));
          slog_String "region" (rh_Region h); slog_String "volume_type" (rh_VolumeType h)];
       slog_Group "guest"
         [slog_String "kernel" (gi_Kernel g); slog_String "udev" (gi_Udev g);
          slog_String "blkid" (gi_Blkid g); slog_String "mkfs_ext4" (gi_MkfsExt4 g);
          slog_String "mkfs_xfs" (gi_MkfsXfs g)];
       slog_Group "summary"
         [slog_Int "total" (sm_Total result); slog_Int "demonstrated" (sm_Demonstrated result);
          slog_Int "failed" (sm_Failed result); slog_Int "not_reached" (sm_NotReached result);
          slog_Group "not_reached_because" reasonAttrs;
          slog_String "verdict" (sm_Verdict result); slog_Int "exit" (ExitCode result)];
       slog_Group "clauses" clauseAttrs;
       slog_Group "observations" observationAttrs].

(** What the JSON handler is given. *)
Definition Render (now : Z) (e : EvidenceRecord) (selected : list Check) (result : Summary) : Record_ :=
  Handle (evidence_record now e selected result).

(** ** Facts *)

Lemma keys_in_order_spec {A} (m : gmap string A) :
  StronglySorted String.le (keys_in_order m) /\ NoDup (keys_in_order m)
  /\ forall k, k ∈ keys_in_order m <-> is_Some (m !! k).
Proof.
  unfold keys_in_order. split; [apply StronglySorted_merge_sort; apply _|]. split.
  - rewrite merge_sort_Permutation. apply NoDup_fst_map_to_list.
  - intros k. rewrite merge_sort_Permutation, list_elem_of_In, in_map_iff. split.
    + intros ((k' & v) & <- & H%list_elem_of_In%elem_of_map_to_list). eauto.
    + intros [v Hv]. exists (k, v). split; [done|]. by apply list_elem_of_In, elem_of_map_to_list.
Qed.

(** The observed pairs are the observations, each once, sorted by name. *)
Lemma ObservedPairs_spec e :
  StronglySorted String.le (map nv_Name (ObservedPairs e)) /\ NoDup (map nv_Name (ObservedPairs e))
  /\ forall n v, mkNameValue n v ∈ ObservedPairs e <-> ev_observations e !! n = Some v.
Proof.
  destruct (keys_in_order_spec (ev_observations e)) as (Hs & Hn & Hk).
  assert (map nv_Name (ObservedPairs e) = keys_in_order (ev_observations e)) as ->.
  { unfold ObservedPairs. rewrite map_map. apply map_id. }
  split; [done|]. split; [done|]. intros n v. unfold ObservedPairs. rewrite list_elem_of_In, in_map_iff. split.
  - intros (k & [= <- <-] & Hin%list_elem_of_In). apply Hk in Hin as [x ->]. done.
  - intros Hv. exists n. split; [by rewrite Hv|]. apply list_elem_of_In, Hk. eauto.
Qed.

Lemma RedactAttr_group key l :
  IsSensitiveKey key = false -> RedactAttr (key, GroupValue l) = (key, group_value (map RedactAttr l)).
Proof. intros H. unfold RedactAttr. cbn [fst snd]. by rewrite H. Qed.

(** Attributes that stay, before and after redaction. *)
Definition solid (a : Attr) : Prop := kept_attr a = true /\ kept_attr (RedactAttr a) = true.

Lemma kept_solid l : Forall solid l ->
  List.filter kept_attr l = l /\ List.filter kept_attr (map RedactAttr l) = map RedactAttr l.
Proof. induction 1 as [|a l [Ha Hr] _ [IH IH']]; simpl; [done|]. by rewrite Ha, Hr, IH, IH'. Qed.

Lemma solid_string key s : solid (slog_String key s).
Proof. split; [done|]. unfold RedactAttr. by destruct (IsSensitiveKey _). Qed.

Lemma solid_clauses index l : Forall solid (map (clause_attr index) l).
Proof.
  apply Forall_map, Forall_true. intros c. split; [done|]. unfold RedactAttr.
  by destruct (IsSensitiveKey _).
Qed.

Lemma solid_strings (f : string -> string) l : Forall solid (map (fun k => slog_String k (f k)) l).
Proof. apply Forall_map, Forall_true. intros k. apply solid_string. Qed.

(** A group of solid attributes reaches the JSON handler with its names, redacted. *)
Lemma rendered_group r key l :
  slog_Group key l ∈ r_attrs r -> IsSensitiveKey key = false -> l <> [] -> Forall solid l ->
  exists l', (key, GroupValue l') ∈ r_attrs (Handle r) /\ map fst l' = map fst l.
Proof.
  unfold slog_Group, group_value. intros Hin Hk Hne [Hl Hr]%kept_solid. rewrite Hl in Hin.
  exists (map RedactAttr l). split.
  - rewrite Handle_eq. apply list_elem_of_In, filter_In. split; [|by destruct l].
    apply in_map_iff. exists (key, GroupValue l). split; [|by apply list_elem_of_In].
    rewrite RedactAttr_group by done. unfold group_value. by rewrite Hr.
  - rewrite map_map. apply map_ext. apply RedactAttr_name.
Qed.

(** The emitted record tells everything and no credential: it holds no clear text; its
    clauses are those of the run, in order; and its observations are those made, each name
    once, in order. *)
Theorem evidence_complete now e selected result :
  Forall clean_attr (r_attrs (Render now e selected result))
  /\ (ev_clauses e <> [] -> exists l, ("clauses", GroupValue l) ∈ r_attrs (Render now e selected result)
        /\ map fst l = map rec_ID (ev_clauses e))
  /\ (ev_observations e <> ∅ -> exists l, ("observations", GroupValue l) ∈ r_attrs (Render now e selected result)
        /\ StronglySorted String.le (map fst l) /\ NoDup (map fst l)
        /\ forall k, k ∈ map fst l <-> is_Some (ev_observations e !! k)).
Proof.
  assert (forall key l, IsSensitiveKey key = false -> l <> [] -> Forall solid l ->
    slog_Group key l ∈ [slog_Group "clauses" (map (clause_attr (indexChecks selected)) (ev_clauses e));
      slog_Group "observations" (map (fun key => slog_String key (default "" (ev_observations e !! key)))
        (keys_in_order (ev_observations e)))] ->
    exists l', (key, GroupValue l') ∈ r_attrs (Render now e selected result) /\ map fst l' = map fst l) as Hgroup.
  { intros key l Hk Hne Hl Hin. apply rendered_group; [|done..].
    apply list_elem_of_In, filter_In. split; [apply list_elem_of_In; by do 6 apply list_elem_of_further|].
    unfold slog_Group, group_value. destruct (kept_solid l Hl) as [-> _]. by destruct l. }
  split; [|split].
  - unfold Render. rewrite Handle_eq. apply Forall_kept, clean_redacted.
  - intros Hne. destruct (Hgroup "clauses" (map (clause_attr (indexChecks selected)) (ev_clauses e)))
      as (l & Hl & Hnames); [by vm_compute|by destruct (ev_clauses e)|apply solid_clauses|by constructor|].
    exists l. split; [done|]. by rewrite Hnames, map_map.
  - intros Hne. destruct (keys_in_order_spec (ev_observations e)) as (Hs & Hn & Hk).
    set (f := fun key => default "" (ev_observations e !! key)) in *.
    assert (keys_in_order (ev_observations e) <> []) as Hkeys.
    { intros Hnil. apply Hne, map_eq. intros k. rewrite lookup_empty. apply eq_None_not_Some.
      rewrite <-Hk, Hnil. by intros ?%elem_of_nil. }
    destruct (Hgroup "observations" (map (fun k => slog_String k (f k)) (keys_in_order (ev_observations e))))
      as (l & Hl & Hnames); [by vm_compute|by destruct (keys_in_order _)|apply solid_strings|by do 2 constructor|].
    exists l. split; [done|]. by rewrite Hnames, map_map, map_id.
Qed.
