(* ===== verification/Outputs.v ===== *)
(** * The final outputs of a run (test/e2e/report/output.go)

    Choosing the destinations of the report and the evidence, rendering both in memory, and
    committing them. The file system and the destinations are the class [OutputHost]; the
    JSON handler and the containment check of the harness are parameters. *)

From S2P Require Import Prelude GoStrings GoErrors Runtime GoPath Log Catalogue Settings Outcome.
From S2P Require Import ReportMask Report Evidence.

Local Open Scope stdpp_scope.
Local Open Scope go_scope.

(** ** Data *)

Record FinalOutputs := mkFinalOutputs { fo_Report : string; fo_Evidence : string }.

Record OutputDestinations := mkOutputDestinations { od_ReportPath : string; od_EvidencePath : string }.

(** What is outside: the working directory, symbolic links, files and standard output. A file
    is known by the number open gave it; standard output is [None]. *)
Class OutputHost (E : Type) := {
  oh_Getwd : prim E (result string);
  oh_EvalSymlinks : string -> prim E (result string);
  oh_Lstat : string -> prim E (option gerror);
  oh_Open : string -> prim E (result nat);
  oh_Write : option nat -> string -> prim E (Z * option gerror);
  oh_Sync : nat -> prim E (option gerror);
  oh_Close : nat -> prim E (option gerror) }.

Inductive OutputCall :=
| OGetwd (r : result string)
| OEvalSymlinks (path : string) (r : result string)
| OLstat (path : string) (err : option gerror)
| OOpen (path : string) (r : result nat)
| OWrite (file : option nat) (content : string) (r : Z * option gerror)
| OSync (file : nat) (err : option gerror)
| OClose (file : nat) (err : option gerror).

Definition ErrShortWrite : sentinel := Sentinel "io.ErrShortWrite" "short write".

Section Outputs.
Context {E : Type} `{OutputHost E}.
Abbreviation op A := (M E OutputCall (result A)).

(** ** Destinations *)

(** filepath.Abs. *)
Definition Abs (path : string) : op string :=
  if IsAbs path then ret (Ok (Clean path)) else
  try! wd := call oh_Getwd OGetwd in
  ret (Ok (path_Join wd path)).

Definition resolveDestination (path : string) : op string :=
  try! abs := Abs path in
  let! r := call (oh_EvalSymlinks abs) (OEvalSymlinks abs) in
  match r with
  | Ok resolved => ret (Ok resolved)
  | Err err =>
      if negb (Is err ErrNotExist) then ret (Err err) else
      let! statErr := call (oh_Lstat abs) (OLstat abs) in
      match statErr with
      | None => ret (Err (ENew (abs +:+ " exists but does not resolve to a file")))
      | Some _ =>
          try! parent := call (oh_EvalSymlinks (Dir abs)) (OEvalSymlinks (Dir abs)) in
          ret (Ok (path_Join parent (Base abs)))
      end
  end.

Definition sameOutputPath (left right : string) : op bool :=
  try! leftResolved := resolveDestination left in
  try! rightResolved := resolveDestination right in
  ret (Ok (bool_decide (leftResolved = rightResolved))).

Definition ResolveOutputDestinations (set : Settings) (runID : string) : op OutputDestinations :=
  let evidence := if bool_decide (st_EvidencePath set = "") then "./conformance-" +:+ runID +:+ ".json"
                  else st_EvidencePath set in
  let destinations := mkOutputDestinations (st_ReportPath set) evidence in
  if bool_decide (st_ReportPath set = "") then ret (Ok destinations) else
  let! r := sameOutputPath (st_ReportPath set) evidence in
  match r with
  | Err err => ret (Err (wrapf "report and evidence destinations could not be told apart: " err))
  | Ok true => ret (Err (ENew "report and evidence destinations must be distinct"))
  | Ok false => ret (Ok destinations)
  end.

(** ** Commit *)

Definition writeComplete (w : option nat) (content : string) : M E OutputCall (option gerror) :=
  let! r := call (oh_Write w content) (OWrite w content) in
  match r with
  | (_, Some err) => ret (Some err)
  | (written, None) =>
      if negb (written =? Z.of_nat (String.length content))%Z then ret (Some (ESentinel ErrShortWrite))
      else ret None
  end.

(** The files of OpenOutput have a method Sync. *)
Definition writeOutputFile (path content : string) : M E OutputCall (option gerror) :=
  let! r := call (oh_Open path) (OOpen path) in
  match r with
  | Err err => ret (Some err)
  | Ok file =>
      let! writeErr := writeComplete (Some file) content in
      let! syncErr := match writeErr with
                      | None => call (oh_Sync file) (OSync file)
                      | Some _ => ret None
                      end in
      let! closeErr := call (oh_Close file) (OClose file) in
      ret (errors_Join [writeErr; syncErr; closeErr])
  end.

Definition wrap_failure (msg : string) (err : option gerror) : option gerror :=
  match err with Some err => Some (wrapf msg err) | None => None end.

(** With a nil open, which is how the harness calls it. *)
Definition CommitFinalOutputs (dest : OutputDestinations) (outputs : FinalOutputs) :
    M E OutputCall (option gerror) :=
  let! reportErr :=
    if bool_decide (od_ReportPath dest = "") then writeComplete None (fo_Report outputs)
    else writeOutputFile (od_ReportPath dest) (fo_Report outputs) in
  let! evidenceErr := writeOutputFile (od_EvidencePath dest) (fo_Evidence outputs) in
  ret (errors_Join [wrap_failure "write report: " reportErr; wrap_failure "write evidence: " evidenceErr]).
End Outputs.

(** ** Staging *)

Section Staging.
(** The JSON handler: its writes and its error for a record. *)
Variable JSON : Record_ -> list string * option gerror.
(** The harness's containment check, when it has one. *)
Variable contain : option (string -> list string -> option gerror).
(** When the evidence is rendered. *)
Variable now : Z.

(** [None] is a rendering that does not end. *)
Definition StageFinalOutputs (mask : option (string -> string)) (head : ReportHeader)
    (records : list CheckRecord) (selected : list Check) (result : Summary)
    (teardown finalization : list gerror) (observations : list NameValue) (elapsed : Z)
    (ev : option EvidenceRecord) : option (GoErrors.result FinalOutputs) :=
  let mask := match mask with Some mask => mask | None => fun line => line end in
  match ev with
  | None => Some (Err (ENew "evidence record is required"))
  | Some ev =>
      match renderMasked mask
              (WriteHeader head ++ WriteReport head selected records result teardown finalization
                 observations elapsed, None) with
      | None => None
      | Some (Err err) => Some (Err (wrapf "render report: " err))
      | Some (Ok report) =>
          match renderMasked mask (JSON (Render now ev selected result)) with
          | None => None
          | Some (Err err) => Some (Err (wrapf "render evidence: " err))
          | Some (Ok machine) =>
              match contain with
              | Some contain =>
                  match contain "complete report and evidence" [report; machine] with
                  | Some err => Some (Err err)
                  | None => Some (Ok (mkFinalOutputs report machine))
                  end
              | None => Some (Ok (mkFinalOutputs report machine))
              end
          end
      end
  end.
End Staging.

(** ** What a commit does *)

(** One artifact handed to a file, and whether all of it arrived: a file that was opened is
    written once and closed last, and it is synced when its content was written. *)
Inductive delivered (path content : string) : bool -> list OutputCall -> Prop :=
| not_opened err : delivered path content false [OOpen path (Err err)]
| not_written file n err cerr :
    err <> None \/ n <> Z.of_nat (String.length content) ->
    delivered path content false
      [OOpen path (Ok file); OWrite (Some file) content (n, err); OClose file cerr]
| written file serr cerr :
    delivered path content (bool_decide (serr = None /\ cerr = None))
      [OOpen path (Ok file); OWrite (Some file) content (Z.of_nat (String.length content), None);
       OSync file serr; OClose file cerr].

(** The same for standard output. *)
Definition printed (content : string) (ok : bool) (evs : list OutputCall) : Prop :=
  exists n err, evs = [OWrite None content (n, err)]
    /\ (ok = true <-> err = None /\ n = Z.of_nat (String.length content)).

Lemma Forall_nil_iff {A} (P : A -> Prop) : Forall P [] <-> True.
Proof. split; [done|constructor]. Qed.

Lemma errors_Join_None l : errors_Join l = None <-> Forall (fun e => e = None) l.
Proof.
  unfold errors_Join. induction l as [|[e|] l IH]; simpl.
  - split; [by constructor|done].
  - split; [done|]. by intros [? _]%Forall_cons_iff.
  - rewrite Forall_cons_iff, <-IH. split; [done|by intros [_ ?]].
Qed.

Section Commit.
Context {E : Type} `{OutputHost E}.

Lemma wp_writeComplete file content w :
  wp (writeComplete (E:=E) file content) (fun r evs _ => exists n err, evs = [OWrite file content (n, err)]
    /\ (r = None <-> err = None /\ n = Z.of_nat (String.length content))) w.
Proof.
  unfold writeComplete. wp_step. apply wp_call. intros [n [err|]] w1 _.
  - wp_step. exists n, (Some err). split; [done|]. split; [done|by intros [? _]].
  - destruct (Z.eqb_spec n (Z.of_nat (String.length content))); simpl; wp_step;
      exists n, None; (split; [done|]); split; [done|done|done|by intros [_ ?]].
Qed.

Lemma wp_writeOutputFile path content w :
  wp (writeOutputFile (E:=E) path content) (fun r evs _ => exists ok, delivered path content ok evs
    /\ (r = None <-> ok = true)) w.
Proof.
  unfold writeOutputFile. wp_step. apply wp_call. intros [file|err] w1 _.
  2: { wp_step. exists false. split; [constructor|done]. }
  wp_step. eapply wp_mono; [apply wp_writeComplete|]. intros werr evs w2 _ (n & err & -> & Hw).
  wp_step. destruct werr as [we|].
  - wp_step. wp_step. apply wp_call. intros cerr w3 _. wp_step. simpl. exists false. split; [|done].
    apply not_written. destruct err; [by left|]. right. intros ->.
    destruct Hw as [_ Hw]. discriminate (Hw (conj eq_refl eq_refl)).
  - destruct Hw as [[-> ->] _]; [done|]. apply wp_call. intros serr w3 _. wp_step. apply wp_call.
    intros cerr w4 _. wp_step. simpl. exists (bool_decide (serr = None /\ cerr = None)).
    split; [constructor|]. rewrite errors_Join_None, !Forall_cons_iff, Forall_nil_iff, bool_decide_eq_true. tauto.
Qed.

(** A commit tries both artifacts, whatever becomes of the first, and hides nothing: the
    report goes to its file or to standard output and then the evidence to its file; an
    opened file is written once, synced if all was written, and closed; and the commit
    succeeds exactly when both artifacts arrived completely. *)
Theorem commit_delivers dest outputs w :
  runs (CommitFinalOutputs (E:=E) dest outputs) w (fun r evs =>
    exists a b evs1 evs2, evs = evs1 ++ evs2
      /\ (if bool_decide (od_ReportPath dest = "") then printed (fo_Report outputs) a evs1
          else delivered (od_ReportPath dest) (fo_Report outputs) a evs1)
      /\ delivered (od_EvidencePath dest) (fo_Evidence outputs) b evs2
      /\ (r = None <-> a = true /\ b = true)).
Proof.
  apply wp_runs. unfold CommitFinalOutputs. wp_step.
  assert (wp (if bool_decide (od_ReportPath dest = "") then writeComplete None (fo_Report outputs)
              else writeOutputFile (od_ReportPath dest) (fo_Report outputs))
    (fun r evs _ => exists a, (if bool_decide (od_ReportPath dest = "") then printed (fo_Report outputs) a evs
      else delivered (od_ReportPath dest) (fo_Report outputs) a evs) /\ (r = None <-> a = true)) w) as Hreport.
  { case_bool_decide; [|apply wp_writeOutputFile]. eapply wp_mono; [apply wp_writeComplete|].
    intros r evs w1 _ (n & err & -> & Hr). exists (bool_decide (r = None)). rewrite bool_decide_eq_true.
    split; [|done]. exists n, err. by rewrite bool_decide_eq_true. }
  eapply wp_mono; [exact Hreport|]. intros r1 evs1 w1 _ (a & Ha & Hr1). wp_step.
  eapply wp_mono; [apply wp_writeOutputFile|]. intros r2 evs2 w2 _ (b & Hb & Hr2). wp_step.
  exists a, b, evs1, evs2. split; [done|]. split; [exact Ha|]. split; [exact Hb|].
  rewrite errors_Join_None, !Forall_cons_iff, Forall_nil_iff, <-Hr1, <-Hr2. destruct r1, r2; simpl; naive_solver.
Qed.
End Commit.

(** ** What a run hands out *)

(** C39. No credential of the run is in what it hands out: staging always ends, and when it
    yields a report and an evidence record, the report is the printed one masked line by
    line and no maskable credential occurs in either, whatever the checks, the failures and
    the observed values held. *)
Theorem staged_no_secret JSON contain now secrets head records selected result teardown finalization
    observations elapsed ev :
  exists r, StageFinalOutputs JSON contain now (Some (ExactMask secrets)) head records selected result teardown
      finalization observations elapsed ev = Some r
    /\ forall out, r = Ok out ->
         fo_Report out = concat_strings (map (ExactMask secrets) (lines_of (concat_strings
           (WriteHeader head ++ WriteReport head selected records result teardown finalization
              observations elapsed))))
         /\ forall s, s ∈ secrets -> maskable s = true ->
              ~ occurs s (fo_Report out) /\ ~ occurs s (fo_Evidence out).
Proof.
  unfold StageFinalOutputs. destruct ev as [ev|]; [|by eexists].
  destruct (renderMasked_spec secrets (WriteHeader head ++ WriteReport head selected records result teardown
    finalization observations elapsed) None) as (r & -> & Hr & _ & Hs). rewrite (Hr eq_refl).
  destruct (JSON (Render now ev selected result)) as [chunks err].
  destruct (renderMasked_spec secrets chunks err) as (r' & -> & _ & _ & Hs').
  destruct r' as [machine|e]; [|by eexists].
  assert (forall s, s ∈ secrets -> maskable s = true -> ~ occurs s (concat_strings (map (ExactMask secrets)
    (lines_of (concat_strings (WriteHeader head ++ WriteReport head selected records result teardown
       finalization observations elapsed))))) /\ ~ occurs s machine) as Hclean.
  { intros s Hin Hm. split; [by apply (Hs _ s (Hr eq_refl))|by apply (Hs' _ s eq_refl)]. }
  destruct contain as [contain|]; [destruct (contain _ _); [by eexists|]|];
    (eexists; split; [done|]; intros out [= <-]; split; [done|exact Hclean]).
Qed.

(** ** Which destinations are accepted *)

Definition absolute (path abs : string) (evs : list OutputCall) : Prop :=
  IsAbs path = true /\ abs = Clean path /\ evs = []
  \/ exists wd, IsAbs path = false /\ abs = path_Join wd path /\ evs = [OGetwd (Ok wd)].

(** How a destination was canonicalized: through its own links, or, when it does not exist and
    nothing lies there, through those of its directory. *)
Inductive resolution (path : string) : string -> list OutputCall -> Prop :=
| resolved_file abs evs r :
    absolute path abs evs -> resolution path r (evs ++ [OEvalSymlinks abs (Ok r)])
| resolved_parent abs evs err lerr parent :
    absolute path abs evs -> Is err ErrNotExist = true ->
    resolution path (path_Join parent (Base abs))
      (evs ++ [OEvalSymlinks abs (Err err); OLstat abs (Some lerr); OEvalSymlinks (Dir abs) (Ok parent)]).

Section Destinations.
Context {E : Type} `{OutputHost E}.

Lemma wp_resolveDestination path w :
  wp (resolveDestination (E:=E) path) (fun r evs _ => forall p, r = Ok p -> resolution path p evs) w.
Proof.
  unfold resolveDestination. apply wp_try.
  assert (wp (Abs (E:=E) path) (fun r evs _ => forall abs, r = Ok abs -> absolute path abs evs) w) as Habs.
  { unfold Abs. destruct (IsAbs path) eqn:Ea; [wp_step; intros abs [= <-]; by left|].
    wp_step. apply wp_call. intros [wd|e] w1 _; [|done]. wp_step. intros abs [= <-]. right. by exists wd. }
  eapply wp_mono; [exact Habs|]. intros [abs|e] evs w1 _ Ha; [|done]. specialize (Ha abs eq_refl).
  wp_step. apply wp_call. intros [r|err] w2 _; [wp_step; intros p [= <-]; by constructor|].
  destruct (Is err ErrNotExist) eqn:Ei; simpl; [|by wp_step].
  wp_step. apply wp_call. intros [lerr|] w3 _; [|by wp_step].
  wp_step. apply wp_call. intros [parent|e] w4 _; [|done]. wp_step. intros p [= <-].
  by apply resolved_parent.
Qed.

(** The evidence always has a destination, and a report in a file is accepted only when the
    two destinations were resolved to different files. *)
Theorem destinations_distinct set runID w :
  runs (ResolveOutputDestinations (E:=E) set runID) w (fun r evs => forall d, r = Ok d ->
    od_ReportPath d = st_ReportPath set /\ od_EvidencePath d <> ""
    /\ (od_ReportPath d = "" \/ exists p1 p2 evs1 evs2, evs = evs1 ++ evs2 /\ p1 <> p2
          /\ resolution (od_ReportPath d) p1 evs1 /\ resolution (od_EvidencePath d) p2 evs2)).
Proof.
  apply wp_runs. unfold ResolveOutputDestinations.
  set (evidence := if bool_decide (st_EvidencePath set = "") then _ else _).
  assert (evidence <> "") as Hne by (unfold evidence; by case_bool_decide).
  case_bool_decide as Hreport; [wp_step; intros d [= <-]; simpl; auto|].
  wp_step. unfold sameOutputPath. apply wp_try.
  eapply wp_mono; [apply wp_resolveDestination|]. intros [p1|e] evs1 w1 _ H1; [|by wp_step].
  apply wp_try. eapply wp_mono; [apply wp_resolveDestination|]. intros [p2|e] evs2 w2 _ H2; [|by wp_step].
  wp_step. case_bool_decide as Heq; wp_step; intros d [= <-]. simpl. split; [done|]. split; [done|]. right.
  exists p1, p2, evs1, evs2. auto.
Qed.
End Destinations.
