(* ===== verification/Harness.v ===== *)
(** * The end-to-end asset's hold on the driver (test/e2e/process.go, service_client.go)

    Stopping the driver process the asset started, and binding the SDK's requests to the
    context of a check. *)

From S2P Require Import Prelude GoStrings GoErrors GoURL Runtime EvsClient EvsTransport.

Local Open Scope stdpp_scope.
Local Open Scope go_scope.

(** ** Processes *)

Definition driverStopTimeout : Z := 30 * Second.
Definition processReapTimeout : Z := 2 * Second.

Definition errProcessUnreaped : sentinel :=
  Sentinel "e2e.errProcessUnreaped" "process did not exit after kill".
Definition ErrProcessDone : sentinel := Sentinel "os.ErrProcessDone" "os: process already finished".
Definition ESRCH : sentinel := Sentinel "syscall.ESRCH" "no such process".

(** A started child: signalling it, killing it, and when its Wait returns what, as far as
    the signals it got until now decide. *)
Class ChildProcess (E : Type) := {
  cp_Signal : prim E (option gerror);
  cp_Kill : prim E (option gerror);
  cp_Wait : E -> option (Z * option gerror);
  cp_scheduler :: Scheduler E }.

Inductive ProcessCall := PSignal (err : option gerror) | PKill (err : option gerror).

Section Processes.
Context {E : Type} `{ChildProcess E}.
Abbreviation op A := (M E ProcessCall A).

(** [select { case err := <-done: ...; case <-other: ... }], where the other case is ready
    from the instant [d] on, if ever. *)
Definition select_wait (d : option Z) : op (option (option gerror)) := fun w =>
  let at_ t e := mkWorld (Z.max (clock w) t) e (trace w) in
  match cp_Wait (env w), d with
  | None, None => None
  | Some (u, err), None => Some (Some err, at_ u (env w))
  | None, Some d => Some (None, at_ d (env w))
  | Some (u, err), Some d =>
      if (Z.max (clock w) u <? Z.max (clock w) d)%Z then Some (Some err, at_ u (env w))
      else if (Z.max (clock w) d <? Z.max (clock w) u)%Z then Some (None, at_ d (env w))
      else let '(b, e') := choose (env w) in Some (if b then Some err else None, at_ u e')
  end.

Definition processAlreadyGone (err : gerror) : bool := Is err ErrProcessDone || Is err ESRCH.

Definition reapProcess : op (option gerror) :=
  let! t := now in
  let! o := select_wait (Some (t + processReapTimeout)%Z) in
  ret (match o with Some err => err | None => Some (ESentinel errProcessUnreaped) end).

Definition unreapedOnly (err : option gerror) : option gerror :=
  match err with
  | Some e => if Is e errProcessUnreaped then Some e else None
  | None => None
  end.

Definition kill : op (option gerror) := call cp_Kill PKill.

(** Killing with what is reported of it. *)
Definition kill_and_reap (cause : option gerror) : op (option gerror) :=
  let! killErr := kill in
  let! reaped := reapProcess in
  ret (errors_Join [cause; killErr; unreapedOnly reaped]).

(** [started] is false when there is no command or no process. *)
Definition stopProcess (ctx : GoContext) (started : bool) : op (option gerror) :=
  if negb started then ret None else
  let! e := ctx_err ctx in
  match e with
  | Some err => kill_and_reap (Some err)
  | None =>
      let! e := call cp_Signal PSignal in
      match e with
      | Some err =>
          let! waitErr := reapProcess in
          ret (match unreapedOnly waitErr with
               | Some waitErr =>
                   if processAlreadyGone err then Some waitErr else Some (wrapf "signal process: " err)
               | None => None
               end)
      | None =>
          with_timeout ctx driverStopTimeout (fun shutdownCtx =>
          let! o := select_wait (done_at shutdownCtx) in
          match o with
          | Some _ => ret None
          | None =>
              let! e := ctx_err shutdownCtx in
              kill_and_reap e
          end)
      end
  end.

(** ** Facts *)

(** A wait with a limit ends. *)
Lemma wp_select_wait d (Q : option (option gerror) -> list ProcessCall -> World E ProcessCall -> Prop) w :
  (forall o w', (clock w <= clock w')%Z -> (o = None -> (d <= clock w')%Z) ->
     (clock w' <= Z.max (clock w) d)%Z -> Q o [] w') ->
  wp (select_wait (Some d)) Q w.
Proof.
  intros HQ. unfold wp, select_wait. destruct (cp_Wait (env w)) as [[u err]|].
  - destruct (Z.ltb_spec (Z.max (clock w) u) (Z.max (clock w) d)); [|destruct (Z.ltb_spec
      (Z.max (clock w) d) (Z.max (clock w) u)); [|destruct (choose (env w)) as [b e']]];
      (eexists _, _, []; rewrite app_nil_r; split_and!; [done|done|simpl; lia|]; apply HQ; simpl;
       try done; intros; lia).
  - eexists _, _, []. rewrite app_nil_r. split_and!; [done|done|simpl; lia|]. apply HQ; simpl; lia.
Qed.

Lemma wp_kill_and_reap cause w :
  wp (kill_and_reap cause) (fun r evs _ => exists k reaped, evs = [PKill k]
    /\ r = errors_Join [cause; k; unreapedOnly reaped]) w.
Proof.
  unfold kill_and_reap. wp_step. apply wp_call. intros k w1 _. unfold reapProcess. do 4 wp_step.
  apply wp_select_wait. intros o w2 _ _ _. do 2 wp_step. by eexists _, _.
Qed.
End Processes.

(** stopProcess returns, whatever the child does. It signals once at most, and kills only a
    child whose time is up: at once when the caller's context has ended, or after a
    delivered signal. It reports success only when there was nothing to stop or the child
    was waited for, and never hides an end of the context. *)
Theorem stopProcess_ends {E} `{ChildProcess E} ctx started w :
  runs (stopProcess ctx started) w (fun r evs =>
    (started = false /\ evs = [] /\ r = None)
    \/ (exists k, evs = [PKill k] /\ is_Some (ctx_err_at ctx (clock w)) /\ r <> None)
    \/ (exists s, evs = [PSignal (Some s)])
    \/ evs = [PSignal None] /\ r = None
    \/ exists k, evs = [PSignal None; PKill k] /\ r <> None).
Proof.
  assert (forall e k reaped, errors_Join [Some e; k; reaped] <> None) as Hjoin.
  { intros e k reaped. unfold errors_Join. by destruct k, reaped. }
  apply wp_runs. unfold stopProcess. destruct started; cbn [negb]; [|wp_step; by left].
  do 2 wp_step. destruct (ctx_err_at ctx (clock w)) as [e|] eqn:Ee.
  { eapply wp_mono; [apply wp_kill_and_reap|]. intros r evs w1 _ (k & reaped & -> & ->).
    right; left. exists k. split_and!; [done|by eexists|apply Hjoin]. }
  wp_step. apply wp_call. intros [s|] w1 _.
  - unfold reapProcess. do 4 wp_step. apply wp_select_wait. intros o w2 _ _ _. do 2 wp_step.
    right; right; left. by exists s.
  - wp_step. destruct (done_at_WithDeadline ctx (clock w1 + driverStopTimeout)) as (d & Hd & _).
    rewrite Hd. wp_step. apply wp_select_wait. intros [o|] w2 _ Hlate _.
    { wp_step. do 3 right. by left. }
    do 2 wp_step. rewrite (ctx_err_at_done _ _ _ Hd (Hlate eq_refl)).
    eapply wp_mono; [apply wp_kill_and_reap|]. intros r evs w3 _ (k & reaped & -> & ->).
    do 4 right. exists k. split; [done|apply Hjoin].
Qed.

(** ** Service clients *)

(** requestContextTransport.RoundTrip. The transport is a constructor of RoundTripper, whose
    round trip is this one (bound_RoundTrip). *)
Definition bound_round_trip {E} `{HTTP E} (ctx : GoContext) (next : option RoundTripper)
    (req : Request) : M E Sent (result Response) :=
  RoundTrip (default DefaultTransport next) (Clone req ctx).

Definition serviceClientWithContext (ctx : GoContext) (client : option ServiceClient) :
    option ServiceClient :=
  match client with
  | None => None
  | Some c =>
      match sc_provider c with
      | None => client
      | Some provider =>
          Some (mkService
            (Some (set_transport provider (Some (requestContextTransport ctx (Transport provider)))))
            (Endpoint c) (ResourceBase c))
      end
  end.

(** A round trip through the bound client carries the context of the check, and is else the
    round trip of the client that was bound, net/http's default transport for none. *)
Theorem bound_RoundTrip {E} `{HTTP E} ctx next req :
  RoundTrip (requestContextTransport ctx next) req = bound_round_trip ctx next req.
Proof. by destruct next. Qed.
